(* ===== verification/_CoqProject ===== *)
-Q . S2P
Prelude.v
StdSet.v
Util.v
Timer.v
Endian.v
Text.v
Address.v
Fiber.v
Scheduler.v
SchedulerMT.v
IOManager.v
FdManager.v
Hook.v
LogFormat.v
Logger.v
Yaml.v
Config.v
LogConfig.v
Thread.v
Interleave.v
Singleton.v
LogThreads.v
ConfigThreads.v
Alarms.v
Blocking.v
Pieces.v
Startup.v
