(* ===== verification/Prelude.v ===== *)
(** * Formal model of the sylar coroutine and network library

    The repository is a C++11 library of coroutines ("fibers") for network
    servers: src/sylar/ holds the library, src/tests/ programs that print.  This
    development models the library file by file and proves what its parts
    promise to each other; where the code does not keep a promise, a theorem
    says what it does instead.

    ** The parts and how they interact

    A [Scheduler] runs callbacks and [Fiber]s from a queue on several [Thread]s.
    [IOManager] is a scheduler whose idle fiber waits in epoll for descriptors
    and for the next timer of its [TimerManager].  The system calls are hooked:
    a call that would block makes the running fiber the waiter of an event,
    arms a timer for the timeout and yields; [FdManager] remembers what a
    descriptor is.  Addresses and byte order are plain data.  [Logger]s, their
    appenders and formatters are configured by the variable "logs" of [Config],
    whose listener rebuilds them.

    ** The files

    - Prelude: faults and the result type of calls ([res]; [FAssert] is
      SYLAR_ASSERT of macro.h), machine integers, tactics, shared lemmas.
      StdSet: std::set over a comparator.  Text: strings and numerals.  Yaml:
      YAML::Node.
    - Util (util.cc): clocks, backtraces.
    - Timer (timer.h, timer.cc): [Timer] objects in a heap, [manager] for
      TimerManager; addTimer, addConditionTimer, cancel, refresh, reset,
      getNextTimer, listExpiredCb, detectClockRollover.
    - Endian (endian.h) and Address (address.h, address.cc): the byte swaps; the
      four address classes over their memory, their text, order, prefixes,
      creation and lookup.
    - Fiber (fiber.h, fiber.cc): fiber objects, the thread-local pointers,
      contexts; swapIn, swapOut, call, back, the yields, MainFunc.
    - Scheduler (scheduler.h, scheduler.cc): the queue and Scheduler::run on one
      thread, from the constructor to stop; SchedulerMT: the same loop as a step
      relation of many threads.
    - IOManager (iomanager.h, iomanager.cc): contexts of the descriptors,
      addEvent, delEvent, cancelEvent, cancelAll, idle, the constructor and what
      the destructor frees, over the scheduler of Scheduler and the timers of
      Timer.
    - FdManager (fd_manager.h, fd_manager.cc) and Hook (hook.cc): descriptor
      contexts, and the hooked calls over FdManager and IOManager.
    - Alarms: where the callback of a timer is kept, in the manager or handed
      out, and that no operation of Timer loses or doubles it.  Blocking: the
      fibers of an IO manager that make hooked calls or sleep, as a step
      relation that composes Hook, IOManager, Timer and the queue of Scheduler.
      Pieces: the same with every call of hook.cc cut where another thread can
      come between (the real call, the timer, the three locked sections of
      addEvent, the two statements of the yield, the cancelling of the timer, the
      look at timer_info), and the callbacks of timers in the hands of threads.
    - LogFormat, Logger, LogConfig (log.h, log.cc): the pattern language and
      the events; loggers, appenders, LoggerManager, the statements of the
      macros; the variable "logs".
    - Config (config.h, config.cc): casts of the containers, variables and
      their listeners, the registry, loading a YAML document.  Startup: the
      three variables the library itself has (static objects of log.cc, hook.cc,
      fiber.cc) with their listeners, over Config, LogConfig, Logger and Hook;
      and the pointers to the real system calls (hook_init of hook.cc).
    - Thread (thread.h, thread.cc): scoped locks and lock classes, semaphores,
      the life of Thread objects.
    - Interleave: threads that share data under locks of any class of Thread, as
      lists of instructions (take a lock, leave it, act) that interleave, and
      what the locking discipline of a component ([DisciplineLaws]) gives: no act
      fails, no deadlock, every run ends, a thread alone runs as if there were no
      locks.  LogThreads: the operations of Logger cut at the mutexes of the
      manager, of the loggers and of the appenders.  ConfigThreads: the
      operations of Config cut at the read-write locks of the registry and of the
      variables, with listeners that call further variables.
    - Singleton (singleton.h): the static local of GetInstance on several
      threads.

    State is passed explicitly.  Shared objects (what the code holds by pointer
    or shared_ptr) are in heaps, finite maps from addresses; a dangling or null
    dereference, an index out of range and the other uses without meaning are
    the fault [FUB], a failed assertion [FAssert], an exception [FThrow].
    Unsigned integers are reduced modulo their width where the code can leave
    it.  The current time, allocated addresses and results of system calls are
    arguments.

    ** What is proved

    - Invariants under every sequence of calls: the timer manager
      (manager_safe), fibers of a worker thread (fiber_protocol), the IO manager
      against the kernel's epoll (io_consistent), loggers (logger_safe), threads
      (threads_run), guards (scoped_locks_exclude).
    - Several threads: loggers and configuration under their locks never fail and
      never deadlock (logging_threads_safe, config_threads_safe), every call ends
      (logging_calls_end, config_calls_end), and the operations are those of the
      sequential files when they are not interrupted (logging_alone,
      config_alone); a singleton is made once, in one thread, and seen whole
      (instance_shared).  What the locks do not prevent: lines of a file lost
      (lines_lost), listeners told another value last than the variable keeps
      (stale_listener), a listener that waits for itself (listener_deadlock), a
      list of listeners cleared under a thread that walks it
      (clear_while_notifying), the key of another listener (wrong_key).
    - Refinement of abstract specifications: timers as a map of pending
      deadlines (listExpiredCb_refines, addTimer_refines, reset_refines), events
      as a map "who waits for what" (events_refine), lock classes against the
      interface [Lockable] the scoped locks use (lock_classes).
    - Scheduling: yielding is transparent (fiber_transparent), the run loop ends
      with nothing left (run_loop_drains), a scheduler of one thread runs what it
      was given once each, first in first out (caller_scheduler_runs_all), many
      threads never work on one fiber and stop only when all is done
      (exclusive_fibers, stopping_sound); early wake-ups break this
      (early_wakeup_races).
    - The hooked calls: equal to the real ones when not hooked (do_io_direct),
      wait and wake exactly once otherwise (do_io_waits, timeout_or_retry,
      connect_outcomes, close_releases, sleep_wakes), what the user sees of
      flags and timeouts (fcntl_user_view, setsockopt_timeout).
    - All together: over every interleaving of hooked calls, sleeps, rounds of
      idle, events, timeouts, closes and resumptions no wake-up of a blocked
      fiber is lost or given twice (wakeups_exact), a call whose descriptor
      becomes ready cancels its timer and returns the result of the real call
      (blocked_call_completes), and a fiber that sleeps gets up when its timer
      is due (sleeper_wakes).  The wake-ups stay exact when the threads interleave
      inside the calls (pieces_exact), short of four races that break the program
      (resize_race, early_wakeup_races and held_taken, listExpiredCb_race, a
      registration inside close); uninterrupted pieces are the calls of Hook
      (pieces_refine); a timer that fires before its call has registered is lost
      (lost_timeout).  The look into the vector of contexts and what follows it
      under the context's lock count as one step in cancelEvent, cancelAll and in
      what clients add, since contexts stay where they are (contexts_stay).
    - Logging and configuration: patterns are read as written
      (init_reads_pattern, init_irregular), events reach their appenders
      (log_delivers), a log statement prints its line (log_statement), the
      configuration is applied (logs_applied), texts read back (logs_roundtrip,
      dump_reads_back, container_casts, fromString_toString), documents load
      (LoadFromYaml_spec), and from the start of the program on the loggers and
      the connect timeout are what the documents loaded so far say
      (config_in_force).
    - Data: order, text and prefixes of addresses, network byte order, clock
      bounds, the timeout of epoll_wait.

    ** Bounds and fuel

    [LogFormat.parse] is given the length of the pattern, each round moves on
    (init_reads_pattern: it always ends).  [Logger.log_chain] follows the chain
    of root loggers at most as often as there are loggers; on every reachable
    state one step is enough (logger_safe).  [Scheduler.run_loop] takes fuel;
    run_loop_drains gives a bound from which it ends.  The EINTR loop of do_io
    takes fuel, enough as soon as it exceeds the interruptions that come
    (do_io_waits).  [Text.digits] has as many digits as 64 bits need.

    ** Not modelled, and why

    noncopyable.h and sylar.h have no behaviour of their own; socket.h declares a
    class whose source file is empty; src/tests/ and the files CMake generated are
    not part of the library. The texts the library logs about itself are not kept (a
    failed assertion is, and the messages of the two configuration listeners are);
    what Logger, LogFormatter and the listener of "logs" print on std::cout is, what
    the casts of log.cc print there of a definition they refuse is not.
    The other side of the system calls is an interface with documented laws: epoll,
    fstat and fcntl, pthread locks (a thread that locks what it holds is outside of
    the theorems, relock_not_excluded says why; read locks are taken not to run out
    of counts, [ReadLocksSuffice]), yaml-cpp's text format, strftime, getaddrinfo.
    User code is a parameter that cannot block. Data races on plain members (the
    level of a logger, m_lastTime of a file, the counter of the listeners' keys) are
    not undefined here, they are steps that interleave. In LogThreads the text of
    the dump is not put together, only its locks are taken; in ConfigThreads a
    listener acts on its environment in one turn, handles what the calls it makes
    throw and adds no listener, and clearListener, which takes no lock, is outside
    of config_threads_safe; what loggers and configuration log about themselves is
    in neither, so that the mutexes of the loggers and the locks of the
    configuration do not meet in one model (writing a line takes none of the
    latter). In Blocking a step is a whole call, in Pieces it is a piece of one;
    there a critical section of the IO manager or of the timers is one step,
    delEvent is not called by clients (it drops a waiter), and [errno] and the flag
    of the hooks, which belong to a thread, are read only in the piece of the call.
    The kernel forgets a closed descriptor when the hooks know it; one they have no
    context of is taken not to be in the epoll instance. In Startup the
    clock stands still while one document is loaded. *)

From Stdlib Require Export ZArith Lia.
From stdpp Require Export base gmap list strings fin_maps numbers sorting.

#[global] Open Scope Z_scope.

(** ** Faults: the ways a call can fail to return *)

(** [FAssert]: a [SYLAR_ASSERT] fails (the build does not define NDEBUG, so
    [assert] aborts).  [FUB]: the C++ standard gives the operation no meaning
    (out-of-range index, null or dangling dereference, [erase(end())], ...).
    [FThrow]: an exception leaves the function. *)
Inductive fault : Type :=
| FAssert (what : string)
| FUB (what : string)
| FThrow (what : string).

(** The result of a call: a value or a fault. *)
Inductive res (A : Type) : Type :=
| Ok (a : A)
| Err (f : fault).
Arguments Ok {A} a.
Arguments Err {A} f.

#[export] Instance res_ret : MRet res := fun A a => Ok a.
#[export] Instance res_bind : MBind res :=
  fun A B k m => match m with Ok a => k a | Err f => Err f end.
#[export] Instance res_fmap : FMap res :=
  fun A B g m => match m with Ok a => Ok (g a) | Err f => Err f end.

(** [SYLAR_ASSERT(x)]. *)
Definition sylar_assert (b : bool) (what : string) : res unit :=
  if b then Ok tt else Err (FAssert what).

(** Dereference of a possibly null pointer / possibly dangling reference. *)
Definition deref {A} (o : option A) (what : string) : res A :=
  match o with Some a => Ok a | None => Err (FUB what) end.

(** [r] returns normally. *)
Definition returns {A} (r : res A) : Prop := exists a, r = Ok a.

(** ** Machine integers

    An unsigned w-bit integer is the [Z] in [0, 2^w); arithmetic is reduced
    with [wrap]. *)
Definition wrap (w z : Z) : Z := z mod 2 ^ w.
Definition u8 (z : Z) : Z := wrap 8 z.
Definition u16 (z : Z) : Z := wrap 16 z.
Definition u32 (z : Z) : Z := wrap 32 z.
Definition u64 (z : Z) : Z := wrap 64 z.

(** Conversion to a two's complement [int] (32 bit). *)
Definition s32 (z : Z) : Z :=
  let m := z mod 2 ^ 32 in if m <? 2 ^ 31 then m else m - 2 ^ 32.

(** [~0ull], also [(uint64_t)-1]. *)
Definition U64_MAX : Z := 2 ^ 64 - 1.

(** Error numbers of Linux that several components use. *)
Definition EAGAIN : Z := 11.
Definition EDEADLK : Z := 35.

Definition is_u64 (z : Z) : Prop := 0 <= z < 2 ^ 64.
Definition is_u32 (z : Z) : Prop := 0 <= z < 2 ^ 32.
Definition is_u16 (z : Z) : Prop := 0 <= z < 2 ^ 16.
Definition is_u8 (z : Z) : Prop := 0 <= z < 2 ^ 8.

(** ** Automation *)

Create HintDb sylar.
Create Rewrite HintDb sylar.

(** Splits boolean tests of the code into the propositions they decide. *)
Ltac bdestr :=
  repeat match goal with
  | H : (_ && _) = true |- _ => apply andb_true_iff in H as [? ?]
  | H : (_ || _) = false |- _ => apply orb_false_iff in H as [? ?]
  | H : negb _ = true |- _ => apply negb_true_iff in H
  | H : negb _ = false |- _ => apply negb_false_iff in H
  | H : (_ =? _) = true |- _ => apply Z.eqb_eq in H
  | H : (_ =? _) = false |- _ => apply Z.eqb_neq in H
  | H : (_ <? _) = true |- _ => apply Z.ltb_lt in H
  | H : (_ <? _) = false |- _ => apply Z.ltb_ge in H
  | H : (_ <=? _) = true |- _ => apply Z.leb_le in H
  | H : (_ <=? _) = false |- _ => apply Z.leb_gt in H
  | H : (_ >? _) = true |- _ => rewrite Z.gtb_lt in H
  | H : (_ =? _)%nat = true |- _ => apply Nat.eqb_eq in H
  | H : (_ =? _)%nat = false |- _ => apply Nat.eqb_neq in H
  | H : (_ <? _)%nat = true |- _ => apply Nat.ltb_lt in H
  | H : (_ <? _)%nat = false |- _ => apply Nat.ltb_ge in H
  | H : bool_decide _ = true |- _ => apply bool_decide_eq_true in H
  | H : bool_decide _ = false |- _ => apply bool_decide_eq_false in H
  end.

(** Case split on an integer comparison that blocks the goal. *)
Ltac zcases :=
  match goal with
  | |- context [?a =? ?b] => destruct (Z.eqb_spec a b)
  | |- context [?a <? ?b] => destruct (Z.ltb_spec a b)
  | |- context [?a <=? ?b] => destruct (Z.leb_spec a b)
  end.

(** Reduces the binds of [res] in the goal and the context. *)
Ltac res_simpl := cbn [mbind mret fmap res_bind res_ret res_fmap] in *.

(** Inverts an equation [x ≫= k = Ok v] step by step. *)
Ltac res_inv :=
  repeat match goal with
  | H : context [@mret res _ _ _] |- _ => progress unfold mret, res_ret in H
  | H : Ok _ = Ok _ |- _ => progress simplify_eq/=
  | H : Err _ = Ok _ |- _ => discriminate H
  | H : Ok _ = Err _ |- _ => discriminate H
  | H : context [mbind _ ?m] |- _ =>
      lazymatch m with
      | Ok _ => res_simpl
      | _ => let E := fresh "E" in destruct m as [?|?] eqn:E; res_simpl
      end
  end.

(** ** Generic lemmas *)

Lemma wrap_range w z : 0 <= w -> 0 <= wrap w z < 2 ^ w.
Proof. intros. apply Z.mod_pos_bound, Z.pow_pos_nonneg; lia. Qed.

Lemma wrap_small w z : 0 <= z < 2 ^ w -> wrap w z = z.
Proof. apply Z.mod_small. Qed.

Lemma wrap_wrap w z : wrap w (wrap w z) = wrap w z.
Proof. apply Zmod_mod. Qed.

Lemma u64_range z : is_u64 (u64 z).
Proof. apply wrap_range; lia. Qed.

Lemma u64_small z : is_u64 z -> u64 z = z.
Proof. apply wrap_small. Qed.

Lemma u32_range z : is_u32 (u32 z).
Proof. apply wrap_range; lia. Qed.

Lemma u32_small z : is_u32 z -> u32 z = z.
Proof. apply wrap_small. Qed.

Lemma u64_sub_add a b c : u64 (u64 (a - b) + c) = u64 (a - b + c).
Proof. unfold u64, wrap. by rewrite Zplus_mod_idemp_l. Qed.

Lemma s32_range z : - 2 ^ 31 <= s32 z < 2 ^ 31.
Proof.
  unfold s32. pose proof (Z.mod_pos_bound z (2 ^ 32) ltac:(lia)).
  destruct (Z.ltb_spec (z mod 2 ^ 32) (2 ^ 31)); lia.
Qed.

Lemma s32_small z : - 2 ^ 31 <= z < 2 ^ 31 -> s32 z = z.
Proof.
  intros. unfold s32. destruct (Z.leb_spec 0 z).
  - rewrite Z.mod_small by lia. destruct (Z.ltb_spec z (2 ^ 31)); lia.
  - replace (z mod 2 ^ 32) with (z + 2 ^ 32).
    + destruct (Z.ltb_spec (z + 2 ^ 32) (2 ^ 31)); lia.
    + apply (Z.mod_unique_pos z (2 ^ 32) (-1)); lia.
Qed.

Lemma deref_Some {A} (a : A) what : deref (Some a) what = Ok a.
Proof. reflexivity. Qed.

Lemma deref_Ok {A} (o : option A) what a : deref o what = Ok a -> o = Some a.
Proof. destruct o; simpl; congruence. Qed.

Lemma sylar_assert_Ok b what u : sylar_assert b what = Ok u -> b = true.
Proof. destruct b; simpl; congruence. Qed.

Lemma elem_of_take_of {A} (x : A) n (l : list A) : x ∈ take n l -> x ∈ l.
Proof. intros H. rewrite <- (take_drop n l). apply elem_of_app. by left. Qed.

Lemma elem_of_drop_of {A} (x : A) n (l : list A) : x ∈ drop n l -> x ∈ l.
Proof. intros H. rewrite <- (take_drop n l). apply elem_of_app. by right. Qed.

(** Sums over the values of a map. *)
Definition map_sum `{Countable K} {A} (g : A -> nat) (m : gmap K A) : nat :=
  map_fold (fun _ x acc => (g x + acc)%nat) 0%nat m.

Lemma map_sum_insert_new `{Countable K} {A} (g : A -> nat) (m : gmap K A) i x :
  m !! i = None -> map_sum g (<[i := x]> m) = (g x + map_sum g m)%nat.
Proof. intros. unfold map_sum. rewrite map_fold_insert_L; [done|intros; lia|done]. Qed.

Lemma map_sum_insert `{Countable K} {A} (g : A -> nat) (m : gmap K A) i x y :
  m !! i = Some x -> (map_sum g (<[i := y]> m) + g x = map_sum g m + g y)%nat.
Proof.
  intros Hi. rewrite <- insert_delete_eq, map_sum_insert_new by apply lookup_delete_eq.
  rewrite <- (insert_delete_id m i x) at 2 by done.
  rewrite map_sum_insert_new by apply lookup_delete_eq. lia.
Qed.

Lemma map_sum_zero `{Countable K} {A} (g : A -> nat) (m : gmap K A) i x :
  map_sum g m = 0%nat -> m !! i = Some x -> g x = 0%nat.
Proof.
  intros Hs Hi. rewrite <- (insert_delete_id m i x), map_sum_insert_new in Hs
    by (done || apply lookup_delete_eq). lia.
Qed.

Lemma map_sum_le `{Countable K} {A} (b : nat) (g : A -> nat) (m : gmap K A) :
  (forall x, g x <= b)%nat -> (map_sum g m <= b * size m)%nat.
Proof.
  intros Hg. induction m as [|i x m Hi IH] using map_ind.
  - unfold map_sum. rewrite map_fold_empty. lia.
  - rewrite map_sum_insert_new, map_size_insert_None by done. pose proof (Hg x). lia.
Qed.

#[export] Hint Resolve u64_range u32_range s32_range wrap_range : sylar.
#[export] Hint Rewrite @deref_Some : sylar.
