(* ===== verification/StdSet.v ===== *)
(** * [std::set<T, Comparator>] as the source uses it

    The C++ container is kept as the list of its elements in iteration
    order; an iterator is a position in that list and [end()] is its length.
    The operations search with the comparator only, as the red-black tree
    does; on a list sorted by the comparator (the container's invariant) a
    left-to-right search and the tree's binary search give the same iterator. *)

From S2P Require Import Prelude.

Section StdSet.
Context {A : Type}.
Variable lt : A -> A -> bool.

(** [s.lower_bound(x)]: the first element not less than [x]. *)
Fixpoint set_lower_bound (s : list A) (x : A) : nat :=
  match s with
  | [] => 0%nat
  | y :: s' => if lt y x then S (set_lower_bound s' x) else 0%nat
  end.

(** [s.find(x)]: the element equivalent to [x], or [end()]. *)
Definition set_find (s : list A) (x : A) : nat :=
  let i := set_lower_bound s x in
  match s !! i with
  | Some y => if lt x y then length s else i
  | None => length s
  end.

(** [s.insert(x)]: (iterator, inserted?, new container). *)
Definition set_insert (s : list A) (x : A) : nat * bool * list A :=
  let i := set_lower_bound s x in
  match s !! i with
  | Some y =>
      if lt x y then (i, true, take i s ++ x :: drop i s) else (i, false, s)
  | None => (i, true, take i s ++ x :: drop i s)
  end.

(** [s.erase(it)]: erasing [end()] is undefined. *)
Definition set_erase (s : list A) (it : nat) : res (list A) :=
  if (it <? length s)%nat then Ok (take it s ++ drop (S it) s)
  else Err (FUB "erase(end())").

(** Strictly sorted by the comparator: the container's invariant. *)
Definition sorted (s : list A) : Prop :=
  StronglySorted (fun x y => lt x y = true) s.

(** What the comparator must satisfy on the elements in play. *)
Record strict_total (P : A -> Prop) : Prop := {
  st_irrefl : forall x, P x -> lt x x = false;
  st_trans : forall x y z, P x -> P y -> P z ->
      lt x y = true -> lt y z = true -> lt x z = true;
  st_total : forall x y, P x -> P y -> x <> y ->
      lt x y = true \/ lt y x = true
}.

Lemma lower_bound_le s x : (set_lower_bound s x <= length s)%nat.
Proof. induction s; simpl; [lia|]. destruct (lt a x); lia. Qed.

Lemma lower_bound_take s x : Forall (fun y => lt y x = true) (take (set_lower_bound s x) s).
Proof.
  induction s; simpl; [constructor|].
  destruct (lt a x) eqn:E; simpl; [constructor; auto|constructor].
Qed.

Lemma lower_bound_at s x y :
  s !! set_lower_bound s x = Some y -> lt y x = false.
Proof.
  induction s as [|a s IH]; simpl; [done|].
  destruct (lt a x) eqn:E; simpl; [auto|congruence].
Qed.

Section Total.
Context (P : A -> Prop) (HP : strict_total P).

Lemma st_asym x y : P x -> P y -> lt x y = true -> lt y x = false.
Proof using HP.
  intros Hx Hy H. destruct (lt y x) eqn:E; [|done].
  rewrite <- (st_irrefl P HP x Hx). symmetry. by apply (st_trans P HP x y x).
Qed.

(** Everything from the lower bound on is not less than [x]. *)
Lemma lower_bound_drop s x :
  P x -> Forall P s -> sorted s ->
  Forall (fun y => lt y x = false) (drop (set_lower_bound s x) s).
Proof using HP.
  intros Hx HF Hs. induction Hs as [|a s Hs IH Ha]; simpl; [constructor|].
  inversion HF as [|? ? Pa PF]; subst.
  destruct (lt a x) eqn:E; simpl; [auto|].
  constructor; [done|].
  rewrite Forall_forall in *. intros y Hy.
  destruct (lt y x) eqn:E2; [|done].
  rewrite <- E. symmetry. apply (st_trans P HP a y x); auto.
Qed.

Lemma set_find_In s x :
  Forall P s -> sorted s -> x ∈ s ->
  (set_find s x < length s)%nat /\ s !! set_find s x = Some x.
Proof using HP.
  intros HF Hs Hin. unfold set_find.
  assert (s !! set_lower_bound s x = Some x) as Hl.
  { induction Hs as [|a s Hs IH Ha]; simpl; [by apply not_elem_of_nil in Hin|].
    inversion HF as [|? ? Pa PF]; subst.
    apply elem_of_cons in Hin as [->|Hin].
    - by rewrite (st_irrefl P HP a Pa).
    - rewrite Forall_forall in Ha. rewrite (Ha x Hin). simpl. auto. }
  rewrite Hl. rewrite Forall_forall in HF.
  rewrite (st_irrefl P HP x) by auto.
  split; [by eapply lookup_lt_Some|done].
Qed.

Lemma set_find_not_In s x :
  P x -> Forall P s -> x ∉ s -> set_find s x = length s.
Proof using HP.
  intros Hx HF Hin. unfold set_find.
  destruct (s !! set_lower_bound s x) as [y|] eqn:E; [|done].
  destruct (lt x y) eqn:E2; [done|]. exfalso.
  pose proof (lower_bound_at _ _ _ E) as E3.
  assert (y ∈ s) as Hy by (eapply list_elem_of_lookup_2; eauto).
  rewrite Forall_forall in HF.
  destruct (st_total P HP x y Hx (HF y Hy)) as [?|?]; try congruence.
Qed.

(** A fresh element is inserted at its lower bound. *)
Lemma set_insert_fresh s x :
  P x -> Forall P s -> x ∉ s ->
  set_insert s x =
    (set_lower_bound s x, true,
     take (set_lower_bound s x) s ++ x :: drop (set_lower_bound s x) s).
Proof using HP.
  intros Hx HF Hin. pose proof (set_find_not_In s x Hx HF Hin) as Hf.
  unfold set_find in Hf. unfold set_insert.
  destruct (s !! set_lower_bound s x) as [y|] eqn:E; [|done].
  destruct (lt x y); [done|].
  apply lookup_lt_Some in E. lia.
Qed.

Lemma sorted_app s1 s2 :
  sorted (s1 ++ s2) <->
  sorted s1 /\ sorted s2 /\ forall x y, x ∈ s1 -> y ∈ s2 -> lt x y = true.
Proof using Type.
  unfold sorted. induction s1 as [|a s1 IH]; simpl.
  - split; [|tauto]. intros H. repeat split; auto; [constructor|].
    intros x y Hx. by apply not_elem_of_nil in Hx.
  - split.
    + intros H. inversion H as [|? ? Hs Ha]; subst.
      apply IH in Hs as (H1 & H2 & H3).
      rewrite Forall_app in Ha. destruct Ha as [Ha1 Ha2].
      repeat split; [by constructor|done|].
      intros x y [->|Hx]%elem_of_cons Hy; [|by auto].
      rewrite Forall_forall in Ha2. auto.
    + intros (H1 & H2 & H3). inversion H1 as [|? ? Hs Ha]; subst.
      constructor.
      * apply IH. repeat split; auto. intros. apply H3; auto. by apply elem_of_cons; right.
      * apply Forall_app. split; [done|]. apply Forall_forall. intros.
        apply H3; auto. by apply elem_of_cons; left.
Qed.

Lemma set_insert_sorted s x :
  P x -> Forall P s -> x ∉ s -> sorted s -> sorted (snd (set_insert s x)).
Proof using HP.
  intros Hx HF Hin Hs. rewrite set_insert_fresh by done. simpl.
  pose proof (lower_bound_take s x) as Ht.
  pose proof (lower_bound_drop s x Hx HF Hs) as Hd.
  set (i := set_lower_bound s x) in *.
  assert (sorted (take i s ++ drop i s)) as Hs' by (by rewrite take_drop).
  apply sorted_app in Hs' as (H1 & H2 & H3).
  apply sorted_app. repeat split; [done| |].
  - constructor; [done|]. apply Forall_forall. intros y Hy.
    rewrite Forall_forall in Hd, HF.
    assert (y ∈ s) as Hys by (rewrite <- (take_drop i s); set_solver).
    destruct (st_total P HP x y Hx (HF y Hys)) as [?|Hyx]; [congruence|done|].
    rewrite (Hd y Hy) in Hyx. discriminate.
  - intros a b Ha [->|Hb]%elem_of_cons; [|by auto].
    rewrite Forall_forall in Ht. auto.
Qed.

End Total.

Lemma set_insert_elem s x y :
  set_find s x = length s -> y ∈ snd (set_insert s x) <-> y = x \/ y ∈ s.
Proof using Type.
  unfold set_find, set_insert. intros Hf.
  assert (forall i, y ∈ take i s ++ x :: drop i s <-> y = x \/ y ∈ s) as Hi.
  { intros i. rewrite elem_of_app, elem_of_cons.
    rewrite <- (take_drop i s) at 3. rewrite elem_of_app. tauto. }
  destruct (s !! set_lower_bound s x) as [z|] eqn:E; simpl; [|by apply Hi].
  destruct (lt x z); simpl; [by apply Hi|].
  apply lookup_lt_Some in E. lia.
Qed.

Lemma set_erase_at s1 x s2 :
  set_erase (s1 ++ x :: s2) (length s1) = Ok (s1 ++ s2).
Proof using Type.
  unfold set_erase. rewrite length_app. simpl.
  destruct (Nat.ltb_spec (length s1) (length s1 + S (length s2))); [|lia].
  by rewrite take_app_length, (drop_app_ge _ _ (S (length s1))) by lia;
  replace (S (length s1) - length s1)%nat with 1%nat by lia.
Qed.

End StdSet.

(** Two comparators that agree on the elements sort the same lists. *)
Lemma sorted_ext {A} (lt lt' : A -> A -> bool) s :
  (forall x y, x ∈ s -> y ∈ s -> lt x y = lt' x y) -> sorted lt s -> sorted lt' s.
Proof.
  intros H Hs. induction Hs as [|a s Hs IH Ha]; [constructor|].
  constructor.
  - apply IH. intros. apply H; by apply elem_of_cons; right.
  - rewrite Forall_forall in *. intros y Hy. rewrite <- H; auto.
    + by apply elem_of_cons; left.
    + by apply elem_of_cons; right.
Qed.

Lemma sorted_NoDup {A} (lt : A -> A -> bool) (P : A -> Prop) s :
  strict_total lt P -> Forall P s -> sorted lt s -> NoDup s.
Proof.
  intros HP HF Hs. induction Hs as [|a s Hs IH Ha]; [constructor|].
  inversion HF as [|? ? Pa PF]; subst. constructor; [|by auto].
  intros Hin. rewrite Forall_forall in Ha. specialize (Ha a Hin).
  rewrite (st_irrefl lt P HP a Pa) in Ha. discriminate.
Qed.

Lemma sorted_sublist {A} (lt : A -> A -> bool) s1 x s2 :
  sorted lt (s1 ++ x :: s2) -> sorted lt (s1 ++ s2).
Proof.
  rewrite !sorted_app. intros (H1 & H2 & H3). inversion H2; subst.
  repeat split; auto. intros. apply H3; auto. by apply elem_of_cons; right.
Qed.

#[export] Hint Resolve lower_bound_le : sylar.
