(* ===== verification/Util.v ===== *)
(** * util.cc: clocks and backtraces

    [gettimeofday], [backtrace] and [backtrace_symbols] are operating-system
    calls: their results are arguments. *)

From S2P Require Import Prelude.

(** [struct timeval]. *)
Record timeval : Type := Timeval { tv_sec : Z; tv_usec : Z }.

(** What [gettimeofday] delivers: a date in the representable range and a
    microsecond part below one second. *)
Definition valid_timeval (tv : timeval) : Prop :=
  0 <= tv_sec tv < 2 ^ 50 /\ 0 <= tv_usec tv < 1000000.

(** [GetCurrentMS]: [tv.tv_sec*1000ul + tv.tv_usec/1000]. *)
Definition GetCurrentMS (tv : timeval) : Z :=
  u64 (u64 (tv_sec tv * 1000) + Z.quot (tv_usec tv) 1000).

(** [GetCurrentUS]: [tv.tv_sec*1000 + tv.tv_usec]. *)
Definition GetCurrentUS (tv : timeval) : Z :=
  u64 (tv_sec tv * 1000 + tv_usec tv).

(** [Backtrace]: appends the symbols from [skip] on; a null [strings] array
    (allocation failure) leaves the vector as it is. *)
Definition Backtrace (strings : option (list string)) (skip : nat)
    (bt : list string) : list string :=
  match strings with
  | None => bt
  | Some ss => bt ++ drop skip ss
  end.

Definition newline : string := String (Ascii.ascii_of_nat 10) EmptyString.

(** [BacktraceToString]: one line per frame, each with the prefix. *)
Definition BacktraceToString (strings : option (list string)) (skip : nat)
    (prefix : string) : string :=
  String.concat "" (map (fun s => (prefix ++ s ++ newline)%string)
                        (Backtrace strings skip [])).

(** The time a [timeval] stands for, in microseconds. *)
Definition time_us (tv : timeval) : Z := tv_sec tv * 1000000 + tv_usec tv.

Lemma GetCurrentMS_value tv :
  valid_timeval tv -> GetCurrentMS tv = tv_sec tv * 1000 + tv_usec tv / 1000.
Proof.
  intros [Hs Hu]. unfold GetCurrentMS.
  assert (0 <= tv_usec tv / 1000 < 1000) by (split; [apply Z.div_pos; lia|apply Z.div_lt_upper_bound; lia]).
  rewrite Z.quot_div_nonneg by lia.
  rewrite (u64_small (tv_sec tv * 1000)) by (unfold is_u64; lia).
  apply u64_small. unfold is_u64. lia.
Qed.

Lemma GetCurrentMS_is_ms tv :
  valid_timeval tv -> GetCurrentMS tv = time_us tv / 1000.
Proof.
  intros H. rewrite GetCurrentMS_value by done. unfold time_us.
  replace (tv_sec tv * 1000000 + tv_usec tv)
    with (tv_usec tv + (tv_sec tv * 1000) * 1000) by lia.
  rewrite Z.div_add by lia. lia.
Qed.

(** [GetCurrentMS] is a clock: it reports the time in whole
    milliseconds, never goes back when the time does not, and fits 64 bits. *)
Theorem GetCurrentMS_clock (tv1 tv2 : timeval) :
  valid_timeval tv1 -> valid_timeval tv2 ->
  GetCurrentMS tv1 = time_us tv1 / 1000 /\
  is_u64 (GetCurrentMS tv1) /\
  (time_us tv1 <= time_us tv2 -> GetCurrentMS tv1 <= GetCurrentMS tv2).
Proof.
  intros H1 H2. rewrite !GetCurrentMS_is_ms by done. repeat split.
  - apply Z.div_pos; [|lia]. unfold time_us, valid_timeval in *. lia.
  - apply Z.div_lt_upper_bound; [lia|]. unfold time_us, valid_timeval in *. lia.
  - intros. apply Z.div_le_mono; lia.
Qed.

Lemma GetCurrentMS_clock_witness :
  GetCurrentMS (Timeval 1700000000 123456) = 1700000000123456 / 1000.
Proof.
  apply (GetCurrentMS_clock (Timeval 1700000000 123456) (Timeval 1700000000 123456));
    unfold valid_timeval; simpl; lia.
Defined.

(** [GetCurrentUS] is not a microsecond clock: it scales the seconds
    by 1000, so it runs backwards by almost a second at every full second. *)
Theorem GetCurrentUS_runs_back (s : Z) :
  0 <= s < 2 ^ 50 ->
  let before := Timeval s 999999 in
  let after := Timeval (s + 1) 0 in
  time_us before < time_us after /\
  GetCurrentUS after = GetCurrentUS before - 998999.
Proof.
  intros Hs. unfold time_us, GetCurrentUS. simpl. split; [lia|].
  rewrite !u64_small by (unfold is_u64; lia). lia.
Qed.

Lemma GetCurrentUS_runs_back_witness :
  GetCurrentUS (Timeval 2 0) = GetCurrentUS (Timeval 1 999999) - 998999.
Proof. apply (GetCurrentUS_runs_back 1). lia. Defined.
