(* ===== verification/Timer.v ===== *)
(** * timer.h / timer.cc: timers and the timer manager

    [Timer] objects live in a heap of shared objects (several [Timer::ptr]
    share one object), the manager's [m_timers] is a [std::set] of pointers
    ordered by [Timer::Comparator], which reads the objects.  Every call of
    [GetCurrentMS] is an argument [now]; the address a [new Timer] returns is
    an argument too.  [m_manager] is not stored: there is one manager.  Objects
    are never deallocated in the model (a client may hold a [Timer::ptr]). *)

From S2P Require Import Prelude StdSet.

(** Addresses of [Timer] objects. *)
Abbreviation loc := Z.

Section Timers.
(** [F]: the client's functions, [W]: the objects [weak_cond] may point to. *)
Context {F W : Type}.

(** A [std::function<void()>] handed to a timer: a client function or the
    [std::bind(&OnTimer, weak_cond, cb)] of [addConditionTimer]. *)
Inductive callback : Type :=
| CbFun (f : F)
| CbOnTimer (weak_cond : W) (cb : option F).

(** The members of [Timer]; a null [m_cb] is [None]. *)
Record timer : Type := Timer {
  m_recurring : bool;
  m_ms : Z;
  m_next : Z;
  m_cb : option callback
}.

(** The members of [TimerManager] and the heap of [Timer] objects. *)
Record manager : Type := Manager {
  m_heap : gmap loc timer;
  m_timers : list loc;
  m_tickled : bool;
  m_previouseTime : Z
}.

Definition set_cb (c : option callback) (t : timer) : timer :=
  Timer (m_recurring t) (m_ms t) (m_next t) c.
Definition set_next (n : Z) (t : timer) : timer :=
  Timer (m_recurring t) (m_ms t) n (m_cb t).
Definition with_store (h : gmap loc timer) (s : list loc) (st : manager) : manager :=
  Manager h s (m_tickled st) (m_previouseTime st).
Definition with_tickled (b : bool) (st : manager) : manager :=
  Manager (m_heap st) (m_timers st) b (m_previouseTime st).

(** [Timer::Comparator::operator()]; null pointers come first. *)
Definition comparator (h : gmap loc timer) (lhs rhs : option loc) : bool :=
  match lhs, rhs with
  | None, None => false
  | None, Some _ => true
  | Some _, None => false
  | Some l, Some r =>
      match h !! l, h !! r with
      | Some tl, Some tr =>
          if m_next tl <? m_next tr then true
          else if m_next tr <? m_next tl then false
          else l <? r
      | _, _ => false
      end
  end.

Definition timer_lt (h : gmap loc timer) (l r : loc) : bool :=
  comparator h (Some l) (Some r).

(** [Timer::Timer(ms, cb, recurring, manager)]. *)
Definition new_timer (now ms : Z) (cb : option callback) (recurring : bool) : timer :=
  Timer recurring ms (u64 (now + ms)) cb.

(** [Timer::Timer(next)]: the probe used by [listExpiredCb]. *)
Definition probe_timer (next : Z) : timer := Timer false 0 next None.

(** [TimerManager::TimerManager()]. *)
Definition init_manager (now : Z) : manager := Manager ∅ [] false now.

(** [TimerManager::addTimer(val, lock)]: inserts under the write lock and
    reports whether [onTimerInsertedAtfront] is called after unlocking. *)
Definition addTimer_locked (val : loc) (st : manager) : bool * manager :=
  let '(it, _, ts) := set_insert (timer_lt (m_heap st)) (m_timers st) val in
  let at_front := (it =? 0)%nat && negb (m_tickled st) in
  let st' := with_store (m_heap st) ts st in
  (at_front, if at_front then with_tickled true st' else st').

(** [TimerManager::addTimer(ms, cb, recuring)] with the new object at [p]. *)
Definition addTimer (now : Z) (p : loc) (ms : Z) (cb : option callback)
    (recuring : bool) (st : manager) : bool * manager :=
  addTimer_locked p
    (with_store (<[p := new_timer now ms cb recuring]> (m_heap st)) (m_timers st) st).

(** [TimerManager::addConditionTimer]. *)
Definition addConditionTimer (now : Z) (p : loc) (ms : Z) (cb : option F)
    (weak_cond : W) (recurring : bool) (st : manager) : bool * manager :=
  addTimer now p ms (Some (CbOnTimer weak_cond cb)) recurring st.

(** Running a callback ([OnTimer] included): nothing, a client function, or
    [std::bad_function_call] on a null function. *)
Inductive run_result : Type := RunNothing | RunFun (f : F) | RunBadCall.

Definition OnTimer (alive : bool) (cb : option F) : run_result :=
  if alive then match cb with Some f => RunFun f | None => RunBadCall end
  else RunNothing.

Definition run_callback (alive : W -> bool) (c : callback) : run_result :=
  match c with
  | CbFun f => RunFun f
  | CbOnTimer w cb => OnTimer (alive w) cb
  end.

(** [TimerManager::hasTimer]. *)
Definition hasTimer (st : manager) : bool :=
  match m_timers st with [] => false | _ => true end.

(** [Timer::cancel] on the object at [p]. *)
Definition cancel (p : loc) (st : manager) : res (bool * manager) :=
  t ← deref (m_heap st !! p) "cancel: dangling timer";
  match m_cb t with
  | None => mret (false, st)
  | Some _ =>
      let h := <[p := set_cb None t]> (m_heap st) in
      ts ← set_erase (m_timers st) (set_find (timer_lt h) (m_timers st) p);
      mret (true, with_store h ts st)
  end.

(** [Timer::refresh]. *)
Definition refresh (now : Z) (p : loc) (st : manager) : res (bool * manager) :=
  t ← deref (m_heap st !! p) "refresh: dangling timer";
  match m_cb t with
  | None => mret (false, st)
  | Some _ =>
      let lt := timer_lt (m_heap st) in
      let it := set_find lt (m_timers st) p in
      if negb (it =? length (m_timers st))%nat then mret (false, st)
      else
        ts ← set_erase (m_timers st) it;
        let h := <[p := set_next (u64 (now + m_ms t)) t]> (m_heap st) in
        mret (true, with_store h (set_insert (timer_lt h) ts p).2 st)
  end.

(** [Timer::reset]; the second component says whether
    [onTimerInsertedAtfront] is called. *)
Definition reset (now : Z) (p : loc) (ms : Z) (from_now : bool) (st : manager)
    : res (bool * bool * manager) :=
  t ← deref (m_heap st !! p) "reset: dangling timer";
  if (ms =? m_ms t) && negb from_now then mret (true, false, st)
  else
    match m_cb t with
    | None => mret (false, false, st)
    | Some _ =>
        let it := set_find (timer_lt (m_heap st)) (m_timers st) p in
        if (it =? length (m_timers st))%nat then mret (false, false, st)
        else
          ts ← set_erase (m_timers st) it;
          let start := if from_now then now else u64 (m_next t - m_ms t) in
          let t' := Timer (m_recurring t) ms (u64 (start + ms)) (m_cb t) in
          let '(front, st') :=
            addTimer_locked p (with_store (<[p := t']> (m_heap st)) ts st) in
          mret (true, front, st')
    end.

(** [TimerManager::getNextTimer]; [~0ull] when there is no timer. *)
Definition getNextTimer (now : Z) (st : manager) : res (Z * manager) :=
  let st' := with_tickled false st in
  match m_timers st with
  | [] => mret (U64_MAX, st')
  | p :: _ =>
      t ← deref (m_heap st !! p) "getNextTimer: dangling timer";
      mret (if m_next t <=? now then 0 else m_next t - now, st')
  end.

(** [TimerManager::detectClockRollover]: an hour is 60*60*1000 ms, the
    subtraction is unsigned. *)
Definition detectClockRollover (now_ms : Z) (st : manager) : bool * manager :=
  let rollover := (now_ms <? m_previouseTime st)
                  && (now_ms <? u64 (m_previouseTime st - 60 * 60 * 1000)) in
  (rollover, Manager (m_heap st) (m_timers st) (m_tickled st) now_ms).

(** The loop [while(it!=end && it->m_next==now_ms) ++it] from the list at [it]. *)
Fixpoint skip_equal (h : gmap loc timer) (now : Z) (s : list loc) : nat :=
  match s with
  | [] => 0%nat
  | p :: s' =>
      match h !! p with
      | Some t => if m_next t =? now then S (skip_equal h now s') else 0%nat
      | None => 0%nat
      end
  end.

(** One round of the loop over [expired]: rearms a recurring timer, disarms
    the others. *)
Definition fire_one (now : Z) (p : loc) (t : timer) (st : manager) : manager :=
  if m_recurring t then
    let h := <[p := set_next (u64 (now + m_ms t)) t]> (m_heap st) in
    with_store h (set_insert (timer_lt h) (m_timers st) p).2 st
  else with_store (<[p := set_cb None t]> (m_heap st)) (m_timers st) st.

(** The loop over [expired], which also hands out the callbacks. *)
Fixpoint fire_expired (now : Z) (expired : list loc)
    (cbs : list (option callback)) (st : manager)
    : res (list (option callback) * manager) :=
  match expired with
  | [] => mret (cbs, st)
  | p :: ps =>
      t ← deref (m_heap st !! p) "listExpiredCb: dangling timer";
      fire_expired now ps (cbs ++ [m_cb t]) (fire_one now p t st)
  end.

(** [listExpiredCb], the part under the write lock; [probe] is the address
    of [now_timer].  [begin()] of an empty set is dereferenced when the set
    was emptied after the read-locked check. *)
Definition listExpired_locked (now : Z) (probe : loc)
    (cbs : list (option callback)) (st : manager)
    : res (list (option callback) * manager) :=
  let '(rollover, st1) := detectClockRollover now st in
  early ← (if rollover then mret false else
             p ← deref (head (m_timers st1)) "listExpiredCb: *begin() of empty set";
             t ← deref (m_heap st1 !! p) "listExpiredCb: dangling timer";
             mret (m_next t =? now));
  if (early : bool) then mret (cbs, st1)
  else
    let s := m_timers st1 in
    let h := <[probe := probe_timer now]> (m_heap st1) in
    let it0 := if rollover then length s
               else set_lower_bound (timer_lt h) s probe in
    let it := (it0 + skip_equal (m_heap st1) now (drop it0 s))%nat in
    fire_expired now (take it s) cbs (with_store (m_heap st1) (drop it s) st1).

(** [TimerManager::listExpiredCb] run without interference between its two
    critical sections. *)
Definition listExpiredCb (now : Z) (probe : loc)
    (cbs : list (option callback)) (st : manager)
    : res (list (option callback) * manager) :=
  if hasTimer st then listExpired_locked now probe cbs st else mret (cbs, st).

End Timers.


Arguments callback : clear implicits.
Arguments timer : clear implicits.
Arguments manager : clear implicits.
Arguments run_result : clear implicits.

(** ** Invariant and abstraction *)

Section TimerTheory.
Context {F W : Type}.
Implicit Types (st : manager F W) (h : gmap loc (timer F W)) (t : timer F W).

(** The manager's well-formedness: the set is sorted by its comparator and
    holds live objects, an object with a callback is in the set, times are
    64-bit. *)
Record wf st : Prop := Wf {
  wf_sorted : sorted (timer_lt (m_heap st)) (m_timers st);
  wf_alive : Forall (fun p => is_Some (m_heap st !! p)) (m_timers st);
  wf_armed : forall p t, m_heap st !! p = Some t -> is_Some (m_cb t) -> p ∈ m_timers st;
  wf_u64 : forall p t, m_heap st !! p = Some t -> is_u64 (m_next t) /\ is_u64 (m_ms t)
}.

(** What the manager means to its clients: the pending timers. *)
Definition pending st : gmap loc (timer F W) :=
  filter (fun pt => pt.1 ∈ m_timers st) (m_heap st).

(** The timers due at [now]; all of them after a clock rollover. *)
Definition due (rollover : bool) (now : Z) (t : timer F W) : bool :=
  rollover || (m_next t <=? now).

(** What becomes of a due timer. *)
Definition rearm (now : Z) (t : timer F W) : option (timer F W) :=
  if m_recurring t then Some (set_next (u64 (now + m_ms t)) t) else None.

(** The pending timers after expiry at [now]. *)
Definition expire_spec (rollover : bool) (now : Z) (m : gmap loc (timer F W))
    : gmap loc (timer F W) :=
  omap (fun t => if due rollover now t then rearm now t else Some t) m.

Lemma timer_lt_iff h l r tl tr :
  h !! l = Some tl -> h !! r = Some tr ->
  timer_lt h l r = true <->
  m_next tl < m_next tr \/ (m_next tl = m_next tr /\ l < r).
Proof.
  intros Hl Hr. unfold timer_lt, comparator. rewrite Hl, Hr.
  destruct (Z.ltb_spec (m_next tl) (m_next tr)); [split; auto; lia|].
  destruct (Z.ltb_spec (m_next tr) (m_next tl)); [split; intros; [done|lia]|].
  rewrite Z.ltb_lt. lia.
Qed.

Lemma timer_lt_total h : strict_total (timer_lt h) (fun p => is_Some (h !! p)).
Proof.
  constructor.
  - intros x [t Ht]. destruct (timer_lt h x x) eqn:E; [|done].
    apply (timer_lt_iff h x x t t) in E; auto. lia.
  - intros x y z [tx Hx] [ty Hy] [tz Hz].
    rewrite (timer_lt_iff h x y tx ty), (timer_lt_iff h y z ty tz),
      (timer_lt_iff h x z tx tz) by done. lia.
  - intros x y [tx Hx] [ty Hy] Hne.
    rewrite (timer_lt_iff h x y tx ty), (timer_lt_iff h y x ty tx) by done. lia.
Qed.

(** The comparator reads nothing but [m_next]. *)
Lemma timer_lt_ext h h' l r :
  m_next <$> h !! l = m_next <$> h' !! l ->
  m_next <$> h !! r = m_next <$> h' !! r ->
  timer_lt h l r = timer_lt h' l r.
Proof.
  unfold timer_lt, comparator. intros Hl Hr.
  destruct (h !! l), (h' !! l), (h !! r), (h' !! r); simplify_eq/=; auto.
  by rewrite Hl, Hr.
Qed.

(** Changing an object outside the set, or any member but [m_next], keeps
    the set sorted. *)
Lemma sorted_insert_heap h s p t :
  sorted (timer_lt h) s -> (p ∈ s -> m_next <$> h !! p = Some (m_next t)) ->
  sorted (timer_lt (<[p := t]> h)) s.
Proof.
  intros Hs Hp. apply (sorted_ext (timer_lt h)); [|done].
  intros x y Hx Hy. apply timer_lt_ext.
  - rewrite lookup_insert. case_decide; [subst; by rewrite Hp|done].
  - rewrite lookup_insert. case_decide; [subst; by rewrite Hp|done].
Qed.

Lemma alive_insert h s p t :
  Forall (fun q => is_Some (h !! q)) s ->
  Forall (fun q => is_Some (<[p := t]> h !! q)) s.
Proof.
  intros H. eapply Forall_impl; [exact H|]. intros q Hq.
  rewrite lookup_insert. case_decide; eauto.
Qed.

Lemma pending_Some st p t :
  pending st !! p = Some t <-> m_heap st !! p = Some t /\ p ∈ m_timers st.
Proof. unfold pending. by rewrite map_lookup_filter_Some. Qed.

Lemma pending_None st p :
  p ∉ m_timers st -> pending st !! p = None.
Proof.
  intros H. unfold pending. apply map_lookup_filter_None. right. by intros ? _ ?.
Qed.

Lemma pending_elem st p :
  wf st -> p ∈ m_timers st <-> is_Some (pending st !! p).
Proof.
  intros [_ Ha _ _]. split.
  - intros Hp. rewrite Forall_forall in Ha. destruct (Ha p Hp) as [t Ht].
    exists t. by apply pending_Some.
  - intros [t Ht]. by apply pending_Some in Ht as [_ ?].
Qed.

(** Splits the set at a member: what [find] and [erase] do to it. *)
Lemma find_erase h s p :
  sorted (timer_lt h) s -> Forall (fun q => is_Some (h !! q)) s -> p ∈ s ->
  exists s1 s2, s = s1 ++ p :: s2 /\
    set_find (timer_lt h) s p = length s1 /\
    set_erase s (set_find (timer_lt h) s p) = Ok (s1 ++ s2) /\
    p ∉ s1 ++ s2.
Proof.
  intros Hs Ha Hp.
  pose proof (set_find_In _ _ (timer_lt_total h) s p Ha Hs Hp) as [Hlt Hat].
  destruct (list_elem_of_split_length s (set_find (timer_lt h) s p) p Hat)
    as (s1 & s2 & E & Hlen).
  exists s1, s2. split; [done|]. split; [done|]. split.
  - rewrite Hlen, E. apply set_erase_at.
  - pose proof (sorted_NoDup _ _ s (timer_lt_total h) Ha Hs) as Hnd.
    rewrite E in Hnd. apply NoDup_app in Hnd as (H1 & H2 & H3).
    apply NoDup_cons in H3 as [H3 _].
    rewrite elem_of_app. intros [H|H]; [|done]. apply (H2 p H), elem_of_cons. by left.
Qed.

Lemma find_member h s p :
  sorted (timer_lt h) s -> Forall (fun q => is_Some (h !! q)) s -> p ∈ s ->
  (set_find (timer_lt h) s p =? length s)%nat = false.
Proof.
  intros Hs Ha Hp. apply Nat.eqb_neq.
  pose proof (set_find_In _ _ (timer_lt_total h) s p Ha Hs Hp). lia.
Qed.

Lemma insert_store h s p :
  sorted (timer_lt h) s -> Forall (fun q => is_Some (h !! q)) s ->
  is_Some (h !! p) -> p ∉ s ->
  let s' := (set_insert (timer_lt h) s p).2 in
  sorted (timer_lt h) s' /\ Forall (fun q => is_Some (h !! q)) s' /\
  (forall q, q ∈ s' <-> q = p \/ q ∈ s).
Proof.
  intros Hs Ha Hp Hn s'.
  assert (forall q, q ∈ s' <-> q = p \/ q ∈ s) as Hq.
  { intros q. apply set_insert_elem.
    by apply (set_find_not_In _ _ (timer_lt_total h)). }
  split; [by apply (set_insert_sorted _ _ (timer_lt_total h))|].
  split; [|done]. rewrite Forall_forall in *. intros q [->|?]%Hq; auto.
Qed.

(** [insert] puts the element first exactly when it precedes all others. *)
Lemma insert_at_front h s p :
  sorted (timer_lt h) s -> Forall (fun q => is_Some (h !! q)) s ->
  is_Some (h !! p) -> p ∉ s ->
  (set_insert (timer_lt h) s p).1.1 = 0%nat <->
  forall q, q ∈ s -> timer_lt h p q = true.
Proof.
  intros Hs Ha Hp Hn.
  rewrite (set_insert_fresh _ _ (timer_lt_total h)) by done. simpl. split.
  - intros H0 q Hq.
    pose proof (lower_bound_drop _ _ (timer_lt_total h) s p Hp Ha Hs) as Hd.
    rewrite H0 in Hd. simpl in Hd. rewrite Forall_forall in Hd, Ha.
    destruct (st_total _ _ (timer_lt_total h) p q) as [?|Hqp]; auto.
    { by intros ->. }
    rewrite (Hd q Hq) in Hqp. discriminate.
  - intros H. destruct s as [|a s]; [done|]. simpl.
    inversion Ha; subst.
    rewrite (st_asym _ _ (timer_lt_total h) p a); auto.
    apply H, elem_of_cons. by left.
Qed.

(** The shared part of [addTimer] and [reset]: the object at [p] is in the
    heap and not in the set. *)
Lemma addTimer_locked_ok st p t b st' :
  sorted (timer_lt (m_heap st)) (m_timers st) ->
  Forall (fun q => is_Some (m_heap st !! q)) (m_timers st) ->
  (forall q t, m_heap st !! q = Some t -> is_Some (m_cb t) -> q = p \/ q ∈ m_timers st) ->
  (forall q t, m_heap st !! q = Some t -> is_u64 (m_next t) /\ is_u64 (m_ms t)) ->
  m_heap st !! p = Some t -> p ∉ m_timers st ->
  addTimer_locked p st = (b, st') ->
  wf st' /\ m_heap st' = m_heap st /\
  pending st' = <[p := t]> (pending st) /\
  (b = true <-> m_tickled st = false /\
     forall q, q ∈ m_timers st -> timer_lt (m_heap st) p q = true).
Proof.
  intros Hs Ha Harm Hu Hp Hn. unfold addTimer_locked.
  pose proof (insert_store _ _ p Hs Ha ltac:(eauto) Hn) as (H1 & H2 & H3).
  pose proof (insert_at_front _ _ p Hs Ha ltac:(eauto) Hn) as H4.
  destruct (set_insert (timer_lt (m_heap st)) (m_timers st) p) as [[it fl] ts].
  simpl in *. intros [= <- <-].
  assert (forall c : bool,
    let st'' := if c then with_tickled true (with_store (m_heap st) ts st)
                else with_store (m_heap st) ts st in
    m_heap st'' = m_heap st /\ m_timers st'' = ts) as Hsel by (by intros []).
  set (c := (it =? 0)%nat && negb (m_tickled st)).
  destruct (Hsel c) as [Eh Et]. clear Hsel.
  split; [|split; [done|split]].
  - constructor; rewrite ?Eh, ?Et; auto.
    intros q t' Hq Hc. apply H3. eauto.
  - apply map_eq. intros q. apply option_eq. intros t'.
    rewrite pending_Some, Eh, Et, H3, lookup_insert.
    case_decide as Hd; [subst; naive_solver|].
    rewrite pending_Some. naive_solver.
  - unfold c. rewrite andb_true_iff, Nat.eqb_eq, negb_true_iff, H4. tauto.
Qed.

Lemma addTimer_ok st now p ms cb rec b st' :
  wf st -> m_heap st !! p = None -> is_u64 ms ->
  addTimer now p ms cb rec st = (b, st') ->
  wf st' /\
  pending st' = <[p := new_timer now ms cb rec]> (pending st) /\
  m_heap st' = <[p := new_timer now ms cb rec]> (m_heap st) /\
  (b = true <-> m_tickled st = false /\
     forall q t, pending st !! q = Some t ->
       u64 (now + ms) < m_next t \/ (u64 (now + ms) = m_next t /\ p < q)).
Proof.
  intros [Hs Ha Harm Hu] Hp Hms Hadd.
  assert (p ∉ m_timers st) as Hn.
  { intros Hin. rewrite Forall_forall in Ha. destruct (Ha p Hin). congruence. }
  set (t := new_timer now ms cb rec) in *.
  unfold addTimer in Hadd. fold t in Hadd.
  eapply (addTimer_locked_ok _ p t) in Hadd; simpl in *; eauto.
  - destruct Hadd as (Hwf & Hh & Hpend & Hb). split; [done|]. split; [|split; [done|]].
    + rewrite Hpend. apply map_eq. intros q. rewrite !lookup_insert.
      case_decide; [done|]. apply option_eq. intros t'.
      rewrite !pending_Some. simpl. by rewrite lookup_insert_ne by done.
    + rewrite Hb. apply and_iff_compat_l. split.
      * intros H q t' Hq. apply pending_Some in Hq as [Hq Hin].
        apply H in Hin. rewrite (timer_lt_iff _ _ _ t t') in Hin; [done|..].
        -- apply lookup_insert_eq.
        -- rewrite lookup_insert_ne; [done|]. congruence.
      * intros H q Hin. rewrite Forall_forall in Ha. destruct (Ha q Hin) as [t' Hq].
        rewrite (timer_lt_iff _ _ _ t t').
        -- apply (H q t'). by apply pending_Some.
        -- apply lookup_insert_eq.
        -- rewrite lookup_insert_ne; [done|]. congruence.
  - apply sorted_insert_heap; [done|]. by intros.
  - by apply alive_insert.
  - intros q t'. rewrite lookup_insert. case_decide; [auto|]. eauto.
  - intros q t'. rewrite lookup_insert. case_decide; [|eauto].
    intros [= <-]. simpl. split; [apply u64_range|done].
  - apply lookup_insert_eq.
Qed.

Lemma cancel_ok st p t :
  wf st -> m_heap st !! p = Some t ->
  exists st', cancel p st = Ok (bool_decide (is_Some (m_cb t)), st') /\ wf st' /\
    m_heap st' = <[p := set_cb None t]> (m_heap st) /\
    pending st' = (if bool_decide (is_Some (m_cb t)) then delete p (pending st)
                   else pending st) /\
    (is_Some (m_cb t) -> pending st' !! p = None).
Proof.
  intros [Hs Ha Harm Hu] Hp. unfold cancel. rewrite Hp, deref_Some. res_simpl.
  destruct (m_cb t) as [c|] eqn:Ec.
  - rewrite bool_decide_true by eauto.
    assert (p ∈ m_timers st) as Hin by (apply (Harm p t); eauto).
    set (h := <[p := set_cb None t]> (m_heap st)).
    assert (sorted (timer_lt h) (m_timers st)) as Hs'.
    { apply sorted_insert_heap; [done|]. intros _. by rewrite Hp. }
    assert (Forall (fun q => is_Some (h !! q)) (m_timers st)) as Ha' by (by apply alive_insert).
    destruct (find_erase h _ p Hs' Ha' Hin) as (s1 & s2 & E & Ef & Ee & Hn).
    rewrite Ee. res_simpl. eexists. split; [done|].
    assert (forall q, q ∈ s1 ++ s2 <-> q ∈ m_timers st /\ q <> p) as Hq.
    { intros q. rewrite E, !elem_of_app, elem_of_cons. split.
      - intros H. split; [tauto|]. intros ->. apply Hn. by apply elem_of_app.
      - intros [[?|[?|?]] ?]; tauto. }
    split; [constructor; simpl|split; [done|]].
    + rewrite E in Hs'. by apply sorted_sublist in Hs'.
    + rewrite Forall_forall in *. intros q Hq'. apply Ha', Hq, Hq'.
    + intros q t'. unfold h. rewrite lookup_insert. case_decide.
      * intros [= <-] []. discriminate.
      * intros Hq1 Hq2. apply Hq. eauto.
    + intros q t'. unfold h. rewrite lookup_insert. case_decide; [|eauto].
      intros [= <-]. simpl. eauto.
    + assert (pending (with_store h (s1 ++ s2) st) = delete p (pending st)) as ->.
      { apply map_eq. intros q. apply option_eq. intros t'.
        rewrite pending_Some, lookup_delete_Some, pending_Some. simpl.
        rewrite Hq. unfold h. split.
        - intros [H1 [H2 H3]]. rewrite lookup_insert_ne in H1 by done. naive_solver.
        - intros (H1 & H2 & H3). rewrite lookup_insert_ne by done. naive_solver. }
      split; [done|]. intros _. apply lookup_delete_eq.
  - rewrite bool_decide_false by (intros []; discriminate).
    eexists. split; [done|]. split; [by constructor|]. split.
    + symmetry. apply insert_id. rewrite Hp. f_equal.
      destruct t. simpl in Ec. by subst.
    + split; [done|]. intros [? ?]. discriminate.
Qed.

(** [refresh] never moves a timer: an armed one is found in the set, and
    then the code returns before rescheduling. *)
Lemma refresh_ok st now p t :
  wf st -> m_heap st !! p = Some t -> refresh now p st = Ok (false, st).
Proof.
  intros [Hs Ha Harm Hu] Hp. unfold refresh. rewrite Hp, deref_Some. res_simpl.
  destruct (m_cb t) eqn:Ec; [|done].
  rewrite find_member; auto. apply (Harm p t); eauto.
Qed.

Lemma reset_ok st now p t ms from_now :
  wf st -> m_heap st !! p = Some t -> is_u64 ms -> is_u64 now ->
  is_Some (m_cb t) -> (ms =? m_ms t) && negb from_now = false ->
  exists front st',
    reset now p ms from_now st = Ok (true, front, st') /\ wf st' /\
    let t' := Timer (m_recurring t) ms
                (u64 ((if from_now then now else u64 (m_next t - m_ms t)) + ms)) (m_cb t) in
    m_heap st' = <[p := t']> (m_heap st) /\
    pending st' = <[p := t']> (pending st).
Proof.
  intros [Hs Ha Harm Hu] Hp Hms Hnow Hcb Hsame. unfold reset.
  rewrite Hp, deref_Some. res_simpl. rewrite Hsame.
  assert (p ∈ m_timers st) as Hin by (apply (Harm p t); eauto).
  destruct Hcb as [c Hc]. rewrite Hc.
  rewrite find_member by auto.
  destruct (find_erase _ _ p Hs Ha Hin) as (s1 & s2 & E & Ef & Ee & Hn).
  rewrite Ee. res_simpl.
  set (start := if from_now then now else u64 (m_next t - m_ms t)).
  set (t' := Timer (m_recurring t) ms (u64 (start + ms)) (Some c)).
  destruct (addTimer_locked p _) as [front st'] eqn:Eadd.
  assert (forall q, q ∈ s1 ++ s2 <-> q ∈ m_timers st /\ q <> p) as Hq.
  { intros q. rewrite E, !elem_of_app, elem_of_cons. split.
    - intros H. split; [tauto|]. intros ->. apply Hn. by apply elem_of_app.
    - intros [[?|[?|?]] ?]; tauto. }
  eapply (addTimer_locked_ok _ p t') in Eadd; simpl in *; [| | | | |by apply lookup_insert_eq|done].
  - destruct Eadd as (Hwf & Hh & Hpend & _). exists front, st'.
    split; [done|]. split; [done|]. rewrite Hpend. split; [done|].
    apply map_eq. intros q. fold start t'. rewrite !lookup_insert. case_decide; [done|].
    apply option_eq. intros u. rewrite !pending_Some. simpl.
    rewrite lookup_insert_ne by done. rewrite Hq. naive_solver.
  - apply sorted_insert_heap; [|by intros]. rewrite E in Hs. by apply sorted_sublist in Hs.
  - apply alive_insert. rewrite Forall_forall in *. intros q Hq'. apply Ha, Hq, Hq'.
  - intros q u. rewrite lookup_insert. case_decide; [auto|].
    intros H1 H2. right. apply Hq. eauto.
  - intros q u. rewrite lookup_insert. case_decide; [|eauto].
    intros [= <-]. simpl. split; [apply u64_range|done].
Qed.

(** The earliest deadline is the first element's. *)
Lemma getNextTimer_ok st now :
  wf st -> is_u64 now ->
  exists r, getNextTimer now st = Ok (r, with_tickled false st) /\
    (m_timers st = [] -> r = U64_MAX) /\
    (m_timers st <> [] ->
       (exists p t, pending st !! p = Some t /\ r = Z.max 0 (m_next t - now)) /\
       forall p t, pending st !! p = Some t -> r <= Z.max 0 (m_next t - now)).
Proof.
  intros [Hs Ha Harm Hu] Hnow. unfold getNextTimer.
  destruct (m_timers st) as [|p s] eqn:E.
  - eexists. split; [done|]. split; [done|]. intros []. done.
  - inversion Ha as [|? ? [t Ht] Ha']; subst. rewrite Ht, deref_Some. res_simpl.
    assert ((if m_next t <=? now then 0 else m_next t - now)
            = Z.max 0 (m_next t - now)) as -> by (zcases; lia).
    eexists. split; [done|]. split; [done|]. intros _. split.
    + exists p, t. split; [|done]. apply pending_Some. rewrite E.
      split; [done|]. apply elem_of_cons. by left.
    + intros q u Hq. apply pending_Some in Hq as [Hq Hin].
      rewrite E in Hin. apply elem_of_cons in Hin as [->|Hin].
      * rewrite Hq in Ht. simplify_eq. lia.
      * inversion Hs as [|? ? Hs' Hf]; subst. rewrite Forall_forall in Hf.
        apply Hf in Hin. rewrite (timer_lt_iff _ _ _ t u) in Hin by done. lia.
Qed.

(** *** Expiry *)

Definition cb_at h (p : loc) : option (callback F W) := h !! p ≫= m_cb.

Definition fired (now : Z) t : timer F W :=
  default (set_cb None t) (rearm now t).

Lemma fire_one_ok now p t st :
  sorted (timer_lt (m_heap st)) (m_timers st) ->
  Forall (fun q => is_Some (m_heap st !! q)) (m_timers st) ->
  m_heap st !! p = Some t -> p ∉ m_timers st ->
  let st1 := fire_one now p t st in
  m_heap st1 = <[p := fired now t]> (m_heap st) /\
  m_tickled st1 = m_tickled st /\ m_previouseTime st1 = m_previouseTime st /\
  sorted (timer_lt (m_heap st1)) (m_timers st1) /\
  Forall (fun q => is_Some (m_heap st1 !! q)) (m_timers st1) /\
  (forall q, q ∈ m_timers st1 <->
     q ∈ m_timers st \/ (q = p /\ m_recurring t = true)).
Proof.
  intros Hs Ha Ht Hp. unfold fire_one, fired, rearm.
  set (n := u64 (now + m_ms t)).
  destruct (m_recurring t); simpl; (split; [done|]); (split; [done|]); (split; [done|]).
  - destruct (insert_store (<[p := set_next n t]> (m_heap st)) (m_timers st) p)
      as (H1 & H2 & H3); auto.
    + apply sorted_insert_heap; [done|by intros].
    + by apply alive_insert.
    + rewrite lookup_insert_eq. eauto.
    + split; [done|]. split; [done|]. intros q. rewrite H3. naive_solver.
  - split; [apply sorted_insert_heap; [done|by intros]|].
    split; [by apply alive_insert|]. naive_solver.
Qed.

(** What the loop relies on: [ps] are live objects outside the set, every
    armed object is in one of the two. *)
Record firing (ps : list loc) st : Prop := Firing {
  fi_sorted : sorted (timer_lt (m_heap st)) (m_timers st);
  fi_alive : Forall (fun q => is_Some (m_heap st !! q)) (m_timers st);
  fi_live : Forall (fun q => is_Some (m_heap st !! q)) ps;
  fi_nodup : NoDup ps;
  fi_out : forall q, q ∈ ps -> q ∉ m_timers st;
  fi_armed : forall q t, m_heap st !! q = Some t -> is_Some (m_cb t) ->
     q ∈ m_timers st \/ q ∈ ps;
  fi_u64 : forall q t, m_heap st !! q = Some t -> is_u64 (m_next t) /\ is_u64 (m_ms t)
}.

Lemma fire_one_firing now p t ps st :
  firing (p :: ps) st -> m_heap st !! p = Some t -> firing ps (fire_one now p t st).
Proof.
  intros [Hs Ha Hps Hnd Hdis Harm Hu] Ht.
  apply NoDup_cons in Hnd as [Hnp Hnd]. inversion Hps; subst.
  assert (p ∉ m_timers st) as Hpn by (apply Hdis, elem_of_cons; by left).
  destruct (fire_one_ok now p t st Hs Ha Ht Hpn) as (Eh & _ & _ & Hs1 & Ha1 & Hel).
  constructor; auto.
  - rewrite Eh. by apply alive_insert.
  - intros q Hq. rewrite Hel. intros [?|[-> _]]; [|done].
    eapply Hdis; eauto. apply elem_of_cons. by right.
  - intros q u. rewrite Eh, lookup_insert. case_decide.
    + intros [= <-] Hc. left. apply Hel. right. split; [done|].
      unfold fired, rearm in Hc. destruct (m_recurring t); [done|].
      simpl in Hc. by destruct Hc.
    + intros Hq1 Hq2. rewrite Hel. destruct (Harm q u Hq1 Hq2) as [?|Hin]; [auto|].
      apply elem_of_cons in Hin as [->|?]; [congruence|auto].
  - intros q u. rewrite Eh, lookup_insert. case_decide; [|eauto].
    intros [= <-]. destruct (Hu p t Ht). unfold fired, rearm.
    destruct (m_recurring t); simpl; [|auto]. split; [apply u64_range|done].
Qed.

Lemma fire_expired_ok now ps : forall st cbs,
  firing ps st ->
  exists st',
    fire_expired now ps cbs st = Ok (cbs ++ map (cb_at (m_heap st)) ps, st') /\ wf st' /\
    m_tickled st' = m_tickled st /\ m_previouseTime st' = m_previouseTime st /\
    (forall q, m_heap st' !! q =
       (if bool_decide (q ∈ ps) then fired now <$> m_heap st !! q else m_heap st !! q)) /\
    (forall q, q ∈ m_timers st' <->
       q ∈ m_timers st \/
       (q ∈ ps /\ exists t, m_heap st !! q = Some t /\ m_recurring t = true)).
Proof.
  induction ps as [|p ps IH]; intros st cbs Hf; simpl.
  { destruct Hf. exists st. rewrite app_nil_r. split; [done|]. split; [|set_solver].
    constructor; auto. intros q t H1 H2. destruct (fi_armed0 q t H1 H2); set_solver. }
  pose proof Hf as [Hs Ha Hps Hnd Hdis _ _].
  apply NoDup_cons in Hnd as [Hnp Hnd].
  apply Forall_cons in Hps as [[t Ht] Hps].
  rewrite Ht, deref_Some. res_simpl.
  destruct (fire_one_ok now p t st Hs Ha Ht ltac:(apply Hdis, elem_of_cons; by left))
    as (Eh & Et & Ep & _ & _ & Hel).
  destruct (IH _ (cbs ++ [m_cb t]) (fire_one_firing now p t ps st Hf Ht))
    as (st' & E & Hwf & Et' & Ep' & Hheap & Htim).
  exists st'. rewrite E. split.
  { f_equal. rewrite <- app_assoc. simpl. do 2 f_equal. f_equal.
    - unfold cb_at. by rewrite Ht.
    - rewrite Eh. apply map_ext_in. intros q Hq%list_elem_of_In.
      unfold cb_at. rewrite lookup_insert_ne; [done|]. congruence. }
  split; [done|]. split; [by rewrite Et'|]. split; [by rewrite Ep'|].
  split; intros q; [rewrite Hheap, Eh|rewrite Htim, Hel, Eh; setoid_rewrite elem_of_cons];
    destruct (decide (q = p)) as [->|Hne];
    rewrite ?lookup_insert_eq, ?lookup_insert_ne by done.
  - rewrite bool_decide_false by done.
    rewrite bool_decide_true by (apply elem_of_cons; by left). by rewrite Ht.
  - replace (bool_decide (q ∈ p :: ps)) with (bool_decide (q ∈ ps)); [done|].
    apply bool_decide_ext. rewrite elem_of_cons. naive_solver.
  - split.
    + intros [[?|[_ ?]]|[? _]]; [auto|right; eauto|done].
    + intros [?|[_ (u & H1 & H2)]]; [auto|]. rewrite Ht in H1. simplify_eq. auto.
  - naive_solver.
Qed.

Lemma skip_equal_take h now s :
  Forall (fun p => exists t, h !! p = Some t /\ m_next t = now) (take (skip_equal h now s) s).
Proof.
  induction s as [|p s IH]; simpl; [constructor|].
  destruct (h !! p) as [t|] eqn:E; [|constructor].
  destruct (Z.eqb_spec (m_next t) now); simpl; [|constructor].
  constructor; eauto.
Qed.

Lemma skip_equal_at h now s p t :
  s !! skip_equal h now s = Some p -> h !! p = Some t -> m_next t <> now.
Proof.
  induction s as [|q s IH]; simpl; [done|].
  destruct (h !! q) as [u|] eqn:E; [|naive_solver].
  destruct (Z.eqb_spec (m_next u) now); simpl; [auto|naive_solver].
Qed.

Lemma skip_equal_drop h now s :
  sorted (timer_lt h) s ->
  Forall (fun p => exists t, h !! p = Some t /\ now <= m_next t) s ->
  Forall (fun p => exists t, h !! p = Some t /\ now < m_next t)
    (drop (skip_equal h now s) s).
Proof.
  intros Hs Hge. pose proof (skip_equal_at h now s) as Hat.
  set (k := skip_equal h now s) in *.
  rewrite <- (take_drop k s) in Hs. apply sorted_app in Hs as (_ & Hs & _).
  rewrite <- (Nat.add_0_r k), <- lookup_drop in Hat.
  rewrite <- (take_drop k s) in Hge. apply Forall_app in Hge as [_ Hge].
  destruct (drop k s) as [|p s3]; [constructor|].
  inversion Hge as [|? ? (t & Hpt & Hle) Hge']; subst.
  assert (now < m_next t) as Hlt by (pose proof (Hat p t eq_refl Hpt); lia).
  constructor; [eauto|]. inversion Hs as [|? ? _ Hf]; subst.
  rewrite Forall_forall in *. intros q Hq.
  destruct (Hge' q Hq) as (u & Hu & _). exists u. split; [done|].
  specialize (Hf q Hq). rewrite (timer_lt_iff _ _ _ t u) in Hf by done. lia.
Qed.

(** [lower_bound] of the probe plus the loop over equal deadlines cuts the
    set at [now], wherever the probe was allocated. *)
Lemma split_due h s now probe :
  sorted (timer_lt h) s -> Forall (fun q => is_Some (h !! q)) s -> h !! probe = None ->
  let it0 := set_lower_bound (timer_lt (<[probe := probe_timer now]> h)) s probe in
  let it := (it0 + skip_equal h now (drop it0 s))%nat in
  Forall (fun p => exists t, h !! p = Some t /\ m_next t <= now) (take it s) /\
  Forall (fun p => exists t, h !! p = Some t /\ now < m_next t) (drop it s).
Proof.
  intros Hs Ha Hprobe it0 it.
  set (h' := <[probe := probe_timer now]> h) in *.
  assert (forall q t, h !! q = Some t -> h' !! q = Some t) as Hh'.
  { intros q t Hq. unfold h'. rewrite lookup_insert_ne; [done|congruence]. }
  assert (h' !! probe = Some (probe_timer now)) as Hpr by apply lookup_insert_eq.
  assert (sorted (timer_lt h') s) as Hs'.
  { apply sorted_insert_heap; [done|]. intros Hin. rewrite Forall_forall in Ha.
    destruct (Ha _ Hin). congruence. }
  assert (Forall (fun q => is_Some (h' !! q)) s) as Ha' by (by apply alive_insert).
  pose proof (lower_bound_take (timer_lt h') s probe) as Ht. fold it0 in Ht.
  pose proof (lower_bound_drop _ _ (timer_lt_total h') s probe (mk_is_Some _ _ Hpr) Ha' Hs') as Hd.
  fold it0 in Hd. rewrite Forall_forall in Ht, Hd, Ha.
  split.
  - unfold it. rewrite <- take_take_drop. apply Forall_app. split.
    + apply Forall_forall. intros p Hp.
      destruct (Ha p) as [t Hpt]; [by eapply elem_of_take_of|].
      exists t. split; [done|].
      specialize (Ht p Hp). rewrite (timer_lt_iff h' p probe t _ (Hh' _ _ Hpt) Hpr) in Ht.
      simpl in Ht. lia.
    + eapply Forall_impl; [apply skip_equal_take|]. naive_solver lia.
  - unfold it. rewrite <- drop_drop. apply skip_equal_drop.
    + rewrite <- (take_drop it0 s) in Hs. by apply sorted_app in Hs as (_ & Hs & _).
    + apply Forall_forall. intros p Hp.
      destruct (Ha p) as [t Hpt]; [by eapply elem_of_drop_of|].
      exists t. split; [done|]. specialize (Hd p Hp).
      destruct (Z.lt_ge_cases (m_next t) now) as [Hlt|]; [|done].
      rewrite <- not_true_iff_false, (timer_lt_iff h' p probe t _ (Hh' _ _ Hpt) Hpr) in Hd.
      simpl in Hd. lia.
Qed.

(** The position where [listExpiredCb] cuts the set. *)
Definition expiry_cut (ro : bool) (now : Z) (probe : loc) st : nat :=
  let s := m_timers st in
  let h := <[probe := probe_timer now]> (m_heap st) in
  let it0 := if ro then length s else set_lower_bound (timer_lt h) s probe in
  (it0 + skip_equal (m_heap st) now (drop it0 s))%nat.

Lemma expiry_cut_ok st now probe ro :
  wf st -> m_heap st !! probe = None ->
  Forall (fun p => exists t, m_heap st !! p = Some t /\ due ro now t = true)
    (take (expiry_cut ro now probe st) (m_timers st)) /\
  Forall (fun p => exists t, m_heap st !! p = Some t /\ due ro now t = false)
    (drop (expiry_cut ro now probe st) (m_timers st)).
Proof.
  intros [Hs Ha _ _] Hprobe. unfold expiry_cut, due. destruct ro; simpl.
  - rewrite drop_all. simpl. rewrite Nat.add_0_r, firstn_all, drop_all.
    split; [|constructor]. eapply Forall_impl; [exact Ha|]. intros p [t Ht]. eauto.
  - destruct (split_due _ _ now probe Hs Ha Hprobe) as [H1 H2].
    split; (eapply Forall_impl; [eassumption|]); intros p (t & Ht & Hle);
      exists t; split; auto; [by apply Z.leb_le|by apply Z.leb_gt].
Qed.

(** Membership in the two halves of the cut. *)
Lemma expiry_cut_elem st now probe ro p :
  wf st -> m_heap st !! probe = None ->
  (p ∈ take (expiry_cut ro now probe st) (m_timers st) <->
     exists t, pending st !! p = Some t /\ due ro now t = true) /\
  (p ∈ drop (expiry_cut ro now probe st) (m_timers st) <->
     exists t, pending st !! p = Some t /\ due ro now t = false).
Proof.
  intros Hwf Hprobe. destruct (expiry_cut_ok st now probe ro Hwf Hprobe) as [H1 H2].
  rewrite Forall_forall in H1, H2.
  assert (p ∈ m_timers st <-> p ∈ take (expiry_cut ro now probe st) (m_timers st) \/
            p ∈ drop (expiry_cut ro now probe st) (m_timers st)) as Hsplit
    by (rewrite <- elem_of_app; by rewrite take_drop).
  setoid_rewrite pending_Some. setoid_rewrite Hsplit.
  split; (split; [intros Hp|intros (t & [Ht [Hp|Hp]] & Hd)]); auto.
  - destruct (H1 p Hp) as (t & ? & ?). eauto.
  - destruct (H2 p Hp) as (u & Hu & Hd'). congruence.
  - destruct (H2 p Hp) as (t & ? & ?). eauto.
  - destruct (H1 p Hp) as (u & Hu & Hd'). congruence.
Qed.

Lemma expiry_cut_firing st now probe ro :
  wf st -> m_heap st !! probe = None ->
  let it := expiry_cut ro now probe st in
  firing (take it (m_timers st)) (with_store (m_heap st) (drop it (m_timers st)) st).
Proof.
  intros [Hs Ha Harm Hu] Hprobe it.
  pose proof (sorted_NoDup _ _ _ (timer_lt_total _) Ha Hs) as Hnd.
  assert (m_timers st = take it (m_timers st) ++ drop it (m_timers st)) as Esplit
    by (symmetry; apply take_drop).
  clearbody it. rewrite Esplit in Hs, Ha, Hnd.
  apply sorted_app in Hs as (_ & Hs & _). apply Forall_app in Ha as [Ha1 Ha2].
  apply NoDup_app in Hnd as (Hnd1 & Hdis & Hnd2).
  constructor; auto. intros q t Hq Hc. simpl in Hq.
  specialize (Harm q t Hq Hc). rewrite Esplit in Harm.
  apply elem_of_app in Harm. simpl. tauto.
Qed.

(** The two critical sections in one statement: after the rollover test and
    the early return, exactly the due timers are handed out, in deadline
    order, and the pending timers become [expire_spec]. *)
Lemma listExpired_locked_ok st now probe cbs ro st1 p0 t0 :
  wf st -> m_heap st !! probe = None ->
  detectClockRollover now st = (ro, st1) ->
  head (m_timers st) = Some p0 -> m_heap st !! p0 = Some t0 ->
  ro = true \/ m_next t0 <> now ->
  exists expired st',
    listExpired_locked now probe cbs st
      = Ok (cbs ++ map (cb_at (m_heap st)) expired, st') /\
    wf st' /\ pending st' = expire_spec ro now (pending st) /\
    sorted (timer_lt (m_heap st)) expired /\
    (forall p, p ∈ expired <->
       exists t, pending st !! p = Some t /\ due ro now t = true) /\
    (forall p, p ∉ expired -> m_heap st' !! p = m_heap st !! p).
Proof.
  intros Hwf Hprobe Hro Hhd Ht0 Hgo.
  unfold listExpired_locked. rewrite Hro. injection Hro as _ <-. simpl.
  rewrite Hhd, !deref_Some. res_simpl. rewrite Ht0, !deref_Some. res_simpl.
  fold (expiry_cut ro now probe st). set (it := expiry_cut ro now probe st).
  replace (if ro then mret false else mret (m_next t0 =? now)) with (@Ok bool false)
    by (destruct ro; [done|]; destruct Hgo as [?|Hne]; [done|];
        by apply Z.eqb_neq in Hne as ->).
  res_simpl.
  set (st2 := with_store _ _ _).
  destruct (fire_expired_ok now (take it (m_timers st)) st2 cbs)
    as (st' & E & Hwf' & _ & _ & Hheap & Htim).
  { pose proof (expiry_cut_firing st now probe ro Hwf Hprobe) as []. by constructor. }
  rewrite E. exists (take it (m_timers st)), st'.
  split; [done|]. split; [done|]. split; [|split].
  - apply map_eq. intros q. apply option_eq. intros u.
    destruct (expiry_cut_elem st now probe ro q Hwf Hprobe) as [Hin Hout].
    fold it in Hin, Hout. unfold expire_spec. rewrite lookup_omap.
    rewrite pending_Some, Hheap, Htim. simpl.
    destruct (pending st !! q) as [t|] eqn:Eq; simpl.
    + pose proof Eq as [Ht _]%pending_Some. rewrite Ht. simpl.
      destruct (due ro now t) eqn:Ed.
      * rewrite bool_decide_true by (apply Hin; eauto). unfold fired, rearm.
        assert (q ∉ drop it (m_timers st)) by (rewrite Hout; naive_solver congruence).
        destruct (m_recurring t) eqn:Er; simpl; naive_solver congruence.
      * rewrite bool_decide_false by (rewrite Hin; naive_solver congruence).
        naive_solver congruence.
    + assert (q ∉ take it (m_timers st)) as H1 by (rewrite Hin; naive_solver).
      assert (q ∉ drop it (m_timers st)) as H2 by (rewrite Hout; naive_solver).
      naive_solver.
  - destruct Hwf as [Hs _ _ _]. rewrite <- (take_drop it (m_timers st)) in Hs.
    by apply sorted_app in Hs as (? & _ & _).
  - split; intros q; [by apply (expiry_cut_elem st now probe ro q Hwf Hprobe)|].
    intros Hq. rewrite Hheap. by rewrite bool_decide_false.
Qed.

(** The early return: nothing expires when the first deadline is [now]. *)
Lemma listExpired_locked_early st now probe cbs st1 p0 t0 :
  detectClockRollover now st = (false, st1) ->
  head (m_timers st) = Some p0 -> m_heap st !! p0 = Some t0 -> m_next t0 = now ->
  listExpired_locked now probe cbs st = Ok (cbs, st1).
Proof.
  intros Hro Hhd Ht0 Hn. unfold listExpired_locked. rewrite Hro.
  injection Hro as _ <-. simpl. rewrite Hhd, !deref_Some. res_simpl.
  rewrite Ht0, !deref_Some. res_simpl. by rewrite Hn, Z.eqb_refl.
Qed.

(** ** Histories of calls *)

(** A call of the public interface, with the clock readings and allocated
    addresses it consumes. *)
Inductive call : Type :=
| CallAdd (now : Z) (p : loc) (ms : Z) (cb : option (callback F W)) (rec : bool)
| CallCancel (p : loc)
| CallRefresh (now : Z) (p : loc)
| CallReset (now : Z) (p : loc) (ms : Z) (from_now : bool)
| CallGetNext (now : Z)
| CallExpire (now : Z) (probe : loc).

Definition exec (c : call) st : res (manager F W) :=
  match c with
  | CallAdd now p ms cb rec => mret (addTimer now p ms cb rec st).2
  | CallCancel p => snd <$> cancel p st
  | CallRefresh now p => snd <$> refresh now p st
  | CallReset now p ms from_now => snd <$> reset now p ms from_now st
  | CallGetNext now => snd <$> getNextTimer now st
  | CallExpire now probe => snd <$> listExpiredCb now probe [] st
  end.

(** What the language guarantees of a call: [new] returns a fresh address, a
    [Timer::ptr] points to an object, times are 64-bit. *)
Definition valid_call (c : call) st : Prop :=
  match c with
  | CallAdd now p ms _ _ => m_heap st !! p = None /\ is_u64 now /\ is_u64 ms
  | CallCancel p => is_Some (m_heap st !! p)
  | CallRefresh now p => is_Some (m_heap st !! p) /\ is_u64 now
  | CallReset now p ms _ => is_Some (m_heap st !! p) /\ is_u64 now /\ is_u64 ms
  | CallGetNext now => is_u64 now
  | CallExpire now probe => m_heap st !! probe = None /\ is_u64 now
  end.

Inductive steps : manager F W -> manager F W -> Prop :=
| steps_refl st : steps st st
| steps_step st c st1 st2 :
    valid_call c st -> exec c st = Ok st1 -> steps st1 st2 -> steps st st2.

Lemma init_wf now : wf (init_manager now).
Proof.
  constructor; simpl; [constructor|constructor|..]; intros ? ?; by rewrite lookup_empty.
Qed.

Lemma wf_empty_previous st n b :
  wf st -> wf (Manager (m_heap st) (m_timers st) b n).
Proof. intros []. by constructor. Qed.

Lemma exec_ok c st : wf st -> valid_call c st -> exists st', exec c st = Ok st' /\ wf st'.
Proof.
  intros Hwf Hv. destruct c; simpl in *.
  - destruct Hv as (Hp & Hn & Hms).
    destruct (addTimer now p ms cb rec st) as [b st'] eqn:E.
    apply addTimer_ok in E as (? & _); eauto.
  - destruct Hv as [t Ht]. destruct (cancel_ok _ _ _ Hwf Ht) as (st' & -> & ? & _). eauto.
  - destruct Hv as [[t Ht] _]. rewrite (refresh_ok _ _ _ _ Hwf Ht). eauto.
  - destruct Hv as ([t Ht] & Hn & Hms).
    destruct ((ms =? m_ms t) && negb from_now) eqn:E.
    { unfold reset. rewrite Ht, deref_Some. res_simpl. rewrite E. eauto. }
    destruct (m_cb t) eqn:Ec.
    + destruct (reset_ok _ now _ _ ms from_now Hwf Ht) as (f & st' & -> & ? & _); eauto.
    + unfold reset. rewrite Ht, deref_Some. res_simpl. rewrite E, Ec. eauto.
  - destruct (getNextTimer_ok _ now Hwf Hv) as (r & -> & _).
    eexists. split; [done|]. by apply wf_empty_previous.
  - destruct Hv as [Hp Hn]. unfold listExpiredCb, hasTimer.
    destruct (m_timers st) as [|p0 s] eqn:Es; [eauto|].
    destruct (detectClockRollover now st) as [ro st1] eqn:Ed.
    pose proof (wf_alive _ Hwf) as Ha. rewrite Es in Ha.
    apply Forall_cons in Ha as [[t0 Ht0] _].
    destruct (decide (ro = true \/ m_next t0 <> now)) as [Hgo|Hno].
    + edestruct (listExpired_locked_ok st now probe []) as (ex & st' & -> & ? & _);
        eauto; by rewrite Es.
    + destruct ro; [tauto|].
      rewrite (listExpired_locked_early st now probe [] st1 p0 t0); auto.
      * injection Ed as _ <-. eexists. split; [done|]. by apply wf_empty_previous.
      * by rewrite Es.
      * destruct (decide (m_next t0 = now)); tauto.
Qed.

Lemma steps_wf st st' : wf st -> steps st st' -> wf st'.
Proof.
  intros Hwf H. revert Hwf. induction H as [|st c st1 st2 Hv He _ IH]; [done|].
  intros Hwf. apply IH. destruct (exec_ok c st Hwf Hv) as (? & ? & ?). congruence.
Qed.

(** A timer that is out of the manager for good: no callback, not
    pending. *)
Definition retired (p : loc) st : Prop :=
  (exists t, m_heap st !! p = Some t /\ m_cb t = None) /\ pending st !! p = None.

Lemma retired_same p st st' :
  m_heap st' !! p = m_heap st !! p -> pending st' !! p = pending st !! p ->
  retired p st -> retired p st'.
Proof. unfold retired. by intros -> ->. Qed.

Lemma retired_reset p st now q ms from_now b f st' :
  wf st -> is_Some (m_heap st !! q) -> is_u64 now -> is_u64 ms ->
  reset now q ms from_now st = Ok (b, f, st') -> retired p st -> retired p st'.
Proof.
  intros Hwf [u Hu] Hn Hms He Hr.
  destruct (decide (m_cb u = None \/ (ms =? m_ms u) && negb from_now = true)) as [Hno|Hgo].
  - unfold reset in He. rewrite Hu, deref_Some in He. res_simpl.
    assert (st' = st) as ->; [|done].
    revert He. destruct ((ms =? m_ms u) && negb from_now); [by intros [= _ _ <-]|].
    destruct (m_cb u); [naive_solver|by intros [= _ _ <-]].
  - apply Decidable.not_or in Hgo as [Hc Hsame%not_true_iff_false].
    destruct (reset_ok st now _ _ ms from_now Hwf Hu) as (f' & s & Es & _ & Hh & Hpe); auto.
    { by apply not_eq_None_Some. }
    rewrite Es in He. injection He as <- <- <-.
    assert (p <> q) as Hne
      by (intros ->; destruct Hr as [(t & Ht & Hct) _]; naive_solver congruence).
    apply (retired_same p st); rewrite ?Hh, ?Hpe, ?lookup_insert_ne; auto.
Qed.

Lemma retired_expire p st now probe cbs cbs' st' :
  wf st -> m_heap st !! probe = None ->
  listExpiredCb now probe cbs st = Ok (cbs', st') -> retired p st -> retired p st'.
Proof.
  intros Hwf Hpr He Hr. unfold listExpiredCb, hasTimer in He.
  destruct (m_timers st) as [|p1 s1] eqn:Es; [by injection He as _ <-|].
  pose proof (wf_alive _ Hwf) as Ha. rewrite Es in Ha.
  apply Forall_cons in Ha as [[t1 Ht1] _].
  destruct (detectClockRollover now st) as [ro s2] eqn:Ed.
  destruct (decide (ro = true \/ m_next t1 <> now)) as [Hgo|Hno].
  - destruct (listExpired_locked_ok st now probe cbs ro s2 p1 t1)
      as (ex & s3 & E3 & _ & Hpe & _ & Hex & Hh); auto; [by rewrite Es|].
    rewrite E3 in He. injection He as _ <-.
    pose proof Hr as [_ Hn].
    assert (p ∉ ex) by (rewrite Hex, Hn; naive_solver).
    apply (retired_same p st); auto.
    rewrite Hpe. unfold expire_spec. by rewrite lookup_omap, Hn.
  - apply Decidable.not_or in Hno as [Hro Hne%dec_stable].
    apply not_true_is_false in Hro as ->.
    rewrite (listExpired_locked_early st now probe cbs s2 p1 t1) in He; auto; [|by rewrite Es].
    injection He as _ <-. by injection Ed as _ <-.
Qed.

Lemma retired_step p c st st' :
  wf st -> valid_call c st -> exec c st = Ok st' -> retired p st -> retired p st'.
Proof.
  intros Hwf Hv He Hr. destruct c; simpl in *.
  - destruct Hv as (Hq & Hn & Hms).
    destruct (addTimer now p0 ms cb rec st) as [b s] eqn:E. injection He as <-.
    apply addTimer_ok in E as (_ & H1 & H2 & _); auto.
    assert (p <> p0) as Hne by (intros ->; destruct Hr as [(t & Ht & _) _]; congruence).
    apply (retired_same p st); rewrite ?H1, ?H2, ?lookup_insert_ne; auto.
  - destruct Hv as [u Hu]. destruct (cancel_ok _ _ _ Hwf Hu) as (s & Es & _ & Hh & Hpe & _).
    rewrite Es in He. injection He as <-. unfold retired. rewrite Hh, Hpe.
    destruct Hr as [Hc Hp]. split.
    + rewrite lookup_insert. case_decide; [by exists (set_cb None u)|done].
    + case_bool_decide; [|done]. rewrite lookup_delete. by case_decide.
  - destruct Hv as [[u Hu] _]. rewrite (refresh_ok _ _ _ _ Hwf Hu) in He.
    by injection He as <-.
  - destruct Hv as (Hu & Hn & Hms). destruct (reset now p0 ms from_now st) as [[[b f] s]|] eqn:E;
      [|done]. injection He as <-. by apply (retired_reset p st now p0 ms from_now b f s).
  - destruct (getNextTimer_ok _ now Hwf Hv) as (r & Er & _).
    rewrite Er in He. injection He as <-. by apply (retired_same p st).
  - destruct Hv as [Hpr Hn]. destruct (listExpiredCb now probe [] st) as [[cbs s]|] eqn:E;
      [|done]. injection He as <-. by apply (retired_expire p st now probe [] cbs s).
Qed.

Lemma steps_retired p st st' : wf st -> steps st st' -> retired p st -> retired p st'.
Proof.
  intros Hwf H. revert Hwf. induction H as [|st c st1 st2 Hv He _ IH]; [done|].
  intros Hwf Hr. apply IH; [|by eapply retired_step].
  destruct (exec_ok c st Hwf Hv) as (? & ? & ?). congruence.
Qed.

(** ** Properties *)

(** C19.  Every manager a client can build - any sequence of [addTimer],
    [cancel], [refresh], [reset], [getNextTimer] and [listExpiredCb] calls
    from the constructor - keeps [m_timers] strictly sorted by
    [Timer::Comparator] with only live objects in it, every timer that still
    has a callback is in the set, and the next valid call returns normally:
    no search misses, no [erase(end())], no dangling pointer. *)
Theorem manager_safe (now0 : Z) (c : call) (st : manager F W) :
  steps (init_manager now0) st -> valid_call c st ->
  wf st /\ NoDup (m_timers st) /\ exists st', exec c st = Ok st' /\ wf st'.
Proof.
  intros H Hv. pose proof (steps_wf _ _ (init_wf now0) H) as Hwf.
  split; [done|]. split; [|by apply exec_ok].
  destruct Hwf. by eapply sorted_NoDup; [apply timer_lt_total| |].
Qed.

(** C23.  [listExpiredCb] refines its specification on a map of pending
    timers: provided the first deadline is not exactly the current
    millisecond (or the clock rolled back), it hands out the callbacks of
    exactly the due timers, in deadline order, drops the one-shot ones and
    rearms the recurring ones one period from now; the address of the probe
    object plays no part. *)
Theorem listExpiredCb_refines (st : manager F W) now probe cbs ro st1 p0 t0 :
  wf st -> m_heap st !! probe = None ->
  detectClockRollover now st = (ro, st1) ->
  head (m_timers st) = Some p0 -> m_heap st !! p0 = Some t0 ->
  ro = true \/ m_next t0 <> now ->
  exists expired st',
    listExpiredCb now probe cbs st
      = Ok (cbs ++ map (cb_at (m_heap st)) expired, st') /\
    wf st' /\ pending st' = expire_spec ro now (pending st) /\
    sorted (timer_lt (m_heap st)) expired /\
    (forall p, p ∈ expired <->
       exists t, pending st !! p = Some t /\ due ro now t = true).
Proof.
  intros Hwf Hpr Hro Hhd Ht0 Hgo. unfold listExpiredCb, hasTimer.
  destruct (m_timers st) eqn:E; [done|].
  destruct (listExpired_locked_ok st now probe cbs ro st1 p0 t0)
    as (ex & st' & ? & ? & ? & ? & ? & _); auto; [by rewrite E|]. by exists ex, st'.
Qed.

(** When the earliest deadline is exactly the current millisecond,
    [listExpiredCb] hands out nothing at all - whatever else is due - and
    only records the time, although [getNextTimer] reports the timer as
    expired (0 ms to wait). *)
Theorem listExpiredCb_misses_exact_deadline (st : manager F W) now probe cbs p0 t0 :
  is_u64 now -> m_previouseTime st <= now ->
  head (m_timers st) = Some p0 -> m_heap st !! p0 = Some t0 -> m_next t0 = now ->
  listExpiredCb now probe cbs st
    = Ok (cbs, Manager (m_heap st) (m_timers st) (m_tickled st) now) /\
  getNextTimer now st = Ok (0, with_tickled false st).
Proof.
  intros Hn Hprev Hhd Ht0 Heq. split.
  - unfold listExpiredCb, hasTimer. destruct (m_timers st) eqn:E; [done|].
    rewrite <- E in *. eapply listExpired_locked_early; eauto.
    unfold detectClockRollover.
    destruct (Z.ltb_spec now (m_previouseTime st)); [lia|done].
  - unfold getNextTimer. destruct (m_timers st); [done|].
    simpl in Hhd. simplify_eq. rewrite Ht0, deref_Some. res_simpl.
    by rewrite Z.leb_refl.
Qed.

(** A cancelled timer never fires again: [cancel] succeeds exactly when
    the timer still has a callback, and after it - whatever calls follow,
    [refresh] and [reset] of the same timer included - the timer is never
    pending, so no later [listExpiredCb] can hand out its callback. *)
Theorem cancel_is_final (st st' st'' : manager F W) p t b :
  wf st -> m_heap st !! p = Some t -> is_Some (m_cb t) ->
  cancel p st = Ok (b, st') -> steps st' st'' ->
  b = true /\ pending st'' !! p = None /\ cancel p st'' = Ok (false, st'').
Proof.
  intros Hwf Ht Hc E Hst.
  destruct (cancel_ok st p t Hwf Ht) as (s & Es & Hwf' & Hh & _ & Hn).
  rewrite Es in E. injection E as <- <-. split; [by apply bool_decide_true|].
  assert (retired p st'') as [(u & Hu & Hcu) Hp].
  { eapply steps_retired; eauto. split; [|by apply Hn].
    exists (set_cb None t). rewrite Hh. split; [apply lookup_insert_eq|done]. }
  split; [done|]. unfold cancel. rewrite Hu, deref_Some. res_simpl. by rewrite Hcu.
Qed.

(** [addTimer] adds exactly the new timer with deadline now+ms (mod
    2^64), and calls [onTimerInsertedAtfront] iff the new timer precedes all
    pending ones and no earlier notification is outstanding, so the epoll
    wait is shortened whenever it has to be. *)
Theorem addTimer_refines (st st' : manager F W) now p ms cb rec front :
  wf st -> m_heap st !! p = None -> is_u64 ms ->
  addTimer now p ms cb rec st = (front, st') ->
  pending st' = <[p := new_timer now ms cb rec]> (pending st) /\
  (front = true <-> m_tickled st = false /\
     forall q t, pending st !! q = Some t ->
       u64 (now + ms) < m_next t \/ (u64 (now + ms) = m_next t /\ p < q)) /\
  (front = true -> m_tickled st' = true).
Proof.
  intros Hwf Hp Hms E. pose proof E as E'.
  apply addTimer_ok in E as (_ & H1 & _ & H2); auto. split; [done|]. split; [done|].
  unfold addTimer, addTimer_locked in E'.
  destruct (set_insert _ _ _) as [[it fl] ts]. injection E' as <- <-. by intros ->.
Qed.

(** [reset] of an armed timer re-files it under its new deadline: the
    old start (deadline minus old period) or the current time, plus the new
    period; nothing else changes. *)
Theorem reset_refines (st : manager F W) now p t ms from_now :
  wf st -> m_heap st !! p = Some t -> is_u64 ms -> is_u64 now -> is_Some (m_cb t) ->
  ms <> m_ms t \/ from_now = true ->
  exists front st',
    reset now p ms from_now st = Ok (true, front, st') /\ wf st' /\
    pending st' =
      <[p := Timer (m_recurring t) ms
               (u64 ((if from_now then now else u64 (m_next t - m_ms t)) + ms)) (m_cb t)]>
      (pending st).
Proof.
  intros Hwf Ht Hms Hn Hc Hgo.
  destruct (reset_ok st now p t ms from_now) as (f & st' & ? & ? & _ & ?); eauto.
  apply andb_false_iff. destruct Hgo as [?| ->]; [left; by apply Z.eqb_neq|by right].
Qed.

(** [refresh] is a no-op that reports failure on every timer of a
    well-formed manager: the test on [find] is inverted, so an armed timer is
    never moved. *)
Theorem refresh_never_refreshes (st : manager F W) now p :
  wf st -> is_Some (m_heap st !! p) -> refresh now p st = Ok (false, st).
Proof. intros Hwf [t Ht]. by eapply refresh_ok. Qed.

(** [getNextTimer] returns [~0] without timers and otherwise the
    smallest time left over all pending timers (0 for an expired one). *)
Theorem getNextTimer_minimum (st : manager F W) now :
  wf st -> is_u64 now ->
  exists r, getNextTimer now st = Ok (r, with_tickled false st) /\
    (pending st = ∅ -> r = U64_MAX) /\
    (pending st <> ∅ ->
       (exists p t, pending st !! p = Some t /\ r = Z.max 0 (m_next t - now)) /\
       forall p t, pending st !! p = Some t -> r <= Z.max 0 (m_next t - now)).
Proof.
  intros Hwf Hn. destruct (getNextTimer_ok st now Hwf Hn) as (r & Hr & H1 & H2).
  exists r. split; [done|].
  destruct (m_timers st) as [|p s] eqn:E.
  - split; [auto|]. intros []. apply map_empty. intros q. apply pending_None.
    rewrite E. apply not_elem_of_nil.
  - split; [|auto]. intros He. exfalso.
    assert (p ∈ m_timers st) as Hp by (rewrite E; apply elem_of_cons; by left).
    apply (pending_elem _ _ Hwf) in Hp as [t Ht]. by rewrite He, lookup_empty in Ht.
Qed.

(** [detectClockRollover] reports a rollover iff the clock went back by
    more than an hour - or at all, when the previous reading is itself below
    one hour, because the subtraction wraps. *)
Theorem detectClockRollover_iff (st : manager F W) now :
  is_u64 now -> is_u64 (m_previouseTime st) ->
  (detectClockRollover now st).1 = true <->
  now < m_previouseTime st /\
  (now < m_previouseTime st - 3600000 \/ m_previouseTime st < 3600000).
Proof.
  unfold is_u64, detectClockRollover. simpl. intros Hn Hp.
  change (60 * 60 * 1000) with 3600000.
  rewrite andb_true_iff, !Z.ltb_lt. set (d := m_previouseTime st) in *.
  destruct (Z.lt_ge_cases d 3600000).
  - replace (u64 (d - 3600000)) with (d - 3600000 + 2 ^ 64).
    + lia.
    + apply (Z.mod_unique_pos _ _ (-1)); lia.
  - rewrite u64_small by (unfold is_u64; lia). lia.
Qed.

(** [listExpiredCb] drops the read lock before it takes the write lock:
    if the last timer is cancelled in between, the write-locked part
    dereferences [begin()] of an empty set. *)
Theorem listExpiredCb_race (st st' : manager F W) now probe cbs p :
  hasTimer st = true -> cancel p st = Ok (true, st') -> m_timers st' = [] ->
  m_previouseTime st <= now ->
  exists what, listExpired_locked now probe cbs st' = Err (FUB what).
Proof.
  intros _ Hc Hempty Hprev. unfold listExpired_locked, detectClockRollover.
  assert (m_previouseTime st' = m_previouseTime st) as ->.
  { unfold cancel in Hc. destruct (m_heap st !! p) as [t|]; [|done].
    simpl in Hc. destruct (m_cb t); [|done]. by res_inv. }
  destruct (Z.ltb_spec now (m_previouseTime st)); [lia|]. simpl.
  rewrite Hempty. simpl. eauto.
Qed.

End TimerTheory.

(** ** Concrete runs (witnesses) *)

(** Three timers added at time 1000: one-shot after 50 ms at address 10,
    recurring every 30 ms at address 20, one-shot after 500 ms at address 5. *)
Definition ex_manager : manager nat nat :=
  match exec (CallAdd 1000 10 50 (Some (CbFun 1%nat)) false) (init_manager 1000) with
  | Ok s1 =>
      match exec (CallAdd 1000 20 30 (Some (CbFun 2%nat)) true) s1 with
      | Ok s2 =>
          match exec (CallAdd 1000 5 500 (Some (CbFun 3%nat)) false) s2 with
          | Ok s3 => s3
          | Err _ => init_manager 1000
          end
      | Err _ => init_manager 1000
      end
  | Err _ => init_manager 1000
  end.

Example ex_order : m_timers ex_manager = [20; 10; 5].
Proof. vm_compute. reflexivity. Qed.

Ltac valid_now := repeat split; (vm_compute; congruence) || (unfold is_u64; lia).

Lemma ex_steps : steps (init_manager 1000) ex_manager.
Proof.
  unfold ex_manager.
  eapply (steps_step _ (CallAdd 1000 10 50 (Some (CbFun 1%nat)) false)); [valid_now|reflexivity|].
  eapply (steps_step _ (CallAdd 1000 20 30 (Some (CbFun 2%nat)) true)); [valid_now|reflexivity|].
  eapply (steps_step _ (CallAdd 1000 5 500 (Some (CbFun 3%nat)) false)); [valid_now|reflexivity|].
  apply steps_refl.
Qed.

Lemma ex_wf : wf ex_manager.
Proof. eapply steps_wf; [apply init_wf|apply ex_steps]. Qed.

Lemma manager_safe_witness :
  NoDup (m_timers ex_manager) /\
  exists st', exec (CallExpire 1040 99) ex_manager = Ok st' /\ wf st'.
Proof.
  apply (manager_safe 1000 (CallExpire 1040 99) ex_manager); [apply ex_steps|valid_now].
Defined.

Lemma listExpiredCb_refines_witness :
  exists expired st',
    listExpiredCb 1060 99 [] ex_manager
      = Ok (map (cb_at (m_heap ex_manager)) expired, st') /\
    pending st' = expire_spec false 1060 (pending ex_manager).
Proof.
  destruct (listExpiredCb_refines ex_manager 1060 99 [] false
    (Manager (m_heap ex_manager) (m_timers ex_manager) (m_tickled ex_manager) 1060) 20
    (Timer true 30 1030 (Some (CbFun 2%nat)))) as (ex & st' & E & _ & H & _).
  - apply ex_wf.
  - vm_compute. reflexivity.
  - vm_compute. reflexivity.
  - vm_compute. reflexivity.
  - vm_compute. reflexivity.
  - right. discriminate.
  - exists ex, st'. split; [exact E|exact H].
Defined.

Lemma listExpiredCb_misses_witness :
  getNextTimer 1030 ex_manager = Ok (0, with_tickled false ex_manager).
Proof.
  apply (listExpiredCb_misses_exact_deadline ex_manager 1030 99 [] 20
    (Timer true 30 1030 (Some (CbFun 2%nat)))).
  - unfold is_u64; lia.
  - vm_compute. congruence.
  - vm_compute. reflexivity.
  - vm_compute. reflexivity.
  - reflexivity.
Defined.

Lemma cancel_is_final_witness :
  exists st', cancel 10 ex_manager = Ok (true, st') /\ pending st' !! 10 = None.
Proof.
  destruct (cancel 10 ex_manager) as [[b st']|] eqn:E; [|vm_compute in E; discriminate].
  destruct (cancel_is_final ex_manager st' st' 10 (Timer false 50 1050 (Some (CbFun 1%nat))) b)
    as (-> & H & _).
  - apply ex_wf.
  - vm_compute. reflexivity.
  - eexists. reflexivity.
  - exact E.
  - apply steps_refl.
  - exists st'. split; [reflexivity|exact H].
Defined.

Lemma addTimer_refines_witness :
  exists st', addTimer 1000 7 10 None false ex_manager = (false, st') /\
    pending st' = <[7 := new_timer 1000 10 None false]> (pending ex_manager).
Proof.
  destruct (addTimer 1000 7 10 None false ex_manager) as [b st'] eqn:E.
  destruct (addTimer_refines ex_manager st' 1000 7 10 None false b) as (H & _).
  - apply ex_wf.
  - vm_compute. reflexivity.
  - unfold is_u64; lia.
  - exact E.
  - exists st'. split; [|exact H]. f_equal. vm_compute in E. by injection E.
Defined.

Lemma reset_refines_witness :
  exists front st', reset 1020 10 5 true ex_manager = Ok (true, front, st') /\ wf st'.
Proof.
  destruct (reset_refines ex_manager 1020 10 (Timer false 50 1050 (Some (CbFun 1%nat))) 5 true)
    as (f & st' & E & H & _).
  - apply ex_wf.
  - vm_compute. reflexivity.
  - unfold is_u64; lia.
  - unfold is_u64; lia.
  - eexists. reflexivity.
  - by right.
  - exists f, st'. split; [exact E|exact H].
Defined.

Lemma refresh_never_refreshes_witness :
  refresh 1020 10 ex_manager = Ok (false, ex_manager).
Proof.
  apply (refresh_never_refreshes ex_manager 1020 10); [apply ex_wf|].
  eexists. vm_compute. reflexivity.
Defined.

Lemma getNextTimer_minimum_witness :
  exists r, getNextTimer 1010 ex_manager = Ok (r, with_tickled false ex_manager).
Proof.
  destruct (getNextTimer_minimum ex_manager 1010) as (r & H & _).
  - apply ex_wf.
  - unfold is_u64; lia.
  - exists r. exact H.
Defined.

Lemma detectClockRollover_iff_witness :
  (detectClockRollover 5 (init_manager (F := nat) (W := nat) 100)).1 = true.
Proof.
  apply (detectClockRollover_iff (init_manager 100) 5); simpl; unfold is_u64; lia.
Defined.

Definition ex_single : manager nat nat :=
  (addTimer 1000 10 50 (Some (CbFun 1%nat)) false (init_manager 1000)).2.

Lemma listExpiredCb_race_witness :
  exists st' what, cancel 10 ex_single = Ok (true, st') /\
    listExpired_locked 1060 99 [] st' = Err (FUB what).
Proof.
  destruct (cancel 10 ex_single) as [[b st']|] eqn:E; [|vm_compute in E; discriminate].
  assert (b = true) as -> by (vm_compute in E; by injection E).
  destruct (listExpiredCb_race ex_single st' 1060 99 [] 10) as [what H].
  - vm_compute. reflexivity.
  - exact E.
  - vm_compute in E. by injection E as <-.
  - vm_compute. congruence.
  - exists st', what. split; [reflexivity|exact H].
Defined.
