(* ===== verification/Endian.v ===== *)
(** * endian.h: byte order

    Integers in memory are lists of bytes (0..255).  [byteswap] is the
    [bswap_16/32/64] of byteswap.h selected by the size of the type. *)

From S2P Require Import Prelude.

(** The [n] bytes of [x], least significant first. *)
Fixpoint le_bytes (n : nat) (x : Z) : list Z :=
  match n with
  | O => []
  | S n' => Z.land x 255 :: le_bytes n' (Z.shiftr x 8)
  end.

(** The integer whose bytes, least significant first, are [l]. *)
Fixpoint of_le_bytes (l : list Z) : Z :=
  match l with
  | [] => 0
  | b :: l' => Z.lor b (Z.shiftl (of_le_bytes l') 8)
  end.

(** Memory image of an n-byte integer on a host of either byte order. *)
Definition store (host_big : bool) (n : nat) (x : Z) : list Z :=
  if host_big then rev (le_bytes n x) else le_bytes n x.

(** Network order: most significant byte first. *)
Definition be_bytes (n : nat) (x : Z) : list Z := rev (le_bytes n x).

(** [byteswap(value)] of an n-byte integer. *)
Definition byteswap (n : nat) (value : Z) : Z := of_le_bytes (rev (le_bytes n value)).

Definition byteswapOnLittleEndian (host_big : bool) (n : nat) (t : Z) : Z :=
  if host_big then t else byteswap n t.

Definition byteswapOnBigEndian (host_big : bool) (n : nat) (t : Z) : Z :=
  if host_big then byteswap n t else t.

Definition byte_list (l : list Z) : Prop := Forall is_u8 l.

Lemma land_255 x : Z.land x 255 = x mod 256.
Proof. change 255 with (Z.ones 8). by rewrite Z.land_ones. Qed.

Lemma length_le_bytes n x : length (le_bytes n x) = n.
Proof. revert x. induction n; simpl; auto. Qed.

Lemma le_bytes_byte n x : byte_list (le_bytes n x).
Proof.
  revert x. induction n; intros; simpl; constructor; [|apply IHn].
  rewrite land_255. apply Z.mod_pos_bound. lia.
Qed.

Lemma testbit_u8_high b i : is_u8 b -> 8 <= i -> Z.testbit b i = false.
Proof.
  intros Hb Hi. rewrite <- (Z.mod_small b (2 ^ 8)) by done.
  by rewrite Z.mod_pow2_bits_high by lia.
Qed.

(** Bit [i] of a byte list is bit [i mod 8] of byte [i / 8]. *)
Lemma testbit_of_le l i :
  byte_list l -> 0 <= i ->
  Z.testbit (of_le_bytes l) i =
    match l !! Z.to_nat (i / 8) with
    | Some b => Z.testbit b (i mod 8)
    | None => false
    end.
Proof.
  revert i. induction l as [|b l IH]; intros i Hl Hi; simpl; [by rewrite Z.bits_0|].
  apply Forall_cons in Hl as [Hb Hl]. rewrite Z.lor_spec, Z.shiftl_spec by lia.
  destruct (Z.lt_ge_cases i 8) as [H|H].
  - rewrite Z.div_small, Z.mod_small by lia. simpl.
    rewrite (Z.testbit_neg_r _ (i - 8)) by lia. by rewrite orb_false_r.
  - rewrite (testbit_u8_high b i) by done. simpl.
    rewrite IH by (done || lia).
    replace (Z.to_nat (i / 8)) with (S (Z.to_nat ((i - 8) / 8))).
    + simpl. replace ((i - 8) mod 8) with (i mod 8); [done|].
      replace i with (i - 8 + 1 * 8) at 1 by lia. by rewrite Z.mod_add.
    + replace i with (i - 8 + 1 * 8) at 2 by lia. rewrite Z.div_add by lia.
      assert (0 <= (i - 8) / 8) by (apply Z.div_pos; lia). lia.
Qed.

Lemma lookup_le_bytes n x k :
  (k < n)%nat -> le_bytes n x !! k = Some (Z.land (Z.shiftr x (8 * Z.of_nat k)) 255).
Proof.
  revert x k. induction n as [|n IH]; intros x k Hk; [lia|]. destruct k as [|k]; simpl.
  - by rewrite Z.shiftr_0_r.
  - rewrite IH by lia. rewrite Z.shiftr_shiftr by lia. do 4 f_equal. lia.
Qed.

Lemma of_le_le_bytes n x : 0 <= x < 2 ^ (8 * Z.of_nat n) -> of_le_bytes (le_bytes n x) = x.
Proof.
  intros Hx. apply Z.bits_inj'. intros i Hi.
  rewrite testbit_of_le by (auto using le_bytes_byte).
  destruct (decide (Z.to_nat (i / 8) < n)%nat) as [Hk|Hk].
  - rewrite lookup_le_bytes by done. rewrite Z.land_spec, Z.shiftr_spec
      by (apply Z.mod_pos_bound; lia).
    change 255 with (Z.ones 8). rewrite Z.ones_spec_low by (apply Z.mod_pos_bound; lia).
    rewrite andb_true_r. f_equal. rewrite Z2Nat.id by (apply Z.div_pos; lia).
    pose proof (Z.div_mod i 8). lia.
  - rewrite lookup_ge_None_2 by (rewrite length_le_bytes; lia).
    symmetry. rewrite <- (Z.mod_small x (2 ^ (8 * Z.of_nat n))) by done.
    apply Z.mod_pow2_bits_high. split; [lia|].
    pose proof (Z.div_pos i 8). pose proof (Z.mul_div_le i 8). lia.
Qed.

Lemma le_bytes_of_le l : byte_list l -> le_bytes (length l) (of_le_bytes l) = l.
Proof.
  induction l as [|b l IH]; intros Hl; simpl; [done|].
  apply Forall_cons in Hl as [Hb Hl]. f_equal.
  - apply Z.bits_inj'. intros i Hi.
    rewrite Z.land_spec, Z.lor_spec, Z.shiftl_spec by lia.
    change 255 with (Z.ones 8). destruct (Z.lt_ge_cases i 8).
    + rewrite Z.ones_spec_low, andb_true_r by lia.
      by rewrite (Z.testbit_neg_r _ (i - 8)), orb_false_r by lia.
    + rewrite Z.ones_spec_high, andb_false_r by lia. symmetry. by apply testbit_u8_high.
  - transitivity (le_bytes (length l) (of_le_bytes l)); [f_equal|auto].
    apply Z.bits_inj'. intros i Hi.
    rewrite Z.shiftr_spec, Z.lor_spec, Z.shiftl_spec by lia.
    rewrite (testbit_u8_high b) by (done || lia). simpl. f_equal. lia.
Qed.

Lemma of_le_range l : byte_list l -> 0 <= of_le_bytes l < 2 ^ (8 * Z.of_nat (length l)).
Proof.
  induction l as [|b l IH]; intros Hl; simpl; [lia|].
  apply Forall_cons in Hl as [Hb Hl]. specialize (IH Hl).
  assert (Z.land b (Z.shiftl (of_le_bytes l) 8) = 0) as Hland.
  { apply Z.bits_inj'. intros i Hi. rewrite Z.land_spec, Z.bits_0.
    destruct (Z.lt_ge_cases i 8).
    - by rewrite Z.shiftl_spec_low, andb_false_r by lia.
    - by rewrite (testbit_u8_high b). }
  rewrite <- Z.lxor_lor, <- Z.add_nocarry_lxor by done.
  rewrite Z.shiftl_mul_pow2 by lia.
  replace (8 * Z.of_nat (S (length l))) with (8 * Z.of_nat (length l) + 8) by lia.
  rewrite Z.pow_add_r by lia. unfold is_u8 in Hb. lia.
Qed.

Lemma byte_list_rev l : byte_list l -> byte_list (rev l).
Proof. apply Forall_rev. Qed.

Lemma le_bytes_byteswap n x : le_bytes n (byteswap n x) = rev (le_bytes n x).
Proof.
  unfold byteswap.
  pose proof (le_bytes_of_le (rev (le_bytes n x)) (byte_list_rev _ (le_bytes_byte n x))) as H.
  by rewrite length_rev, length_le_bytes in H.
Qed.

Lemma byteswap_range n x : 0 <= byteswap n x < 2 ^ (8 * Z.of_nat n).
Proof.
  unfold byteswap.
  pose proof (of_le_range (rev (le_bytes n x)) (byte_list_rev _ (le_bytes_byte n x))) as H.
  by rewrite length_rev, length_le_bytes in H.
Qed.

Lemma byteswap_involutive n x :
  0 <= x < 2 ^ (8 * Z.of_nat n) -> byteswap n (byteswap n x) = x.
Proof.
  intros Hx. unfold byteswap at 1.
  by rewrite le_bytes_byteswap, rev_involutive, of_le_le_bytes.
Qed.

(** Bit [i] of the swapped word is bit [i mod 8] of the mirrored byte. *)
Lemma testbit_byteswap n x i :
  0 <= i < 8 * Z.of_nat n ->
  Z.testbit (byteswap n x) i = Z.testbit x (8 * (Z.of_nat n - 1 - i / 8) + i mod 8).
Proof.
  intros Hi. unfold byteswap.
  rewrite testbit_of_le by (first [lia|apply byte_list_rev, le_bytes_byte]).
  assert (0 <= i / 8 < Z.of_nat n) as Hk
    by (split; [apply Z.div_pos; lia|apply Z.div_lt_upper_bound; lia]).
  rewrite rev_alt. change (rev_append (le_bytes n x) []) with (reverse (le_bytes n x)).
  rewrite reverse_lookup by (rewrite length_le_bytes; lia).
  rewrite length_le_bytes, lookup_le_bytes by lia.
  pose proof (Z.mod_pos_bound i 8).
  rewrite Z.land_spec, Z.shiftr_spec by lia.
  change 255 with (Z.ones 8). rewrite Z.ones_spec_low, andb_true_r by lia.
  f_equal. lia.
Qed.

Lemma testbit_byteswap_high n x i :
  8 * Z.of_nat n <= i -> Z.testbit (byteswap n x) i = false.
Proof.
  intros Hi. rewrite <- (Z.mod_small _ _ (byteswap_range n x)).
  apply Z.mod_pow2_bits_high. lia.
Qed.

Lemma byteswap_bitop (f : bool -> bool -> bool) (op : Z -> Z -> Z) n x y :
  (forall a b i, Z.testbit (op a b) i = f (Z.testbit a i) (Z.testbit b i)) ->
  f false false = false ->
  byteswap n (op x y) = op (byteswap n x) (byteswap n y).
Proof.
  intros Hop Hf. apply Z.bits_inj'. intros i Hi. rewrite Hop.
  destruct (Z.lt_ge_cases i (8 * Z.of_nat n)).
  - by rewrite !testbit_byteswap, Hop by lia.
  - by rewrite !testbit_byteswap_high, Hf by lia.
Qed.

Lemma byteswap_land n x y : byteswap n (Z.land x y) = Z.land (byteswap n x) (byteswap n y).
Proof. apply (byteswap_bitop andb); [apply Z.land_spec|done]. Qed.

Lemma byteswap_lor n x y : byteswap n (Z.lor x y) = Z.lor (byteswap n x) (byteswap n y).
Proof. apply (byteswap_bitop orb); [apply Z.lor_spec|done]. Qed.

(** Storing [byteswapOnLittleEndian(x)] puts the bytes of [x] into memory
    in network order on a host of either byte order, and applying the function
    twice gives the value back. *)
Theorem byteswapOnLittleEndian_network (host_big : bool) (n : nat) (x : Z) :
  0 <= x < 2 ^ (8 * Z.of_nat n) ->
  store host_big n (byteswapOnLittleEndian host_big n x) = be_bytes n x /\
  byteswapOnLittleEndian host_big n (byteswapOnLittleEndian host_big n x) = x.
Proof.
  intros Hx. unfold store, byteswapOnLittleEndian, be_bytes. destruct host_big; [done|].
  split; [apply le_bytes_byteswap|by apply byteswap_involutive].
Qed.

Lemma byteswapOnLittleEndian_network_witness :
  store false 2 (byteswapOnLittleEndian false 2 8080) = [31; 144].
Proof. apply (byteswapOnLittleEndian_network false 2 8080). simpl. lia. Defined.
