(* ===== verification/Text.v ===== *)
(** * Text: characters and numerals of the output streams

    A [std::string] is a list of characters.  [os << n] and
    [os << std::hex << n] of the standard library are the usual numerals. *)

From S2P Require Import Prelude.
From Stdlib Require Export Ascii.
From Stdlib Require String.

Abbreviation text := (list ascii).

(** A C++ string literal. *)
Definition lit (s : string) : text := String.list_ascii_of_string s.

Definition NUL : ascii := Ascii.zero.

(** The C string at a [const char*]: everything up to the first NUL. *)
Fixpoint c_str (l : text) : text :=
  match l with
  | [] => []
  | c :: l' => if decide (c = NUL) then [] else c :: c_str l'
  end.

Definition byte_char (b : Z) : ascii := ascii_of_N (Z.to_N b).
Definition char_byte (c : ascii) : Z := Z.of_N (N_of_ascii c).

(** Digits '0'..'9', 'a'..'f'. *)
Definition digit_char (d : Z) : ascii :=
  ascii_of_N (Z.to_N (if d <? 10 then 48 + d else 87 + d)).

Definition char_digit (c : ascii) : option Z :=
  let n := char_byte c in
  if (48 <=? n) && (n <=? 57) then Some (n - 48)
  else if (97 <=? n) && (n <=? 102) then Some (n - 87)
  else None.

(** Digits of [n], most significant first; [fuel] digits are enough below
    [base ^ fuel]. *)
Fixpoint digits (base : Z) (fuel : nat) (n : Z) : list Z :=
  match fuel with
  | O => []
  | S f => if n <? base then [n] else digits base f (n / base) ++ [n mod base]
  end.

Definition value (base : Z) (ds : list Z) : Z :=
  foldl (fun acc d => acc * base + d) 0 ds.

(** [os << n] for n below 10^20 and [os << std::hex << n] for n below 16^16. *)
Definition dec (n : Z) : text := map digit_char (digits 10 20 n).
Definition hex (n : Z) : text := map digit_char (digits 16 16 n).

(** Reads the longest numeral at the front: (value, digits read?, rest). *)
Fixpoint read_num (base acc : Z) (l : text) : Z * text :=
  match l with
  | [] => (acc, [])
  | c :: l' =>
      match char_digit c with
      | Some d => if d <? base then read_num base (acc * base + d) l' else (acc, l)
      | None => (acc, l)
      end
  end.

Definition isdigit (base : Z) (c : ascii) : bool :=
  match char_digit c with Some d => d <? base | None => false end.

Lemma value_app base ds d : value base (ds ++ [d]) = value base ds * base + d.
Proof. unfold value. by rewrite foldl_app. Qed.

Lemma value_digits base fuel n :
  1 < base -> 0 <= n < base ^ Z.of_nat fuel -> value base (digits base fuel n) = n.
Proof.
  intros Hb. revert n. induction fuel as [|f IH]; intros n Hn; simpl.
  - simpl in Hn. unfold value. simpl. lia.
  - destruct (Z.ltb_spec n base); [unfold value; simpl; lia|].
    rewrite value_app, IH.
    + pose proof (Z.div_mod n base). lia.
    + rewrite Nat2Z.inj_succ, Z.pow_succ_r in Hn by lia. split; [apply Z.div_pos; lia|].
      apply Z.div_lt_upper_bound; lia.
Qed.

Lemma digits_range base fuel n :
  1 < base -> 0 <= n -> Forall (fun d => 0 <= d < base) (digits base fuel n).
Proof.
  intros Hb. revert n. induction fuel as [|f IH]; intros n Hn; simpl; [constructor|].
  destruct (Z.ltb_spec n base); [repeat constructor; lia|].
  apply Forall_app. split.
  - apply IH. apply Z.div_pos; lia.
  - repeat constructor; apply Z.mod_pos_bound; lia.
Qed.

Lemma digits_nonempty base fuel n : digits base (S fuel) n <> [].
Proof. simpl. destruct (n <? base); [done|]. by destruct (digits base fuel (n / base)). Qed.

Lemma char_digit_char d : 0 <= d < 16 -> char_digit (digit_char d) = Some d.
Proof.
  intros Hd.
  assert (d ∈ seqZ 0 16) as Hin by (apply elem_of_seqZ; lia).
  assert (Forall (fun d => char_digit (digit_char d) = Some d) (seqZ 0 16)) as H
    by (vm_compute; repeat constructor).
  rewrite Forall_forall in H. auto.
Qed.

Lemma read_num_digits base ds : forall acc rest,
  1 < base <= 16 -> Forall (fun d => 0 <= d < base) ds ->
  (match rest with [] => True | c :: _ => isdigit base c = false end) ->
  read_num base acc (map digit_char ds ++ rest)
    = (foldl (fun a d => a * base + d) acc ds, rest).
Proof.
  induction ds as [|d ds IH]; intros acc rest Hb HF Hrest; simpl.
  - destruct rest as [|c rest]; [done|]. simpl. unfold isdigit in Hrest.
    destruct (char_digit c); [by rewrite Hrest|done].
  - apply Forall_cons in HF as [Hd HF].
    rewrite char_digit_char by lia.
    destruct (Z.ltb_spec d base); [|lia]. auto.
Qed.

Lemma read_dec n rest :
  0 <= n < 10 ^ 20 ->
  (match rest with [] => True | c :: _ => isdigit 10 c = false end) ->
  read_num 10 0 (dec n ++ rest) = (n, rest).
Proof.
  intros Hn Hr. unfold dec.
  rewrite read_num_digits by (auto; try (apply digits_range; lia); lia).
  f_equal. apply (value_digits 10 20); lia.
Qed.

Lemma read_hex n rest :
  0 <= n < 16 ^ 16 ->
  (match rest with [] => True | c :: _ => isdigit 16 c = false end) ->
  read_num 16 0 (hex n ++ rest) = (n, rest).
Proof.
  intros Hn Hr. unfold hex.
  rewrite read_num_digits by (auto; try (apply digits_range; lia); lia).
  f_equal. apply (value_digits 16 16); lia.
Qed.
