(* ===== verification/Address.v ===== *)
(** * address.h / address.cc: socket addresses

    [sockaddr_in], [sockaddr_in6] and [sockaddr_un] are records whose integer
    members hold the value as stored (ports and addresses in network order);
    [getAddr] is the memory behind the [sockaddr*].  [hb] says whether the
    host is big-endian.  [getaddrinfo], [getifaddrs] and [inet_pton] are
    arguments. *)

From S2P Require Import Prelude Text Endian.

Definition AF_UNSPEC : Z := 0.
Definition AF_UNIX : Z := 1.
Definition AF_INET : Z := 2.
Definition AF_INET6 : Z := 10.

(** ** Masks *)

(** [CreateMask<T>(bits)] for an n-byte T: [(1<<(sizeof(T)*8-bits))-1] on an
    [int] 1 and an unsigned 64-bit shift count.  Shifting by 32 or more is
    undefined, and so is [INT_MIN - 1] after a shift by 31. *)
Definition CreateMask (nbytes bits : Z) : res Z :=
  let count := u64 (nbytes * 8 - bits) in
  if 32 <=? count then Err (FUB "CreateMask: shift count")
  else if count =? 31 then Err (FUB "CreateMask: INT_MIN - 1")
  else Ok (wrap (8 * nbytes) (Z.shiftl 1 count - 1)).

(** [CountBytes]: the loop [value &= value-1] of a w-bit unsigned value; each
    round clears a bit, so w rounds are enough. *)
Fixpoint CountBytes_loop (fuel : nat) (v result : Z) : Z :=
  match fuel with
  | O => result
  | S f => if v =? 0 then result else CountBytes_loop f (Z.land v (v - 1)) (result + 1)
  end.

Definition CountBytes (w : nat) (v : Z) : Z := CountBytes_loop w v 0.

(** ** Objects *)

Record sockaddr_in : Type := SockaddrIn {
  sin_family : Z; sin_port : Z; s_addr : Z; sin_zero : list Z }.

Record sockaddr_in6 : Type := SockaddrIn6 {
  sin6_family : Z; sin6_port : Z; sin6_flowinfo : Z; s6_addr : list Z; sin6_scope_id : Z }.

Record sockaddr_un : Type := SockaddrUn { sun_family : Z; sun_path : list Z }.

Record sockaddr : Type := Sockaddr { sa_family : Z; sa_data : list Z }.

Inductive Address : Type :=
| IPv4Address (m_addr : sockaddr_in)
| IPv6Address (m_addr : sockaddr_in6)
| UnixAddress (m_addr : sockaddr_un) (m_length : Z)
| UnknownAddress (m_addr : sockaddr).

Definition is_ip (a : Address) : bool :=
  match a with IPv4Address _ | IPv6Address _ => true | _ => false end.

Definition zeros (n : nat) : list Z := replicate n 0.

Section Host.
Variable hb : bool.

Abbreviation swap16 := (byteswapOnLittleEndian hb 2).
Abbreviation swap32 := (byteswapOnLittleEndian hb 4).

(** Reading an integer back from memory. *)
Definition load (l : list Z) : Z := of_le_bytes (if hb then rev l else l).

(** *** Constructors *)

(** [IPv4Address(uint32_t address, uint16_t port)]. *)
Definition IPv4Address_new (address port : Z) : sockaddr_in :=
  SockaddrIn AF_INET (swap16 port) (swap32 address) (zeros 8).

(** [IPv6Address()]. *)
Definition IPv6Address_default : sockaddr_in6 :=
  SockaddrIn6 AF_INET6 0 0 (zeros 16) 0.

(** [IPv6Address(const uint8_t address[16], uint16_t port)]. *)
Definition IPv6Address_new (address : list Z) (port : Z) : sockaddr_in6 :=
  SockaddrIn6 AF_INET6 (swap16 port) 0 address 0.

(** [offsetof(sockaddr_un, sun_path)], [sizeof(sun_path)], [MAX_PATH_LEN]. *)
Definition offsetof_sun_path : Z := 2.
Definition sizeof_sun_path : Z := 108.
Definition MAX_PATH_LEN : Z := sizeof_sun_path - 1.

(** [UnixAddress()]. *)
Definition UnixAddress_default : Address :=
  UnixAddress (SockaddrUn AF_UNIX (zeros 108)) (offsetof_sun_path + MAX_PATH_LEN).

(** [UnixAddress(path)]: copies the path, with its final NUL unless the name
    is abstract; throws when it does not fit. *)
Definition UnixAddress_new (path : list Z) : res Address :=
  let len0 := Z.of_nat (length path) + 1 in
  let len := match path with 0 :: _ => len0 - 1 | _ => len0 end in
  if sizeof_sun_path <? len then Err (FThrow "path too long")
  else
    let bytes := take (Z.to_nat len) (path ++ [0]) in
    Ok (UnixAddress (SockaddrUn AF_UNIX (bytes ++ zeros (108 - length bytes)))
          (u32 (len + offsetof_sun_path))).

Definition UnknownAddress_new (family : Z) : Address :=
  UnknownAddress (Sockaddr family (zeros 14)).

(** *** Memory *)

Definition bytes_in (a : sockaddr_in) : list Z :=
  store hb 2 (sin_family a) ++ store hb 2 (sin_port a) ++ store hb 4 (s_addr a) ++ sin_zero a.

Definition bytes_in6 (a : sockaddr_in6) : list Z :=
  store hb 2 (sin6_family a) ++ store hb 2 (sin6_port a) ++
  store hb 4 (sin6_flowinfo a) ++ s6_addr a ++ store hb 4 (sin6_scope_id a).

(** [getAddr]. *)
Definition getAddr (a : Address) : list Z :=
  match a with
  | IPv4Address m => bytes_in m
  | IPv6Address m => bytes_in6 m
  | UnixAddress m _ => store hb 2 (sun_family m) ++ sun_path m
  | UnknownAddress m => store hb 2 (sa_family m) ++ sa_data m
  end.

(** [getAddrLen]. *)
Definition getAddrLen (a : Address) : Z :=
  match a with
  | IPv4Address _ => 16
  | IPv6Address _ => 28
  | UnixAddress _ m_length => m_length
  | UnknownAddress _ => 16
  end.

(** [Address::getFamily]. *)
Definition getFamily (a : Address) : Z := load (take 2 (getAddr a)).

(** The casts of [Address::Create] read a fixed-size struct at [addr]. *)
Definition read_in (m : list Z) : sockaddr_in :=
  SockaddrIn (load (take 2 m)) (load (take 2 (drop 2 m)))
    (load (take 4 (drop 4 m))) (take 8 (drop 8 m)).

Definition read_in6 (m : list Z) : sockaddr_in6 :=
  SockaddrIn6 (load (take 2 m)) (load (take 2 (drop 2 m)))
    (load (take 4 (drop 4 m))) (take 16 (drop 8 m)) (load (take 4 (drop 24 m))).

Definition at_least (n : nat) (m : list Z) : res unit :=
  if (n <=? length m)%nat then Ok tt else Err (FUB "Create: read past the address").

(** [Address::Create(addr, addrlen)]; [addrlen] is not used. *)
Definition Create (addr : option (list Z)) (addrlen : Z) : res (option Address) :=
  match addr with
  | None => mret None
  | Some m =>
      _ ← at_least 2 m;
      let family := load (take 2 m) in
      if family =? AF_INET then
        _ ← at_least 16 m; mret (Some (IPv4Address (read_in m)))
      else if family =? AF_INET6 then
        _ ← at_least 28 m; mret (Some (IPv6Address (read_in6 m)))
      else
        _ ← at_least 16 m;
        mret (Some (UnknownAddress (Sockaddr family (take 14 (drop 2 m)))))
  end.

(** *** Comparison *)





(** *** IPv4 *)

Definition with_addr (a : sockaddr_in) (v : Z) : sockaddr_in :=
  SockaddrIn (sin_family a) (sin_port a) v (sin_zero a).

(** [IPv4Address::insert]. *)
Definition insert_v4 (a : sockaddr_in) : text :=
  let addr := swap32 (s_addr a) in
  dec (Z.land (Z.shiftr addr 24) 255) ++ lit "." ++
  dec (Z.land (Z.shiftr addr 16) 255) ++ lit "." ++
  dec (Z.land (Z.shiftr addr 8) 255) ++ lit "." ++
  dec (Z.land addr 255) ++ lit ":" ++ dec (swap16 (sin_port a)).

(** [IPv4Address::broadcastAddress]; a null result is [None]. *)
Definition broadcastAddress_v4 (a : sockaddr_in) (prefix_len : Z) : res (option sockaddr_in) :=
  if prefix_len >? 32 then mret None
  else
    mask ← CreateMask 4 prefix_len;
    mret (Some (with_addr a (Z.lor (s_addr a) (swap32 mask)))).

(** [IPv4Address::networdAress]. *)
Definition networdAress_v4 (a : sockaddr_in) (prefix_len : Z) : res (option sockaddr_in) :=
  if prefix_len >? 32 then mret None
  else
    mask ← CreateMask 4 prefix_len;
    mret (Some (with_addr a (Z.land (s_addr a) (swap32 mask)))).

(** [IPv4Address::subnetMask]. *)
Definition subnetMask_v4 (prefix_len : Z) : res sockaddr_in :=
  mask ← CreateMask 4 prefix_len;
  mret (SockaddrIn AF_INET 0 (swap32 mask) (zeros 8)).

(** [IPv4Address::getPort], [IPv4Address::setPort]. *)
Definition getPort_v4 (a : sockaddr_in) : Z := swap16 (sin_port a).
Definition setPort_v4 (a : sockaddr_in) (v : Z) : sockaddr_in :=
  SockaddrIn (sin_family a) (swap16 v) (s_addr a) (sin_zero a).

(** [IPv4Address::Create(address, port)]: [inet_pton] gives the address as
    stored in memory, or fails. *)
Definition IPv4_Create (inet_pton : text -> option Z) (address : text) (port : Z)
    : option sockaddr_in :=
  let rt := IPv4Address_new 0 0 in
  match inet_pton address with
  | Some a => Some (SockaddrIn (sin_family rt) (swap16 port) a (sin_zero rt))
  | None => None
  end.

(** *** IPv6 *)

Definition with_s6 (a : sockaddr_in6) (l : list Z) : sockaddr_in6 :=
  SockaddrIn6 (sin6_family a) (sin6_port a) (sin6_flowinfo a) l (sin6_scope_id a).

(** [s6_addr[i] = f(s6_addr[i])]. *)
Definition set_s6 (l : list Z) (i : Z) (f : Z -> Z) : res (list Z) :=
  if (i <? 0) || (16 <=? i) then Err (FUB "s6_addr index")
  else x ← deref (l !! Z.to_nat i) "s6_addr index"; mret (<[Z.to_nat i := f x]> l).

(** [for(int i=from;i<to;i++) s6_addr[i]=0xff;]. *)
Definition fill_ff (l : list Z) (from to : Z) : list Z :=
  imap (fun i x => if (from <=? Z.of_nat i) && (Z.of_nat i <? to) then 255 else x) l.

(** [IPv6Address::broadcastAddress]. *)
Definition broadcastAddress_v6 (a : sockaddr_in6) (prefix_len : Z) : res sockaddr_in6 :=
  mask ← CreateMask 1 (prefix_len mod 8);
  l ← set_s6 (s6_addr a) (prefix_len / 8) (fun x => Z.lor x mask);
  mret (with_s6 a (fill_ff l (prefix_len / 8 + 1) 16)).

(** [IPv6Address::networdAress]. *)
Definition networdAress_v6 (a : sockaddr_in6) (prefix_len : Z) : res sockaddr_in6 :=
  mask ← CreateMask 1 (prefix_len mod 8);
  l ← set_s6 (s6_addr a) (prefix_len / 8) (fun x => Z.land x mask);
  mret (with_s6 a l).

(** [IPv6Address::subnetMask]. *)
Definition subnetMask_v6 (prefix_len : Z) : res sockaddr_in6 :=
  mask ← CreateMask 1 (prefix_len mod 8);
  l ← set_s6 (zeros 16) (prefix_len / 8) (fun _ => u8 (Z.lnot mask));
  mret (SockaddrIn6 AF_INET6 0 0 (fill_ff l (prefix_len / 8 + 1) 8) 0).

(** [IPv6Address::getPort], [IPv6Address::setPort]. *)
Definition getPort_v6 (a : sockaddr_in6) : Z := swap16 (sin6_port a).
Definition setPort_v6 (a : sockaddr_in6) (v : Z) : sockaddr_in6 :=
  SockaddrIn6 (sin6_family a) (swap16 v) (sin6_flowinfo a) (s6_addr a) (sin6_scope_id a).

Definition IPv6_Create (inet_pton : text -> option (list Z)) (address : text) (port : Z)
    : option sockaddr_in6 :=
  let rt := IPv6Address_default in
  match inet_pton address with
  | Some a => Some (SockaddrIn6 (sin6_family rt) (swap16 port) 0 a 0)
  | None => None
  end.

(** The pieces [IPv6Address::insert] writes between the brackets. *)
Inductive chunk : Type :=
| Colon
| Hex (group : Z).

(** [(uint16_t* )s6_addr]: the eight groups as the host reads them. *)
Definition groups (a : sockaddr_in6) : list Z :=
  map (fun i => load (take 2 (drop (2 * i) (s6_addr a)))) (seq 0 8).

(** The loop of [IPv6Address::insert] over the groups as the host reads
    them: [prev] is [addr[i-1]], nothing for i = 0. *)
Fixpoint insert_v6_loop (prev : option Z) (addr : list Z) (used_zero : bool)
    (os : list chunk) : list chunk * bool :=
  match addr with
  | [] => (os, used_zero)
  | x :: addr' =>
      if (x =? 0) && negb used_zero then insert_v6_loop (Some x) addr' used_zero os
      else
        let zero_before := match prev with Some p => p =? 0 | None => false end in
        let '(os, used_zero) :=
          if zero_before && negb used_zero then (os ++ [Colon], true) else (os, used_zero) in
        let os := match prev with Some _ => os ++ [Colon] | None => os end in
        insert_v6_loop (Some x) addr' used_zero (os ++ [Hex (swap16 x)])
  end.

Definition insert_v6_chunks (addr : list Z) : list chunk :=
  let '(os, used_zero) := insert_v6_loop None addr false [] in
  if used_zero && (default 0 (addr !! 7%nat) =? 0) then os ++ [Colon; Colon] else os.

Definition chunk_text (c : chunk) : text :=
  match c with Colon => lit ":" | Hex g => hex g end.

(** [IPv6Address::insert]. *)
Definition insert_v6 (a : sockaddr_in6) : text :=
  lit "[" ++ mjoin (map chunk_text (insert_v6_chunks (groups a))) ++
  lit "]:" ++ dec (swap16 (sin6_port a)).

(** *** Text of any address *)

(** [UnixAddress::insert]: an abstract name is written with a literal
    backslash-zero, other names as C strings. *)
Definition insert_unix (m : sockaddr_un) (m_length : Z) : text :=
  if (m_length >? offsetof_sun_path) && (default 0 (head (sun_path m)) =? 0) then
    [ascii_of_N 92; ascii_of_N 48] ++
    map byte_char (take (Z.to_nat (m_length - offsetof_sun_path - 1)) (drop 1 (sun_path m)))
  else c_str (map byte_char (sun_path m)).

(** The virtual [insert]; [Address::toString] is its text. *)
Definition insert (a : Address) : text :=
  match a with
  | IPv4Address m => insert_v4 m
  | IPv6Address m => insert_v6 m
  | UnixAddress m l => insert_unix m l
  | UnknownAddress m => lit "[Unknownaddress family=" ++ dec (sa_family m) ++ lit "]"
  end.

Definition toString (a : Address) : text := insert a.

(** *** Lookup *)

(** [memchr(buf+start, c, n)] as a position of [buf]. *)
Definition memchr (c : ascii) (buf : text) (start n : nat) : option nat :=
  (fun p => (start + p.1)%nat) <$> list_find (fun x => x = c) (take n (drop start buf)).

(** The node and service [Address::Lookup] extracts from [host]: a bracketed
    IPv6 literal first, then the second search. *)
Definition lookup_bracket (host : text) : text * option text :=
  let buf := host ++ [NUL] in
  match host with
  | c :: _ =>
      if decide (c = "["%char) then
        match memchr "]" buf 1 (length host - 1) with
        | Some e =>
            (take (e - 1) (drop 1 host),
             if decide (buf !! S e = Some ":"%char) then Some (c_str (drop (S (S e)) buf))
             else None)
        | None => ([], None)
        end
      else ([], None)
  | [] => ([], None)
  end.

Definition lookup_second (host : text) : text * option text :=
  let buf := host ++ [NUL] in
  match memchr "]" buf 1 (length host) with
  | None => ([], None)
  | Some s =>
      match memchr ":" buf (S s) (length host - s - 1) with
      | None => (take s host, Some (c_str (drop (S s) buf)))
      | Some _ => ([], Some (c_str (drop s buf)))
      end
  end.

Definition lookup_split (host : text) : text * option text :=
  let r1 := lookup_bracket host in
  let '(node, service) := if decide (r1.1 = []) then lookup_second host else r1 in
  (if decide (node = []) then host else node, service).

Section Resolver.
(** [getaddrinfo(node, service, family, type, protocol)]: the addresses with
    their lengths, or an error. *)
Variable getaddrinfo : text -> option text -> Z -> Z -> Z -> option (list (list Z * Z)).

Fixpoint push_addresses (next : list (list Z * Z)) (result : list (option Address))
    : res (list (option Address)) :=
  match next with
  | [] => mret result
  | (m, len) :: next' => a ← Create (Some m) len; push_addresses next' (result ++ [a])
  end.

(** [Address::Lookup]: (success?, result). *)
Definition Lookup (result : list (option Address)) (host : text) (family type protocol : Z)
    : res (bool * list (option Address)) :=
  let '(node, service) := lookup_split host in
  match getaddrinfo (c_str node) service family type protocol with
  | None => mret (false, result)
  | Some results =>
      r ← push_addresses results result;
      mret (match r with [] => false | _ => true end, r)
  end.

(** [Address::LookupAny]. *)
Definition LookupAny (host : text) (family type protocol : Z) : res (option Address) :=
  p ← Lookup [] host family type protocol;
  let '(ok, result) := (p : bool * list (option Address)) in
  if ok then deref (head result) "LookupAny: result[0]" else mret None.

(** [Address::LookupAnyIPAddress]: the first result that is an [IPAddress]. *)
Definition LookupAnyIPAddress (host : text) (family type protocol : Z) : res (option Address) :=
  p ← Lookup [] host family type protocol;
  let '(ok, result) := (p : bool * list (option Address)) in
  if ok then
    mret (mjoin (head (filter (fun a => from_option is_ip false a = true) result)))
  else mret None.

(** [IPAddress::Create(address, port)]. *)
Definition IPAddress_Create (address : text) (port : Z) : res (option Address) :=
  match getaddrinfo (c_str address) None AF_UNSPEC 0 0 with
  | None => mret None
  | Some results =>
      r ← deref (head results) "IPAddress::Create: results";
      a ← Create (Some r.1) r.2;
      mret (match a with
            | Some (IPv4Address m) => Some (IPv4Address (setPort_v4 m port))
            | Some (IPv6Address m) => Some (IPv6Address (setPort_v6 m port))
            | _ => None
            end)
  end.

End Resolver.

(** *** Interfaces *)

(** An entry of [getifaddrs]; the address and the mask may be null. *)
Record ifaddr : Type := Ifaddr {
  ifa_name : text; ifa_addr : option (list Z); ifa_netmask : option (list Z) }.

Definition text_leb (a b : text) : bool :=
  negb (String.ltb (String.string_of_list_ascii b) (String.string_of_list_ascii a)).

(** [std::multimap::insert]: after the entries with an equal key. *)
Fixpoint multimap_insert {V} (k : text) (v : V) (m : list (text * V)) : list (text * V) :=
  match m with
  | [] => [(k, v)]
  | (k', v') :: m' =>
      if text_leb k' k then (k', v') :: multimap_insert k v m' else (k, v) :: m
  end.

(** One round of the loop of [GetInterfaceAddresses]. *)
Definition interface_entry (family : Z) (next : ifaddr)
    (result : list (text * (Address * Z))) : res (list (text * (Address * Z))) :=
  m ← deref (ifa_addr next) "GetInterfaceAddresses: null ifa_addr";
  let fam := load (take 2 m) in
  if negb (family =? AF_UNSPEC) && negb (family =? fam) then mret result
  else if fam =? AF_INET then
    addr ← Create (Some m) 16;
    mask ← deref (ifa_netmask next) "GetInterfaceAddresses: null ifa_netmask";
    let prefix_len := CountBytes 32 (load (take 4 (drop 4 mask))) in
    mret (match addr with
          | Some a => multimap_insert (ifa_name next) (a, prefix_len) result
          | None => result end)
  else if fam =? AF_INET6 then
    addr ← Create (Some m) 28;
    mask ← deref (ifa_netmask next) "GetInterfaceAddresses: null ifa_netmask";
    let prefix_len := foldl (fun n b => n + CountBytes 8 b) 0 (take 16 (drop 8 mask)) in
    mret (match addr with
          | Some a => multimap_insert (ifa_name next) (a, prefix_len) result
          | None => result end)
  else mret result.

Fixpoint interface_entries (family : Z) (l : list ifaddr)
    (result : list (text * (Address * Z))) : res (list (text * (Address * Z))) :=
  match l with
  | [] => mret result
  | next :: l' => r ← interface_entry family next result; interface_entries family l' r
  end.

(** [GetInterfaceAddresses(multimap, family)]; [getifaddrs] may fail. *)
Definition GetInterfaceAddresses (getifaddrs : option (list ifaddr)) (family : Z)
    (result : list (text * (Address * Z))) : res (bool * list (text * (Address * Z))) :=
  match getifaddrs with
  | None => mret (false, result)
  | Some l => r ← interface_entries family l result; mret (true, r)
  end.

(** [GetInterfaceAddresses(vector, iface, family)]. *)
Definition GetInterfaceAddresses_of (getifaddrs : option (list ifaddr)) (iface : text)
    (family : Z) (result : list (Address * Z)) : res (bool * list (Address * Z)) :=
  if decide (iface = [] \/ iface = lit "*") then
    let r1 := if (family =? AF_INET) || (family =? AF_UNSPEC)
              then result ++ [(IPv4Address (IPv4Address_new 0 0), 0)] else result in
    let r2 := if (family =? AF_INET6) || (family =? AF_UNSPEC)
              then r1 ++ [(IPv6Address IPv6Address_default, 0)] else r1 in
    mret (true, r2)
  else
    p ← GetInterfaceAddresses getifaddrs family [];
    let '(ok, results) := (p : bool * list (text * (Address * Z))) in
    if ok then
      mret (true, result ++ map snd (filter (fun e => e.1 = iface) results))
    else mret (false, result).

End Host.

(** ** Masks: theory *)

Section Theory.
Context (hb : bool).

Abbreviation swap16 := (byteswapOnLittleEndian hb 2).
Abbreviation swap32 := (byteswapOnLittleEndian hb 4).

(** An IPv4 address as a host-order number. *)
Definition host_addr (a : sockaddr_in) : Z := swap32 (s_addr a).

Lemma CreateMask_ok nbytes bits :
  0 < nbytes -> 0 <= bits <= nbytes * 8 -> nbytes * 8 - bits < 31 ->
  CreateMask nbytes bits = Ok (wrap (8 * nbytes) (2 ^ (nbytes * 8 - bits) - 1)).
Proof.
  intros Hn Hb Hc. unfold CreateMask.
  rewrite u64_small by (unfold is_u64; lia).
  destruct (Z.leb_spec 32 (nbytes * 8 - bits)); [lia|].
  destruct (Z.eqb_spec (nbytes * 8 - bits) 31); [lia|].
  by rewrite Z.shiftl_1_l.
Qed.

Lemma CreateMask_v4 bits :
  2 <= bits <= 32 -> CreateMask 4 bits = Ok (2 ^ (32 - bits) - 1).
Proof.
  intros Hb. rewrite CreateMask_ok by lia. f_equal. apply wrap_small.
  assert (0 < 2 ^ (32 - bits)) by (apply Z.pow_pos_nonneg; lia).
  assert (2 ^ (32 - bits) <= 2 ^ 30) by (apply Z.pow_le_mono_r; lia).
  change (8 * 4) with 32. lia.
Qed.

Lemma swap_range n x : 0 <= x < 2 ^ (8 * Z.of_nat n) ->
  0 <= byteswapOnLittleEndian hb n x < 2 ^ (8 * Z.of_nat n).
Proof. destruct hb; simpl; [done|]. intros. apply byteswap_range. Qed.

Lemma swap_swap n x : 0 <= x < 2 ^ (8 * Z.of_nat n) ->
  byteswapOnLittleEndian hb n (byteswapOnLittleEndian hb n x) = x.
Proof. intros. destruct hb; simpl; [done|]. by apply byteswap_involutive. Qed.

Lemma swap_lor n x y :
  byteswapOnLittleEndian hb n (Z.lor x y) =
  Z.lor (byteswapOnLittleEndian hb n x) (byteswapOnLittleEndian hb n y).
Proof. destruct hb; simpl; [done|]. apply byteswap_lor. Qed.

Lemma swap_land n x y :
  byteswapOnLittleEndian hb n (Z.land x y) =
  Z.land (byteswapOnLittleEndian hb n x) (byteswapOnLittleEndian hb n y).
Proof. destruct hb; simpl; [done|]. apply byteswap_land. Qed.

Lemma lor_ones_high h k :
  0 <= k -> Z.lor h (2 ^ k - 1) = h / 2 ^ k * 2 ^ k + (2 ^ k - 1).
Proof.
  intros Hk. replace (2 ^ k - 1) with (Z.ones k) by (rewrite Z.ones_equiv; lia).
  assert (Z.land (h / 2 ^ k * 2 ^ k) (Z.ones k) = 0) as Hl.
  { rewrite Z.land_ones by done. apply Z.mod_mul. apply Z.pow_nonzero; lia. }
  rewrite Z.add_nocarry_lxor, Z.lxor_lor by done.
  apply Z.bits_inj'. intros i Hi. rewrite !Z.lor_spec.
  rewrite <- Z.shiftr_div_pow2, <- Z.shiftl_mul_pow2 by done.
  destruct (Z.lt_ge_cases i k).
  - rewrite Z.ones_spec_low by lia. by rewrite !orb_true_r.
  - rewrite Z.ones_spec_high by lia. rewrite !orb_false_r.
    rewrite Z.shiftl_spec, Z.shiftr_spec by lia. f_equal. lia.
Qed.

(** C40.  [IPv4Address::broadcastAddress]: null above 32 bits, undefined for
    0 and 1 (shift by 32, [INT_MIN - 1]), and otherwise the address with all
    host bits set, port and family untouched. *)
Theorem broadcastAddress_v4_spec (a : sockaddr_in) (prefix_len : Z) :
  is_u32 (s_addr a) -> is_u32 prefix_len ->
  (32 < prefix_len -> broadcastAddress_v4 hb a prefix_len = Ok None) /\
  (prefix_len < 2 -> exists what, broadcastAddress_v4 hb a prefix_len = Err (FUB what)) /\
  (2 <= prefix_len <= 32 ->
     exists b, broadcastAddress_v4 hb a prefix_len = Ok (Some b) /\
       host_addr b = host_addr a / 2 ^ (32 - prefix_len) * 2 ^ (32 - prefix_len)
                     + (2 ^ (32 - prefix_len) - 1) /\
       sin_port b = sin_port a /\ sin_family b = sin_family a).
Proof.
  intros Ha Hp. unfold broadcastAddress_v4, is_u32 in *. split; [|split]; intros H.
  - destruct (Z.gtb_spec prefix_len 32); [done|lia].
  - destruct (Z.gtb_spec prefix_len 32); [lia|].
    assert (prefix_len = 0 \/ prefix_len = 1) as [->| ->] by lia; vm_compute; eauto.
  - destruct (Z.gtb_spec prefix_len 32); [lia|]. rewrite CreateMask_v4 by done. res_simpl.
    eexists. split; [done|]. split; [|done]. unfold host_addr. simpl.
    rewrite swap_lor, swap_swap, lor_ones_high; [done|lia|].
    simpl. assert (0 < 2 ^ (32 - prefix_len)) by (apply Z.pow_pos_nonneg; lia).
    assert (2 ^ (32 - prefix_len) <= 2 ^ 30) by (apply Z.pow_le_mono_r; lia). lia.
Qed.

(** [IPv4Address::networdAress] and [IPv4Address::subnetMask] do not
    complement the mask: the first keeps the host part of the address and
    clears the network part, the second is the wildcard mask. *)
Theorem networdAress_v4_keeps_host_part (a : sockaddr_in) (prefix_len : Z) :
  is_u32 (s_addr a) -> 2 <= prefix_len <= 32 ->
  (exists b, networdAress_v4 hb a prefix_len = Ok (Some b) /\
     host_addr b = host_addr a mod 2 ^ (32 - prefix_len)) /\
  (exists m, subnetMask_v4 hb prefix_len = Ok m /\
     host_addr m = 2 ^ (32 - prefix_len) - 1).
Proof.
  intros Ha Hp. unfold networdAress_v4, subnetMask_v4, host_addr.
  destruct (Z.gtb_spec prefix_len 32); [lia|]. rewrite CreateMask_v4 by done. res_simpl.
  assert (0 < 2 ^ (32 - prefix_len) <= 2 ^ 30)
    by (split; [apply Z.pow_pos_nonneg; lia|apply Z.pow_le_mono_r; lia]).
  split; (eexists; split; [done|]); simpl.
  - rewrite swap_land, swap_swap by (simpl; lia).
    replace (2 ^ (32 - prefix_len) - 1) with (Z.ones (32 - prefix_len))
      by (rewrite Z.ones_equiv; lia).
    by rewrite Z.land_ones by lia.
  - apply swap_swap. simpl. lia.
Qed.

(** *** Text of IPv4 addresses *)

Definition expect (c : ascii) (l : text) : option text :=
  match l with x :: l' => if decide (x = c) then Some l' else None | [] => None end.

(** The usual reader of "a.b.c.d:port". *)
Definition parse_v4 (l : text) : option (Z * Z) :=
  let '(a, l) := read_num 10 0 l in l ← expect "." l;
  let '(b, l) := read_num 10 0 l in l ← expect "." l;
  let '(c, l) := read_num 10 0 l in l ← expect "." l;
  let '(d, l) := read_num 10 0 l in l ← expect ":" l;
  let '(p, l) := read_num 10 0 l in
  if decide (l = []) then Some (a * 2 ^ 24 + b * 2 ^ 16 + c * 2 ^ 8 + d, p) else None.

Lemma land_255_shiftr h k : 0 <= k -> Z.land (Z.shiftr h k) 255 = (h / 2 ^ k) mod 2 ^ 8.
Proof. intros. by rewrite land_255, Z.shiftr_div_pow2. Qed.

(** [IPv4Address::insert] (hence [toString]) loses nothing: reading the
    text back gives the address and the port [getPort] reports; and
    [getPort] after [setPort] is the port set. *)
Theorem insert_v4_roundtrip (a : sockaddr_in) (v : Z) :
  is_u32 (s_addr a) -> is_u16 (sin_port a) -> is_u16 v ->
  parse_v4 (insert_v4 hb a) = Some (host_addr a, getPort_v4 hb a) /\
  getPort_v4 hb (setPort_v4 hb a v) = v.
Proof.
  intros Ha Hp Hv. split; [|by apply (swap_swap 2)].
  assert (0 <= host_addr a < 2 ^ 32) as Hh by (by apply (swap_range 4)).
  assert (0 <= getPort_v4 hb a < 2 ^ 16) as Hport by (by apply (swap_range 2)).
  unfold insert_v4. fold (host_addr a). fold (getPort_v4 hb a).
  rewrite !land_255_shiftr by lia. rewrite land_255. change 256 with (2 ^ 8).
  set (h := host_addr a) in *. set (q := getPort_v4 hb a) in *.
  assert (forall k, 0 <= (h / 2 ^ k) mod 2 ^ 8 < 10 ^ 20) as Hk
    by (intros k; pose proof (Z.mod_pos_bound (h / 2 ^ k) (2 ^ 8)); lia).
  assert (0 <= h mod 2 ^ 8 < 10 ^ 20) as H0
    by (pose proof (Z.mod_pos_bound h (2 ^ 8)); lia).
  unfold parse_v4.
  rewrite read_dec by (done || apply Hk). simpl.
  rewrite read_dec by (done || apply Hk). simpl.
  rewrite read_dec by (done || apply Hk). simpl.
  rewrite read_dec by done. simpl.
  rewrite <- (app_nil_r (dec q)). rewrite read_dec by (done || lia). simpl.
  f_equal. f_equal. clear Hk H0 Ha Hp Hv Hport.
  change (2 ^ 24) with 16777216. change (2 ^ 16) with 65536. change (2 ^ 8) with 256.
  change (2 ^ 32) with 4294967296 in Hh. Z.div_mod_to_equations. lia.
Qed.

(** *** Text of IPv6 addresses *)

(** The reader of RFC 4291 text, on pieces: eight groups separated by
    colons, or at most seven with one "::" for the missing zeros. *)
Fixpoint split_gap (ts : list chunk) : list chunk * option (list chunk) :=
  match ts with
  | [] => ([], None)
  | Colon :: ((Colon :: r) as _) => ([], Some r)
  | c :: ts' => let '(l, r) := split_gap ts' in (c :: l, r)
  end.

Fixpoint group_list (ts : list chunk) : option (list Z) :=
  match ts with
  | [Hex g] => Some [g]
  | Hex g :: Colon :: ts' => cons g <$> group_list ts'
  | _ => None
  end.

Definition group_side (ts : list chunk) : option (list Z) :=
  match ts with [] => Some [] | _ => group_list ts end.

Definition denote_v6 (ts : list chunk) : option (list Z) :=
  match split_gap ts with
  | (l, None) =>
      gs ← group_list l; if (length gs =? 8)%nat then Some gs else None
  | (l, Some r) =>
      a ← group_side l; b ← group_side r;
      if (length a + length b <=? 7)%nat
      then Some (a ++ zeros (8 - (length a + length b)) ++ b) else None
  end.

(** The lexer: [None] on any other character. *)
Fixpoint lex_v6 (fuel : nat) (l : text) : option (list chunk) :=
  match fuel, l with
  | _, [] => Some []
  | O, _ => None
  | S f, c :: l' =>
      if decide (c = ":"%char) then cons Colon <$> lex_v6 f l'
      else if isdigit 16 c then
        let '(v, rest) := read_num 16 0 l in cons (Hex v) <$> lex_v6 f rest
      else None
  end.

(** The reader of "[address]:port". *)
Fixpoint until (c : ascii) (l : text) : text * text :=
  match l with
  | [] => ([], [])
  | x :: l' => if decide (x = c) then ([], l) else let '(a, b) := until c l' in (x :: a, b)
  end.

Definition parse_v6 (l : text) : option (list Z * Z) :=
  l ← expect "[" l;
  let '(inner, l) := until "]" l in
  l ← expect "]" l; l ← expect ":" l;
  let '(port, l) := read_num 10 0 l in
  ts ← lex_v6 (length inner) inner;
  gs ← denote_v6 ts;
  if decide (l = []) then Some (gs, port) else None.

(** Two numerals never touch. *)
Fixpoint separated (ts : list chunk) : bool :=
  match ts with
  | Hex _ :: ((Hex _ :: _) as _) => false
  | _ :: ts' => separated ts'
  | [] => true
  end.

Fixpoint chunk_values (ts : list chunk) : list Z :=
  match ts with
  | [] => []
  | Hex g :: ts' => g :: chunk_values ts'
  | Colon :: ts' => chunk_values ts'
  end.

Lemma swap16_0 : swap16 0 = 0.
Proof. by destruct hb. Qed.

(** The same loop on groups flagged as zero or not. *)
Fixpoint flagged_loop (f : Z -> Z) (prev : option bool) (l : list (bool * Z))
    (used : bool) (os : list chunk) : list chunk * bool :=
  match l with
  | [] => (os, used)
  | (z, x) :: l' =>
      if z && negb used then flagged_loop f (Some z) l' used os
      else
        let zb := match prev with Some p => p | None => false end in
        let '(os, used) := if zb && negb used then (os ++ [Colon], true) else (os, used) in
        let os := match prev with Some _ => os ++ [Colon] | None => os end in
        flagged_loop f (Some z) l' used (os ++ [Hex (f x)])
  end.

Lemma insert_v6_loop_flagged prev l used os :
  insert_v6_loop hb prev l used os =
  flagged_loop swap16 ((fun p => p =? 0) <$> prev) (map (fun x => (x =? 0, x)) l) used os.
Proof.
  revert prev used os. induction l as [|x l IH]; intros prev used os; [done|].
  cbn [insert_v6_loop flagged_loop map].
  destruct ((x =? 0) && negb used); [by rewrite IH|].
  destruct prev as [p|]; simpl; [destruct ((p =? 0) && negb used)|]; by rewrite IH.
Qed.

Definition flagged_chunks (f : Z -> Z) (l : list (bool * Z)) : list chunk :=
  let '(os, used) := flagged_loop f None l false [] in
  if used && (default (true, 0) (l !! 7%nat)).1 then os ++ [Colon; Colon] else os.

Lemma insert_v6_chunks_flagged l :
  length l = 8%nat ->
  insert_v6_chunks hb l = flagged_chunks swap16 (map (fun x => (x =? 0, x)) l).
Proof.
  intros Hl. unfold insert_v6_chunks, flagged_chunks. rewrite insert_v6_loop_flagged.
  cbn [fmap option_fmap option_map]. destruct (flagged_loop _ _ _ _ _) as [os used].
  change (map ?g l) with (g <$> l). rewrite list_lookup_fmap.
  by destruct (lookup_lt_is_Some_2 l 7 ltac:(lia)) as [x ->].
Qed.

(** Which of the eight groups are zero decides the shape of the text: a
    complete case analysis. *)
Lemma flagged_chunks_cases (f : Z -> Z) b0 b1 b2 b3 b4 b5 b6 b7 x0 x1 x2 x3 x4 x5 x6 x7 :
  let l := [(b0, x0); (b1, x1); (b2, x2); (b3, x3); (b4, x4); (b5, x5); (b6, x6); (b7, x7)] in
  let ts := flagged_chunks f l in
  Forall (fun p => p.1 = true -> f p.2 = 0) l ->
  denote_v6 ts = (if b7 : bool then None else Some (map (fun p => f p.2) l)) /\
  separated ts = true.
Proof.
  intros l ts HF. unfold l in HF. rewrite !Forall_cons in HF. simpl in HF.
  destruct HF as (H0 & H1 & H2 & H3 & H4 & H5 & H6 & H7 & _). unfold ts, l.
  destruct b0, b1, b2, b3, b4, b5, b6, b7;
    repeat match goal with H : true = true -> _ |- _ => specialize (H eq_refl) end;
    (split; [vm_compute; congruence|reflexivity]).
Qed.

Lemma insert_v6_chunks_ok gs :
  length gs = 8%nat ->
  denote_v6 (insert_v6_chunks hb gs)
    = (if last gs is Some 0 then None else Some (map swap16 gs)) /\
  separated (insert_v6_chunks hb gs) = true.
Proof.
  intros Hl. rewrite insert_v6_chunks_flagged by done.
  do 8 (destruct gs as [|? gs]; [done|]). destruct gs; [|done]. cbn [map].
  match goal with |- context [flagged_chunks _ ?l] => set (fl := l) end.
  assert (Forall (fun p => p.1 = true -> swap16 p.2 = 0) fl) as HF.
  { unfold fl. repeat constructor; intros ->%Z.eqb_eq; apply swap16_0. }
  destruct (flagged_chunks_cases _ _ _ _ _ _ _ _ _ _ _ _ _ _ _ _ _ HF) as [H1 H2].
  split; [|exact H2]. etrans; [exact H1|]. simpl.
  match goal with |- context [?x =? 0] => destruct x; reflexivity end.
Qed.

(** Reading back what [chunk_text] wrote. *)
Lemma hex_head g rest : exists c l, hex g ++ rest = c :: l /\
  (0 <= g -> isdigit 16 c = true /\ c <> ":"%char).
Proof.
  unfold hex. destruct (digits 16 16 g) as [|d ds] eqn:E.
  { by apply digits_nonempty in E. }
  simpl. eexists _, _. split; [done|]. intros Hg.
  pose proof (digits_range 16 16 g ltac:(lia) Hg) as H. rewrite E in H.
  apply Forall_cons in H as [Hd _]. unfold isdigit. rewrite char_digit_char by lia.
  destruct (Z.ltb_spec d 16); [|lia]. split; [done|]. intros Hc.
  pose proof (char_digit_char d Hd) as H2. by rewrite Hc in H2.
Qed.

Lemma lex_v6_chunks ts fuel :
  separated ts = true -> Forall (fun g => 0 <= g < 16 ^ 16) (chunk_values ts) ->
  (length ts <= fuel)%nat ->
  lex_v6 fuel (mjoin (map chunk_text ts)) = Some ts.
Proof.
  revert fuel. induction ts as [|c ts IH]; intros fuel Hsep Hv Hf; [by destruct fuel|].
  simpl in Hf. destruct fuel as [|fuel]; [lia|].
  destruct c as [|g]; cbn [map].
  - simpl. rewrite IH; auto. lia.
  - simpl in Hv. apply Forall_cons in Hv as [Hg Hv].
    assert (match mjoin (map chunk_text ts) with [] => True | c :: _ => isdigit 16 c = false end)
      as Hrest by (destruct ts as [|[|]]; simpl; done).
    change (mjoin (chunk_text (Hex g) :: map chunk_text ts))
      with (hex g ++ mjoin (map chunk_text ts)).
    pose proof (read_hex g _ Hg Hrest) as Hread.
    destruct (hex_head g (mjoin (map chunk_text ts))) as (c & l & E & Hc).
    destruct (Hc ltac:(lia)) as [Hd Hne]. rewrite E in *. cbn [lex_v6].
    rewrite decide_False by done. rewrite Hd, Hread, IH; auto; [|lia].
    by destruct ts as [|[|]].
Qed.

Lemma chunk_values_app ts1 ts2 :
  chunk_values (ts1 ++ ts2) = chunk_values ts1 ++ chunk_values ts2.
Proof. induction ts1 as [|[|g] ts1 IH]; simpl; congruence. Qed.

Lemma insert_v6_loop_values (P : Z -> Prop) l : forall prev used os,
  Forall P (chunk_values os) -> Forall P (map swap16 l) ->
  Forall P (chunk_values (insert_v6_loop hb prev l used os).1).
Proof.
  induction l as [|x l IH]; intros prev used os Hos Hl; [done|].
  apply Forall_cons in Hl as [Hx Hl]. cbn [insert_v6_loop].
  destruct ((x =? 0) && negb used); [by apply IH|].
  set (zb := match prev with Some p => p =? 0 | None => false end).
  destruct (zb && negb used), prev; apply IH; auto;
    rewrite ?chunk_values_app; simpl; rewrite ?app_nil_r;
    repeat (apply Forall_app; split); auto; repeat constructor; auto.
Qed.

Lemma insert_v6_chunks_values (P : Z -> Prop) gs :
  Forall P (map swap16 gs) -> Forall P (chunk_values (insert_v6_chunks hb gs)).
Proof.
  intros HP. unfold insert_v6_chunks.
  pose proof (insert_v6_loop_values P gs None false [] ltac:(constructor) HP) as H.
  destruct (insert_v6_loop hb None gs false []) as [os used]. simpl in H.
  destruct (used && _); [|done]. rewrite chunk_values_app. simpl. by rewrite app_nil_r.
Qed.

Lemma chunk_text_length ts :
  Forall (fun g => 0 <= g) (chunk_values ts) ->
  (length ts <= length (mjoin (map chunk_text ts)))%nat.
Proof.
  induction ts as [|c ts IH]; intros HF; simpl; [lia|].
  rewrite length_app. destruct c as [|g]; simpl in *.
  - specialize (IH HF). lia.
  - apply Forall_cons in HF as [_ HF]. specialize (IH HF).
    assert (hex g <> []); [|destruct (hex g); simpl in *; [done|lia]].
    unfold hex. intros H%map_eq_nil. by apply digits_nonempty in H.
Qed.

Lemma expect_same c l : expect c (c :: l) = Some l.
Proof. simpl. by rewrite decide_True. Qed.

Lemma until_here c l1 l2 : Forall (fun x => x <> c) l1 -> until c (l1 ++ c :: l2) = (l1, c :: l2).
Proof.
  induction l1 as [|x l1 IH]; intros HF; simpl; [by rewrite decide_True|].
  apply Forall_cons in HF as [Hx HF]. by rewrite decide_False, IH.
Qed.

Lemma digit_char_not_bracket d : 0 <= d < 16 -> digit_char d <> "]"%char.
Proof. intros Hd H. pose proof (char_digit_char d Hd) as H2. by rewrite H in H2. Qed.

Lemma chunk_text_no_bracket ts :
  Forall (fun g => 0 <= g) (chunk_values ts) ->
  Forall (fun x => x <> "]"%char) (mjoin (map chunk_text ts)).
Proof.
  induction ts as [|c ts IH]; intros HF; simpl; [constructor|].
  apply Forall_app. destruct c as [|g]; simpl in *.
  - split; [|auto]. by repeat constructor.
  - apply Forall_cons in HF as [Hg HF]. split; [|auto]. unfold hex.
    pose proof (digits_range 16 16 g ltac:(lia) Hg) as H.
    apply Forall_forall. intros x Hx%list_elem_of_In.
    apply in_map_iff in Hx as (d & <- & Hd%list_elem_of_In).
    rewrite Forall_forall in H. by apply digit_char_not_bracket, H.
Qed.

(** The groups of an address in network order. *)
Definition net_groups (l : list Z) : list Z :=
  map (fun i => of_le_bytes (rev (take 2 (drop (2 * i) l)))) (seq 0 8).

Lemma swap_load n l : byte_list l -> length l = n ->
  byteswapOnLittleEndian hb n (load hb l) = of_le_bytes (rev l).
Proof.
  intros Hl <-. unfold load. destruct hb; simpl; [done|].
  unfold byteswap. by rewrite le_bytes_of_le.
Qed.

Lemma byte_list_slice l n m : byte_list l -> byte_list (take n (drop m l)).
Proof. intros. by apply Forall_take, Forall_drop. Qed.

Lemma map_swap_groups a :
  byte_list (s6_addr a) -> length (s6_addr a) = 16%nat ->
  map swap16 (groups hb a) = net_groups (s6_addr a).
Proof.
  intros Hb Hl. unfold groups, net_groups. rewrite map_map. apply map_ext_in.
  intros i [_ Hi]%in_seq. apply swap_load; [by apply byte_list_slice|].
  rewrite length_take, length_drop. lia.
Qed.

Lemma net_groups_range l :
  byte_list l -> Forall (fun g => 0 <= g < 16 ^ 16) (net_groups l).
Proof.
  intros Hb. unfold net_groups. apply Forall_map, Forall_forall. intros i _.
  pose proof (of_le_range (rev (take 2 (drop (2 * i) l)))
    (byte_list_rev _ (byte_list_slice l 2 (2 * i) Hb))) as H.
  rewrite length_rev, length_take in H.
  assert (2 ^ (8 * Z.of_nat (2 `min` length (drop (2 * i) l))) <= 2 ^ 16)
    by (apply Z.pow_le_mono_r; lia).
  change (16 ^ 16) with (2 ^ 64). lia.
Qed.

(** [IPv6Address::insert] prints readable RFC 4291 text - reading it back
    gives the groups and the port - exactly when the last group is non-zero;
    with a zero last group (the unspecified address and every network address
    among them) the text is malformed. *)
Theorem insert_v6_text (a : sockaddr_in6) :
  byte_list (s6_addr a) -> length (s6_addr a) = 16%nat -> is_u16 (sin6_port a) ->
  parse_v6 (insert_v6 hb a) =
    (if last (groups hb a) is Some 0 then None
     else Some (net_groups (s6_addr a), getPort_v6 hb a)).
Proof.
  intros Hb Hl Hp.
  assert (0 <= getPort_v6 hb a < 2 ^ 16) as Hq by (by apply (swap_range 2)).
  destruct (insert_v6_chunks_ok (groups hb a)) as [Hden Hsep].
  { unfold groups. by rewrite length_map, length_seq. }
  rewrite map_swap_groups in Hden by done.
  assert (Forall (fun g => 0 <= g < 16 ^ 16) (chunk_values (insert_v6_chunks hb (groups hb a))))
    as Hv by (apply insert_v6_chunks_values; rewrite map_swap_groups by done;
              by apply net_groups_range).
  assert (Forall (fun g => 0 <= g) (chunk_values (insert_v6_chunks hb (groups hb a)))) as Hv'
    by (eapply Forall_impl; [exact Hv|]; simpl; lia).
  set (ts := insert_v6_chunks hb (groups hb a)) in *.
  unfold insert_v6, parse_v6. fold ts. fold (getPort_v6 hb a).
  cbn [lit String.list_ascii_of_string app]. rewrite expect_same. cbn [mbind option_bind].
  rewrite until_here by (by apply chunk_text_no_bracket).
  rewrite expect_same. cbn [mbind option_bind]. rewrite expect_same. cbn [mbind option_bind].
  rewrite <- (app_nil_r (dec _)), read_dec by (done || lia).
  rewrite lex_v6_chunks by (auto using chunk_text_length). cbn [mbind option_bind].
  rewrite Hden. destruct (last (groups hb a)) as [[| |]|]; by simpl.
Qed.

(** *** Order and equality *)













(** *** [Address::Create] *)

Definition wf_in (a : sockaddr_in) : Prop :=
  sin_family a = AF_INET /\ is_u16 (sin_port a) /\ is_u32 (s_addr a) /\
  length (sin_zero a) = 8%nat.

Definition wf_in6 (a : sockaddr_in6) : Prop :=
  sin6_family a = AF_INET6 /\ is_u16 (sin6_port a) /\ is_u32 (sin6_flowinfo a) /\
  length (s6_addr a) = 16%nat /\ is_u32 (sin6_scope_id a).

Lemma length_store n x : length (store hb n x) = n.
Proof. unfold store. destruct hb; by rewrite ?length_rev, length_le_bytes. Qed.

Lemma load_store n x : 0 <= x < 2 ^ (8 * Z.of_nat n) -> load hb (store hb n x) = x.
Proof.
  intros. unfold load, store. destruct hb; rewrite ?rev_involutive; by apply of_le_le_bytes.
Qed.

(** Reading the fields of a struct one after the other. *)
Lemma field_load n x rest :
  0 <= x < 2 ^ (8 * Z.of_nat n) -> load hb (take n (store hb n x ++ rest)) = x.
Proof. intros. by rewrite take_app_length', load_store by (rewrite ?length_store; done). Qed.

Lemma field_skip n m x rest :
  (n <= m)%nat -> drop m (store hb n x ++ rest) = drop (m - n) rest.
Proof. intros. rewrite drop_app_ge by (rewrite length_store; lia). by rewrite length_store. Qed.

Ltac fields :=
  repeat (match goal with
          | |- context [drop (S ?m) (store hb ?n ?x ++ ?r)] =>
              rewrite (field_skip n (S m) x r) by lia
          end; simpl);
  rewrite ?drop_0, ?field_load
    by (unfold is_u16, is_u32, AF_INET, AF_INET6, AF_UNIX in *; simpl; lia).

(** [Address::Create] rebuilds the object whose memory it is given for
    IPv4 and IPv6, but turns the memory of a Unix address into an
    [UnknownAddress] of the same family: the path is lost. *)
Theorem Create_getAddr (a : sockaddr_in) (a6 : sockaddr_in6) (u : sockaddr_un) (len : Z) :
  wf_in a -> wf_in6 a6 -> sun_family u = AF_UNIX -> length (sun_path u) = 108%nat ->
  Create hb (Some (getAddr hb (IPv4Address a))) len = Ok (Some (IPv4Address a)) /\
  Create hb (Some (getAddr hb (IPv6Address a6))) len = Ok (Some (IPv6Address a6)) /\
  Create hb (Some (getAddr hb (UnixAddress u len))) len
    = Ok (Some (UnknownAddress (Sockaddr AF_UNIX (take 14 (sun_path u))))).
Proof.
  intros (Hf & Hp & Ha & Hz) (Hf6 & Hp6 & Hfl & Hl6 & Hs) Hu Hlu.
  destruct a as [f p ad z], a6 as [f6 p6 fl l6 sc], u as [fu pu]. simpl in *. subst.
  split_and!; unfold Create, getAddr, bytes_in, bytes_in6; simpl sun_family; simpl sun_path;
    simpl sin_family; simpl sin_port; simpl s_addr; simpl sin_zero;
    simpl sin6_family; simpl sin6_port; simpl sin6_flowinfo; simpl s6_addr; simpl sin6_scope_id;
    unfold at_least; rewrite !length_app, !length_store, ?Hz, ?Hl6, ?Hlu; simpl;
    rewrite field_load by (unfold AF_INET, AF_INET6, AF_UNIX; lia); simpl.
  - unfold read_in. fields. by rewrite take_ge by lia.
  - unfold read_in6. fields. rewrite drop_app_ge by lia. rewrite Hl6. simpl.
    rewrite take_app_length' by done.
    rewrite (take_ge (store hb 4 sc)) by (by rewrite length_store). by rewrite load_store.
  - fields. done.
Qed.

(** *** IPv6 prefixes *)

(** Bit [k] of an address, the most significant bit of the first byte first. *)
Definition bit_at (l : list Z) (k : Z) : bool :=
  Z.testbit (default 0 (l !! Z.to_nat (k / 8))) (7 - k mod 8).

Lemma CreateMask_u8 b : 0 <= b < 8 -> CreateMask 1 b = Ok (2 ^ (8 - b) - 1).
Proof.
  intros. rewrite CreateMask_ok by lia. f_equal. change (1 * 8) with 8. apply wrap_small.
  assert (0 < 2 ^ (8 - b)) by (apply Z.pow_pos_nonneg; lia).
  assert (2 ^ (8 - b) <= 2 ^ 8) by (apply Z.pow_le_mono_r; lia).
  change (8 * 1) with 8. lia.
Qed.

Lemma testbit_low n i : 0 <= n -> 0 <= i -> Z.testbit (2 ^ n - 1) i = bool_decide (i < n).
Proof.
  intros. replace (2 ^ n - 1) with (Z.ones n) by (rewrite Z.ones_equiv; lia).
  case_bool_decide; [apply Z.ones_spec_low|apply Z.ones_spec_high]; lia.
Qed.

Lemma set_s6_ok l i f :
  length l = 16%nat -> 0 <= i < 16 ->
  exists x, l !! Z.to_nat i = Some x /\ set_s6 l i f = Ok (<[Z.to_nat i := f x]> l).
Proof.
  intros Hl Hi. destruct (lookup_lt_is_Some_2 l (Z.to_nat i) ltac:(lia)) as [x Hx].
  exists x. split; [done|]. unfold set_s6. rewrite Hx.
  destruct (Z.ltb_spec i 0), (Z.leb_spec 16 i); simpl; lia || done.
Qed.

Lemma bit_at_insert l i x k :
  0 <= i < Z.of_nat (length l) -> 0 <= k ->
  bit_at (<[Z.to_nat i := x]> l) k
  = if decide (k / 8 = i) then Z.testbit x (7 - k mod 8) else bit_at l k.
Proof.
  intros Hi Hk. unfold bit_at. pose proof (Z.div_pos k 8 ltac:(lia) ltac:(lia)).
  destruct (decide (k / 8 = i)) as [->|Hne].
  - rewrite list_lookup_insert_eq by lia. done.
  - rewrite list_lookup_insert_ne by lia. done.
Qed.

Lemma bit_at_fill l a b k :
  0 <= k -> bit_at (fill_ff l a b) k =
  (if decide (a <= k / 8 < b) then bool_decide (k / 8 < Z.of_nat (length l)) else bit_at l k).
Proof.
  intros Hk. unfold bit_at, fill_ff. pose proof (Z.div_pos k 8 ltac:(lia) ltac:(lia)).
  pose proof (Z.mod_pos_bound k 8 ltac:(lia)).
  rewrite list_lookup_imap, Z2Nat.id by lia.
  destruct (l !! Z.to_nat (k / 8)) as [x|] eqn:E.
  - apply lookup_lt_Some in E. rewrite bool_decide_true by lia. simpl.
    destruct (Z.leb_spec a (k / 8)), (Z.ltb_spec (k / 8) b), (decide (a <= k / 8 < b));
      simpl; lia || done || idtac.
    change 255 with (Z.ones 8). apply Z.ones_spec_low. lia.
  - apply lookup_ge_None in E. rewrite bool_decide_false by lia. simpl.
    rewrite Z.bits_0. by destruct (decide _).
Qed.

(** On bit [k] of a 128-bit address (most significant first) with prefix
    length [p < 128]: the broadcast address keeps the bits below [p] and sets
    all others; the "network" address clears, of the bits below [p], only those
    of byte [p/8], and keeps every host bit (so for a prefix that is a multiple
    of 8 it is the address itself); [p = 128] indexes past the array. *)
Theorem prefix_v6_bits (a : sockaddr_in6) (p : Z) :
  length (s6_addr a) = 16%nat ->
  (0 <= p < 128 ->
     exists b n, broadcastAddress_v6 a p = Ok b /\ networdAress_v6 a p = Ok n /\
       forall k, 0 <= k < 128 ->
         bit_at (s6_addr b) k = bool_decide (p <= k) || bit_at (s6_addr a) k /\
         bit_at (s6_addr n) k
           = negb (bool_decide (k / 8 = p / 8 /\ k < p)) && bit_at (s6_addr a) k) /\
  (p = 128 -> exists w, broadcastAddress_v6 a p = Err (FUB w) /\
                networdAress_v6 a p = Err (FUB w) /\ subnetMask_v6 p = Err (FUB w)).
Proof.
  intros Hl. split; [|intros ->; by eexists].
  intros Hp. pose proof (Z.mod_pos_bound p 8 ltac:(lia)). pose proof (Z.div_mod p 8 ltac:(lia)).
  unfold broadcastAddress_v6, networdAress_v6. rewrite CreateMask_u8 by lia. res_simpl.
  destruct (set_s6_ok (s6_addr a) (p / 8) (fun x => Z.lor x (2 ^ (8 - p mod 8) - 1)))
    as (x & Hx & ->); [done|lia|].
  destruct (set_s6_ok (s6_addr a) (p / 8) (fun x => Z.land x (2 ^ (8 - p mod 8) - 1)))
    as (y & Hy & ->); [done|lia|].
  eexists _, _. split_and!; [done..|]. intros k Hk. cbn [s6_addr with_s6].
  pose proof (Z.mod_pos_bound k 8 ltac:(lia)). pose proof (Z.div_mod k 8 ltac:(lia)).
  rewrite bit_at_fill, !bit_at_insert, length_insert, Hl by lia.
  rewrite Z.lor_spec, Z.land_spec, testbit_low by lia.
  assert (k / 8 = p / 8 -> bit_at (s6_addr a) k = Z.testbit x (7 - k mod 8)) as Hb
    by (intros E; unfold bit_at; by rewrite E, Hx).
  assert (x = y) as <- by congruence.
  split.
  - destruct (decide (p / 8 + 1 <= k / 8 < 16)); [rewrite !bool_decide_true by lia; done|].
    destruct (decide (k / 8 = p / 8)) as [E|E].
    + rewrite Hb by done. rewrite orb_comm. f_equal. apply bool_decide_ext. lia.
    + by rewrite bool_decide_false by lia.
  - destruct (decide (k / 8 = p / 8)) as [E|E].
    + rewrite Hb, andb_comm by done. f_equal. rewrite <- bool_decide_not.
      apply bool_decide_ext. lia.
    + by rewrite bool_decide_false by lia.
Qed.

(** *** Unix paths *)

Lemma c_str_app_NUL l r : NUL ∉ l -> c_str (l ++ NUL :: r) = l.
Proof.
  induction l as [|c l IH]; intros H; simpl.
  - done.
  - apply not_elem_of_cons in H as [Hc H]. rewrite decide_False by congruence.
    by rewrite IH.
Qed.

(** [UnixAddress(path)] followed by [insert] gives the path back; an
    abstract name (leading NUL) is printed with the two characters [\0] in
    place of the NUL; the length is exact; a path without room for its NUL
    (or an abstract name over 108 bytes) throws. *)
Theorem UnixAddress_text (path : list Z) (c : Z) :
  let p := c :: path in
  (c <> 0 -> byte_char c <> NUL -> NUL ∉ map byte_char path ->
     (length p <= 107)%nat ->
     exists a, UnixAddress_new p = Ok a /\ getAddrLen a = Z.of_nat (length p) + 3 /\
       insert hb a = map byte_char p) /\
  ((length path <= 107)%nat ->
     exists a, UnixAddress_new (0 :: path) = Ok a /\
       getAddrLen a = Z.of_nat (length path) + 3 /\
       insert hb a = [ascii_of_N 92; ascii_of_N 48] ++ map byte_char path) /\
  (c <> 0 -> (108 <= length p)%nat -> exists w, UnixAddress_new p = Err (FThrow w)).
Proof.
  intros p. assert (c <> 0 -> (match p with 0 :: _ => Z.of_nat (length p) + 1 - 1
                       | _ => Z.of_nat (length p) + 1 end) = Z.of_nat (length p) + 1) as Hlen
    by (subst p; destruct c; done).
  unfold UnixAddress_new, sizeof_sun_path, offsetof_sun_path. split_and!.
  - intros Hc Hc' Hn Hl. rewrite Hlen by done.
    destruct (Z.ltb_spec 108 (Z.of_nat (length p) + 1)); [lia|].
    eexists. split; [done|]. rewrite take_ge by (rewrite length_app; simpl; lia).
    split; [simpl; rewrite u32_small by (unfold is_u32; simpl in *; lia); lia|].
    unfold insert, insert_unix. subst p. simpl.
    destruct (Z.eqb_spec c 0); [done|]. rewrite andb_false_r.
    rewrite decide_False by done. f_equal.
    rewrite !map_app. simpl. rewrite <- app_assoc. by apply c_str_app_NUL.
  - intros Hl. simpl length.
    destruct (Z.ltb_spec 108 (Z.of_nat (S (length path)) + 1 - 1)); [lia|].
    eexists. split; [done|]. cbn [getAddrLen].
    rewrite u32_small by (unfold is_u32; lia). split; [lia|].
    unfold insert, insert_unix, offsetof_sun_path. simpl sun_path.
    destruct (Z.gtb_spec (Z.of_nat (S (length path)) + 1 - 1 + 2) 2); [|lia].
    replace (Z.to_nat (Z.of_nat (S (length path)) + 1 - 1)) with (S (length path)) by lia.
    replace (Z.to_nat (Z.of_nat (S (length path)) + 1 - 1 + 2 - 2 - 1))
      with (length path) by lia.
    simpl. f_equal. f_equal. by rewrite take_app_length, drop_0, take_app_length.
  - intros Hc Hl. rewrite Hlen by done.
    destruct (Z.ltb_spec 108 (Z.of_nat (length p) + 1)); [|lia]. by eexists.
Qed.

End Theory.

(** ** Counting bits, splitting host names *)

(** The number of set bits among the lowest [w]. *)
Fixpoint popcount (w : nat) (v : Z) : Z :=
  match w with O => 0 | S w' => v mod 2 + popcount w' (v / 2) end.

Lemma land_pred_double q : 0 < q -> Z.land (2 * q) (2 * q - 1) = 2 * Z.land q (q - 1).
Proof.
  intros. apply Z.bits_inj'. intros i Hi.
  destruct (Z.eq_dec i 0) as [->|].
  - rewrite Z.land_spec, !Z.testbit_even_0. done.
  - replace i with (Z.succ (Z.pred i)) by lia.
    rewrite Z.land_spec, !Z.testbit_even_succ, Z.land_spec by lia. f_equal.
    replace (2 * q - 1) with (2 * (q - 1) + 1) by lia. by rewrite Z.testbit_odd_succ by lia.
Qed.

Lemma land_pred_odd q : 0 <= q -> Z.land (2 * q + 1) (2 * q + 1 - 1) = 2 * q.
Proof.
  intros. replace (2 * q + 1 - 1) with (2 * q) by lia. apply Z.bits_inj'. intros i Hi.
  destruct (Z.eq_dec i 0) as [->|].
  - by rewrite Z.land_spec, Z.testbit_even_0, andb_false_r.
  - replace i with (Z.succ (Z.pred i)) by lia.
    rewrite Z.land_spec, Z.testbit_odd_succ, Z.testbit_even_succ by lia. apply andb_diag.
Qed.

Lemma CountBytes_loop_double f : forall q r,
  0 <= q -> CountBytes_loop f (2 * q) r = CountBytes_loop f q r.
Proof.
  induction f as [|f IH]; intros q r Hq; [done|]. simpl CountBytes_loop.
  destruct (Z.eqb_spec (2 * q) 0), (Z.eqb_spec q 0); try lia.
  change (match q with 0 => 0 | Z.pos y' => Z.pos y'~0 | Z.neg y' => Z.neg y'~0 end)
    with (2 * q).
  rewrite land_pred_double by lia. apply IH, Z.land_nonneg. lia.
Qed.

Lemma CountBytes_loop_popcount w : forall v f r,
  0 <= v < 2 ^ Z.of_nat w -> (w <= f)%nat ->
  CountBytes_loop f v r = r + popcount w v.
Proof.
  induction w as [|w IH]; intros v f r Hv Hf.
  - assert (v = 0) as -> by (simpl in Hv; lia). simpl. destruct f; simpl; lia.
  - rewrite Nat2Z.inj_succ, Z.pow_succ_r in Hv by lia.
    pose proof (Z.div_mod v 2 ltac:(lia)) as E. pose proof (Z.mod_pos_bound v 2 ltac:(lia)).
    cbn [popcount]. destruct (Z.eq_dec (v mod 2) 0) as [H0|H1].
    + rewrite H0 in *. rewrite E at 1. rewrite Z.add_0_r, CountBytes_loop_double by lia.
      rewrite IH by lia. lia.
    + destruct f as [|f]; [lia|]. assert (v mod 2 = 1) as H2 by lia. rewrite H2 in *.
      cbn [CountBytes_loop]. destruct (Z.eqb_spec v 0); [lia|]. rewrite E at 1 2.
      rewrite land_pred_odd, CountBytes_loop_double, IH by lia. lia.
Qed.

(** [CountBytes] of a w-bit value is the number of its set bits (so the
    prefix length of an interface is the number of ones of its netmask), and
    its loop ends within w rounds. *)
Theorem CountBytes_popcount (w : nat) (v : Z) :
  0 <= v < 2 ^ Z.of_nat w -> CountBytes w v = popcount w v.
Proof. intros. unfold CountBytes. by rewrite (CountBytes_loop_popcount w) by lia. Qed.

Lemma memchr_here c a b start n :
  (start <= length a)%nat -> c ∉ drop start a -> (length a - start < n)%nat ->
  memchr c (a ++ c :: b) start n = Some (length a).
Proof.
  intros Hs Hc Hn. unfold memchr.
  rewrite drop_app_le, take_app_ge by (rewrite ?length_drop; lia).
  rewrite length_drop. destruct (n - (length a - start))%nat eqn:E; [lia|]. simpl.
  rewrite list_find_app_r by (rewrite list_find_None, Forall_forall; naive_solver).
  simpl. rewrite decide_True by done. simpl. f_equal. rewrite length_drop. lia.
Qed.

Lemma memchr_none c buf start n : c ∉ buf -> memchr c buf start n = None.
Proof.
  intros Hc. unfold memchr. rewrite (proj2 (list_find_None _ _)); [done|].
  apply Forall_forall. intros x Hx ->.
  by apply Hc, (elem_of_drop_of _ start), (elem_of_take_of _ n).
Qed.

(** A bracketed literal: what follows the closing bracket is [rest]. *)
Lemma lookup_bracket_here node rest :
  "]"%char ∉ node ->
  lookup_bracket ("["%char :: node ++ "]"%char :: rest)
  = (node, match rest with
           | c :: r => if decide (c = ":"%char) then Some (c_str (r ++ [NUL])) else None
           | [] => None end).
Proof.
  intros Hn. unfold lookup_bracket.
  replace (("["%char :: node ++ "]"%char :: rest) ++ [NUL])
    with (("["%char :: node) ++ "]"%char :: (rest ++ [NUL])) by (simpl; by rewrite <- app_assoc).
  rewrite decide_True by done.
  rewrite (memchr_here _ ("["%char :: node));
    [|simpl; lia|simpl; by rewrite drop_0|simpl; rewrite length_app; simpl; lia].
  simpl length. f_equal.
  - simpl. rewrite drop_0, Nat.sub_0_r. apply take_app_length.
  - assert (forall k, (("["%char :: node) ++ "]"%char :: rest ++ [NUL]) !! S (S (length node) + k)%nat
      = (rest ++ [NUL]) !! k) as Hk.
    { intros k. simpl. rewrite lookup_app_r by lia.
      by replace (S (length node + k) - length node)%nat with (S k) by lia. }
    specialize (Hk 0%nat). rewrite Nat.add_0_r in Hk. rewrite Hk.
    replace (drop (S (S (S (length node)))) _) with (drop 1 (rest ++ [NUL])).
    + by destruct rest as [|c r]; simpl; [|case_decide; rewrite ?drop_0; case_decide; congruence].
    + simpl. rewrite (drop_app_ge node) by lia.
      by replace (S (S (length node)) - length node)%nat with 2%nat by lia.
Qed.

(** [Address::Lookup] splits bracketed literals into node and service,
    with or without a port, but the search for a plain host name looks for a
    closing bracket where it means a colon: a name without brackets is passed
    to the resolver whole, a port included. *)
Theorem lookup_split_cases (node service : text) :
  node <> [] -> head node <> Some "["%char ->
  "]"%char ∉ node -> "]"%char ∉ service -> NUL ∉ service ->
  lookup_split (lit "[" ++ node ++ lit "]:" ++ service) = (node, Some service) /\
  lookup_split (lit "[" ++ node ++ lit "]") = (node, None) /\
  lookup_split (node ++ lit ":" ++ service) = (node ++ lit ":" ++ service, None).
Proof.
  intros Hne Hb Hn Hs Hz. unfold lookup_split. split_and!.
  - simpl lit. simpl app. rewrite lookup_bracket_here by done. simpl.
    rewrite !decide_False by done. rewrite ?decide_True by done.
    by rewrite c_str_app_NUL.
  - simpl lit. simpl app. rewrite lookup_bracket_here by done. simpl.
    by rewrite !decide_False by done.
  - destruct node as [|c node]; [done|]. simpl in Hb.
    assert (lookup_bracket ((c :: node) ++ lit ":" ++ service) = ([], None)) as ->
      by (unfold lookup_bracket; simpl; by rewrite decide_False by congruence).
    simpl. unfold lookup_second. rewrite memchr_none; [done|].
    apply not_elem_of_cons in Hn as [Hc Hn].
    rewrite !elem_of_app, !elem_of_cons, elem_of_app, elem_of_cons, !elem_of_nil.
    intuition (done || congruence).
Qed.

(** ** Witnesses *)

(** 192.168.7.130:8080 and its parts on a little-endian host. *)
Definition ex_v4 : sockaddr_in := IPv4Address_new false 3232237442 8080.

Lemma broadcastAddress_v4_spec_witness :
  32 < 33 /\ broadcastAddress_v4 false ex_v4 33 = Ok None /\
  exists b, broadcastAddress_v4 false ex_v4 24 = Ok (Some b) /\ host_addr false b = 3232237567.
Proof.
  assert (is_u32 (s_addr ex_v4)) as Ha by (vm_compute; split; congruence).
  split; [lia|]. split.
  - by apply (broadcastAddress_v4_spec false ex_v4 33).
  - destruct (broadcastAddress_v4_spec false ex_v4 24) as (_ & _ & H); [done|unfold is_u32; lia|].
    destruct H as (b & Hb & Hh & _); [lia|]. exists b. by rewrite Hh.
Defined.

Lemma networdAress_v4_keeps_host_part_witness :
  exists b, networdAress_v4 false ex_v4 24 = Ok (Some b) /\ host_addr false b = 130.
Proof.
  destruct (networdAress_v4_keeps_host_part false ex_v4 24) as [(b & Hb & Hh) _];
    [vm_compute; split; congruence|lia|].
  exists b. by rewrite Hh.
Defined.

Lemma insert_v4_roundtrip_witness :
  parse_v4 (insert_v4 false ex_v4) = Some (3232237442, 8080) /\
  getPort_v4 false (setPort_v4 false ex_v4 443) = 443.
Proof.
  apply (insert_v4_roundtrip false ex_v4 443); vm_compute; split; congruence.
Defined.

(** [2001:db8::1]:80. *)
Definition ex_v6 : sockaddr_in6 :=
  IPv6Address_new false [32;1;13;184;0;0;0;0;0;0;0;0;0;0;0;1] 80.

Lemma insert_v6_text_witness :
  parse_v6 (insert_v6 false ex_v6) = Some ([8193;3512;0;0;0;0;0;1], 80).
Proof.
  rewrite (insert_v6_text false ex_v6); [reflexivity|repeat constructor; lia|reflexivity|].
  vm_compute; split; congruence.
Defined.


Lemma Create_getAddr_witness :
  Create false (Some (getAddr false (IPv4Address ex_v4))) 16 = Ok (Some (IPv4Address ex_v4)).
Proof.
  apply (Create_getAddr false ex_v4 ex_v6 (SockaddrUn AF_UNIX (zeros 108)) 16);
    vm_compute; repeat split; congruence.
Defined.

Lemma prefix_v6_bits_witness :
  exists b n, broadcastAddress_v6 ex_v6 36 = Ok b /\ networdAress_v6 ex_v6 36 = Ok n /\
    bit_at (s6_addr b) 36 = true /\ bit_at (s6_addr n) 127 = true.
Proof.
  destruct (prefix_v6_bits ex_v6 36) as [(b & n & Hb & Hn & H) _]; [done|lia|].
  exists b, n. split; [done|]. split; [done|].
  split; [by rewrite (proj1 (H 36 ltac:(lia)))|by rewrite (proj2 (H 127 ltac:(lia)))].
Defined.

Lemma UnixAddress_text_witness :
  exists a, UnixAddress_new (map char_byte (lit "/tmp/s")) = Ok a /\
    insert false a = lit "/tmp/s".
Proof.
  destruct (UnixAddress_text false (map char_byte (lit "tmp/s")) 47) as [H _].
  destruct H as (a & Ha & _ & Hi); [done|done|vm_compute; set_solver|simpl; lia|].
  exists a. by rewrite Hi.
Defined.

Lemma CountBytes_popcount_witness : CountBytes 32 16777215 = 24.
Proof. rewrite (CountBytes_popcount 32 16777215); [reflexivity|simpl; lia]. Defined.

Lemma lookup_split_cases_witness :
  lookup_split (lit "[::1]:80") = (lit "::1", Some (lit "80")) /\
  lookup_split (lit "sylar.top:80") = (lit "sylar.top:80", None).
Proof.
  split.
  - apply (lookup_split_cases (lit "::1") (lit "80")); try done; vm_compute; set_solver.
  - apply (lookup_split_cases (lit "sylar.top") (lit "80")); try done; vm_compute; set_solver.
Defined.
