(* ===== verification/Fiber.v ===== *)
(** * Fibers (src/sylar/fiber.h, fiber.cc)

    Fiber objects live in a heap; the thread-local pointers of the thread that
    runs are a record.  A context is either where a fresh stack starts, or the
    point of the code that was saved by [swapcontext], or "live": it is the one
    a processor executes, and swapping to it has no meaning.

    The code a fiber runs between two yields is a parameter: [resume] runs a
    piece of code on an environment up to its next yield, return or exception. *)

From S2P Require Import Prelude.

(** Pointers to fibers. *)
Abbreviation fid := nat.

(** [Fiber::State]. *)
Inductive State : Type := INIT | HOLD | EXEC | TERM | READY | EXCEPT.

#[export] Instance State_eq_dec : EqDecision State.
Proof. solve_decision. Defined.

(** What a piece of fiber code does next. *)
Inductive outcome (code : Type) : Type :=
| Returns
| Throws
| YieldsToHold (k : code)
| YieldsToReady (k : code).
Arguments Returns {code}.
Arguments Throws {code}.
Arguments YieldsToHold {code} k.
Arguments YieldsToReady {code} k.

(** Code of callbacks: what a call or a resumption does to the environment. *)
Class Coroutine (code env : Type) : Type :=
  resume : code -> env -> outcome code * env.

(** Where a saved context continues: inside [YieldToHold]/[YieldToReady] below
    the [MainFunc] (or, with [caller], [CallerMainFunc]) of fiber [cur]; at the
    end of that function; or in the code that switched to a fiber. *)
Inductive point (code : Type) : Type :=
| InYield (cur : fid) (caller : bool) (k : code)
| AtEnd (cur : fid)
| InHost.
Arguments InYield {code} cur caller k.
Arguments AtEnd {code} cur.
Arguments InHost {code}.

(** [ucontext_t]: [Entry] after [makecontext]. *)
Inductive context (code : Type) : Type :=
| Entry (caller : bool)
| Saved (p : point code)
| Live.
Arguments Entry {code} caller.
Arguments Saved {code} p.
Arguments Live {code}.

(** [Fiber]; [m_stack] tells whether the fiber owns a stack. *)
Record fiber (code : Type) : Type := Fib {
  m_stacksize : Z;
  m_state : State;
  m_id : Z;
  m_ctx : context code;
  m_stack : bool;
  m_cb : option code }.
Arguments Fib {code}.
Arguments m_stacksize {code}.
Arguments m_state {code}.
Arguments m_id {code}.
Arguments m_ctx {code}.
Arguments m_stack {code}.
Arguments m_cb {code}.

(** [t_fiber], [t_threadFiber] of fiber.cc and [t_scheduler_fiber] of
    scheduler.cc, for the thread that runs. *)
Record tls : Type := Tls {
  t_fiber : option fid;
  t_threadFiber : option fid;
  t_scheduler_fiber : option fid }.

Record fibers (code : Type) : Type := Fibers {
  heap : gmap fid (fiber code);
  fresh_ptr : fid;
  s_fiber_id : Z;
  s_fiber_count : Z;
  tl : tls }.
Arguments Fibers {code}.
Arguments heap {code}.
Arguments fresh_ptr {code}.
Arguments s_fiber_id {code}.
Arguments s_fiber_count {code}.
Arguments tl {code}.

Section Ops.
Context {code : Type}.
Implicit Types (w : fibers code) (f : fid).

Definition set_heap (h : gmap fid (fiber code)) w : fibers code :=
  Fibers h (fresh_ptr w) (s_fiber_id w) (s_fiber_count w) (tl w).
Definition set_tl (t : tls) w : fibers code :=
  Fibers (heap w) (fresh_ptr w) (s_fiber_id w) (s_fiber_count w) t.

Definition with_state (s : State) (x : fiber code) : fiber code :=
  Fib (m_stacksize x) s (m_id x) (m_ctx x) (m_stack x) (m_cb x).
Definition with_ctx (c : context code) (x : fiber code) : fiber code :=
  Fib (m_stacksize x) (m_state x) (m_id x) c (m_stack x) (m_cb x).
Definition with_cb (c : option code) (x : fiber code) : fiber code :=
  Fib (m_stacksize x) (m_state x) (m_id x) (m_ctx x) (m_stack x) c.

Definition get_fiber w f : res (fiber code) := deref (heap w !! f) "fiber".
Definition upd_fiber (g : fiber code -> fiber code) f w : res (fibers code) :=
  x ← get_fiber w f; mret (set_heap (<[f := g x]> (heap w)) w).

(** [Fiber::SetThis]. *)
Definition SetThis (o : option fid) w : fibers code :=
  set_tl (Tls o (t_threadFiber (tl w)) (t_scheduler_fiber (tl w))) w.

(** [Fiber::GetFiberId]. *)
Definition GetFiberId w : res Z :=
  match t_fiber (tl w) with
  | Some f => m_id <$> get_fiber w f
  | None => mret 0
  end.

(** [Fiber::TotalFibers]. *)
Definition TotalFibers w : Z := s_fiber_count w.

(** [Fiber::Fiber()]: the main fiber of a thread. *)
Definition Fiber_main w : fid * fibers code :=
  let this := fresh_ptr w in
  let w := Fibers (<[this := Fib 0 EXEC 0 Live false None]> (heap w)) (S this)
             (s_fiber_id w) (u64 (s_fiber_count w + 1)) (tl w) in
  (this, SetThis (Some this) w).

(** [Fiber::Fiber(cb, stacksize, use_caller)]; [g_fiber_stack_size] is the
    value of the configuration variable. *)
Definition Fiber_new (g_fiber_stack_size : Z) (cb : option code) (stacksize : Z)
    (use_caller : bool) w : fid * fibers code :=
  let this := fresh_ptr w in
  let id := u64 (s_fiber_id w + 1) in
  let size := if stacksize =? 0 then g_fiber_stack_size else u32 stacksize in
  (this, Fibers (<[this := Fib size INIT id (Entry use_caller) true cb]> (heap w)) (S this)
           id (u64 (s_fiber_count w + 1)) (tl w)).

Definition idle_state (s : State) : bool :=
  match s with TERM | INIT | EXCEPT => true | _ => false end.

(** [Fiber::~Fiber]. *)
Definition Fiber_delete f w : res (fibers code) :=
  x ← get_fiber w f;
  let w := Fibers (heap w) (fresh_ptr w) (s_fiber_id w) (u64 (s_fiber_count w - 1)) (tl w) in
  w ← (if m_stack x then
         _ ← sylar_assert (idle_state (m_state x)) "m_state==TERM||INIT||EXCEPT";
         mret w
       else
         _ ← sylar_assert (match m_cb x with None => true | _ => false end) "!m_cb";
         _ ← sylar_assert (bool_decide (m_state x = EXEC)) "m_state==EXEC";
         mret (if decide (t_fiber (tl w) = Some f) then SetThis None w else w));
  mret (set_heap (delete f (heap w)) w).

(** [Fiber::reset]. *)
Definition reset f (cb : option code) w : res (fibers code) :=
  x ← get_fiber w f;
  _ ← sylar_assert (m_stack x) "m_stack";
  _ ← sylar_assert (idle_state (m_state x)) "m_state==TERM||INIT||EXCEPT";
  upd_fiber (fun x => with_state INIT (with_ctx (Entry false) (with_cb cb x))) f w.

(** [swapcontext(&from->m_ctx, &to->m_ctx)] called at point [p]: the context
    control passes to. *)
Definition swapcontext (from to : option fid) (p : point code) w
    : res (context code * fibers code) :=
  from ← deref from "swapcontext: null fiber";
  to ← deref to "swapcontext: null fiber";
  w ← upd_fiber (with_ctx (Saved p)) from w;
  x ← get_fiber w to;
  match m_ctx x with
  | Live => Err (FUB "swapcontext: the context is running")
  | c => w ← upd_fiber (with_ctx Live) to w; mret (c, w)
  end.

(** [Fiber::call]. *)
Definition call f w : res (context code * fibers code) :=
  let w := SetThis (Some f) w in
  w ← upd_fiber (with_state EXEC) f w;
  swapcontext (t_threadFiber (tl w)) (Some f) InHost w.

(** [Fiber::back]. *)
Definition back f (p : point code) w : res (context code * fibers code) :=
  let w := SetThis (t_threadFiber (tl w)) w in
  swapcontext (Some f) (t_threadFiber (tl w)) p w.

(** [Fiber::swapIn]; [Scheduler::GetMainFiber()] is [t_scheduler_fiber]. *)
Definition swapIn f w : res (context code * fibers code) :=
  let w := SetThis (Some f) w in
  x ← get_fiber w f;
  _ ← sylar_assert (bool_decide (m_state x <> EXEC)) "m_state!=EXEC";
  w ← upd_fiber (with_state EXEC) f w;
  swapcontext (t_scheduler_fiber (tl w)) (Some f) InHost w.

(** [Fiber::swapOut]. *)
Definition swapOut f (p : point code) w : res (context code * fibers code) :=
  let w := SetThis (t_threadFiber (tl w)) w in
  swapcontext (Some f) (t_scheduler_fiber (tl w)) p w.

(** [Fiber::GetThis]: creates the main fiber of the thread when there is no
    current fiber. *)
Definition GetThis w : res (fid * fibers code) :=
  match t_fiber (tl w) with
  | Some f => _ ← get_fiber w f; mret (f, w)
  | None =>
      let '(main_fiber, w) := Fiber_main w in
      _ ← sylar_assert (bool_decide (t_fiber (tl w) = Some main_fiber)) "t_fiber==main_fiber";
      mret (main_fiber,
            set_tl (Tls (t_fiber (tl w)) (Some main_fiber) (t_scheduler_fiber (tl w))) w)
  end.

(** [Fiber::YieldToReady] and [Fiber::YieldToHold] ([s] is the state set), up
    to the switch; [p] tells what follows the call. *)
Definition YieldTo (s : State) (p : point code) w : res (context code * fibers code) :=
  '(cur, w) ← GetThis w;
  x ← get_fiber w cur;
  _ ← sylar_assert (bool_decide (m_state x = EXEC)) "cur->m_state==EXEC";
  w ← upd_fiber (with_state s) cur w;
  swapOut cur p w.

Definition YieldToReady := YieldTo READY.
Definition YieldToHold := YieldTo HOLD.

Section Running.
Context {env : Type} `{Coroutine code env}.

(** The end of [MainFunc] ([swapOut]) and of [CallerMainFunc] ([back]). *)
Definition leave (cur : fid) (caller : bool) w : res (context code * fibers code) :=
  if caller then back cur (AtEnd cur) w else swapOut cur (AtEnd cur) w.

(** The callback of [cur] goes on with code [k]: up to the next switch. *)
Definition run_code (cur : fid) (caller : bool) (k : code) w (e : env)
    : res (context code * fibers code * env) :=
  match resume k e with
  | (Returns, e) =>
      w ← upd_fiber (fun x => with_state TERM (with_cb None x)) cur w;
      r ← leave cur caller w; mret (r, e)
  | (Throws, e) =>
      w ← upd_fiber (with_state EXCEPT) cur w;
      r ← leave cur caller w; mret (r, e)
  | (YieldsToHold k', e) => r ← YieldToHold (InYield cur caller k') w; mret (r, e)
  | (YieldsToReady k', e) => r ← YieldToReady (InYield cur caller k') w; mret (r, e)
  end.

(** [Fiber::MainFunc] and [Fiber::CallerMainFunc]; calling an empty
    [std::function] throws. *)
Definition MainFunc (caller : bool) w (e : env) : res (context code * fibers code * env) :=
  '(cur, w) ← GetThis w;
  x ← get_fiber w cur;
  match m_cb x with
  | Some k => run_code cur caller k w e
  | None =>
      w ← upd_fiber (with_state EXCEPT) cur w;
      r ← leave cur caller w; mret (r, e)
  end.

(** Control enters context [c]: what runs up to the next switch. *)
Definition enter (c : context code) w (e : env) : res (context code * fibers code * env) :=
  match c with
  | Entry caller => MainFunc caller w e
  | Saved (InYield cur caller k) => run_code cur caller k w e
  | Saved (AtEnd _) => Err (FAssert "never reach")
  | Saved InHost => Err (FUB "enter: the host goes on")
  | Live => Err (FUB "enter: running context")
  end.

(** The host calls [swapIn] (or [call]) and gets control back. *)
Definition host_returns (r : context code * fibers code * env) : res (fibers code * env) :=
  match r with
  | (Saved InHost, w, e) => mret (w, e)
  | _ => Err (FUB "host_returns: control went elsewhere")
  end.

Definition run_swapIn f w (e : env) : res (fibers code * env) :=
  '(c, w) ← swapIn f w;
  r ← enter c w e;
  host_returns r.

Definition run_call f w (e : env) : res (fibers code * env) :=
  '(c, w) ← call f w;
  r ← enter c w e;
  host_returns r.
End Running.
End Ops.

(** ** One switch to a fiber and back *)

Section Theory.
Context {code env : Type} `{Coroutine code env}.
Implicit Types (w : fibers code) (f : fid) (x : fiber code).

(** What fiber [f] does when it gets control from [swapIn], up to its next
    switch; an empty callback throws. *)
Definition next_round f x (e : env) : option (outcome code * env) :=
  match m_ctx x with
  | Entry false => Some (match m_cb x with Some k => resume k e | None => (Throws, e) end)
  | Saved (InYield cur false k) => if decide (cur = f) then Some (resume k e) else None
  | _ => None
  end.

(** The fiber after a round with outcome [o]. *)
Definition after (f : fid) (o : outcome code) x : fiber code :=
  match o with
  | Returns => Fib (m_stacksize x) TERM (m_id x) (Saved (AtEnd f)) (m_stack x) None
  | Throws => Fib (m_stacksize x) EXCEPT (m_id x) (Saved (AtEnd f)) (m_stack x) (m_cb x)
  | YieldsToHold k =>
      Fib (m_stacksize x) HOLD (m_id x) (Saved (InYield f false k)) (m_stack x) (m_cb x)
  | YieldsToReady k =>
      Fib (m_stacksize x) READY (m_id x) (Saved (InYield f false k)) (m_stack x) (m_cb x)
  end.

(** A thread inside [Scheduler::run]: [h] executes the loop, [m] is the
    thread's main fiber ([h] itself on a worker thread). *)
Record hosting (h m : fid) (hx : fiber code) w : Prop := Hosting {
  host_sched : t_scheduler_fiber (tl w) = Some h;
  host_thread : t_threadFiber (tl w) = Some m;
  host_heap : heap w !! h = Some hx;
  host_live : m_ctx hx = Live }.

Lemma upd_fiber_ok g f w x :
  heap w !! f = Some x -> upd_fiber g f w = Ok (set_heap (<[f := g x]> (heap w)) w).
Proof. intros E. unfold upd_fiber, get_fiber. by rewrite E. Qed.

Lemma with_ctx_same x c : m_ctx x = c -> with_ctx c x = x.
Proof. intros <-. by destruct x. Qed.

(** The switch away from the host. *)
Lemma swapIn_ok h m hx f x w :
  hosting h m hx w -> f <> h -> heap w !! f = Some x -> m_state x <> EXEC ->
  m_ctx x <> Live ->
  swapIn f w = Ok (m_ctx x,
    set_tl (Tls (Some f) (Some m) (Some h))
      (set_heap (<[f := with_ctx Live (with_state EXEC x)]>
                   (<[h := with_ctx (Saved InHost) hx]> (heap w))) w)).
Proof.
  destruct w as [hp fp fi fc [tf tt ts]]. intros [Hs Ht Hh Hl] Hne Hf Hst Hc. simpl in *. subst.
  assert (forall g h' y, h' !! f = Some y ->
    upd_fiber g f (Fibers h' fp fi fc (Tls (Some f) (Some m) (Some h)))
    = Ok (Fibers (<[f := g y]> h') fp fi fc (Tls (Some f) (Some m) (Some h)))) as Hu
    by (intros; by erewrite upd_fiber_ok by done).
  unfold swapIn, SetThis, set_tl, get_fiber. simpl. rewrite Hf. simpl.
  rewrite bool_decide_true by done. simpl. rewrite (Hu _ _ x) by done. simpl.
  unfold swapcontext. simpl. erewrite (upd_fiber_ok _ h); [|by simplify_map_eq]. simpl.
  unfold get_fiber, set_heap. simpl. simplify_map_eq. simpl.
  destruct (m_ctx x) eqn:E; [..|done]; (erewrite Hu; [|by simplify_map_eq]); simpl;
    unfold set_tl; simpl; do 3 f_equal;
    by rewrite insert_insert_ne, insert_insert_eq, insert_insert_ne by done.
Qed.

(** The switch back to the host. *)
Lemma swapOut_ok h m hx f y p w :
  t_scheduler_fiber (tl w) = Some h -> t_threadFiber (tl w) = Some m -> f <> h ->
  heap w !! h = Some hx -> m_ctx hx = Saved InHost -> heap w !! f = Some y ->
  swapOut f p w = Ok (Saved InHost,
    set_tl (Tls (Some m) (Some m) (Some h))
      (set_heap (<[h := with_ctx Live hx]> (<[f := with_ctx (Saved p) y]> (heap w))) w)).
Proof.
  destruct w as [hp fp fi fc [tf tt ts]]. intros Hs Ht Hne Hh Hl Hf. simpl in *. subst.
  unfold swapOut, swapcontext, SetThis, set_tl. simpl.
  erewrite (upd_fiber_ok _ f); [|done]. simpl. unfold get_fiber, set_heap. simpl.
  simplify_map_eq. rewrite Hl. erewrite (upd_fiber_ok _ h); [|by simplify_map_eq]. done.
Qed.

(** Inside a switch: [f] runs, the host [h] is saved. *)
Record inside (h m f : fid) (hx y : fiber code) w : Prop := Inside {
  in_tl : tl w = Tls (Some f) (Some m) (Some h);
  in_ne : f <> h;
  in_host : heap w !! h = Some hx;
  in_saved : m_ctx hx = Saved InHost;
  in_fiber : heap w !! f = Some y;
  in_state : m_state y = EXEC }.

Lemma inside_leaves h m f hx y y' p w :
  inside h m f hx y w ->
  swapOut f p (set_heap (<[f := y']> (heap w)) w) = Ok (Saved InHost,
    set_tl (Tls (Some m) (Some m) (Some h))
      (set_heap (<[h := with_ctx Live hx]> (<[f := with_ctx (Saved p) y']> (heap w))) w)).
Proof.
  destruct w as [hp fp fi fc t]. intros [Ht Hne Hh Hl Hf Hst]. simpl in *. subst t.
  erewrite (swapOut_ok h m hx); simpl; [|done|done|done|by simplify_map_eq|done|by simplify_map_eq].
  unfold set_heap, set_tl. simpl. by rewrite insert_insert_eq.
Qed.

Lemma run_code_ok h m f hx y k w e o e' :
  inside h m f hx y w -> resume k e = (o, e') ->
  exists w', run_code f false k w e = Ok (Saved InHost, w', e') /\
    w' = set_tl (Tls (Some m) (Some m) (Some h))
           (set_heap (<[h := with_ctx Live hx]> (<[f := after f o y]> (heap w))) w).
Proof.
  intros Hin Hr. pose proof Hin as [Ht Hne Hh Hl Hf Hst].
  unfold run_code, YieldToHold, YieldToReady, YieldTo, leave, GetThis, get_fiber.
  rewrite Hr, Ht. cbn [t_fiber].
  destruct o; rewrite ?Hf; cbn [deref]; res_simpl; rewrite ?Hf; cbn [deref]; res_simpl;
    rewrite ?Hst; cbn [bool_decide decide decide_rel State_eq_dec]; simpl sylar_assert; res_simpl;
    rewrite (upd_fiber_ok _ _ _ y) by done; res_simpl;
    rewrite (inside_leaves h m f hx y) by done; eexists; (split; [done|]); done.
Qed.

Lemma throw_ok h m f hx y w :
  inside h m f hx y w ->
  (w ← upd_fiber (with_state EXCEPT) f w; leave f false w) = Ok (Saved InHost,
    set_tl (Tls (Some m) (Some m) (Some h))
      (set_heap (<[h := with_ctx Live hx]> (<[f := after f Throws y]> (heap w))) w)).
Proof.
  intros Hin. pose proof Hin as [Ht Hne Hh Hl Hf Hst]. unfold leave.
  rewrite (upd_fiber_ok _ _ _ y) by done. res_simpl.
  by rewrite (inside_leaves h m f hx y).
Qed.

(** What the switch runs. *)
Lemma enter_ok h m f hx x w e o e' :
  inside h m f hx (with_ctx Live (with_state EXEC x)) w ->
  next_round f x e = Some (o, e') ->
  enter (m_ctx x) w e = Ok (Saved InHost,
    set_tl (Tls (Some m) (Some m) (Some h))
      (set_heap (<[h := with_ctx Live hx]> (<[f := after f o x]> (heap w))) w), e').
Proof.
  intros Hin Hn. unfold next_round in Hn. pose proof Hin as [Ht _ _ _ Hf _].
  destruct (m_ctx x) as [[]|[c0 [] k|c0|]|] eqn:Ec; simplify_eq/=.
  - unfold MainFunc, GetThis, get_fiber. rewrite Ht. cbn [t_fiber]. rewrite Hf.
    cbn [deref]. res_simpl. rewrite Hf. cbn [deref]. res_simpl. cbn [m_cb with_ctx with_state].
    destruct (m_cb x) as [k|] eqn:Ecb; simplify_eq.
    + destruct (run_code_ok _ _ _ _ _ k w e o e' Hin) as (w' & -> & ->); [done|].
      by destruct o.
    + pose proof (throw_ok _ _ _ _ _ _ Hin) as Hthrow.
      destruct (upd_fiber _ f w) as [w2|] eqn:Eu; [|done]. res_simpl. rewrite Hthrow. done.
  - case_decide; simplify_eq.
    destruct (run_code_ok _ _ _ _ _ k w e o e' Hin) as (w' & -> & ->); [done|].
    by destruct o.
Qed.

Lemma run_swapIn_ok h m hx f x w e o e' :
  hosting h m hx w -> f <> h -> heap w !! f = Some x -> m_state x <> EXEC ->
  next_round f x e = Some (o, e') ->
  run_swapIn f w e = Ok (set_tl (Tls (Some m) (Some m) (Some h))
                           (set_heap (<[f := after f o x]> (heap w)) w), e').
Proof.
  intros Hh Hne Hf Hst Hn. unfold run_swapIn.
  assert (m_ctx x <> Live) by (unfold next_round in Hn; by destruct (m_ctx x)).
  rewrite (swapIn_ok h m hx f x) by done. res_simpl.
  set (w1 := set_tl _ _).
  assert (inside h m f (with_ctx (Saved InHost) hx) (with_ctx Live (with_state EXEC x)) w1)
    as Hin by (split; unfold w1; simpl; simplify_map_eq; done).
  rewrite (enter_ok _ _ _ _ _ _ _ _ _ Hin Hn). res_simpl. unfold host_returns. do 2 f_equal.
  subst w1. unfold set_tl, set_heap. simpl. f_equal.
  destruct Hh as [_ _ Hhh Hlive]. apply map_eq. intros i.
  destruct (decide (i = h)) as [->|]; [|destruct (decide (i = f)) as [->|]];
    simplify_map_eq; try done.
  f_equal. rewrite <- Hlive at 1. by destruct hx.
Qed.

(** On a thread inside [Scheduler::run], [swapIn] of a fresh or suspended
    fiber runs its code exactly up to its next yield, return or exception,
    leaves the fiber in the state that tells which (HOLD, READY, TERM, EXCEPT)
    with its continuation saved, gives control back to the scheduler fiber and
    touches no other fiber; afterwards the current fiber is the thread's main
    fiber.  A running fiber trips the assertion, a finished one aborts at
    "never reach", and a thread without scheduler dereferences null. *)
Theorem swapIn_round h m hx f x w e :
  hosting h m hx w -> f <> h -> heap w !! f = Some x ->
  (forall o e', m_state x <> EXEC -> next_round f x e = Some (o, e') ->
     run_swapIn f w e = Ok (set_tl (Tls (Some m) (Some m) (Some h))
                              (set_heap (<[f := after f o x]> (heap w)) w), e')) /\
  (m_state x = EXEC -> exists s, run_swapIn f w e = Err (FAssert s)) /\
  (m_state x <> EXEC -> m_ctx x = Saved (AtEnd f) ->
     exists s, run_swapIn f w e = Err (FAssert s)) /\
  (forall w', heap w' = heap w -> t_scheduler_fiber (tl w') = None -> m_state x <> EXEC ->
     exists s, run_swapIn f w' e = Err (FUB s)).
Proof.
  intros Hh Hne Hf. split_and!.
  - intros. by apply (run_swapIn_ok h m hx f x).
  - intros Hs. unfold run_swapIn, swapIn, get_fiber. cbn [heap SetThis set_tl].
    rewrite Hf. cbn [deref]. res_simpl. rewrite bool_decide_false by auto. by eexists.
  - intros Hs Hc. unfold run_swapIn. rewrite (swapIn_ok h m hx f x) by congruence.
    res_simpl. rewrite Hc. by eexists.
  - intros w' Hw Ht Hs. unfold run_swapIn, swapIn, get_fiber. cbn [heap SetThis set_tl].
    rewrite Hw, Hf. cbn [deref]. res_simpl. rewrite bool_decide_true by done.
    simpl sylar_assert. res_simpl. rewrite (upd_fiber_ok _ _ _ x) by (simpl; congruence).
    res_simpl. unfold swapcontext. cbn [tl set_heap SetThis set_tl t_scheduler_fiber].
    rewrite Ht. by eexists.
Qed.

(** *** A fiber run to its end *)

(** The code run directly for at most [n] rounds, ignoring the yields. *)
Fixpoint direct (n : nat) (k : code) (e : env) : (code + State) * env :=
  match n with
  | O => (inl k, e)
  | S n' =>
      match resume k e with
      | (Returns, e') => (inr TERM, e')
      | (Throws, e') => (inr EXCEPT, e')
      | (YieldsToHold k', e') | (YieldsToReady k', e') => direct n' k' e'
      end
  end.

Definition finished (s : State) : bool :=
  match s with TERM | EXCEPT => true | _ => false end.

(** The host swaps in the fiber until it has finished, at most [n] times. *)
Fixpoint swap_until (n : nat) f w (e : env) : res (fibers code * env) :=
  match n with
  | O => mret (w, e)
  | S n' =>
      x ← get_fiber w f;
      if finished (m_state x) then mret (w, e)
      else '(w, e) ← run_swapIn f w e; swap_until n' f w e
  end.

Definition ready_for (f : fid) (k : code) x : Prop :=
  (m_state x = INIT /\ m_ctx x = Entry false /\ m_cb x = Some k) \/
  ((m_state x = HOLD \/ m_state x = READY) /\ m_ctx x = Saved (InYield f false k)).

Lemma ready_for_round f k x e :
  ready_for f k x ->
  m_state x <> EXEC /\ finished (m_state x) = false /\ next_round f x e = Some (resume k e).
Proof.
  unfold next_round. intros [(-> & -> & ->)|([-> | ->] & ->)]; try done;
    by rewrite decide_True by done.
Qed.

Lemma hosting_after h m hx f x w :
  hosting h m hx w -> f <> h ->
  hosting h m hx (set_tl (Tls (Some m) (Some m) (Some h)) (set_heap (<[f := x]> (heap w)) w)).
Proof. intros [Hs Ht Hh Hl] Hne. split; simpl; simplify_map_eq; done. Qed.

(** C22.  Yielding is transparent: swapping a fiber in until it finishes runs
    exactly the code it was given, round by round, with the effects on the
    environment of running that code without fibers; it ends in TERM or EXCEPT
    as the code returns or throws, and until then it is suspended with the
    rest of the code. *)
Theorem fiber_transparent (n : nat) h m hx f x k w e :
  hosting h m hx w -> f <> h -> heap w !! f = Some x -> ready_for f k x ->
  exists w' x', swap_until n f w e = Ok (w', (direct n k e).2) /\
    hosting h m hx w' /\ heap w' !! f = Some x' /\ m_id x' = m_id x /\
    (forall i, i <> f -> heap w' !! i = heap w !! i) /\
    match (direct n k e).1 with
    | inl k' => ready_for f k' x'
    | inr s => m_state x' = s /\ m_ctx x' = Saved (AtEnd f)
    end.
Proof.
  revert x k w e. induction n as [|n IH]; intros x k w e Hh Hne Hf Hr.
  { exists w, x. repeat (split; [done|]). done. }
  destruct (ready_for_round f k x e Hr) as (Hs & Hfin & Hn).
  cbn [swap_until direct]. unfold get_fiber. rewrite Hf. cbn [deref]. res_simpl. rewrite Hfin.
  destruct (resume k e) as [o e'] eqn:Er.
  rewrite (run_swapIn_ok h m hx f x w e o e') by done. res_simpl.
  pose proof (hosting_after _ _ _ _ (after f o x) _ Hh Hne) as Hh'.
  set (w1 := set_tl _ _) in *.
  assert (heap w1 !! f = Some (after f o x)) as Hf' by apply lookup_insert_eq.
  assert (forall i, i <> f -> heap w1 !! i = heap w !! i) as Hi
    by (intros; simpl; by rewrite lookup_insert_ne by done).
  assert (finished (m_state (after f o x)) = true ->
    swap_until n f w1 e' = Ok (w1, e')) as Hdone.
  { destruct n; [done|]. intros E. cbn [swap_until]. unfold get_fiber. rewrite Hf'.
    cbn [deref]. res_simpl. by rewrite E. }
  destruct o as [| |k'|k'];
    [exists w1, (after f Returns x); by rewrite Hdone
    |exists w1, (after f Throws x); by rewrite Hdone|..];
    (destruct (IH _ k' w1 e' Hh' Hne Hf') as (w2 & x2 & -> & ? & ? & Hid & Hi2 & ?);
       [by right; split; [auto|]|]);
    exists w2, x2; repeat (split; [first [done|by rewrite Hid|intros; by rewrite Hi2, Hi by done]|]);
    done.
Qed.

(** *** The protocol of a worker thread *)

(** What the scheduler does to fibers. *)
Inductive request : Type :=
| New (cb : option code) (stacksize : Z)
| Run (f : fid)
| Reset (f : fid) (cb : option code)
| Delete (f : fid).

Definition serve (g_fiber_stack_size : Z) (r : request) w (e : env) : res (fibers code * env) :=
  match r with
  | New cb size => mret ((Fiber_new g_fiber_stack_size cb size false w).2, e)
  | Run f => run_swapIn f w e
  | Reset f cb => w ← reset f cb w; mret (w, e)
  | Delete f => w ← Fiber_delete f w; mret (w, e)
  end.

(** State, saved context and callback agree. *)
Definition placed f x : Prop :=
  match m_state x with
  | INIT => m_ctx x = Entry false
  | HOLD | READY => exists k, m_ctx x = Saved (InYield f false k)
  | TERM => m_ctx x = Saved (AtEnd f) /\ m_cb x = None
  | EXCEPT => m_ctx x = Saved (AtEnd f)
  | EXEC => False
  end.

Record wf_fiber w f x : Prop := WfFiber {
  wf_placed : placed f x;
  wf_stack : m_stack x = true;
  wf_id : 0 < m_id x <= s_fiber_id w }.

(** A worker thread [h] between two switches. *)
Record wf (h : fid) w : Prop := Wf {
  wf_main : exists hx, hosting h h hx w /\ m_state hx = EXEC /\ m_stack hx = false /\
              m_cb hx = None;
  wf_current : t_fiber (tl w) = Some h;
  wf_fibers : forall f x, f <> h -> heap w !! f = Some x -> wf_fiber w f x;
  wf_fresh : forall f x, heap w !! f = Some x -> (f < fresh_ptr w)%nat;
  wf_unique : forall f g x y, f <> h -> g <> h -> heap w !! f = Some x ->
                heap w !! g = Some y -> m_id x = m_id y -> f = g;
  wf_ids : 0 <= s_fiber_id w < 2 ^ 64;
  wf_count : s_fiber_count w = u64 (Z.of_nat (size (heap w))) }.

Definition valid w (r : request) : Prop :=
  match r with
  | New _ _ => s_fiber_id w < U64_MAX
  | Run f => exists x, heap w !! f = Some x /\ m_state x <> EXEC /\ finished (m_state x) = false
  | Reset f _ | Delete f =>
      exists x, heap w !! f = Some x /\ m_stack x = true /\ idle_state (m_state x) = true
  end.

Lemma placed_after f o x : placed f (after f o x).
Proof. unfold placed. destruct o; simpl; eauto. Qed.

Lemma placed_round f x e :
  placed f x -> finished (m_state x) = false -> exists o e', next_round f x e = Some (o, e').
Proof.
  unfold placed, next_round. destruct (m_state x); try done.
  - intros -> _. destruct (m_cb x) as [k|]; [destruct (resume k e)|]; eauto.
  - intros [k ->] _. rewrite decide_True by done. destruct (resume k e); eauto.
  - intros [k ->] _. rewrite decide_True by done. destruct (resume k e); eauto.
Qed.

(** Replacing a fiber that is not the main one by another with the same id. *)
Lemma wf_update h f x y w t :
  wf h w -> f <> h -> heap w !! f = Some x ->
  placed f y -> m_stack y = true -> m_id y = m_id x -> t = Tls (Some h) (Some h) (Some h) ->
  wf h (set_tl t (set_heap (<[f := y]> (heap w)) w)).
Proof.
  intros [(hx & Hh & Hrest) Hc Hf Hfr Hu Hi Hn] Hne Hx Hp Hs Hid ->.
  destruct (Hf f x Hne Hx) as [_ _ Hidx]. split; simpl; try done.
  - exists hx. split; [by apply hosting_after|done].
  - intros g z Hg [[<- <-]|[_ Hz]]%lookup_insert_Some.
    + split; [done|done|simpl; lia].
    + by destruct (Hf g z Hg Hz); split.
  - intros g z [[<- <-]|[_ Hz]]%lookup_insert_Some; eauto.
  - intros g g' z z' Hg Hg' [[<- <-]|[? Hz]]%lookup_insert_Some
      [[<- <-]|[? Hz']]%lookup_insert_Some E; [done| | |by eapply Hu].
    + symmetry. eapply Hu; eauto. congruence.
    + eapply Hu; eauto. congruence.
  - rewrite map_size_insert_Some; [done|by rewrite Hx].
Qed.

Lemma wf_tl h w : wf h w -> tl w = Tls (Some h) (Some h) (Some h).
Proof.
  intros [(hx & [Hs Ht _ _] & _) Hc _ _ _ _ _]. destruct (tl w); simpl in *. congruence.
Qed.

Lemma wf_new h cfg cb sz w :
  wf h w -> s_fiber_id w < U64_MAX -> wf h (Fiber_new cfg cb sz false w).2.
Proof.
  intros [(hx & [Hs Ht Hh Hl] & Hrest) Hc Hf Hfr Hu Hi Hn] Hid.
  unfold Fiber_new, U64_MAX in *. rewrite u64_small by (unfold is_u64; lia).
  assert (heap w !! fresh_ptr w = None) as Hnone.
  { destruct (heap w !! fresh_ptr w) as [y|] eqn:E; [|done]. pose proof (Hfr _ _ E). lia. }
  assert (fresh_ptr w <> h) as Hneh by congruence.
  split; simpl; try done; try lia.
  - exists hx. split; [split; simpl; by simplify_map_eq|done].
  - intros f x Hne [[<- <-]|[? Hx]]%lookup_insert_Some.
    + split; simpl; [done|done|lia].
    + destruct (Hf f x Hne Hx). split; simpl; [done|done|lia].
  - intros f x [[<- <-]|[? Hx]]%lookup_insert_Some; [lia|]. apply Hfr in Hx. lia.
  - intros f g x y Hne Hne' [[<- <-]|[? Hx]]%lookup_insert_Some
      [[<- <-]|[? Hy]]%lookup_insert_Some E; simpl in *; [done| | |by eapply Hu].
    + destruct (Hf g y Hne' Hy). lia.
    + destruct (Hf f x Hne Hx). lia.
  - rewrite map_size_insert_None by done. rewrite Hn. unfold u64, wrap.
    rewrite Zplus_mod_idemp_l. f_equal. lia.
Qed.

Lemma wf_delete h f x w :
  wf h w -> f <> h -> heap w !! f = Some x ->
  wf h (Fibers (delete f (heap w)) (fresh_ptr w) (s_fiber_id w) (u64 (s_fiber_count w - 1)) (tl w)).
Proof.
  intros [(hx & [Hs Ht Hh Hl] & Hrest) Hc Hf Hfr Hu Hi Hn] Hne Hx. split; simpl; try done.
  - exists hx. split; [split; simpl; by simplify_map_eq|done].
  - intros g y Hg [_ Hy]%lookup_delete_Some. by destruct (Hf g y Hg Hy); split.
  - intros g y [_ Hy]%lookup_delete_Some. by eapply Hfr.
  - intros g g' y y' Hg Hg' [_ Hy]%lookup_delete_Some [_ Hy']%lookup_delete_Some. by eapply Hu.
  - rewrite map_size_delete_Some by (by rewrite Hx). rewrite Hn. unfold u64, wrap.
    rewrite Zminus_mod_idemp_l. f_equal.
    assert (size (heap w) <> 0%nat); [|lia].
    apply map_size_non_empty_iff. intros E. by rewrite E in Hx.
Qed.

Lemma fiber_reset_ok f x cb w :
  heap w !! f = Some x -> m_stack x = true -> idle_state (m_state x) = true ->
  reset f cb w = Ok (set_heap
    (<[f := Fib (m_stacksize x) INIT (m_id x) (Entry false) (m_stack x) cb]> (heap w)) w).
Proof.
  intros Hx Hs Hi. unfold reset, get_fiber. rewrite Hx. cbn [deref]. res_simpl.
  rewrite Hs, Hi. simpl sylar_assert. res_simpl. rewrite (upd_fiber_ok _ _ _ x) by done.
  by rewrite <- Hs.
Qed.

Lemma fiber_delete_ok f x w :
  heap w !! f = Some x -> m_stack x = true -> idle_state (m_state x) = true ->
  Fiber_delete f w = Ok (Fibers (delete f (heap w)) (fresh_ptr w) (s_fiber_id w)
                           (u64 (s_fiber_count w - 1)) (tl w)).
Proof.
  intros Hx Hs Hi. unfold Fiber_delete, get_fiber. rewrite Hx. cbn [deref]. res_simpl.
  by rewrite Hs, Hi.
Qed.

(** C16.  Protocol of a worker thread: creating, swapping in, resetting and
    deleting fibers keeps every fiber's state, saved context and callback in
    agreement, ids positive and distinct and the fiber count exact, and control
    always comes back to the thread's main fiber; each valid request returns,
    and swapping in a finished or running fiber, or resetting or destroying a
    suspended one, trips an assertion. *)
Theorem fiber_protocol (g_fiber_stack_size : Z) (h : fid) w (e : env) (r : request) :
  wf h w ->
  (valid w r -> exists w' e', serve g_fiber_stack_size r w e = Ok (w', e') /\ wf h w') /\
  (forall f x, heap w !! f = Some x -> r = Run f -> ~ valid w r ->
     exists s, serve g_fiber_stack_size r w e = Err (FAssert s)) /\
  (forall f x, f <> h -> heap w !! f = Some x -> r = Delete f \/ (exists cb, r = Reset f cb) ->
     ~ valid w r -> exists s, serve g_fiber_stack_size r w e = Err (FAssert s)).
Proof.
  intros Hw. pose proof Hw as [(hx & Hh & Hst & Hstk & _) _ Hf _ _ _ _].
  pose proof (wf_tl _ _ Hw) as Htl. split_and!.
  - destruct r as [cb sz|f|f cb|f]; simpl.
    + intros Hid. eexists _, _. split; [done|]. by apply wf_new.
    + intros (x & Hx & Hs & Hfin).
      assert (f <> h) as Hne by (intros ->; destruct Hh; congruence).
      destruct (Hf f x Hne Hx) as [Hp Hsx Hidx].
      destruct (placed_round f x e Hp Hfin) as (o & e' & Hn).
      rewrite (run_swapIn_ok h h hx f x w e o e') by done. eexists _, _. split; [done|].
      apply (wf_update h f x); [done..|apply placed_after|by destruct o|by destruct o|done].
    + intros (x & Hx & Hs & Hi).
      assert (f <> h) as Hne by (intros ->; destruct Hh; congruence).
      rewrite (fiber_reset_ok f x) by done. res_simpl. eexists _, _. split; [done|].
      by apply (wf_update h f x _ w (tl w)); rewrite ?Htl.
    + intros (x & Hx & Hs & Hi).
      assert (f <> h) as Hne by (intros ->; destruct Hh; congruence).
      rewrite (fiber_delete_ok f x) by done. res_simpl. eexists _, _. split; [done|].
      by apply (wf_delete h f x).
  - intros f x Hx -> Hv. simpl in *. destruct (decide (m_state x = EXEC)) as [Ex|Hex].
    + unfold run_swapIn, swapIn, get_fiber. cbn [heap SetThis set_tl].
      rewrite Hx. cbn [deref]. res_simpl. rewrite bool_decide_false by auto. by eexists.
    + assert (f <> h) as Hne by (intros ->; destruct Hh; congruence).
      destruct (finished (m_state x)) eqn:Efin; [|by destruct Hv; eauto].
      destruct (Hf f x Hne Hx) as [Hp _ _].
      assert (m_ctx x = Saved (AtEnd f)) as Hc
        by (unfold placed in Hp; destruct (m_state x); naive_solver).
      unfold run_swapIn. rewrite (swapIn_ok h h hx f x) by congruence.
      res_simpl. rewrite Hc. by eexists.
  - intros f x Hne Hx Hr Hv. destruct (Hf f x Hne Hx) as [Hp Hs _].
    destruct (idle_state (m_state x)) eqn:Ei.
    { destruct Hv. destruct Hr as [->|[cb ->]]; simpl; eauto. }
    destruct Hr as [->|[cb ->]]; simpl; unfold Fiber_delete, reset, get_fiber;
      rewrite Hx; cbn [deref]; res_simpl; rewrite Hs, Ei; by eexists.
Qed.

(** When the scheduler uses the caller's thread, the root fiber [h] runs
    the loop but every task switches back with the thread's main fiber [m] as
    current fiber: between tasks [GetThis] and [GetFiberId] name a fiber whose
    context is not the running one, and a yield there would save the root
    fiber's stack into [m]'s context. *)
Theorem caller_thread_current h m hx mx f x w e o e' :
  hosting h m hx w -> h <> m -> f <> h -> f <> m ->
  heap w !! m = Some mx -> heap w !! f = Some x ->
  m_state x <> EXEC -> next_round f x e = Some (o, e') ->
  exists w', run_swapIn f w e = Ok (w', e') /\
    GetThis w' = Ok (m, w') /\ GetFiberId w' = Ok (m_id mx) /\
    (exists hx', heap w' !! h = Some hx' /\ m_ctx hx' = Live) /\
    (m_state mx = EXEC ->
     YieldToHold InHost w' = Err (FUB "swapcontext: the context is running")).
Proof.
  intros Hh Hhm Hfh Hfm Hm Hf Hs Hn. pose proof Hh as [_ _ Hhh Hl].
  eexists. split; [by apply (run_swapIn_ok h m hx f x)|].
  unfold GetThis, GetFiberId, get_fiber. cbn [tl t_fiber set_tl heap set_heap].
  rewrite lookup_insert_ne, Hm by done. split_and!; [done..| |].
  - exists hx. by rewrite lookup_insert_ne by done.
  - intros Hex. unfold YieldToHold, YieldTo, GetThis, get_fiber. cbn [tl t_fiber set_tl heap set_heap].
    rewrite lookup_insert_ne, Hm by done. cbn [deref]. res_simpl.
    cbn [tl t_fiber set_tl heap set_heap]. rewrite lookup_insert_ne, Hm by done. cbn [deref].
    res_simpl. rewrite bool_decide_true by done. simpl sylar_assert. res_simpl.
    rewrite (upd_fiber_ok _ _ _ mx) by (simpl; by simplify_map_eq). res_simpl.
    unfold swapOut, swapcontext. cbn [tl SetThis set_tl set_heap t_scheduler_fiber deref]. res_simpl.
    erewrite (upd_fiber_ok _ m); [|simpl; by simplify_map_eq]. res_simpl.
    unfold get_fiber. cbn [heap set_tl set_heap SetThis]. simplify_map_eq. by rewrite Hl.
Qed.
End Theory.

(** ** Witnesses *)

(** Code that counts down, yielding READY, HOLD in turn, and records it. *)
#[local] Instance countdown : Coroutine nat (list nat) := fun k e =>
  match k with
  | O => (Returns, e)
  | S k' => (if Nat.even k then YieldsToReady k' else YieldsToHold k', k :: e)
  end.

(** A worker thread with its main fiber 0 and a fresh fiber 1 counting from 3. *)
Definition ex_main : fiber nat := Fib 0 EXEC 0 Live false None.
Definition ex_task : fiber nat := Fib 1048576 INIT 1 (Entry false) true (Some 3%nat).
Definition ex_world : fibers nat :=
  Fibers (<[1%nat := ex_task]> {[0%nat := ex_main]}) 2 1 2 (Tls (Some 0%nat) (Some 0%nat) (Some 0%nat)).

Lemma ex_hosting : hosting 0 0 ex_main ex_world.
Proof. by split. Qed.

Lemma ex_fiber_wf : wf 0 ex_world.
Proof.
  split; try done; cbn [heap ex_world].
  - exists ex_main. by split; [apply ex_hosting|].
  - intros f x Hne [[<- <-]|[_ [<- _]%lookup_singleton_Some]]%lookup_insert_Some; [|done].
    by split.
  - intros f x [[<- <-]|[_ [<- _]%lookup_singleton_Some]]%lookup_insert_Some; simpl; lia.
  - intros f g x y Hf Hg [[<- <-]|[_ [<- _]%lookup_singleton_Some]]%lookup_insert_Some
      [[<- <-]|[_ [<- _]%lookup_singleton_Some]]%lookup_insert_Some; done.
Qed.

Lemma swapIn_round_witness :
  run_swapIn 1 ex_world [] = Ok (set_heap (<[1%nat := after 1 (YieldsToHold 2%nat) ex_task]>
                                              (heap ex_world)) ex_world, [3%nat]).
Proof.
  destruct (swapIn_round 0 0 ex_main 1 ex_task ex_world ([] : list nat)) as [H _];
    [by split|done|done|].
  by apply H.
Defined.

Lemma fiber_transparent_witness :
  exists w' x', swap_until 9 1 ex_world [] = Ok (w', [1; 2; 3]%nat) /\
    heap w' !! 1%nat = Some x' /\ m_state x' = TERM.
Proof.
  destruct (fiber_transparent 9 0 0 ex_main 1 ex_task 3%nat ex_world ([] : list nat))
    as (w' & x' & Hr & _ & Hx & _ & _ & Hs & _); [by split|done|done|by left|].
  exists w', x'. split; [exact Hr|split; [exact Hx|exact Hs]].
Defined.

Lemma fiber_protocol_witness :
  (exists w' e', serve 1048576 (Run 1) ex_world ([] : list nat) = Ok (w', e') /\ wf 0 w') /\
  (exists s, serve 1048576 (Run 0) ex_world ([] : list nat) = Err (FAssert s)).
Proof.
  split.
  - apply (fiber_protocol 1048576 0 ex_world ([] : list nat) (Run 1)); [apply ex_fiber_wf|].
    by exists ex_task.
  - destruct (fiber_protocol 1048576 0 ex_world ([] : list nat) (Run 0) ex_fiber_wf) as (_ & H & _).
    apply (H 0%nat ex_main); [reflexivity|reflexivity|].
    intros (x & Hx & Hs & _). vm_compute in Hx. by injection Hx as <-.
Defined.

(** The caller's thread: main fiber 0, root fiber 1, task 2. *)
Definition ex_caller : fibers nat :=
  Fibers (<[2%nat := ex_task]> (<[1%nat := Fib 0 EXEC 7 Live true None]> {[0%nat := ex_main]}))
    3 8 3 (Tls (Some 1%nat) (Some 0%nat) (Some 1%nat)).

Lemma caller_thread_current_witness :
  exists w' e', run_swapIn 2 ex_caller ([] : list nat) = Ok (w', e') /\ GetThis w' = Ok (0%nat, w').
Proof.
  destruct (caller_thread_current 1 0 (Fib 0 EXEC 7 Live true None) ex_main 2 ex_task ex_caller
    ([] : list nat) (YieldsToHold 2%nat) [3%nat]) as (w' & Hr & Hg & _); try done.
  by exists w', [3%nat].
Defined.
