(* ===== verification/Scheduler.v ===== *)
(** * The scheduler on one thread (src/sylar/scheduler.h, scheduler.cc)

    The queue, the counters and flags, and one thread that runs
    [Scheduler::run].  The interleavings of several threads are in
    SchedulerMT.v, which uses the same queue operations.

    User code runs between two yields without blocking; what it does to the
    scheduler is a list of [schedule] calls.  Fibers are not freed here: the
    last reference to a suspended fiber is dropped by its owner. *)

From S2P Require Import Prelude Fiber.

(** The argument of [schedule]: a fiber or a callback, possibly null. *)
Inductive target (C : Type) : Type :=
| ToFiber (f : option fid)
| ToCb (cb : option C).
Arguments ToFiber {C} f.
Arguments ToCb {C} cb.

(** User callbacks: the calls [schedule(fc, thread)] a piece of code makes
    until its next yield, and how it ends. *)
Inductive request (U : Type) : Type := Request (fc : target U) (thr : Z).
Arguments Request {U} fc thr.

Class UserCode (U : Type) : Type := ustep : U -> list (request U) * outcome U.

(** Callbacks of fibers: user code, [Scheduler::idle] and [Scheduler::run]. *)
Inductive code (U : Type) : Type :=
| User (u : U)
| Idle
| RunLoop.
Arguments User {U} u.
Arguments Idle {U}.
Arguments RunLoop {U}.

(** [Scheduler::FiberAndThread]. *)
Record FiberAndThread (U : Type) : Type := FT {
  ft_fiber : option fid;
  ft_cb : option (code U);
  ft_thread : Z }.
Arguments FT {U}.
Arguments ft_fiber {U}.
Arguments ft_cb {U}.
Arguments ft_thread {U}.

(** [Scheduler]; [m_threads] holds the names of the pool's threads, and
    [tickles] counts the calls of the virtual [tickle] (it only logs), and [ran],
    which no code reads, is the user code that has run, in order. *)
Record scheduler (U : Type) : Type := Sched {
  m_threads : list Z;
  m_fibers : list (FiberAndThread U);
  m_rootFiber : option fid;
  m_threadIds : list Z;
  m_threadCount : Z;
  m_activeThreadCount : Z;
  m_idleThreadCount : Z;
  m_stopping : bool;
  m_autoStop : bool;
  m_rootThread : Z;
  tickles : nat;
  ran : list U }.
Arguments Sched {U}.
Arguments m_threads {U}.
Arguments m_fibers {U}.
Arguments m_rootFiber {U}.
Arguments m_threadIds {U}.
Arguments m_threadCount {U}.
Arguments m_activeThreadCount {U}.
Arguments m_idleThreadCount {U}.
Arguments m_stopping {U}.
Arguments m_autoStop {U}.
Arguments m_rootThread {U}.
Arguments tickles {U}.
Arguments ran {U}.

Section Queue.
Context {U : Type}.
Implicit Types (s : scheduler U) (q : list (FiberAndThread U)).

Definition set_fibers q s : scheduler U :=
  Sched (m_threads s) q (m_rootFiber s) (m_threadIds s) (m_threadCount s)
    (m_activeThreadCount s) (m_idleThreadCount s) (m_stopping s) (m_autoStop s)
    (m_rootThread s) (tickles s) (ran s).
Definition add_active (d : Z) s : scheduler U :=
  Sched (m_threads s) (m_fibers s) (m_rootFiber s) (m_threadIds s) (m_threadCount s)
    (u64 (m_activeThreadCount s + d)) (m_idleThreadCount s) (m_stopping s) (m_autoStop s)
    (m_rootThread s) (tickles s) (ran s).
Definition add_idle (d : Z) s : scheduler U :=
  Sched (m_threads s) (m_fibers s) (m_rootFiber s) (m_threadIds s) (m_threadCount s)
    (m_activeThreadCount s) (u64 (m_idleThreadCount s + d)) (m_stopping s) (m_autoStop s)
    (m_rootThread s) (tickles s) (ran s).
Definition set_flags (stopping auto : bool) s : scheduler U :=
  Sched (m_threads s) (m_fibers s) (m_rootFiber s) (m_threadIds s) (m_threadCount s)
    (m_activeThreadCount s) (m_idleThreadCount s) stopping auto
    (m_rootThread s) (tickles s) (ran s).

Definition has_run (l : list U) s : scheduler U :=
  Sched (m_threads s) (m_fibers s) (m_rootFiber s) (m_threadIds s) (m_threadCount s)
    (m_activeThreadCount s) (m_idleThreadCount s) (m_stopping s) (m_autoStop s)
    (m_rootThread s) (tickles s) (ran s ++ l).

(** [Scheduler::tickle]. *)
Definition tickle s : scheduler U :=
  Sched (m_threads s) (m_fibers s) (m_rootFiber s) (m_threadIds s) (m_threadCount s)
    (m_activeThreadCount s) (m_idleThreadCount s) (m_stopping s) (m_autoStop s)
    (m_rootThread s) (S (tickles s)) (ran s).

(** [FiberAndThread(fc, thr)]. *)
Definition ft_new (fc : target (code U)) (thr : Z) : FiberAndThread U :=
  match fc with
  | ToFiber f => FT f None thr
  | ToCb cb => FT None cb thr
  end.

(** [Scheduler::scheduleNoLock]: (need_tickle, scheduler). *)
Definition scheduleNoLock (fc : target (code U)) (thr : Z) s : bool * scheduler U :=
  let need_tickle := match m_fibers s with [] => true | _ => false end in
  let ft := ft_new fc thr in
  (need_tickle,
   match ft_fiber ft, ft_cb ft with
   | None, None => s
   | _, _ => set_fibers (m_fibers s ++ [ft]) s
   end).

(** [Scheduler::schedule(fc, thread)]. *)
Definition schedule (fc : target (code U)) (thr : Z) s : scheduler U :=
  let '(need_tickle, s) := scheduleNoLock fc thr s in
  if need_tickle then tickle s else s.

(** [Scheduler::schedule(begin, end)]: one tickle for the whole range. *)
Fixpoint schedule_loop (l : list (target (code U))) (need_tickle : bool) s
    : bool * scheduler U :=
  match l with
  | [] => (need_tickle, s)
  | fc :: l' =>
      let '(b, s) := scheduleNoLock fc (-1) s in schedule_loop l' (b || need_tickle) s
  end.

Definition schedule_range (l : list (target (code U))) s : scheduler U :=
  let '(need_tickle, s) := schedule_loop l false s in
  if need_tickle then tickle s else s.

(** [Scheduler::stopping]. *)
Definition stopping s : bool :=
  m_autoStop s && m_stopping s && (match m_fibers s with [] => true | _ => false end) &&
  (m_activeThreadCount s =? 0).

Definition hasIdleThreads s : bool := 0 <? m_idleThreadCount s.

(** The scan of the queue in [Scheduler::run] by thread [self]: the task taken
    (if any), the queue that is left and [tickle_me].  [st] gives the state of
    a fiber. *)
Fixpoint pick (self : Z) (st : fid -> option State) (skipped q : list (FiberAndThread U))
    (tickle_me : bool) : res (option (FiberAndThread U) * list (FiberAndThread U) * bool) :=
  match q with
  | [] => mret (None, skipped, tickle_me)
  | it :: q' =>
      if negb (ft_thread it =? -1) && negb (ft_thread it =? self) then
        pick self st (skipped ++ [it]) q' true
      else match ft_fiber it, ft_cb it with
      | None, None => Err (FAssert "it->fiber||it->cb")
      | Some f, _ =>
          s ← deref (st f) "it->fiber->getState()";
          if decide (s = EXEC) then pick self st (skipped ++ [it]) q' tickle_me
          else mret (Some it, skipped ++ q', true)
      | None, Some _ => mret (Some it, skipped ++ q', true)
      end
  end.
End Queue.

Section Run.
Context {U : Type} `{UserCode U}.

Definition user_target (fc : target U) : target (code U) :=
  match fc with
  | ToFiber f => ToFiber f
  | ToCb cb => ToCb (User <$> cb)
  end.

Definition do_request (s : scheduler U) (r : request U) : scheduler U :=
  match r with Request fc thr => schedule (user_target fc) thr s end.

Definition user_outcome (o : outcome U) : outcome (code U) :=
  match o with
  | Returns => Returns
  | Throws => Throws
  | YieldsToHold k => YieldsToHold (User k)
  | YieldsToReady k => YieldsToReady (User k)
  end.

(** Fiber code: the user's; [Scheduler::idle], which yields until [stopping]. *)
#[export] Instance scheduler_code : Coroutine (code U) (scheduler U) := fun k s =>
  match k with
  | User u => let '(rs, o) := ustep u in (user_outcome o, foldl do_request (has_run [u] s) rs)
  | Idle => if stopping s then (Returns, s) else (YieldsToHold Idle, s)
  | RunLoop => (Throws, s)
  end.

(** A thread in [Scheduler::run]. *)
Record world : Type := World {
  fw : fibers (code U);
  sch : scheduler U;
  t_scheduler : option unit;
  idle_fiber : fid;
  cb_fiber : option fid }.

Definition set_fw (x : fibers (code U)) (w : world) : world :=
  World x (sch w) (t_scheduler w) (idle_fiber w) (cb_fiber w).
Definition set_sch (s : scheduler U) (w : world) : world :=
  World (fw w) s (t_scheduler w) (idle_fiber w) (cb_fiber w).
Definition set_cb_fiber (o : option fid) (w : world) : world :=
  World (fw w) (sch w) (t_scheduler w) (idle_fiber w) o.

Definition state_of (w : world) (f : fid) : option State := m_state <$> heap (fw w) !! f.
Definition getState (w : world) (f : fid) : res State := deref (state_of w f) "getState".

Definition do_swapIn (f : fid) (w : world) : res world :=
  '(x, s) ← run_swapIn f (fw w) (sch w); mret (set_sch s (set_fw x w)).

Definition set_state (s : State) (f : fid) (w : world) : res world :=
  x ← upd_fiber (with_state s) f (fw w); mret (set_fw x w).

(** The branch of [run] for a fiber. *)
Definition run_fiber_task (f : fid) (w : world) : res world :=
  w ← do_swapIn f w;
  let w := set_sch (add_active (-1) (sch w)) w in
  s ← getState w f;
  if decide (s = READY) then mret (set_sch (schedule (ToFiber (Some f)) (-1) (sch w)) w)
  else if finished s then mret w
  else set_state HOLD f w.

(** The branch of [run] for a callback: [cb_fiber] is reused or created. *)
Definition cb_fiber_for (g_fiber_stack_size : Z) (cb : code U) (w : world)
    : res (fid * world) :=
  match cb_fiber w with
  | Some g => x ← reset g (Some cb) (fw w); mret (g, set_fw x w)
  | None =>
      let '(g, x) := Fiber_new g_fiber_stack_size (Some cb) 0 false (fw w) in
      mret (g, set_cb_fiber (Some g) (set_fw x w))
  end.

Definition run_cb_task (g_fiber_stack_size : Z) (cb : code U) (w : world) : res world :=
  '(g, w) ← cb_fiber_for g_fiber_stack_size cb w;
  w ← do_swapIn g w;
  let w := set_sch (add_active (-1) (sch w)) w in
  s ← getState w g;
  if decide (s = READY) then
    mret (set_cb_fiber None (set_sch (schedule (ToFiber (Some g)) (-1) (sch w)) w))
  else if finished s then x ← reset g None (fw w); mret (set_fw x w)
  else w ← set_state HOLD g w; mret (set_cb_fiber None w).

(** The branch of [run] without a task: (loop again?, world). *)
Definition run_idle (w : world) : res (bool * world) :=
  s ← getState w (idle_fiber w);
  if decide (s = TERM) then mret (false, set_sch (tickle (sch w)) w)
  else
    let w := set_sch (add_idle 1 (sch w)) w in
    w ← do_swapIn (idle_fiber w) w;
    let w := set_sch (add_idle (-1) (sch w)) w in
    s ← getState w (idle_fiber w);
    if finished s then mret (true, w)
    else w ← set_state HOLD (idle_fiber w) w; mret (true, w).

(** What [run] does with the task [pick] took. *)
Definition run_task (g_fiber_stack_size : Z) (ft : FiberAndThread U) (w : world) : res world :=
  let cb_branch w :=
    match ft_cb ft with
    | Some cb => run_cb_task g_fiber_stack_size cb w
    | None => mret (set_sch (add_active (-1) (sch w)) w)
    end in
  match ft_fiber ft with
  | Some f =>
      s ← getState w f;
      if finished s then cb_branch w else run_fiber_task f w
  | None => cb_branch w
  end.

(** One round of the loop of [Scheduler::run]. *)
Definition run_round (g_fiber_stack_size : Z) (self : Z) (w : world) : res (bool * world) :=
  '(ft, q, tickle_me) ← pick self (state_of w) [] (m_fibers (sch w)) false;
  let s := set_fibers q (sch w) in
  let s := match ft with Some _ => add_active 1 s | None => s end in
  let w := set_sch (if tickle_me : bool then tickle s else s) w in
  match ft with
  | Some ft => w ← run_task g_fiber_stack_size ft w; mret (true, w)
  | None => run_idle w
  end.

(** The loop; [None]: out of fuel. *)
Fixpoint run_loop (g_fiber_stack_size : Z) (fuel : nat) (self : Z) (w : world)
    : res (option world) :=
  match fuel with
  | O => mret None
  | S fuel' =>
      '(again, w) ← run_round g_fiber_stack_size self w;
      if again : bool then run_loop g_fiber_stack_size fuel' self w else mret (Some w)
  end.

(** [Scheduler::run] on thread [self] up to the loop. *)
Definition run_start (g_fiber_stack_size : Z) (self : Z) (x : fibers (code U)) (s : scheduler U)
    : res world :=
  x ← (if self =? m_rootThread s then mret x
       else
         '(f, x) ← GetThis x;
         mret (set_tl (Tls (t_fiber (tl x)) (t_threadFiber (tl x)) (Some f)) x));
  let '(i, x) := Fiber_new g_fiber_stack_size (Some Idle) 0 false x in
  mret (World x s (Some tt) i None).

Definition run (g_fiber_stack_size : Z) (fuel : nat) (self : Z) (x : fibers (code U))
    (s : scheduler U) : res (option world) :=
  w ← run_start g_fiber_stack_size self x s;
  run_loop g_fiber_stack_size fuel self w.

(** [Scheduler::Scheduler(threads, use_caller, name)] on thread [self];
    [t_scheduler] is the thread's scheduler. *)
Definition Scheduler_new (g_fiber_stack_size : Z) (threads : Z) (use_caller : bool) (self : Z)
    (t_scheduler : option unit) (x : fibers (code U))
    : res (fibers (code U) * scheduler U * option unit) :=
  _ ← sylar_assert (0 <? threads) "threads>0";
  if use_caller then
    '(_, x) ← GetThis x;
    _ ← sylar_assert (match t_scheduler with None => true | _ => false end) "GetThis()==nullptr";
    let '(r, x) := Fiber_new g_fiber_stack_size (Some RunLoop) 0 true x in
    let x := set_tl (Tls (t_fiber (tl x)) (t_threadFiber (tl x)) (Some r)) x in
    mret (x, Sched [] [] (Some r) [self] (threads - 1) 0 0 true false self 0 [], Some tt)
  else
    mret (x, Sched [] [] None [] threads 0 0 true false (-1) 0 [], t_scheduler).

(** [Scheduler::~Scheduler]. *)
Definition Scheduler_delete (s : scheduler U) (t_scheduler : option unit) (mine : bool)
    : res (option unit) :=
  _ ← sylar_assert (m_stopping s) "m_stopping";
  mret (if mine then None else t_scheduler).

(** [Scheduler::start]; [new_ids] are the ids of the threads it creates, as
    [getId] returns them. *)
Definition start (new_ids : list Z) (s : scheduler U) : res (scheduler U) :=
  if negb (m_stopping s) then mret s
  else
    _ ← sylar_assert (match m_threads s with [] => true | _ => false end) "m_threads.empty()";
    let ids := take (Z.to_nat (m_threadCount s)) new_ids in
    mret (Sched ids (m_fibers s) (m_rootFiber s) (m_threadIds s ++ ids) (m_threadCount s)
            (m_activeThreadCount s) (m_idleThreadCount s) false (m_autoStop s)
            (m_rootThread s) (tickles s) (ran s)).

Fixpoint tickle_n (n : nat) (s : scheduler U) : scheduler U :=
  match n with O => s | S n' => tickle_n n' (tickle s) end.

(** [Scheduler::stop] up to the run of the root fiber: what is left to do. *)
Inductive stop_action : Type := StopDone | StopCall (root : fid) | StopJoin.

Definition stop_prepare (mine : bool) (x : fibers (code U)) (s : scheduler U)
    : res (stop_action * scheduler U) :=
  let s := set_flags (m_stopping s) true s in
  early ← (match m_rootFiber s with
           | Some r => if m_threadCount s =? 0 then
                         y ← get_fiber x r;
                         mret (bool_decide (m_state y = TERM \/ m_state y = INIT))
                       else mret false
           | None => mret false
           end);
  let s := if early : bool then set_flags true (m_autoStop s) s else s in
  if early && stopping s then mret (StopDone, s)
  else
    _ ← (if negb (m_rootThread s =? -1) then sylar_assert mine "GetThis()==this"
         else sylar_assert (negb mine) "GetThis()!=this");
    let s := set_flags true (m_autoStop s) s in
    let s := tickle_n (Z.to_nat (m_threadCount s)) s in
    match m_rootFiber s with
    | Some r =>
        let s := tickle s in
        mret (if stopping s then StopJoin else StopCall r, s)
    | None => mret (StopJoin, s)
    end.

(** [m_rootFiber->call()]: [CallerMainFunc] around [Scheduler::run]. *)
Definition call_root (g_fiber_stack_size : Z) (fuel : nat) (self : Z) (root : fid)
    (x : fibers (code U)) (s : scheduler U) : res (option (fibers (code U) * scheduler U)) :=
  '(c, x) ← call root x;
  match c with
  | Entry true =>
      '(cur, x) ← GetThis x;
      y ← get_fiber x cur;
      match m_cb y with
      | Some RunLoop =>
          o ← run g_fiber_stack_size fuel self x s;
          match o with
          | None => mret None
          | Some w =>
              x ← upd_fiber (fun y => with_state TERM (with_cb None y)) cur (fw w);
              '(c, x) ← back cur (AtEnd cur) x;
              match c with
              | Saved InHost => mret (Some (x, sch w))
              | _ => Err (FUB "call_root: control went elsewhere")
              end
          end
      | _ => Err (FUB "call_root: other callback")
      end
  | Saved (AtEnd _) => Err (FAssert "never reach")
  | _ => Err (FUB "call_root: context")
  end.

(** [Scheduler::stop]; the threads to join are returned. *)
Definition stop (g_fiber_stack_size : Z) (fuel : nat) (self : Z) (mine : bool)
    (x : fibers (code U)) (s : scheduler U)
    : res (option (fibers (code U) * scheduler U * list Z)) :=
  '(a, s) ← stop_prepare mine x s;
  o ← (match a with
       | StopCall r => call_root g_fiber_stack_size fuel self r x s
       | _ => mret (Some (x, s))
       end);
  match a, o with
  | StopDone, Some (x, s) => mret (Some (x, s, []))
  | _, Some (x, s) =>
      mret (Some (x, Sched [] (m_fibers s) (m_rootFiber s) (m_threadIds s) (m_threadCount s)
              (m_activeThreadCount s) (m_idleThreadCount s) (m_stopping s) (m_autoStop s)
              (m_rootThread s) (tickles s) (ran s), m_threads s))
  | _, None => mret None
  end.
End Run.
Arguments world U : clear implicits.

(** ** The queue operations *)

Section QueueTheory.
Context {U : Type}.
Implicit Types (s : scheduler U) (q : list (FiberAndThread U)).

(** [s'] is [s] with [ex] appended to the queue, and perhaps more tickles. *)
Record extends (ex : list (FiberAndThread U)) s s' : Prop := Extends {
  ext_fibers : m_fibers s' = m_fibers s ++ ex;
  ext_active : m_activeThreadCount s' = m_activeThreadCount s;
  ext_idle : m_idleThreadCount s' = m_idleThreadCount s;
  ext_stopping : m_stopping s' = m_stopping s;
  ext_auto : m_autoStop s' = m_autoStop s;
  ext_threads : m_threads s' = m_threads s;
  ext_root : m_rootFiber s' = m_rootFiber s;
  ext_rootThread : m_rootThread s' = m_rootThread s;
  ext_count : m_threadCount s' = m_threadCount s;
  ext_tickles : (tickles s <= tickles s')%nat }.

Lemma extends_refl s : extends [] s s.
Proof. split; try done. by rewrite app_nil_r. Qed.

Lemma extends_trans ex1 ex2 s1 s2 s3 :
  extends ex1 s1 s2 -> extends ex2 s2 s3 -> extends (ex1 ++ ex2) s1 s3.
Proof. intros [] []. split; try congruence; [|lia]. rewrite app_assoc. congruence. Qed.

Definition entry_of (fc : target (code U)) (thr : Z) : list (FiberAndThread U) :=
  match fc with
  | ToFiber None | ToCb None => []
  | _ => [ft_new fc thr]
  end.

Lemma schedule_extends fc thr s : extends (entry_of fc thr) s (schedule fc thr s).
Proof.
  unfold schedule, scheduleNoLock.
  destruct fc as [[f|]|[k|]]; simpl; destruct (m_fibers s) eqn:E; simpl;
    split; simpl; rewrite ?E, ?app_nil_r; try done; lia.
Qed.

(** [schedule] appends exactly one entry, with its thread, unless the
    fiber or callback is null; it tickles exactly when the queue was empty, and
    changes nothing else.  A range is appended in order, unpinned, with at most
    one tickle. *)
Theorem schedule_appends (fc : target (code U)) (thr : Z) (l : list (target (code U))) s :
  m_fibers (schedule fc thr s) = m_fibers s ++ entry_of fc thr /\
  tickles (schedule fc thr s)
    = (tickles s + match m_fibers s with [] => 1 | _ => 0 end)%nat /\
  m_activeThreadCount (schedule fc thr s) = m_activeThreadCount s /\
  m_fibers (schedule_range l s) = m_fibers s ++ (l ≫= fun fc => entry_of fc (-1)) /\
  (tickles s <= tickles (schedule_range l s) <= S (tickles s))%nat.
Proof.
  assert (forall s b, tickles (schedule_loop l b s).2 = tickles s /\
            m_fibers (schedule_loop l b s).2
              = m_fibers s ++ (l ≫= fun fc => entry_of fc (-1))) as Hl.
  { induction l as [|fc' l IH]; intros s' b; simpl; [by rewrite app_nil_r|].
    destruct fc' as [[f|]|[k|]]; simpl; rewrite (proj1 (IH _ _)), (proj2 (IH _ _)); simpl;
      by rewrite <- ?app_assoc. }
  destruct (Hl s false) as [Ht Hf]. unfold schedule_range.
  destruct (schedule_loop l false s) as [nt s']. simpl in Ht, Hf.
  split_and!; [apply schedule_extends| |apply schedule_extends|destruct nt; done|
               destruct nt; simpl; lia|destruct nt; simpl; lia].
  unfold schedule, scheduleNoLock.
  destruct fc as [[f|]|[k|]]; simpl; destruct (m_fibers s); simpl; lia.
Qed.

(** An entry thread [self] may run. *)
Definition eligible (self : Z) (it : FiberAndThread U) : bool :=
  (ft_thread it =? -1) || (ft_thread it =? self).

Definition takeable (self : Z) (st : fid -> option State) (it : FiberAndThread U) : bool :=
  eligible self it &&
  match ft_fiber it with Some f => bool_decide (st f <> Some EXEC) | None => true end.

Definition well_formed (st : fid -> option State) (it : FiberAndThread U) : Prop :=
  match ft_fiber it, ft_cb it with
  | Some f, _ => is_Some (st f)
  | None, Some _ => True
  | None, None => False
  end.

Lemma pick_spec self st q : forall skipped b,
  Forall (well_formed st) q ->
  exists ft q' b', pick self st skipped q b = Ok (ft, skipped ++ q', b') /\
    match ft with
    | Some it => exists q1 q2, q = q1 ++ it :: q2 /\ q' = q1 ++ q2 /\
        takeable self st it = true /\ Forall (fun x => takeable self st x = false) q1 /\ b' = true
    | None => q' = q /\ Forall (fun x => takeable self st x = false) q /\
        b' = b || existsb (fun x => negb (eligible self x)) q
    end.
Proof.
  induction q as [|it q IH]; intros skipped b Hq.
  { exists None, [], b. rewrite app_nil_r, orb_false_r. auto. }
  apply Forall_cons in Hq as [Hit Hq]. cbn [pick].
  assert (negb (ft_thread it =? -1) && negb (ft_thread it =? self) = negb (eligible self it))
    as -> by (unfold eligible; by rewrite negb_orb).
  assert (forall b0 b1, takeable self st it = false ->
    b1 = b || negb (eligible self it) -> b0 = b1 -> exists ft q' b',
    pick self st (skipped ++ [it]) q b0 = Ok (ft, skipped ++ q', b') /\
    match ft with
    | Some it' => exists q1 q2, it :: q = q1 ++ it' :: q2 /\ q' = q1 ++ q2 /\
        takeable self st it' = true /\ Forall (fun x => takeable self st x = false) q1 /\ b' = true
    | None => q' = it :: q /\ Forall (fun x => takeable self st x = false) (it :: q) /\
        b' = b || existsb (fun x => negb (eligible self x)) (it :: q)
    end) as Hskip.
  { intros b0 b1 Hno -> ->. destruct (IH (skipped ++ [it]) (b || negb (eligible self it)) Hq)
      as (ft & q' & b' & -> & Hspec).
    exists ft, (it :: q'), b'. rewrite <- app_assoc. split; [done|]. destruct ft as [it'|].
    - destruct Hspec as (q1 & q2 & -> & -> & ? & ? & ?). exists (it :: q1), q2. eauto 10.
    - destruct Hspec as (-> & ? & ->). simpl. rewrite orb_assoc. auto. }
  assert (forall ft', ft' = it -> takeable self st it = true -> exists ft q' b',
    (Ok (Some it, skipped ++ q, true) : res _) = Ok (ft, skipped ++ q', b') /\
    match ft with
    | Some it' => exists q1 q2, it :: q = q1 ++ it' :: q2 /\ q' = q1 ++ q2 /\
        takeable self st it' = true /\ Forall (fun x => takeable self st x = false) q1 /\ b' = true
    | None => q' = it :: q /\ Forall (fun x => takeable self st x = false) (it :: q) /\
        b' = b || existsb (fun x => negb (eligible self x)) (it :: q)
    end) as Htake.
  { intros _ _ Ht. exists (Some it), q, true. split; [done|]. exists [], q. auto. }
  unfold takeable, well_formed in *.
  destruct (eligible self it) eqn:Ee; simpl negb in *; [|by apply (Hskip true true); rewrite ?orb_true_r].
  destruct (ft_fiber it) as [f|], (ft_cb it) as [c|]; [..|done]; try by eapply Htake.
  all: destruct Hit as [x Hx]; rewrite Hx in *; cbn [deref]; res_simpl; destruct (decide (x = EXEC)) as [Hex|Hex].
  all: try (apply (Hskip b b); [|by rewrite orb_false_r|done]; simpl;
    apply bool_decide_eq_false; naive_solver).
  all: eapply Htake; [done|]; simpl; apply bool_decide_eq_true; congruence.
Qed.
End QueueTheory.

(** ** A thread that runs the queue *)

Section Drain.
Context {U : Type} `{UserCode U}.
Variables (g_fiber_stack_size self : Z) (h m : fid) (hx mx : fiber (code U)).

(** Bounds on user code: [weight u] counts the rounds [u] still takes, the
    tasks it will schedule included; [A] holds of the fibers it may schedule,
    and it pins nothing to other threads. *)
Variables (weight : U -> nat) (A : fid -> Prop) (pool : list Z).

Definition req_cost (r : request U) : nat :=
  match r with
  | Request (ToCb (Some v)) _ => S (weight v)
  | Request (ToFiber (Some _)) _ => 1
  | _ => 0
  end.

Definition out_cost (o : outcome U) : nat :=
  match o with
  | YieldsToHold k => weight k
  | YieldsToReady k => S (weight k)
  | _ => 0
  end.

Definition good_request (r : request U) : Prop :=
  match r with
  | Request fc thr =>
      (thr = -1 \/ thr = self) /\ match fc with ToFiber (Some f) => A f | _ => True end
  end.

Definition good_step (u : U) : Prop :=
  Forall good_request (ustep u).1 /\
  (sum_list_with req_cost (ustep u).1 + out_cost (ustep u).2 <= weight u)%nat.

Hypothesis good_code : forall u, good_step u.

Definition code_weight (k : code U) : nat := match k with User u => weight u | _ => 0 end.

Definition fib_weight (x : fiber (code U)) : nat :=
  match m_ctx x with
  | Entry _ => from_option code_weight 0%nat (m_cb x)
  | Saved (InYield _ _ k) => code_weight k
  | _ => 0
  end.

Definition entry_cost (it : FiberAndThread U) : nat :=
  match ft_cb it with Some k => S (code_weight k) | None => 1 end.

Definition is_user (k : code U) : Prop := match k with User _ => True | _ => False end.

(** A fiber that runs user code. *)
Definition user_fiber (f : fid) (x : fiber (code U)) : Prop :=
  placed f x /\ m_stack x = true /\
  (m_state x = INIT -> match m_cb x with Some k => is_user k | None => True end) /\
  (forall k, m_ctx x = Saved (InYield f false k) -> is_user k).

Definition other (i f : fid) : Prop := f <> h /\ f <> m /\ f <> i.

Record heap_ok (i : fid) (x : fibers (code U)) : Prop := HeapOk {
  ho_host : hosting h m hx x;
  ho_main : heap x !! m = Some mx;
  ho_idle : i <> h /\ i <> m;
  ho_users : forall f y, other i f -> heap x !! f = Some y -> user_fiber f y;
  ho_fresh : forall f y, heap x !! f = Some y -> (f < fresh_ptr x)%nat;
  ho_A : forall f, A f -> is_Some (heap x !! f) /\ other i f }.

Definition entry_ok (i : fid) (x : fibers (code U)) (it : FiberAndThread U) : Prop :=
  (ft_thread it = -1 \/ ft_thread it = self) /\
  match ft_fiber it, ft_cb it with
  | Some f, None => is_Some (heap x !! f) /\ other i f
  | None, Some k => is_user k
  | _, _ => False
  end.

(** The idle fiber before it has finished. *)
Definition idle_ok (i : fid) (y : fiber (code U)) : Prop :=
  m_stack y = true /\
  ((m_state y = INIT /\ m_ctx y = Entry false /\ m_cb y = Some Idle) \/
   (m_state y = HOLD /\ m_ctx y = Saved (InYield i false Idle))).

(** The reusable callback fiber: between rounds it has nothing to run. *)
Definition cb_ok (i : fid) (x : fibers (code U)) (o : option fid) : Prop :=
  match o with
  | Some g => other i g /\ exists y, heap x !! g = Some y /\
      (finished (m_state y) = true \/ (m_state y = INIT /\ m_cb y = None))
  | None => True
  end.

(** Inside a round, with [a] tasks in progress and stop requested. *)
Record core_ok (a : Z) (w : world U) : Prop := CoreOk {
  ro_heap : heap_ok (idle_fiber w) (fw w);
  ro_queue : Forall (entry_ok (idle_fiber w) (fw w)) (m_fibers (sch w));
  ro_idle : exists y, heap (fw w) !! idle_fiber w = Some y /\ idle_ok (idle_fiber w) y;
  ro_active : m_activeThreadCount (sch w) = a;
  ro_stop : m_stopping (sch w) = true /\ m_autoStop (sch w) = true;
  ro_pool : m_threads (sch w) = pool }.

(** Between two rounds. *)
Definition round_ok (w : world U) : Prop :=
  core_ok 0 w /\ cb_ok (idle_fiber w) (fw w) (cb_fiber w).

(** The rounds left. *)
Definition work (w : world U) : nat :=
  (map_sum fib_weight (heap (fw w)) + sum_list_with entry_cost (m_fibers (sch w)))%nat.

Definition entries (rs : list (request U)) : list (FiberAndThread U) :=
  rs ≫= fun r => match r with Request fc thr => entry_of (user_target fc) thr end.

Lemma entries_cons fc thr rs :
  entries (Request fc thr :: rs) = entry_of (user_target fc) thr ++ entries rs.
Proof. done. Qed.

Lemma requests_extend rs s : extends (entries rs) s (foldl do_request s rs).
Proof.
  revert s. induction rs as [|[fc thr] rs IH]; intros s; simpl; [apply extends_refl|].
  eapply extends_trans; [apply schedule_extends|apply IH].
Qed.

Lemma entries_cost rs : sum_list_with entry_cost (entries rs) = sum_list_with req_cost rs.
Proof.
  induction rs as [|[fc thr] rs IH]; [done|].
  rewrite entries_cons, sum_list_with_app, IH. destruct fc as [[f|]|[v|]]; simpl; lia.
Qed.

Lemma entries_ok i x rs :
  heap_ok i x -> Forall good_request rs -> Forall (entry_ok i x) (entries rs).
Proof.
  intros Hx. induction 1 as [|[fc thr] rs [Ht Hfc] _ IH]; [constructor|].
  rewrite entries_cons. apply Forall_app. split; [|done].
  destruct fc as [[f|]|[v|]]; simpl; try apply Forall_nil_2; apply Forall_singleton;
    (split; [done|]); [by eapply ho_A|done].
Qed.

Lemma ran_schedule fc thr (s : scheduler U) : ran (schedule fc thr s) = ran s.
Proof.
  unfold schedule, scheduleNoLock.
  destruct (m_fibers s), (ft_fiber (ft_new fc thr)), (ft_cb (ft_new fc thr)); done.
Qed.

Lemma ran_requests rs (s : scheduler U) : ran (foldl do_request s rs) = ran s.
Proof.
  revert s. induction rs as [|[fc thr] rs IH]; intros s; simpl; [done|]. by rewrite IH, ran_schedule.
Qed.

Lemma has_run_nil (s : scheduler U) : has_run [] s = s.
Proof. unfold has_run. rewrite app_nil_r. by destruct s. Qed.

Lemma ran_extends l rs (s : scheduler U) : extends (entries rs) s (foldl do_request (has_run l s) rs).
Proof.
  change (entries rs) with ([] ++ entries rs). eapply extends_trans; [|apply requests_extend].
  split; simpl; try done. by rewrite app_nil_r.
Qed.

(** The user code a fiber goes on with. *)
Definition fib_code (y : fiber (code U)) : option U :=
  match m_ctx y with
  | Entry _ => match m_cb y with Some (User u) => Some u | _ => None end
  | Saved (InYield _ _ (User u)) => Some u
  | _ => None
  end.

(** A round of a user fiber: it runs its code, if it has one. *)
Lemma user_round f y s :
  user_fiber f y -> finished (m_state y) = false ->
  exists o rs l, next_round f y s = Some (user_outcome o, foldl do_request (has_run l s) rs) /\
    m_state y <> EXEC /\ Forall good_request rs /\
    (sum_list_with req_cost rs + out_cost o <= fib_weight y)%nat /\
    (m_state y = INIT -> m_cb y = None -> o = Throws) /\
    (forall u, fib_code y = Some u -> l = [u] /\ ustep u = (rs, o)).
Proof.
  intros (Hp & _ & Hcb & Hk) Hfin. unfold placed, fib_weight, fib_code, next_round in *.
  assert (forall u, exists o rs, Some (resume (User u) s)
      = Some (user_outcome o, foldl do_request (has_run [u] s) rs) /\ Forall good_request rs /\
      (sum_list_with req_cost rs + out_cost o <= weight u)%nat /\ ustep u = (rs, o)) as Hres.
  { intros u. destruct (good_code u) as [? ?]. exists (ustep u).2, (ustep u).1.
    split; [|split_and!; [done|done|apply surjective_pairing]]. unfold resume, scheduler_code. by destruct (ustep u). }
  destruct (m_state y) eqn:Es; try done.
  - rewrite Hp. destruct (m_cb y) as [k|].
    + destruct k as [u| |]; try (by specialize (Hcb eq_refl)).
      destruct (Hres u) as (o & rs & ? & ? & ? & ?). exists o, rs, [u]. split_and!; try done. by intros ? [= <-].
    + exists Throws, [], []. simpl. rewrite has_run_nil. repeat split; auto; done.
  - destruct Hp as [k Hp]. rewrite Hp in *. specialize (Hk k eq_refl).
    destruct k as [u| |]; try done. rewrite decide_True by done.
    destruct (Hres u) as (o & rs & ? & ? & ? & ?). exists o, rs, [u]. split_and!; try done. by intros ? [= <-].
  - destruct Hp as [k Hp]. rewrite Hp in *. specialize (Hk k eq_refl).
    destruct k as [u| |]; try done. rewrite decide_True by done.
    destruct (Hres u) as (o & rs & ? & ? & ? & ?). exists o, rs, [u]. split_and!; try done. by intros ? [= <-].
Qed.

Lemma user_fiber_after f o y :
  m_stack y = true -> user_fiber f (after f (user_outcome o) y).
Proof.
  intros. split; [apply placed_after|].
  destruct o; simpl; (split; [done|split; [done|]]); intros k' Hk; by simplify_eq/=.
Qed.

(** The weight left after a round, with the entry a READY fiber gets back. *)
Lemma after_weight f o y :
  (fib_weight (after f (user_outcome o) y)
   + (if decide (m_state (after f (user_outcome o) y) = READY) then 1 else 0) = out_cost o)%nat.
Proof. destruct o; simpl; unfold fib_weight; simpl; lia. Qed.

Lemma heap_ok_update i x f y y' t :
  heap_ok i x -> other i f -> heap x !! f = Some y -> user_fiber f y' ->
  t_threadFiber t = Some m -> t_scheduler_fiber t = Some h ->
  heap_ok i (set_tl t (set_heap (<[f := y']> (heap x)) x)).
Proof.
  intros [Hh Hm Hi Hu Hfr HA] Hf Hy Hy' Htm Hth. split; simpl; try done.
  - destruct Hh as [_ _ Hhh Hl]. split; simpl; try done.
    by rewrite lookup_insert_ne by (by destruct Hf).
  - rewrite lookup_insert_ne by (by destruct Hf as (_ & ? & _)). done.
  - intros g z Hg [[<- <-]|[_ Hz]]%lookup_insert_Some; [done|]. by apply Hu.
  - intros g z [[<- <-]|[_ Hz]]%lookup_insert_Some; by eapply Hfr.
  - intros g Hg. destruct (HA g Hg). split; [|done]. by apply lookup_insert_is_Some'; auto.
Qed.

Lemma entry_ok_mono i x x' it :
  (forall f, is_Some (heap x !! f) -> is_Some (heap x' !! f)) ->
  entry_ok i x it -> entry_ok i x' it.
Proof.
  intros Hx [Ht Hit]. split; [done|]. destruct (ft_fiber it), (ft_cb it); try done.
  destruct Hit. auto.
Qed.

Lemma set_fibers_same (s : scheduler U) : m_fibers s = [] -> set_fibers [] s = s.
Proof. intros E. unfold set_fibers. rewrite <- E. by destruct s. Qed.

Lemma set_tl_same (x : fibers (code U)) : set_tl (tl x) x = x.
Proof. by destruct x. Qed.

(** The heap of a round changes at one fiber only. *)
Lemma core_ok_update a w f y y' t s ex :
  core_ok a w -> other (idle_fiber w) f -> heap (fw w) !! f = Some y -> user_fiber f y' ->
  t_threadFiber t = Some m -> t_scheduler_fiber t = Some h -> extends ex (sch w) s ->
  Forall (entry_ok (idle_fiber w) (fw w)) ex ->
  core_ok a (set_sch s (set_fw (set_tl t (set_heap (<[f := y']> (heap (fw w))) (fw w))) w)).
Proof.
  intros [Hh Hq (yi & Hi & Hid) Ha [Hs1 Hs2] Hpl] Hf Hy Hy' Htm Hth [Ef Ea _ Es Eo Ep _ _ _ _] Hex.
  split; simpl; [by eapply heap_ok_update| |..].
  - rewrite Ef. apply Forall_app. split; (eapply Forall_impl; [eassumption|]);
      intros it; apply entry_ok_mono; simpl; intros g Hg; by apply lookup_insert_is_Some'; auto.
  - exists yi. rewrite lookup_insert_ne by (destruct Hf as (_ & _ & ?); congruence). done.
  - congruence.
  - split; congruence.
  - congruence.
Qed.

Lemma core_ok_tls a w :
  core_ok a w -> t_threadFiber (tl (fw w)) = Some m /\ t_scheduler_fiber (tl (fw w)) = Some h.
Proof. intros [[[] _ _ _ _ _] _ _ _ _ _]. done. Qed.

Lemma core_ok_sch a w s ex :
  core_ok a w -> extends ex (sch w) s -> Forall (entry_ok (idle_fiber w) (fw w)) ex ->
  core_ok a (set_sch s w).
Proof.
  intros [Hh Hq Hi Ha [Hs1 Hs2] Hpl] [Ef Ea _ Es Eo Ep _ _ _ _] Hex. split; simpl; try done.
  - rewrite Ef. by apply Forall_app.
  - congruence.
  - split; congruence.
  - congruence.
Qed.

Lemma core_ok_active a b w :
  core_ok a w -> u64 (a + b) = a + b -> core_ok (a + b) (set_sch (add_active b (sch w)) w).
Proof. intros [Hh Hq Hi Ha Hs Hp] Hb. split; simpl; try done. by rewrite Ha. Qed.

(** One switch to a user fiber. *)
Lemma swapped a w f y :
  core_ok a w -> other (idle_fiber w) f -> heap (fw w) !! f = Some y ->
  user_fiber f y -> finished (m_state y) = false ->
  exists o rs l w1, do_swapIn f w = Ok w1 /\ core_ok a w1 /\
    idle_fiber w1 = idle_fiber w /\ cb_fiber w1 = cb_fiber w /\
    heap (fw w1) = <[f := after f (user_outcome o) y]> (heap (fw w)) /\
    user_fiber f (after f (user_outcome o) y) /\
    (work w1 + (if decide (m_state (after f (user_outcome o) y) = READY) then 1 else 0)
       <= work w)%nat /\
    (m_state y = INIT -> m_cb y = None -> o = Throws) /\
    m_fibers (sch w1) = m_fibers (sch w) ++ entries rs /\ ran (sch w1) = ran (sch w) ++ l /\
    (forall u, fib_code y = Some u -> l = [u] /\ ustep u = (rs, o)).
Proof.
  intros Hc Hf Hy Hu Hfin. pose proof Hc as [Hh _ _ _ _ _].
  destruct (user_round f y (sch w) Hu Hfin) as (o & rs & l & Hn & Hex & Hgood & Hcost & Hempty & Hcode).
  destruct (ho_host _ _ Hh) as [Hs Ht Hhh Hl].
  unfold do_swapIn. rewrite (run_swapIn_ok h m hx f y (fw w) (sch w) (user_outcome o)
    (foldl do_request (has_run l (sch w)) rs)) by (done || by destruct Hf). res_simpl.
  pose proof (ran_extends l rs (sch w)) as Hext.
  eexists o, rs, l, _. split; [done|].
  assert (user_fiber f (after f (user_outcome o) y)) as Hu' by (apply user_fiber_after, Hu).
  split_and!; try done.
  - eapply core_ok_update; try done. by eapply entries_ok.
  - unfold work. simpl. rewrite (ext_fibers _ _ _ Hext), sum_list_with_app, entries_cost.
    pose proof (map_sum_insert fib_weight _ f _ (after f (user_outcome o) y) Hy).
    pose proof (after_weight f o y). lia.
  - apply Hext.
  - simpl. by rewrite ran_requests.
Qed.

Lemma set_state_same (w : world U) f z st :
  heap (fw w) !! f = Some z -> m_state z = st -> set_state st f w = Ok w.
Proof.
  intros Hz Hs. unfold set_state. rewrite (upd_fiber_ok _ _ _ z) by done. res_simpl.
  assert (with_state st z = z) as -> by (rewrite <- Hs; by destruct z).
  rewrite insert_id by done. unfold set_fw, set_heap. by destruct w as [[] ? ? ? ?].
Qed.

Lemma getState_ok (w : world U) f z : heap (fw w) !! f = Some z -> getState w f = Ok (m_state z).
Proof. intros Hz. unfold getState, state_of. by rewrite Hz. Qed.

Lemma requeue_entry_ok i x f :
  is_Some (heap x !! f) -> other i f -> Forall (entry_ok i x) [FT (Some f) None (-1)].
Proof. intros. apply Forall_singleton. split; [by left|done]. Qed.

(** What a task leaves: fiber [f] has made the requests [rs] and ended with [o]. *)
Definition requeued (f : fid) (o : outcome U) : list (FiberAndThread U) :=
  match o with YieldsToReady _ => [FT (Some f) None (-1)] | _ => [] end.

Record task_post (q : list (FiberAndThread U)) (l : list U) (f : fid) (x : fibers (code U)) (w' : world U)
    (rs : list (request U)) (o : outcome U) : Prop := TaskPost {
  tp_heap : forall g, g <> f -> heap (fw w') !! g = heap x !! g;
  tp_queue : m_fibers (sch w') = q ++ entries rs ++ requeued f o;
  tp_ran : ran (sch w') = l;
  tp_ready : forall k, o = YieldsToReady k ->
    exists y, heap (fw w') !! f = Some y /\ m_state y = READY /\ fib_code y = Some k }.

Lemma run_fiber_task_ok w f y :
  core_ok 1 w -> cb_ok (idle_fiber w) (fw w) (cb_fiber w) ->
  other (idle_fiber w) f -> heap (fw w) !! f = Some y ->
  user_fiber f y -> finished (m_state y) = false ->
  exists w', run_fiber_task f w = Ok w' /\ round_ok w' /\ (work w' <= work w)%nat /\
    cb_fiber w' = cb_fiber w /\
    forall u, fib_code y = Some u -> exists rs o, ustep u = (rs, o) /\
      task_post (m_fibers (sch w)) (ran (sch w) ++ [u]) f (fw w) w' rs o.
Proof.
  intros Hc Hcb Hf Hy Hu Hfin.
  destruct (swapped 1 w f y Hc Hf Hy Hu Hfin)
    as (o & rs & l & w1 & Hsw & Hc1 & Ei & Ecb & Eh & Hu1 & Hw & Hthrow & Hq1 & Hran1 & Hcode).
  unfold run_fiber_task. rewrite Hsw. res_simpl.
  apply (core_ok_active 1 (-1)) in Hc1; [|done].
  set (w2 := set_sch (add_active (-1) (sch w1)) w1) in *.
  assert (heap (fw w2) !! f = Some (after f (user_outcome o) y)) as Hy2
    by (simpl; rewrite Eh; apply lookup_insert_eq).
  rewrite (getState_ok _ _ _ Hy2). res_simpl.
  assert (cb_ok (idle_fiber w2) (fw w2) (cb_fiber w2)) as Hcb2.
  { subst w2. simpl. rewrite Ei, Ecb. unfold cb_ok in *. destruct (cb_fiber w) as [g|]; [|done].
    destruct Hcb as (Hg & z & Hz & Hzs). split; [done|]. rewrite Eh.
    destruct (decide (f = g)) as [->|]; simplify_map_eq; [|eauto].
    eexists. split; [done|]. left.
    destruct Hzs as [Hzs|[Hzs Hzc]]; [congruence|]. by rewrite (Hthrow Hzs Hzc). }
  assert (work w2 = work w1) as Hw2 by done. rewrite <- Hw2 in Hw.
  assert (other (idle_fiber w2) f) as Hf2 by (simpl; by rewrite Ei).
  assert (forall w', heap (fw w') = heap (fw w2) -> m_fibers (sch w') = m_fibers (sch w2) ++ requeued f o ->
    ran (sch w') = ran (sch w2) -> forall u, fib_code y = Some u -> exists rs o, ustep u = (rs, o) /\
      task_post (m_fibers (sch w)) (ran (sch w) ++ [u]) f (fw w) w' rs o) as Hpost.
  { intros w' E1 E2 E3 u Hu'. destruct (Hcode u Hu') as [-> Hst]. exists rs, o. split; [done|]. split.
    - intros g Hg. rewrite E1. simpl. rewrite Eh. by apply lookup_insert_ne.
    - rewrite E2. simpl. by rewrite Hq1, app_assoc.
    - rewrite E3. exact Hran1.
    - intros k ->. rewrite E1, Hy2. by eexists. }
  destruct (decide (m_state (after f (user_outcome o) y) = READY)) as [Hr|Hr].
  - eexists. split; [done|].
    pose proof (schedule_extends (ToFiber (Some f)) (-1) (sch w2)) as Hext. split; [split|].
    + eapply (core_ok_sch _ w2); [done|apply Hext|]. by apply requeue_entry_ok.
    + done.
    + split; [|split; [done|]].
      2: { apply Hpost; [done| |apply ran_schedule]. cbn [sch set_sch]. rewrite (ext_fibers _ _ _ Hext). by destruct o. }
      unfold work in *. cbn [fw sch set_sch].
      rewrite (ext_fibers _ _ _ Hext), sum_list_with_app. cbn [entry_of] in *. simpl in *. lia.
  - assert (m_fibers (sch w2) = m_fibers (sch w2) ++ requeued f o) as Hnr
      by (destruct o; try done; simpl; by rewrite app_nil_r).
    destruct (finished (m_state (after f (user_outcome o) y))) eqn:Ef.
    + exists w2. split; [done|]. split; [by split|]. split; [simpl in *; lia|]. split; [done|]. by apply Hpost.
    + assert (m_state (after f (user_outcome o) y) = HOLD) as Hhold by (by destruct o).
      rewrite (set_state_same w2 f _ HOLD Hy2 Hhold). exists w2.
      split; [done|]. split; [by split|]. split; [lia|]. split; [done|]. by apply Hpost.
Qed.

(** The callback fiber gets its callback. *)
(** The fiber for a callback, made ready on [w1]. *)
Definition cb_fiber_ready w u : Prop :=
  exists g w1 y, cb_fiber_for g_fiber_stack_size (User u) w = Ok (g, w1) /\
    core_ok 1 w1 /\ idle_fiber w1 = idle_fiber w /\ cb_fiber w1 = Some g /\
    other (idle_fiber w) g /\ heap (fw w1) !! g = Some y /\ user_fiber g y /\
    m_state y = INIT /\ work w1 = (work w + weight u)%nat /\ fib_code y = Some u /\ sch w1 = sch w /\
    (forall g', g' <> g -> heap (fw w1) !! g' = heap (fw w) !! g') /\
    (cb_fiber w = Some g \/ heap (fw w) !! g = None).

Lemma cb_fiber_reset w u g : cb_fiber w = Some g ->
  core_ok 1 w -> cb_ok (idle_fiber w) (fw w) (Some g) -> cb_fiber_ready w u.
Proof.
  intros Ecb Hc Hcb. unfold cb_fiber_ready, cb_fiber_for. rewrite Ecb. pose proof Hc as [Hh Hq (yi & Hyi & Hid) Ha Hst Hpl].
  destruct (core_ok_tls _ _ Hc) as [Htm Hth].
  destruct Hcb as (Hg & z & Hz & Hzs). destruct (ho_users _ _ Hh g z Hg Hz) as (Hp & Hstk & _).
  assert (idle_state (m_state z) = true) as Hidle
    by (destruct Hzs as [Hzs|[-> _]]; [by destruct (m_state z)|done]).
  assert (fib_weight z = 0%nat) as Hw0.
  { unfold fib_weight. unfold placed in Hp. destruct Hzs as [Hzs|[Hzs Hzc]].
    - destruct (m_state z); try done; [by destruct Hp as [-> _]|by rewrite Hp].
    - rewrite Hzs in Hp. by rewrite Hp, Hzc. }
  rewrite (fiber_reset_ok g z) by done. res_simpl.
  set (y := Fib _ _ _ _ _ _). exists g. eexists _, y. split; [done|].
  assert (user_fiber g y) as Hy by (split; [done|split; [done|split; [done|by intros]]]).
  pose proof (core_ok_update 1 w g z y (tl (fw w)) (sch w) [] Hc Hg Hz Hy Htm Hth
    (extends_refl _) ltac:(constructor)) as Hc1.
  rewrite (set_tl_same (set_heap _ (fw w))) in Hc1.
  split_and!; try done; [by apply lookup_insert_eq| | |by left].
  - unfold work. simpl.
    pose proof (map_sum_insert fib_weight _ g z y Hz) as Hsum. rewrite Hw0 in Hsum.
    change (fib_weight y) with (weight u) in Hsum. lia.
  - intros g' Hne. by apply lookup_insert_ne.
Qed.

Lemma cb_fiber_made w u : cb_fiber w = None -> core_ok 1 w -> cb_fiber_ready w u.
Proof.
  intros Ecb Hc. unfold cb_fiber_ready, cb_fiber_for. rewrite Ecb. pose proof Hc as [Hh Hq (yi & Hyi & Hid) Ha Hst Hpl].
  set (g := fresh_ptr (fw w)).
  assert (heap (fw w) !! g = None) as Hnone.
  { destruct (heap (fw w) !! g) as [z|] eqn:E; [|done].
    pose proof (ho_fresh _ _ Hh _ _ E). subst g. lia. }
  assert (other (idle_fiber w) g) as Hg.
  { pose proof (ho_main _ _ Hh). destruct (ho_host _ _ Hh). unfold other.
    split_and!; congruence. }
  unfold Fiber_new. fold g. res_simpl.
  eexists g, _, (Fib g_fiber_stack_size INIT (u64 (s_fiber_id (fw w) + 1)) (Entry false) true
                   (Some (User u))).
  split; [done|].
  assert (forall f, is_Some (heap (fw w) !! f) -> f <> g) as Hold by (intros f [? ?]; congruence).
  split_and!; try done; [|apply lookup_insert_eq| |intros g' Hne; by apply lookup_insert_ne|by right].
  + split; simpl; try done.
    * destruct Hh as [[Hs Ht Hhh Hl] Hm Hi Hu Hfr HA]. destruct Hg as (? & ? & ?).
      split; simpl; try done.
      -- split; simpl; try done. by rewrite lookup_insert_ne by done.
      -- by rewrite lookup_insert_ne by done.
      -- intros f z Hf [[<- <-]|[_ Hz]]%lookup_insert_Some; [|by apply Hu].
         split; [done|split; [done|split; [done|by intros]]].
      -- intros f z [[<- <-]|[_ Hz]]%lookup_insert_Some; subst g; [lia|].
         pose proof (Hfr _ _ Hz). lia.
      -- intros f Hf. destruct (HA f Hf) as [Hsome ?]. split; [|done].
         by apply lookup_insert_is_Some'; auto.
    * eapply Forall_impl; [exact Hq|]. intros it. apply entry_ok_mono. simpl.
      intros f Hf. by apply lookup_insert_is_Some'; auto.
    * exists yi. by rewrite lookup_insert_ne by (apply not_eq_sym, Hold; eauto).
  + unfold work. simpl. rewrite map_sum_insert_new by done. unfold fib_weight at 1. simpl. lia.
Qed.

Lemma cb_fiber_ok w u :
  core_ok 1 w -> cb_ok (idle_fiber w) (fw w) (cb_fiber w) -> cb_fiber_ready w u.
Proof.
  intros Hc Hcb. destruct (cb_fiber w) as [g|] eqn:Ecb; [by eapply cb_fiber_reset|by apply cb_fiber_made].
Qed.

Lemma core_ok_cb a w o : core_ok a w -> core_ok a (set_cb_fiber o w).
Proof. intros []. by split. Qed.

(** What a callback leaves, run on fiber [g]. *)
Definition cb_post (w : world U) (u : U) (w' : world U) : Prop :=
  exists g rs o, ustep u = (rs, o) /\ task_post (m_fibers (sch w)) (ran (sch w) ++ [u]) g (fw w) w' rs o /\
    (forall c, cb_fiber w' = Some c -> c = g /\ requeued g o = []) /\
    (cb_fiber w = Some g \/ heap (fw w) !! g = None).

(** The callback's round, up to the look at the fiber's state. *)
Lemma run_cb_switch w u :
  core_ok 1 w -> cb_ok (idle_fiber w) (fw w) (cb_fiber w) ->
  exists g w1 w2 z o, cb_fiber_for g_fiber_stack_size (User u) w = Ok (g, w1) /\ do_swapIn g w1 = Ok w2 /\
    let w3 := set_sch (add_active (-1) (sch w2)) w2 in
    core_ok 0 w3 /\ other (idle_fiber w3) g /\ heap (fw w3) !! g = Some z /\ user_fiber g z /\
    cb_fiber w3 = Some g /\
    (work w3 + (if decide (m_state z = READY) then 1 else 0) <= work w + weight u)%nat /\
    m_state z = m_state (after g (user_outcome o) z) /\
    forall w', (forall g', g' <> g -> heap (fw w') !! g' = heap (fw w3) !! g') ->
      m_fibers (sch w') = m_fibers (sch w3) ++ requeued g o -> ran (sch w') = ran (sch w3) ->
      (forall k, o = YieldsToReady k -> heap (fw w') !! g = Some z) ->
      (forall c, cb_fiber w' = Some c -> c = g /\ requeued g o = []) -> cb_post w u w'.
Proof.
  intros Hc Hcb. destruct (cb_fiber_ok w u Hc Hcb)
    as (g & w1 & y & Hfor & Hc1 & Ei & Ecb & Hg & Hy & Hu & Hini & Hwk & Hfc & Esch & Eh1 & Hold).
  rewrite <- Ei in Hg. destruct (swapped 1 w1 g y Hc1 Hg Hy Hu)
    as (o & rs & l & w2 & Hsw & Hc2 & Ei2 & Ecb2 & Eh & Hu2 & Hw & _ & Hq2 & Hran2 & Hcode); [by rewrite Hini|].
  apply (core_ok_active 1 (-1)) in Hc2; [|done]. exists g, w1, w2, (after g (user_outcome o) y), o.
  split; [done|]. split; [done|]. split; [done|]. split; [simpl; by rewrite Ei2|].
  split; [simpl; rewrite Eh; apply lookup_insert_eq|]. split; [done|]. split; [simpl; congruence|].
  split; [rewrite <- Hwk; exact Hw|]. split; [by destruct o|].
  - intros w' E1 E2 E3 E4 E5. destruct (Hcode u Hfc) as [-> Hst]. exists g, rs, o.
    split; [done|]. split; [|done]. split.
    + intros g' Hne. rewrite E1 by done. simpl. rewrite Eh, lookup_insert_ne by done. by apply Eh1.
    + rewrite E2. simpl. by rewrite Hq2, Esch, app_assoc.
    + rewrite E3. simpl. by rewrite Hran2, Esch.
    + intros k Ho. eexists. split; [by eapply E4|]. by subst o.
Qed.

Lemma run_cb_task_ok w u :
  core_ok 1 w -> cb_ok (idle_fiber w) (fw w) (cb_fiber w) ->
  exists w', run_cb_task g_fiber_stack_size (User u) w = Ok w' /\ round_ok w' /\
    (work w' <= work w + weight u)%nat /\ cb_post w u w'.
Proof.
  intros Hc Hcb. unfold run_cb_task.
  destruct (run_cb_switch w u Hc Hcb)
    as (g & w1 & w2 & z & o & -> & Hsw & Hc3 & Hg & Hz & Hu & Ecb & Hw & Hzo & Hpost).
  res_simpl. rewrite Hsw. res_simpl. set (w3 := set_sch (add_active (-1) (sch w2)) w2) in *.
  rewrite (getState_ok _ _ _ Hz). res_simpl.
  destruct (decide (m_state z = READY)) as [Hr|Hr].
  - eexists. split; [done|].
    pose proof (schedule_extends (ToFiber (Some g)) (-1) (sch w3)) as Hext. split; [split; [|done]|].
    + apply core_ok_cb. eapply (core_ok_sch _ w3); [done|apply Hext|]. by apply requeue_entry_ok.
    + split; [unfold work in *; cbn [fw sch set_sch set_cb_fiber];
        rewrite (ext_fibers _ _ _ Hext), sum_list_with_app; cbn [entry_of] in *; simpl in *; lia|].
      apply Hpost; [done| |apply ran_schedule|done|done].
      cbn [sch set_sch set_cb_fiber]. rewrite (ext_fibers _ _ _ Hext). rewrite Hr in Hzo. by destruct o.
  - assert (requeued g o = []) as Hnr by (destruct o; try done; by rewrite Hzo in Hr).
    destruct (finished (m_state z)) eqn:Ef.
    + rewrite (fiber_reset_ok g z) by (done || apply Hu || by destruct (m_state z)).
      res_simpl. eexists. split; [done|]. set (z' := Fib _ _ _ _ _ None).
      assert (user_fiber g z') as Hu' by (split; [done|split; [apply Hu|by split]]).
      destruct (core_ok_tls _ _ Hc3) as [Htm Hth].
      pose proof (core_ok_update 0 w3 g z z' (tl (fw w3)) (sch w3) [] Hc3 Hg Hz Hu' Htm Hth
        (extends_refl _) ltac:(constructor)) as Hc4.
      rewrite (set_tl_same (set_heap _ (fw w3))) in Hc4. split; [split; [exact Hc4|]|].
      * cbn [set_fw cb_fiber idle_fiber fw]. rewrite Ecb. split; [done|].
        exists z'. split; [apply lookup_insert_eq|by right].
      * pose proof (map_sum_insert fib_weight _ g z z' Hz) as Hsum. change (fib_weight z') with 0%nat in Hsum.
        split; [unfold work in *; cbn [fw sch set_fw heap set_heap]; simpl in *; lia|].
        apply Hpost; [intros g' Hne; by apply lookup_insert_ne|by rewrite Hnr, app_nil_r|done|intros k ->; done|].
        cbn [cb_fiber set_fw]. rewrite Ecb. by intros c [= <-].
    + assert (m_state z = HOLD) as Hhold by (rewrite Hzo in *; by destruct o).
      rewrite (set_state_same w3 g z HOLD Hz Hhold). res_simpl. eexists. split; [done|].
      split; [split; [by apply core_ok_cb|done]|]. split; [unfold work in *; simpl in *; lia|].
      by apply Hpost; rewrite ?Hnr, ?app_nil_r.
Qed.

(** *** The order of the queue *)

(** The code an entry will run. *)
Definition holds_code (x : fibers (code U)) (it : FiberAndThread U) (u : U) : Prop :=
  match ft_fiber it, ft_cb it with
  | None, Some k => k = User u
  | Some f, None => exists y, heap x !! f = Some y /\ m_state y = READY /\ fib_code y = Some u
  | _, _ => False
  end.

(** What a round with the entry leaves. *)
Definition has_run_code (it : FiberAndThread U) (q : list (FiberAndThread U)) (w w' : world U) : Prop :=
  forall u, holds_code (fw w) it u -> exists f rs o, ustep u = (rs, o) /\
    task_post q (ran (sch w) ++ [u]) f (fw w) w' rs o /\
    ((ft_fiber it = Some f /\ cb_fiber w' = cb_fiber w) \/
     (ft_fiber it = None /\ (forall c, cb_fiber w' = Some c -> c = f /\ requeued f o = []) /\
      (cb_fiber w = Some f \/ heap (fw w) !! f = None))).

(** A round with a task. *)
Lemma run_round_task w it q :
  round_ok w -> m_fibers (sch w) = it :: q ->
  exists w', run_round g_fiber_stack_size self w = Ok (true, w') /\ round_ok w' /\
    (work w' < work w)%nat /\ has_run_code it q w w'.
Proof.
  intros [Hc Hcb] Hq. pose proof Hc as [Hh Hqok Hi Ha Hst Hpl].
  rewrite Hq in Hqok. apply Forall_cons in Hqok as [[Hthr Hit] Hrest].
  set (w1 := set_sch (tickle (add_active 1 (set_fibers q (sch w)))) w).
  assert (core_ok 1 w1) as Hc1 by (split; simpl; try done; by rewrite Ha).
  assert (work w = work w1 + entry_cost it)%nat as Hwork
    by (unfold work; simpl; rewrite Hq; simpl; lia).
  assert (pick self (state_of w) [] (m_fibers (sch w)) false = Ok (Some it, q, true)) as Hpick.
  { rewrite Hq. cbn [pick].
    assert (negb (ft_thread it =? -1) && negb (ft_thread it =? self) = false) as ->
      by (apply andb_false_iff; rewrite !negb_false_iff, !Z.eqb_eq; naive_solver).
    destruct (ft_fiber it) as [f|], (ft_cb it) as [k|]; try done.
    destruct Hit as [[y Hy] Hf]. unfold state_of. rewrite Hy. cbn [fmap option_fmap deref]. res_simpl.
    destruct (ho_users _ _ Hh f y Hf Hy) as [Hp _]. simpl.
    rewrite decide_False; [done|]. intros E. unfold placed in Hp. by rewrite E in Hp. }
  unfold run_round. rewrite Hpick. res_simpl. fold w1. unfold run_task.
  destruct (ft_fiber it) as [f|] eqn:Ef, (ft_cb it) as [k|] eqn:Ek; try done;
    unfold entry_cost in Hwork; rewrite Ek in Hwork.
  - destruct Hit as [[y Hy] Hf].
    rewrite (getState_ok w1 f y) by done. res_simpl.
    destruct (finished (m_state y)) eqn:Efin.
    + eexists. split; [done|]. split; [split; [|done]|].
      * by apply (core_ok_active 1 (-1)).
      * split; [change (work w1 < work w)%nat; lia|]. intros u. unfold holds_code. rewrite Ef, Ek.
        intros (y' & Hy' & Hr & _). assert (y' = y) as -> by congruence. by rewrite Hr in Efin.
    + destruct (run_fiber_task_ok w1 f y) as (w' & -> & Hw' & Hlt & Hcf & Hpost); try done.
      { by apply (ho_users _ _ Hh). }
      eexists. split; [done|]. split; [done|]. split; [lia|]. intros u. unfold holds_code. rewrite Ef, Ek.
      intros (y' & Hy' & _ & Hu). assert (y' = y) as -> by congruence.
      destruct (Hpost u Hu) as (rs & o & ? & Hp). exists f, rs, o. split; [done|]. split; [exact Hp|by left].
  - destruct k as [u| |]; try done.
    destruct (run_cb_task_ok w1 u Hc1 Hcb) as (w' & -> & Hw' & Hlt & g & rs & o & Hstep & Hp & Hpost).
    eexists. split; [done|]. split; [done|]. split; [simpl in Hwork; lia|].
    intros u'. unfold holds_code. rewrite Ef, Ek. intros [= <-]. exists g, rs, o.
    split; [done|]. split; [exact Hp|by right].
Qed.

(** The code a piece of code leads to: the callbacks it schedules, then what
    follows its own yield to READY. *)
Definition req_code (r : request U) : option U :=
  match r with Request (ToCb (Some v)) _ => Some v | _ => None end.

Definition next_tasks (u : U) : list U :=
  omap req_code (ustep u).1 ++ match (ustep u).2 with YieldsToReady k => [k] | _ => [] end.

(** What a queue of code runs, first in first out. *)
Inductive fifo : list U -> list U -> Prop :=
| Fifo_nil : fifo [] []
| Fifo_run u us l : fifo (us ++ next_tasks u) l -> fifo (u :: us) (u :: l).

Lemma fifo_unique q l1 l2 : fifo q l1 -> fifo q l2 -> l1 = l2.
Proof.
  intros H1. revert l2. induction H1 as [|u us l _ IH]; intros l2 H2; inversion H2; subst; [done|].
  f_equal. by apply IH.
Qed.

Record fifo_ok (w : world U) (us : list U) : Prop := FifoOk {
  fi_codes : Forall2 (holds_code (fw w)) (m_fibers (sch w)) us;
  fi_once : NoDup (omap ft_fiber (m_fibers (sch w)));
  fi_cb : forall g, cb_fiber w = Some g -> g ∉ omap ft_fiber (m_fibers (sch w)) }.

Lemma entries_codes x rs : (forall f, ~ A f) -> Forall good_request rs ->
  Forall2 (holds_code x) (entries rs) (omap req_code rs) /\ omap ft_fiber (entries rs) = [].
Proof.
  intros HA. induction 1 as [|[fc thr] rs [_ Hfc] _ [IH1 IH2]]; [done|].
  rewrite entries_cons, omap_app, IH2. destruct fc as [[f|]|[v|]]; simpl; try done; [by destruct (HA f)|].
  split; [|done]. by constructor.
Qed.

Lemma holds_code_other x x' q us f : (forall g, g <> f -> heap x' !! g = heap x !! g) ->
  f ∉ omap ft_fiber q -> Forall2 (holds_code x) q us -> Forall2 (holds_code x') q us.
Proof.
  intros Hx. revert us. induction q as [|it q IH]; intros us Hf Hq; inversion Hq as [|? u ? us' Hit Hrest]; subst; constructor.
  - unfold holds_code in *. destruct (ft_fiber it) as [g|] eqn:E; [|done]. destruct (ft_cb it); [done|].
    rewrite Hx; [done|]. intros ->. apply Hf. simpl. rewrite E. by left.
  - apply IH; [|done]. intros Hin. apply Hf. simpl. destruct (ft_fiber it); [by right|done].
Qed.

(** After a round the rest of the queue is followed by what the code led to. *)
Lemma fifo_next w w' it q u us : (forall f, ~ A f) -> fifo_ok w (u :: us) -> m_fibers (sch w) = it :: q ->
  has_run_code it q w w' -> fifo_ok w' (us ++ next_tasks u) /\ ran (sch w') = ran (sch w) ++ [u].
Proof.
  intros HA [Hcodes Hone Hcbq] Eq Hrun. rewrite Eq in *. inversion Hcodes as [|? ? ? ? Hit Hrest]; subst.
  destruct (Hrun u Hit) as (f & rs & o & Hst & [Hheap Hqueue Hran Hready] & Hf). split; [|done].
  assert ((f ∉ omap ft_fiber q) /\ (requeued f o <> [] -> forall c, cb_fiber w' = Some c -> c <> f) /\
    forall c, cb_fiber w' = Some c -> c ∉ omap ft_fiber q) as (Hfq & Hfc & Hcq).
  { simpl in Hone, Hcbq. destruct Hf as [[Ef Ec]|(Ef & Ec & Hnew)]; rewrite Ef in Hone, Hcbq; simpl in Hone, Hcbq.
    - apply NoDup_cons in Hone as [Hn _]. rewrite Ec. split; [done|]. split.
      + intros _ c Hc ->. apply (Hcbq f Hc). by left.
      + intros c Hc Hin. apply (Hcbq c Hc). by right.
    - assert (f ∉ omap ft_fiber q) as Hn; [|split; [done|split]].
      + destruct Hnew as [Hcf|Hnone]; [by apply Hcbq|]. intros (it' & Hin & Ef')%list_elem_of_omap.
        apply list_elem_of_lookup_1 in Hin as [i Hin].
        destruct (Forall2_lookup_l _ _ _ _ _ Hrest Hin) as (u' & _ & Hu'). unfold holds_code in Hu'. rewrite Ef' in Hu'.
        destruct (ft_cb it'); [done|]. destruct Hu' as (y & Hy & _). congruence.
      + intros Hnr c Hc. by destruct (Ec c Hc).
      + intros c Hc. by destruct (Ec c Hc) as [-> _]. }
  destruct (good_code u) as [Hgood _]. rewrite Hst in Hgood.
  destruct (entries_codes (fw w') rs HA Hgood) as [Hent Hnof].
  assert (omap ft_fiber (requeued f o) = match requeued f o with [] => [] | _ => [f] end) as Hre by (by destruct o).
  split; rewrite Hqueue.
  - unfold next_tasks. rewrite Hst. cbn [fst snd].
    apply Forall2_app; [by eapply holds_code_other|]. apply Forall2_app; [exact Hent|].
    destruct o; simpl; try constructor; [|constructor]. by apply Hready.
  - rewrite !omap_app, Hnof, Hre. simpl in Hone. assert (NoDup (omap ft_fiber q)) as Hn
      by (destruct (ft_fiber it); [by apply NoDup_cons in Hone as [_ ?]|done]).
    destruct (requeued f o); simpl; [by rewrite app_nil_r|]. apply NoDup_app. split_and!; [done| |apply NoDup_singleton].
    intros g Hg ->%list_elem_of_singleton. done.
  - intros c Hc. rewrite !omap_app, Hnof, Hre, not_elem_of_app. split; [by apply Hcq|]. simpl.
    destruct (requeued f o); [apply not_elem_of_nil|]. rewrite list_elem_of_singleton. by apply Hfc.
Qed.

(** The two last rounds. *)
Lemma run_rounds_idle w :
  round_ok w -> m_fibers (sch w) = [] ->
  exists w1 w2 y, run_round g_fiber_stack_size self w = Ok (true, w1) /\
    run_round g_fiber_stack_size self w1 = Ok (false, w2) /\
    stopping (sch w2) = true /\ hosting h m hx (fw w2) /\
    heap (fw w2) !! idle_fiber w2 = Some y /\ m_state y = TERM /\
    t_fiber (tl (fw w2)) = Some m /\ heap (fw w2) !! m = Some mx /\
    m_threads (sch w2) = pool /\ ran (sch w2) = ran (sch w).
Proof.
  intros [Hc Hcb] Hq. pose proof Hc as [Hh _ (y & Hy & Hstk & Hid) Ha [Hs1 Hs2] Hpl].
  destruct (ho_idle _ _ Hh) as [Hih Him].
  assert (stopping (add_idle 1 (sch w)) = true) as Hstop
    by (unfold stopping; simpl; by rewrite Hs1, Hs2, Hq, Ha).
  assert (m_state y <> EXEC /\ m_state y <> TERM /\
    next_round (idle_fiber w) y (add_idle 1 (sch w)) = Some (Returns, add_idle 1 (sch w)))
    as (Hne1 & Hne2 & Hn).
  { assert (resume Idle (add_idle 1 (sch w)) = (Returns, add_idle 1 (sch w))) as Hr
      by (unfold resume, scheduler_code; by rewrite Hstop).
    unfold next_round. destruct Hid as [(-> & -> & ->)|(-> & ->)];
      rewrite ?decide_True by done; by rewrite Hr. }
  unfold run_round at 1. rewrite Hq. cbn [pick]. res_simpl. unfold run_idle.
  rewrite (getState_ok _ _ y) by done. res_simpl. rewrite decide_False by done.
  unfold do_swapIn. cbn [fw sch set_sch idle_fiber].
  rewrite (set_fibers_same (sch w) Hq).
  rewrite (run_swapIn_ok h m hx _ y _ _ _ _ (ho_host _ _ Hh) Hih Hy Hne1 Hn). res_simpl.
  erewrite getState_ok by (simpl; apply lookup_insert_eq). res_simpl.
  cbn [after m_state finished].
  eexists _, _, _. split; [done|].
  unfold run_round. simpl m_fibers. rewrite Hq. cbn [pick]. res_simpl. unfold run_idle.
  erewrite getState_ok by (simpl; apply lookup_insert_eq). res_simpl.
  cbn [m_state]. rewrite decide_True by done. split; [done|].
  split_and!.
  - unfold stopping. simpl. by rewrite Hs1, Hs2, Ha.
  - simpl. apply hosting_after; [apply Hh|done].
  - simpl. apply lookup_insert_eq.
  - done.
  - done.
  - simpl. rewrite lookup_insert_ne by done. apply Hh.
  - done.
  - done.
Qed.

(** What holds when [Scheduler::run] leaves its loop. *)
Definition drained (w : world U) : Prop :=
  stopping (sch w) = true /\ m_fibers (sch w) = [] /\ hosting h m hx (fw w) /\
  t_fiber (tl (fw w)) = Some m /\ heap (fw w) !! m = Some mx /\ m_threads (sch w) = pool /\
  exists y, heap (fw w) !! idle_fiber w = Some y /\ m_state y = TERM.

Lemma stopping_empty (s : scheduler U) : stopping s = true -> m_fibers s = [].
Proof. unfold stopping. intros Hs. bdestr. by destruct (m_fibers s). Qed.

Lemma run_loop_empty fuel w : round_ok w -> m_fibers (sch w) = [] -> (2 <= fuel)%nat ->
  exists w', run_loop g_fiber_stack_size fuel self w = Ok (Some w') /\ drained w' /\
    ran (sch w') = ran (sch w).
Proof.
  intros Hw Eq Hf. destruct fuel as [|[|fuel]]; [lia..|].
  destruct (run_rounds_idle w Hw Eq) as (w1 & w2 & y & Hr1 & Hr2 & Hs & Hh & Hy & Ht & Htf & Hm & Hpl & Hran).
  cbn [run_loop]. rewrite Hr1. res_simpl. rewrite Hr2. res_simpl.
  exists w2. split; [done|]. split; [|done]. split_and!; eauto using stopping_empty.
Qed.

Lemma run_loop_ok fuel : forall w,
  round_ok w -> (work w + 2 <= fuel)%nat ->
  exists w', run_loop g_fiber_stack_size fuel self w = Ok (Some w') /\ drained w'.
Proof.
  induction fuel as [|fuel IH]; intros w Hw Hf; [lia|].
  destruct (m_fibers (sch w)) as [|it q] eqn:Eq.
  - destruct (run_loop_empty (S fuel) w Hw Eq ltac:(lia)) as (w' & ? & ? & _). by exists w'.
  - destruct (run_round_task w it q Hw Eq) as (w1 & Hr & Hw1 & Hlt & _).
    cbn [run_loop]. rewrite Hr. res_simpl. apply IH; [done|lia].
Qed.

(** The loop runs the code of the queue, and what it leads to, in order. *)
Lemma run_loop_fifo : (forall f, ~ A f) -> forall fuel w us,
  round_ok w -> fifo_ok w us -> (work w + 2 <= fuel)%nat ->
  exists w' l, run_loop g_fiber_stack_size fuel self w = Ok (Some w') /\ drained w' /\
    fifo us l /\ ran (sch w') = ran (sch w) ++ l.
Proof.
  intros HA. induction fuel as [|fuel IH]; intros w us Hw Hus Hf; [lia|].
  destruct (m_fibers (sch w)) as [|it q] eqn:Eq.
  - destruct (run_loop_empty (S fuel) w Hw Eq ltac:(lia)) as (w' & ? & ? & ?). exists w', [].
    pose proof (fi_codes _ _ Hus) as Hc. rewrite Eq in Hc. apply Forall2_nil_inv_l in Hc as ->.
    rewrite app_nil_r. split_and!; [done|done|constructor|done].
  - pose proof (fi_codes _ _ Hus) as Hc. rewrite Eq in Hc. destruct us as [|u us]; [by inversion Hc|].
    destruct (run_round_task w it q Hw Eq) as (w1 & Hr & Hw1 & Hlt & Hrun).
    destruct (fifo_next w w1 it q u us HA Hus Eq Hrun) as [Hus1 Hran1].
    destruct (IH w1 _ Hw1 Hus1 ltac:(lia)) as (w' & l & Hl & Hd & Hfi & Hran). exists w', (u :: l).
    cbn [run_loop]. rewrite Hr. res_simpl. split_and!; [done|done|by constructor|].
    by rewrite Hran, Hran1, <- app_assoc.
Qed.

(** C17.  [Scheduler::run] drains the queue: when stop has been requested and
    the thread may run every queued task, and the user code terminates (each
    piece of code takes boundedly many rounds, counting the tasks it schedules),
    the loop ends after at most two rounds more than that bound, with an empty
    queue, no active task, the idle fiber terminated and control in the
    scheduler fiber. *)
Theorem run_loop_drains (w : world U) (fuel : nat) :
  round_ok w -> (work w + 2 <= fuel)%nat ->
  exists w', run_loop g_fiber_stack_size fuel self w = Ok (Some w') /\ drained w'.
Proof. intros. by apply run_loop_ok. Qed.
End Drain.

(** ** The scheduler of one thread, from construction to [stop] *)

Section CallerOnly.
Context {U : Type} `{UserCode U}.
Variables (g_fiber_stack_size self : Z) (weight : U -> nat).

Definition no_fiber (f : fid) : Prop := False.

(** A process whose current thread has no fiber yet. *)
Definition fresh_thread (x : fibers (code U)) : Prop :=
  heap x = ∅ /\ tl x = Tls None None None.

Lemma Scheduler_new_caller x :
  fresh_thread x ->
  exists x1 s, Scheduler_new g_fiber_stack_size 1 true self None x = Ok (x1, s, Some tt) /\
    (let n := fresh_ptr x in
     heap x1 = <[S n := Fib g_fiber_stack_size INIT (u64 (s_fiber_id x + 1)) (Entry true) true
                          (Some RunLoop)]> {[n := Fib 0 EXEC 0 Live false None]} /\
     fresh_ptr x1 = S (S n) /\ tl x1 = Tls (Some n) (Some n) (Some (S n)) /\
     s = Sched [] [] (Some (S n)) [self] 0 0 0 true false self 0 []).
Proof.
  intros [Hh Ht]. unfold Scheduler_new, GetThis. simpl. rewrite Ht. simpl.
  rewrite bool_decide_true by done. simpl. eexists _, _. split; [done|]. simpl. by rewrite Hh.
Qed.

Definition main_fiber (c : context (code U)) : fiber (code U) := Fib 0 EXEC 0 c false None.
Definition root_fiber (st : State) (id : Z) (c : context (code U)) : fiber (code U) :=
  Fib g_fiber_stack_size st id c true (Some RunLoop).

(** The world in which [run] starts under [call]. *)
Lemma run_start_round_ok n id x s :
  heap x = <[S n := root_fiber EXEC id Live]> {[n := main_fiber (Saved InHost)]} ->
  fresh_ptr x = S (S n) -> tl x = Tls (Some (S n)) (Some n) (Some (S n)) ->
  m_rootThread s = self -> m_activeThreadCount s = 0 ->
  m_stopping s = true -> m_autoStop s = true ->
  Forall (fun it => (ft_thread it = -1 \/ ft_thread it = self) /\ ft_fiber it = None /\
            exists u, ft_cb it = Some (User u)) (m_fibers s) ->
  exists w, run_start g_fiber_stack_size self x s = Ok w /\ sch w = s /\
    round_ok self (S n) n (root_fiber EXEC id Live) (main_fiber (Saved InHost)) no_fiber (m_threads s) w /\
    work weight w = sum_list_with (entry_cost weight) (m_fibers s) /\
    cb_fiber w = None.
Proof.
  intros Hh Hn Ht Hrt Ha Hs1 Hs2 Hq. unfold run_start.
  rewrite Hrt, Z.eqb_refl. res_simpl. unfold Fiber_new. rewrite Hh, Hn.
  eexists. split; [done|]. split; [done|].
  set (i := S (S n)). set (idle := Fib _ _ _ _ _ _).
  assert (i <> n /\ i <> S n) as [Hi1 Hi2] by (subst i; lia).
  split; [split; [split|]|]; simpl; try done.
  - split; simpl; try done.
    + split; simpl; rewrite ?Ht; try done. by rewrite lookup_insert_ne, lookup_insert_eq by done.
    + rewrite !lookup_insert_ne by done. by rewrite lookup_singleton_eq.
    + intros f y (Hf1 & Hf2 & Hf3) [[<- <-]|[_ [[<- <-]|[_ [<- <-]%lookup_singleton_Some]]%lookup_insert_Some]]%lookup_insert_Some;
        done.
    + intros f y [[<- <-]|[_ [[<- <-]|[_ [<- <-]%lookup_singleton_Some]]%lookup_insert_Some]]%lookup_insert_Some;
        subst i; lia.
  - eapply Forall_impl; [exact Hq|]. intros it (Hthr & Hf & u & Hk).
    split; [done|]. by rewrite Hf, Hk.
  - exists idle. rewrite lookup_insert_eq. split; [done|]. split; [done|by left].
  - unfold work. simpl. rewrite !map_sum_insert_new.
    + unfold map_sum. rewrite map_fold_singleton. done.
    + by rewrite lookup_singleton_ne by lia.
    + by rewrite lookup_insert_ne, lookup_singleton_ne by lia.
Qed.

(** A queue of callbacks. *)
Lemma callbacks_fifo (w : world U) (us : list U) :
  Forall2 (fun it u => ft_fiber it = None /\ ft_cb it = Some (User u)) (m_fibers (sch w)) us ->
  cb_fiber w = None -> fifo_ok w us.
Proof.
  intros Hq Hcb. assert (omap ft_fiber (m_fibers (sch w)) = []) as Hnone.
  { induction Hq as [|it u q us' [Ef _] _ IH]; [done|]. simpl. by rewrite Ef. }
  split; rewrite ?Hnone; [|constructor|by rewrite Hcb].
  eapply Forall2_impl; [exact Hq|]. intros it u [Ef Ek]. unfold holds_code. by rewrite Ef, Ek.
Qed.

Hypothesis good_code : forall u, good_step self weight no_fiber u.

Lemma entries_ok_cb (rs : list (request U)) :
  Forall (good_request self no_fiber) rs ->
  Forall (fun it => (ft_thread it = -1 \/ ft_thread it = self) /\ ft_fiber it = None /\
            exists u, ft_cb it = Some (User u)) (entries rs).
Proof.
  induction 1 as [|[fc thr] rs [Ht Hfc] _ IH]; [constructor|].
  rewrite entries_cons. apply Forall_app. split; [|done].
  destruct fc as [[f|]|[v|]]; simpl; try apply Forall_nil_2; [done|].
  apply Forall_singleton. simpl. eauto.
Qed.

Lemma entries_callbacks (rs : list (request U)) : Forall (good_request self no_fiber) rs ->
  Forall2 (fun it u => ft_fiber it = None /\ ft_cb it = Some (User u)) (entries rs) (omap req_code rs).
Proof.
  induction 1 as [|[fc thr] rs [_ Hfc] _ IH]; [constructor|]. rewrite entries_cons.
  destruct fc as [[f|]|[v|]]; simpl; try done. by constructor.
Qed.

Lemma call_root_ok n id x s us fuel :
  heap x = <[S n := root_fiber INIT id (Entry true)]> {[n := main_fiber Live]} ->
  fresh_ptr x = S (S n) -> tl x = Tls (Some n) (Some n) (Some (S n)) ->
  m_rootThread s = self -> m_activeThreadCount s = 0 ->
  m_stopping s = true -> m_autoStop s = true ->
  Forall (fun it => (ft_thread it = -1 \/ ft_thread it = self) /\ ft_fiber it = None /\
            exists u, ft_cb it = Some (User u)) (m_fibers s) ->
  Forall2 (fun it u => ft_fiber it = None /\ ft_cb it = Some (User u)) (m_fibers s) us ->
  (sum_list_with (entry_cost weight) (m_fibers s) + 2 <= fuel)%nat ->
  exists x' s', call_root g_fiber_stack_size fuel self (S n) x s = Ok (Some (x', s')) /\
    stopping s' = true /\ m_threads s' = m_threads s /\ t_fiber (tl x') = Some n /\
    (exists y, heap x' !! S n = Some y /\ m_state y = TERM) /\
    exists l, fifo us l /\ ran s' = ran s ++ l.
Proof.
  intros Hh Hn Ht Hrt Ha Hs1 Hs2 Hq Hus Hfuel. destruct x as [hp fp si sc t].
  simpl in Hh, Hn, Ht. subst hp fp t.
  unfold call_root, call, SetThis, set_tl. simpl.
  erewrite upd_fiber_ok by (simpl; apply lookup_insert_eq). res_simpl.
  unfold swapcontext. simpl. rewrite insert_insert_eq.
  erewrite (upd_fiber_ok _ n) by (simpl; by rewrite lookup_insert_ne, lookup_singleton_eq by lia).
  res_simpl. unfold get_fiber, set_heap. simpl.
  rewrite lookup_insert_ne, lookup_insert_eq by lia. simpl.
  erewrite (upd_fiber_ok _ (S n)) by (simpl; by rewrite lookup_insert_ne, lookup_insert_eq by lia).
  res_simpl. unfold GetThis, get_fiber, set_heap. simpl. rewrite lookup_insert_eq. simpl.
  rewrite lookup_insert_eq. simpl.
  set (x1 := Fibers _ _ _ _ _).
  destruct (run_start_round_ok n id x1 s) as (w & Hst & <- & Hw & Hwork & Hcb); try done.
  { subst x1. simpl. rewrite insert_insert_ne, insert_insert_eq by lia.
    by rewrite insert_insert_ne, insert_singleton_eq by lia. }
  unfold run. rewrite Hst. res_simpl.
  destruct (run_loop_fifo g_fiber_stack_size _ _ _ _ _ weight no_fiber _ good_code (fun _ F => F) fuel w us Hw
      (callbacks_fifo w us Hus Hcb) ltac:(lia))
    as (w' & l & -> & (Hstop & Hem & [Hsch Hthr Hroot _] & Htf & Hm & Hpl & _) & Hfi & Hran). res_simpl.
  rewrite (upd_fiber_ok _ _ _ _ Hroot). res_simpl.
  unfold back, SetThis, swapcontext, set_tl. simpl. rewrite Hthr. simpl.
  erewrite upd_fiber_ok by (simpl; apply lookup_insert_eq). res_simpl.
  unfold get_fiber, set_heap. simpl. rewrite !lookup_insert_ne, Hm by lia. simpl.
  erewrite (upd_fiber_ok _ n) by (simpl; rewrite !lookup_insert_ne by lia; exact Hm). res_simpl.
  eexists _, _. split; [done|]. split; [done|]. split; [done|]. split; [done|]. split; [|by exists l].
  eexists. split; [simpl; rewrite lookup_insert_ne by lia; apply lookup_insert_eq|done].
Qed.

(** C28.  A scheduler with the caller's thread only (constructor default), and
    user code that terminates (in boundedly many rounds, what it schedules
    included), schedules callbacks and pins them to no other thread: the
    callbacks scheduled before [stop] all run inside [stop], on the caller's
    thread, first in first out: what has run when it returns is the code of the
    callbacks in the order they were scheduled, each followed in the queue by
    the callbacks it schedules and by its own rest if it yields to READY, once
    each and nothing else.  [stop] returns with an empty queue, nothing active,
    no thread to join, and the caller back in its main fiber.  With nothing
    scheduled it returns at once without running the root fiber. *)
Theorem caller_scheduler_runs_all x (rs : list (request U)) (fuel : nat) :
  fresh_thread x -> self <> -1 -> Forall (good_request self no_fiber) rs ->
  (sum_list_with (req_cost weight) rs + 2 <= fuel)%nat ->
  exists x1 s x2 s2,
    Scheduler_new g_fiber_stack_size 1 true self None x = Ok (x1, s, Some tt) /\
    stop g_fiber_stack_size fuel self true x1 (foldl do_request s rs) = Ok (Some (x2, s2, [])) /\
    fifo (omap req_code rs) (ran s2) /\
    stopping s2 = true /\ t_fiber (tl x2) = Some (fresh_ptr x) /\
    (m_fibers (foldl do_request s rs) = [] -> x2 = x1) /\
    (m_fibers (foldl do_request s rs) <> [] ->
       exists y, heap x2 !! S (fresh_ptr x) = Some y /\ m_state y = TERM).
Proof.
  intros Hx Hself Hrs Hfuel.
  destruct (Scheduler_new_caller x Hx) as (x1 & s & Hnew & Hh & Hn & Ht & Hs).
  exists x1, s. pose proof (requests_extend rs s) as Hext. pose proof (ran_requests rs s) as Hran.
  pose proof (entries_callbacks rs Hrs) as Hcbs. generalize dependent (foldl do_request s rs). intros s1 Hext Hran.
  rewrite Hs in Hran. simpl in Hran.
  assert (m_fibers s1 = entries rs) as Hq by (rewrite (ext_fibers _ _ _ Hext), Hs; done).
  destruct Hext as [_ Ea _ Es Eo Eth Er Ert Ec _]. rewrite Hs in Ea, Es, Eo, Eth, Er, Ert, Ec.
  simpl in Ea, Es, Eo, Eth, Er, Ert, Ec.
  unfold stop, stop_prepare. cbn [m_rootFiber set_flags m_threadCount]. rewrite Er, Ec.
  cbn [Z.eqb]. unfold get_fiber. rewrite Hh, lookup_insert_eq. cbn [deref]. res_simpl.
  rewrite bool_decide_true by (by right). cbn [andb].
  set (s2 := set_flags true _ _).
  assert (stopping s2 = match entries rs with [] => true | _ => false end) as Hstop.
  { unfold stopping. simpl. rewrite Hq, Ea. by destruct (entries rs). }
  rewrite Hstop. destruct (entries rs) as [|it q] eqn:Eq.
  - apply Forall2_nil_inv_l in Hcbs as ->. res_simpl. eexists x1, _. split; [done|]. split; [done|].
    split_and!; try done; [|by rewrite Ht]. simpl. rewrite Hran. constructor.
  - simpl m_rootThread. rewrite Ert. destruct (Z.eqb_spec self (-1)); [done|].
    cbn [negb sylar_assert]. res_simpl. simpl m_threadCount. rewrite Ec. cbn [Z.to_nat tickle_n].
    simpl m_rootFiber. rewrite Er. cbn [tickle].
    match goal with |- context [stopping ?t] => set (s3 := t) end.
    assert (stopping s3 = false) as Hstop3.
    { unfold stopping. simpl. by rewrite Hq. }
    rewrite Hstop3. res_simpl.
    destruct (call_root_ok (fresh_ptr x) (u64 (s_fiber_id x + 1)) x1 s3 (omap req_code rs) fuel)
      as (x' & s' & -> & Hs' & Hpl & Htf & Hy & l & Hfi & Hl); try done.
    + simpl. rewrite Hq, <- Eq. pose proof (entries_ok_cb rs Hrs). done.
    + simpl. by rewrite Hq.
    + simpl. rewrite Hq, <- Eq, entries_cost. done.
    + res_simpl. eexists x', _. split; [done|].
      split; [by rewrite Hpl; simpl; rewrite Eth|]. split_and!; try done; [|by rewrite Hq].
      simpl. rewrite Hl. simpl. by rewrite Hran.
Qed.
End CallerOnly.

(** ** Witnesses *)

(** User code that counts down, yielding READY and scheduling a task that does
    nothing in every round. *)
#[local] Instance spawner : UserCode nat := fun k =>
  match k with
  | O => ([], Returns)
  | S k' => ([Request (ToCb (Some 0%nat)) (-1)], YieldsToReady k')
  end.

Definition ex_weight (k : nat) : nat := (3 * k)%nat.

Lemma spawner_good self : forall u, good_step self ex_weight no_fiber u.
Proof.
  intros [|k]; split; simpl; [constructor|lia|repeat constructor|unfold ex_weight; lia].
Qed.

Definition ex_process : fibers (code nat) := Fibers ∅ 0 0 0 (Tls None None None).

Lemma caller_scheduler_runs_all_witness :
  exists x1 s x2 s2,
    Scheduler_new 1048576 1 true 7 None ex_process = Ok (x1, s, Some tt) /\
    stop 1048576 20 7 true x1 (foldl do_request s [Request (ToCb (Some 3%nat)) 7])
      = Ok (Some (x2, s2, [])) /\ ran s2 = [3; 0; 2; 0; 1; 0; 0]%nat.
Proof.
  destruct (caller_scheduler_runs_all 1048576 7 ex_weight (spawner_good 7) ex_process
    [Request (ToCb (Some 3%nat)) 7] 20) as (x1 & s & x2 & s2 & Hn & Hs & Hf & _).
  - by split.
  - lia.
  - apply Forall_singleton. split; [by right|done].
  - simpl. lia.
  - exists x1, s, x2, s2. split; [exact Hn|split; [exact Hs|]].
    apply (fifo_unique _ _ _ Hf). do 7 (constructor; simpl). constructor.
Defined.

(** The worker of the previous example as [run] starts. *)
Definition ex_run : world nat :=
  World
    (Fibers (<[2%nat := Fib 1048576 INIT 2 (Entry false) true (Some Idle)]>
              (<[1%nat := root_fiber 1048576 EXEC 1 Live]>
                {[0%nat := main_fiber (Saved InHost)]}))
       3 2 3 (Tls (Some 1%nat) (Some 0%nat) (Some 1%nat)))
    (Sched [] [FT None (Some (User 2%nat)) 7] (Some 1%nat) [7] 0 0 0 true true 7 0 [])
    (Some tt) 2 None.

Lemma run_loop_drains_witness :
  exists w', run_loop 1048576 12 7 ex_run = Ok (Some w') /\ m_fibers (sch w') = [].
Proof.
  destruct (run_start_round_ok 1048576 7 ex_weight 0 1
    (Fibers (<[1%nat := root_fiber 1048576 EXEC 1 Live]> {[0%nat := main_fiber (Saved InHost)]})
       2 1 2 (Tls (Some 1%nat) (Some 0%nat) (Some 1%nat)))
    (sch ex_run)) as (w & Hw & _ & Hr & Hwk & _); try done.
  { apply Forall_singleton. split; [by right|split; [done|by eexists]]. }
  assert (w = ex_run) as -> by (by injection Hw as <-).
  destruct (run_loop_drains 1048576 7 _ _ _ _ ex_weight no_fiber [] (spawner_good 7) ex_run 12 Hr)
    as (w' & Hrun & _ & Hq & _); [rewrite Hwk; simpl; unfold ex_weight; lia|].
  exists w'. split; [exact Hrun|exact Hq].
Defined.
