(* ===== verification/SchedulerMT.v ===== *)
(** * The scheduler on several threads (src/sylar/scheduler.cc, run)

    The loop of [Scheduler::run] as a step relation.  A step is what happens
    between two points where another thread may interfere: the locked scan of
    the queue, one read or write of a fiber's state, one switch, one update of
    the atomic counter.  What a fiber does is arbitrary. *)

From S2P Require Import Prelude Fiber Scheduler.

(** Where a thread of the pool is in [run]; [cb] tells whether the fiber is the
    thread's callback fiber. *)
Inductive pc (U : Type) : Type :=
| AtLoop
| Taken (it : FiberAndThread U)
| Entering (f : fid) (cb : bool)
| Inside (f : fid) (cb : bool)
| Leaving (f : fid) (cb : bool)
| Returned (f : fid) (cb : bool)
| Deciding (f : fid) (cb : bool)
| Holding (f : fid) (cb : bool)
| Idling
| Exited
| Crashed.
Arguments AtLoop {U}.
Arguments Taken {U} it.
Arguments Entering {U} f cb.
Arguments Inside {U} f cb.
Arguments Leaving {U} f cb.
Arguments Returned {U} f cb.
Arguments Deciding {U} f cb.
Arguments Holding {U} f cb.
Arguments Idling {U}.
Arguments Exited {U}.
Arguments Crashed {U}.

(** A thread: its point, its [cb_fiber] and whether its idle fiber is TERM. *)
Record thread (U : Type) : Type := Thr { t_pc : pc U; t_cb : option fid; t_idle : bool }.
Arguments Thr {U}.
Arguments t_pc {U}.
Arguments t_cb {U}.
Arguments t_idle {U}.

Record pool (U : Type) : Type := Pool {
  sh : scheduler U;
  states : gmap fid State;
  threads : gmap Z (thread U) }.
Arguments Pool {U}.
Arguments sh {U}.
Arguments states {U}.
Arguments threads {U}.

Section Steps.
Context {U : Type}.
Implicit Types (p : pool U) (t : Z) (f : fid).

(** [cb_fiber] after the branch for a callback, when it is given up. *)
Definition drop_cb (cb : bool) (o : option fid) : option fid := if cb then None else o.

(** A step of thread [t] that is in [th]. *)
Inductive move (t : Z) (th : thread U) p : thread U -> scheduler U -> gmap fid State -> Prop :=
| M_pick it q b :
    t_pc th = AtLoop ->
    pick t (fun f => states p !! f) [] (m_fibers (sh p)) false = Ok (Some it, q, b) ->
    move t th p (Thr (Taken it) (t_cb th) (t_idle th)) (tickle (add_active 1 (set_fibers q (sh p)))) (states p)
| M_pick_none q b :
    t_pc th = AtLoop -> t_idle th = false ->
    pick t (fun f => states p !! f) [] (m_fibers (sh p)) false = Ok (None, q, b) ->
    move t th p (Thr Idling (t_cb th) false)
      (if b : bool then tickle (set_fibers q (sh p)) else set_fibers q (sh p)) (states p)
| M_pick_none_exit q b :
    t_pc th = AtLoop -> t_idle th = true ->
    pick t (fun f => states p !! f) [] (m_fibers (sh p)) false = Ok (None, q, b) ->
    move t th p (Thr Exited (t_cb th) true)
      (tickle (if b : bool then tickle (set_fibers q (sh p)) else set_fibers q (sh p))) (states p)
| M_fiber it f s :
    t_pc th = Taken it -> ft_fiber it = Some f -> states p !! f = Some s -> finished s = false ->
    move t th p (Thr (Entering f false) (t_cb th) (t_idle th)) (sh p) (states p)
| M_fiber_finished it f s :
    t_pc th = Taken it -> ft_fiber it = Some f -> ft_cb it = None ->
    states p !! f = Some s -> finished s = true ->
    move t th p (Thr AtLoop (t_cb th) (t_idle th)) (add_active (-1) (sh p)) (states p)
| M_cb_reuse it k g s :
    t_pc th = Taken it -> ft_fiber it = None -> ft_cb it = Some k -> t_cb th = Some g ->
    states p !! g = Some s -> idle_state s = true ->
    move t th p (Thr (Entering g true) (Some g) (t_idle th)) (sh p) (<[g := INIT]> (states p))
| M_cb_assert it k g s :
    t_pc th = Taken it -> ft_fiber it = None -> ft_cb it = Some k -> t_cb th = Some g ->
    states p !! g = Some s -> idle_state s = false ->
    move t th p (Thr Crashed (Some g) (t_idle th)) (sh p) (states p)
| M_cb_new it k g :
    t_pc th = Taken it -> ft_fiber it = None -> ft_cb it = Some k -> t_cb th = None ->
    states p !! g = None ->
    move t th p (Thr (Entering g true) (Some g) (t_idle th)) (sh p) (<[g := INIT]> (states p))
| M_enter f cb s :
    t_pc th = Entering f cb -> states p !! f = Some s -> s <> EXEC ->
    move t th p (Thr (Inside f cb) (t_cb th) (t_idle th)) (sh p) (<[f := EXEC]> (states p))
| M_enter_assert f cb :
    t_pc th = Entering f cb -> states p !! f = Some EXEC ->
    move t th p (Thr Crashed (t_cb th) (t_idle th)) (sh p) (states p)
| M_leave f cb s :
    t_pc th = Inside f cb -> s = HOLD \/ s = READY \/ s = TERM \/ s = EXCEPT ->
    move t th p (Thr (Leaving f cb) (t_cb th) (t_idle th)) (sh p) (<[f := s]> (states p))
| M_saved f cb :
    t_pc th = Leaving f cb -> move t th p (Thr (Returned f cb) (t_cb th) (t_idle th)) (sh p) (states p)
| M_count f cb :
    t_pc th = Returned f cb ->
    move t th p (Thr (Deciding f cb) (t_cb th) (t_idle th)) (add_active (-1) (sh p)) (states p)
| M_ready f cb :
    t_pc th = Deciding f cb -> states p !! f = Some READY ->
    move t th p (Thr AtLoop (drop_cb cb (t_cb th)) (t_idle th)) (schedule (ToFiber (Some f)) (-1) (sh p))
      (states p)
| M_done f s :
    t_pc th = Deciding f false -> states p !! f = Some s -> finished s = true ->
    move t th p (Thr AtLoop (t_cb th) (t_idle th)) (sh p) (states p)
| M_done_cb f s :
    t_pc th = Deciding f true -> states p !! f = Some s -> finished s = true ->
    move t th p (Thr AtLoop (t_cb th) (t_idle th)) (sh p) (<[f := INIT]> (states p))
| M_not_done f cb s :
    t_pc th = Deciding f cb -> states p !! f = Some s -> finished s = false -> s <> READY ->
    move t th p (Thr (Holding f cb) (t_cb th) (t_idle th)) (sh p) (states p)
| M_hold f cb :
    t_pc th = Holding f cb ->
    move t th p (Thr AtLoop (drop_cb cb (t_cb th)) (t_idle th)) (sh p) (<[f := HOLD]> (states p))
| M_idle :
    t_pc th = Idling -> stopping (sh p) = false ->
    move t th p (Thr AtLoop (t_cb th) (t_idle th)) (sh p) (states p)
| M_idle_end :
    t_pc th = Idling -> stopping (sh p) = true ->
    move t th p (Thr AtLoop (t_cb th) true) (sh p) (states p).

(** A call of [schedule] from anywhere, and [stop] setting its flags.  [may]
    restricts which fibers are scheduled. *)
Inductive step (may : pool U -> fid -> Prop) p : pool U -> Prop :=
| S_move t th th' s st :
    threads p !! t = Some th -> move t th p th' s st ->
    step may p (Pool s st (<[t := th']> (threads p)))
| S_schedule_fiber f thr :
    may p f -> is_Some (states p !! f) ->
    step may p (Pool (schedule (ToFiber (Some f)) thr (sh p)) (states p) (threads p))
| S_schedule_cb k thr :
    step may p (Pool (schedule (ToCb (Some k)) thr (sh p)) (states p) (threads p))
| S_new f :
    states p !! f = None -> step may p (Pool (sh p) (<[f := INIT]> (states p)) (threads p))
| S_stop : step may p (Pool (set_flags true true (sh p)) (states p) (threads p)).

(** The threads start at their loop without callback fiber. *)
Definition initial p : Prop :=
  m_fibers (sh p) = [] /\ m_activeThreadCount (sh p) = 0 /\ states p = ∅ /\
  (forall t th, threads p !! t = Some th -> th = Thr AtLoop None false) /\
  Z.of_nat (size (threads p)) < 2 ^ 64.

Inductive reachable (may : pool U -> fid -> Prop) : pool U -> Prop :=
| R_init p : initial p -> reachable may p
| R_step p p' : reachable may p -> step may p p' -> reachable may p'.

(** The points between the two updates of the counter (a thread that trips an
    assertion does so there). *)
Definition busy (x : pc U) : bool :=
  match x with
  | Taken _ | Entering _ _ | Inside _ _ | Leaving _ _ | Returned _ _ | Crashed => true
  | _ => false
  end.

Definition busy_count p : nat :=
  map_sum (fun th => if busy (t_pc th) then 1%nat else 0%nat) (threads p).

(** The fiber a thread works on. *)
Definition held (x : pc U) : option fid :=
  match x with
  | Taken it => ft_fiber it
  | Entering f _ | Inside f _ | Leaving f _ | Returned f _ | Deciding f _ | Holding f _ => Some f
  | _ => None
  end.

Definition owns (th : thread U) f : Prop := held (t_pc th) = Some f \/ t_cb th = Some f.

(** ** The scan of the queue *)

Lemma pick_Some self st q : forall skipped b it q' b',
  pick self st skipped q b = Ok (Some it, q', b') ->
  exists q1 q2, q = q1 ++ it :: q2 /\ q' = skipped ++ q1 ++ q2 /\
    takeable (U:=U) self st it = true /\ b' = true.
Proof.
  induction q as [|x q IH]; intros skipped b it q' b' Hp; [done|]. cbn [pick] in Hp.
  assert (negb (ft_thread x =? -1) && negb (ft_thread x =? self) = negb (eligible self x))
    as E by (unfold eligible; by rewrite negb_orb).
  rewrite E in Hp.
  assert (forall b0, pick self st (skipped ++ [x]) q b0 = Ok (Some it, q', b') ->
    exists q1 q2, x :: q = q1 ++ it :: q2 /\ q' = skipped ++ q1 ++ q2 /\
      takeable self st it = true /\ b' = true) as Hskip.
  { intros b0 (q1 & q2 & -> & -> & ? & ?)%IH. exists (x :: q1), q2.
    by rewrite <- app_assoc. }
  destruct (eligible self x) eqn:Ee; simpl in Hp; [|by eapply Hskip].
  destruct (ft_fiber x) as [f|] eqn:Ef, (ft_cb x) as [k|] eqn:Ek; try done.
  1,2: destruct (st f) as [s|] eqn:Es; [|done]; simpl in Hp; destruct (decide (s = EXEC));
    [by eapply Hskip|].
  all: assert (takeable self st x = true) as Ht
    by (unfold takeable; rewrite Ee, Ef, ?Es; simpl; done || by rewrite bool_decide_true by congruence).
  all: injection Hp as <- <- <-; by exists [], q.
Qed.

Lemma pick_None self st q : forall skipped b q' b',
  pick (U:=U) self st skipped q b = Ok (None, q', b') -> q' = skipped ++ q.
Proof.
  induction q as [|x q IH]; intros skipped b q' b' Hp;
    [injection Hp as <- <-; by rewrite app_nil_r|cbn [pick] in Hp].
  assert (forall b0, pick self st (skipped ++ [x]) q b0 = Ok (None, q', b') ->
    q' = skipped ++ x :: q) as Hskip by (intros b0 ->%IH; by rewrite <- app_assoc).
  destruct (negb _ && negb _); [by eapply Hskip|].
  destruct (ft_fiber x) as [f|], (ft_cb x) as [k|]; try done;
    destruct (st f) as [s|]; try done; simpl in Hp; destruct (decide (s = EXEC));
    first [done|eapply Hskip; exact Hp].
Qed.

(** ** The counter of active threads *)

Record counted p : Prop := Counted {
  cnt_active : m_activeThreadCount (sh p) = Z.of_nat (busy_count p);
  cnt_size : Z.of_nat (size (threads p)) < 2 ^ 64;
  cnt_pinned : forall t th it, threads p !! t = Some th -> t_pc th = Taken it ->
                 eligible t it = true }.

Definition busy1 (th : thread U) : nat := if busy (t_pc th) then 1 else 0.

Lemma add_active_same d (s : scheduler U) n m' :
  m_activeThreadCount s = Z.of_nat n -> Z.of_nat n + d = Z.of_nat m' -> Z.of_nat m' < 2 ^ 64 ->
  m_activeThreadCount (add_active d s) = Z.of_nat m'.
Proof. intros Hn Hm Hb. simpl. rewrite Hn, Hm. apply u64_small. unfold is_u64. lia. Qed.

Lemma schedule_active fc thr s :
  m_activeThreadCount (schedule (U:=U) fc thr s) = m_activeThreadCount s.
Proof. apply schedule_extends. Qed.

(** What a move does to the counter. *)
Lemma move_active t th p th' s st :
  move t th p th' s st ->
  (m_activeThreadCount s = m_activeThreadCount (sh p) /\ busy1 th' = busy1 th) \/
  (exists s0, s = tickle (add_active 1 s0) /\ m_activeThreadCount s0 = m_activeThreadCount (sh p) /\
     busy1 th = 0%nat /\ busy1 th' = 1%nat) \/
  (s = add_active (-1) (sh p) /\ busy1 th = 1%nat /\ busy1 th' = 0%nat).
Proof.
  unfold busy1. intros Hm. destruct Hm;
    repeat match goal with H : t_pc _ = _ |- _ => rewrite H; clear H end; simpl;
    rewrite ?schedule_active; first [by left|right; right; by auto|idtac].
  - right. left. by eexists.
  - left. by destruct b.
  - left. by destruct b.
Qed.

Lemma busy_le th : (busy1 th <= 1)%nat.
Proof. unfold busy1. destruct (busy _); lia. Qed.

Lemma counted_move t th p th' s st :
  counted p -> threads p !! t = Some th -> move t th p th' s st ->
  counted (Pool s st (<[t := th']> (threads p))).
Proof.
  intros [Ha Hs Hp] Ht Hm.
  assert (size (<[t:=th']> (threads p)) = size (threads p)) as Hsz
    by (by rewrite map_size_insert_Some by (by rewrite Ht)).
  pose proof (map_sum_insert busy1 _ t th th' Ht) as Hsum.
  pose proof (map_sum_le 1 busy1 (<[t:=th']> (threads p)) busy_le) as Hle.
  rewrite Hsz, Nat.mul_1_l in Hle.
  unfold busy_count in Ha. fold busy1 in Ha.
  split; simpl; [|by rewrite Hsz|].
  - unfold busy_count. simpl. fold busy1.
    destruct (move_active _ _ _ _ _ _ Hm) as [[-> E]|[(s0 & -> & Hs0 & E & E')|(-> & E & E')]].
    + rewrite Ha. f_equal. lia.
    + eapply (add_active_same 1); [by rewrite Hs0, Ha|lia|lia].
    + eapply (add_active_same (-1)); [exact Ha|lia|lia].
  - intros t' th0 it [[<- <-]|[_ Hth]]%lookup_insert_Some Hpc; [|by eapply Hp].
    destruct Hm; simplify_eq/=. apply pick_Some in H0 as (q1 & q2 & _ & _ & Htk & _).
    unfold takeable in Htk. by apply andb_true_iff in Htk as [? _].
Qed.

Lemma reachable_counted may p : reachable may p -> counted p.
Proof.
  induction 1 as [p (Hq & Ha & Hst & Hth & Hs)|p p' _ IH Hstep].
  - split; [|done|].
    + rewrite Ha. unfold busy_count.
      assert (forall m : gmap Z (thread U), (forall t th, m !! t = Some th -> th = Thr AtLoop None false) ->
        map_sum busy1 m = 0%nat) as Hz.
      { intros m. induction m as [|i x m Hi IHm] using map_ind; intros Hm; [done|].
        rewrite map_sum_insert_new by done. rewrite (Hm i x) by apply lookup_insert_eq.
        simpl. apply IHm. intros t th Ht. apply (Hm t). by rewrite lookup_insert_ne by congruence. }
      fold busy1. by rewrite Hz.
    + intros t th it Ht Hpc. by rewrite (Hth t th Ht) in Hpc.
  - destruct Hstep as [t th th' s st Ht Hm| | | |]; [by eapply counted_move|..];
      destruct IH as [Ha Hs Hp]; split; simpl; rewrite ?schedule_active; done.
Qed.

(** C29.  Threads interleaving in [Scheduler::run] in any order, under any
    calls of [schedule] and [stop]: [m_activeThreadCount] is exactly the number
    of threads between taking a task and counting it done, a thread only takes
    tasks that are not pinned to another thread, and [stopping] is true only
    when stop was requested, the queue is empty and no thread works on a task. *)
Theorem stopping_sound may p :
  reachable may p ->
  m_activeThreadCount (sh p) = Z.of_nat (busy_count p) /\
  (forall t th it, threads p !! t = Some th -> t_pc th = Taken it ->
     ft_thread it = -1 \/ ft_thread it = t) /\
  (stopping (sh p) = true ->
     m_stopping (sh p) = true /\ m_autoStop (sh p) = true /\ m_fibers (sh p) = [] /\
     forall t th, threads p !! t = Some th -> busy (t_pc th) = false).
Proof.
  intros [Ha Hs Hp]%reachable_counted. split_and!; [done| |].
  - intros t th it Ht Hpc. pose proof (Hp t th it Ht Hpc) as He.
    unfold eligible in He. apply orb_true_iff in He. rewrite !Z.eqb_eq in He. done.
  - unfold stopping. intros Hst. bdestr. destruct (m_fibers (sh p)); [|done].
    split_and!; try done. intros t th Ht.
    assert (map_sum busy1 (threads p) = 0%nat) as Hz by (unfold busy_count in Ha; fold busy1 in Ha; lia).
    pose proof (map_sum_zero _ _ _ _ Hz Ht) as Hb. unfold busy1 in Hb. by destruct (busy _).
Qed.

(** ** Exclusive use of fibers *)

(** The fibers in the queue. *)
Definition queued p : list fid := omap ft_fiber (m_fibers (sh p)).

(** Nobody has fiber [f]: it is not queued and no thread is at work on it. *)
Definition free p f : Prop :=
  (f ∉ queued p) /\ (forall t th, threads p !! t = Some th -> ~ owns th f).

Definition working_cb (x : pc U) : option (fid * bool) :=
  match x with
  | Taken it => (fun f => (f, false)) <$> ft_fiber it
  | Entering f cb | Inside f cb | Leaving f cb | Returned f cb | Deciding f cb | Holding f cb =>
      Some (f, cb)
  | _ => None
  end.

Record thread_ok (st : gmap fid State) (th : thread U) : Prop := ThreadOk {
  tk_alive : t_pc th <> Crashed;
  tk_cb : forall f cb, working_cb (t_pc th) = Some (f, cb) ->
            if cb : bool then t_cb th = Some f else t_cb th <> Some f;
  tk_idle : forall g, t_cb th = Some g -> held (t_pc th) <> Some g ->
              exists s, st !! g = Some s /\ idle_state s = true;
  tk_states : forall f, owns th f -> is_Some (st !! f) }.

Record excl p : Prop := Excl {
  ex_nodup : NoDup (queued p);
  ex_queue : forall t th f, threads p !! t = Some th -> owns th f -> f ∉ queued p;
  ex_owner : forall t1 t2 th1 th2 f, threads p !! t1 = Some th1 -> threads p !! t2 = Some th2 ->
               owns th1 f -> owns th2 f -> t1 = t2;
  ex_exec : forall f, states p !! f = Some EXEC ->
              exists t th cb, threads p !! t = Some th /\ t_pc th = Inside f cb;
  ex_thread : forall t th, threads p !! t = Some th -> thread_ok (states p) th;
  ex_states : forall f, f ∈ queued p -> is_Some (states p !! f) }.

Lemma held_working x : held x = fst <$> working_cb x.
Proof. destruct x; try done. simpl. by destruct (ft_fiber it). Qed.

(** Other threads do not notice a change of states at fibers they do not own. *)
Lemma thread_ok_frame st st' th :
  thread_ok st th -> (forall f, owns th f -> st' !! f = st !! f) -> thread_ok st' th.
Proof.
  intros [Ha Hc Hi Hs] Hf. split; [done|done|..].
  - intros g Hg Hh. rewrite Hf by (by right). auto.
  - intros f Ho. rewrite Hf by done. auto.
Qed.

(** A move that takes no new fiber and leaves the queue alone. *)
Lemma excl_keep p t th th' s st :
  excl p -> threads p !! t = Some th ->
  (forall f, owns th' f -> owns th f) ->
  (forall f, ~ owns th f -> st !! f = states p !! f) ->
  (forall f, is_Some (states p !! f) -> is_Some (st !! f)) ->
  thread_ok st th' ->
  (forall f, st !! f = Some EXEC -> (exists cb, t_pc th' = Inside f cb) \/
     (states p !! f = Some EXEC /\ forall cb, t_pc th <> Inside f cb)) ->
  m_fibers s = m_fibers (sh p) ->
  excl (Pool s st (<[t := th']> (threads p))).
Proof.
  intros [Hn Hq Ho He Ht Hs] Hth Hown Hst Hdom Hok Hex Hfib.
  assert (queued (Pool s st (<[t := th']> (threads p))) = queued p) as Eq
    by (unfold queued; simpl; by rewrite Hfib).
  split; rewrite ?Eq; simpl; [done|..].
  - intros t' x f [[<- <-]|[_ Hx]]%lookup_insert_Some; eauto.
  - intros t1 t2 x y f [[<- <-]|[? Hx]]%lookup_insert_Some [[<- <-]|[? Hy]]%lookup_insert_Some;
      eauto.
  - intros f Hf. destruct (Hex f Hf) as [[cb Hcb]|[Hf' Hno]].
    + exists t, th', cb. by rewrite lookup_insert_eq.
    + destruct (He f Hf') as (t' & x & cb & Hx & Hpc). exists t', x, cb.
      rewrite lookup_insert_ne; [done|]. intros <-. simplify_eq. by eapply Hno.
  - intros t' x [[<- <-]|[Hne Hx]]%lookup_insert_Some; [done|].
    eapply thread_ok_frame; [by eapply Ht|]. intros f Hf. apply Hst.
    intros Hf'. by apply Hne, (Ho t t' th x f).
  - auto.
Qed.

Lemma omap_ft_app (l1 l2 : list (FiberAndThread U)) :
  omap ft_fiber (l1 ++ l2) = omap ft_fiber l1 ++ omap ft_fiber l2.
Proof. apply omap_app. Qed.

(** Taking a task from the queue. *)
Lemma excl_take p t th it q1 q2 s st' :
  excl p -> threads p !! t = Some th -> t_pc th = AtLoop ->
  m_fibers (sh p) = q1 ++ it :: q2 -> m_fibers s = q1 ++ q2 -> st' = states p ->
  excl (Pool s st' (<[t := Thr (Taken it) (t_cb th) (t_idle th)]> (threads p))).
Proof.
  intros [Hn Hq Ho He Ht Hs] Hth Hpc Hq1 Hq2 ->.
  assert (queued p = omap ft_fiber q1 ++ option_list (ft_fiber it) ++ omap ft_fiber q2) as E1.
  { unfold queued. rewrite Hq1, omap_ft_app. f_equal. simpl. by destruct (ft_fiber it). }
  set (p' := Pool _ _ _). assert (queued p' = omap ft_fiber q1 ++ omap ft_fiber q2) as E2
    by (unfold queued; simpl; by rewrite Hq2, omap_ft_app).
  assert (forall f, f ∈ queued p' -> f ∈ queued p) as Hsub
    by (intros f; rewrite E1, E2, !elem_of_app; tauto).
  assert (forall f, ft_fiber it = Some f -> f ∈ queued p /\ f ∉ queued p') as Hit.
  { intros f Hf. rewrite Hf in E1. rewrite E1, E2. split.
    - rewrite !elem_of_app. right. left. by apply list_elem_of_singleton.
    - rewrite E1 in Hn. apply NoDup_app in Hn as (_ & Hd & Hn). simpl in Hn.
      apply NoDup_cons in Hn as [Hn _]. rewrite elem_of_app. intros [Hf1|Hf1]; [|done].
      apply (Hd f Hf1). simpl. left. }
  assert (forall f, owns (Thr (Taken it) (t_cb th) (t_idle th)) f ->
    owns th f \/ ft_fiber it = Some f) as Hown.
  { intros f [Hf|Hf]; simpl in Hf; [by right|left; by right]. }
  pose proof (Ht t th Hth) as [Halive Hcb Hidle Hsome].
  split; try done; cbn [threads states p'].
  - rewrite E1 in Hn. rewrite E2. apply NoDup_app in Hn as (Hn1 & Hd & Hn2).
    apply NoDup_app in Hn2 as (_ & _ & Hn2). apply NoDup_app. split_and!; try done.
    intros f Hf Hf2. apply (Hd f Hf). rewrite elem_of_app. by right.
  - intros t' x f [[<- <-]|[_ Hx]]%lookup_insert_Some Hf.
    + destruct (Hown f Hf) as [Hf'|Hf']; [|by apply Hit]. intros Hin. by eapply Hq, Hsub.
    + intros Hin. by eapply Hq, Hsub.
  - assert (forall t2 y f, threads p !! t2 = Some y -> owns y f ->
      owns (Thr (Taken it) (t_cb th) (t_idle th)) f -> t = t2) as Hc.
    { intros t2 y f Hy Hfy Hf. destruct (Hown f Hf) as [Hf'|Hf']; [by eapply Ho|].
      destruct (Hit f Hf') as [Hin _]. by destruct (Hq t2 y f Hy Hfy). }
    intros t1 t2 x y f [[<- <-]|[? Hx]]%lookup_insert_Some [[<- <-]|[? Hy]]%lookup_insert_Some Hf Hf2;
      [done|by eapply Hc|symmetry; by eapply Hc|by eapply Ho].
  - intros f Hf. destruct (He f Hf) as (t' & x & cb & Hx & Hpc'). exists t', x, cb.
    simpl. rewrite lookup_insert_ne; [done|]. intros <-. congruence.
  - intros t' x [[<- <-]|[_ Hx]]%lookup_insert_Some; [|by eapply Ht]. split; simpl; [done|..].
    + intros f cb. destruct (ft_fiber it) as [g|] eqn:Eg; [|done]. simpl. intros [= <- <-] Hc.
      destruct (Hit g eq_refl) as [Hin _]. eapply Hq; [exact Hth|by right|done].
    + intros g Hg _. apply (Hidle g Hg). by rewrite Hpc.
    + intros f Hf. destruct (Hown f Hf) as [Hf'|Hf']; [by apply Hsome|].
      by apply Hs, Hit.
  - intros f Hf. by apply Hs, Hsub.
Qed.

(** A fresh callback fiber. *)
Lemma excl_new_cb p t th it g :
  excl p -> threads p !! t = Some th -> t_pc th = Taken it -> ft_fiber it = None ->
  t_cb th = None -> states p !! g = None ->
  excl (Pool (sh p) (<[g := INIT]> (states p))
          (<[t := Thr (Entering g true) (Some g) (t_idle th)]> (threads p))).
Proof.
  intros [Hn Hq Ho He Ht Hs] Hth Hpc Hit Hcb Hg.
  assert (forall t' x, threads p !! t' = Some x -> ~ owns x g) as Hfree.
  { intros t' x Hx Hx'. destruct (tk_states _ _ (Ht t' x Hx) g Hx'). congruence. }
  assert (g ∉ queued p) as Hgq by (intros Hin; destruct (Hs g Hin); congruence).
  assert (forall f, owns (Thr (Entering g true) (Some g) (t_idle th)) f -> f = g) as Hown
    by (intros f [Hf|Hf]; by simplify_eq/=).
  split; cbn [threads states sh]; [done|..].
  - intros t' x f [[<- <-]|[_ Hx]]%lookup_insert_Some Hf; [by rewrite (Hown f Hf)|by eapply Hq].
  - intros t1 t2 x y f [[<- <-]|[? Hx]]%lookup_insert_Some [[<- <-]|[? Hy]]%lookup_insert_Some Hf Hf2;
      [done|..|by eapply Ho].
    + rewrite (Hown f Hf) in Hf2. by destruct (Hfree t2 y Hy).
    + rewrite (Hown f Hf2) in Hf. by destruct (Hfree t1 x Hx).
  - intros f [[_ ?]|[_ Hf]]%lookup_insert_Some; [done|].
    destruct (He f Hf) as (t' & x & cb & Hx & Hpc'). exists t', x, cb.
    rewrite lookup_insert_ne; [done|]. intros <-. congruence.
  - intros t' x [[<- <-]|[_ Hx]]%lookup_insert_Some.
    + split; simpl; [done|by intros f cb [= <- <-]|by intros ? [= <-] ?|].
      intros f Hf. rewrite (Hown f Hf), lookup_insert_eq. eauto.
    + eapply thread_ok_frame; [by eapply Ht|]. intros f Hf. apply lookup_insert_ne.
      intros <-. by eapply Hfree.
  - intros f Hf. apply lookup_insert_is_Some'. right. by apply Hs.
Qed.

(** Queueing a fiber nobody has. *)
Lemma excl_queue p f thr ths :
  excl (Pool (sh p) (states p) ths) -> is_Some (states p !! f) -> f ∉ queued p ->
  (forall t th, ths !! t = Some th -> ~ owns th f) ->
  excl (Pool (schedule (ToFiber (Some f)) thr (sh p)) (states p) ths).
Proof.
  intros [Hn Hq Ho He Ht Hs] Hf Hnq Hfree.
  assert (forall st, queued (Pool (schedule (ToFiber (Some f)) thr (sh p)) st ths)
            = queued p ++ [f]) as E.
  { intros st. unfold queued. simpl. rewrite (ext_fibers _ _ _ (schedule_extends _ _ _)).
    by rewrite omap_ft_app. }
  unfold queued in Hn, Hq, Hs. simpl in Hn, Hq, Hs. fold (queued p) in Hn, Hq, Hs.
  split; try done; rewrite ?E; cbn [threads states].
  - apply NoDup_app. split_and!; [done|by intros x Hx ->%list_elem_of_singleton|].
    apply NoDup_singleton.
  - intros t th x Hth Hx. rewrite elem_of_app, list_elem_of_singleton. intros [Hin| ->].
    + by eapply Hq.
    + by eapply Hfree.
  - intros x. rewrite elem_of_app, list_elem_of_singleton. intros [Hin| ->]; auto.
Qed.

(** The thread goes on with the fiber it has, whose state may change. *)
Lemma excl_go_on p t th x s st f cb v :
  excl p -> threads p !! t = Some th ->
  working_cb (t_pc th) = Some (f, cb) -> working_cb x = Some (f, cb) -> x <> Crashed ->
  st = states p \/ st = <[f := v]> (states p) ->
  (forall v', st !! f = Some v' -> v' = EXEC -> x = Inside f cb) ->
  m_fibers s = m_fibers (sh p) ->
  excl (Pool s st (<[t := Thr x (t_cb th) (t_idle th)]> (threads p))).
Proof.
  intros Hx Hth Hw Hw' Halive' Hst Hex Hs.
  pose proof (ex_thread _ Hx t th Hth) as [Halive Hcb Hidle Hsome].
  assert (held (t_pc th) = Some f) as Hh by (by rewrite held_working, Hw).
  assert (held x = Some f) as Hh' by (by rewrite held_working, Hw').
  assert (forall g, g <> f -> st !! g = states p !! g) as Hne
    by (intros g Hg; destruct Hst as [->| ->]; [done|by rewrite lookup_insert_ne]).
  assert (forall g, is_Some (states p !! g) -> is_Some (st !! g)) as Hdom
    by (intros g Hg; destruct Hst as [->| ->]; [done|apply lookup_insert_is_Some'; auto]).
  assert (forall g, owns (Thr x (t_cb th) (t_idle th)) g -> owns th g) as Hown
    by (unfold owns; simpl; rewrite Hh, Hh'; auto).
  eapply excl_keep; try done.
  - intros g Hg. apply Hne. intros ->. apply Hg. by left.
  - split; simpl; [done| | |auto].
    + intros g b Hg. rewrite Hw' in Hg. apply Hcb. by rewrite Hw.
    + intros g Hg Hgh. rewrite Hne by congruence. apply (Hidle g Hg). congruence.
  - intros g Hg. destruct (decide (g = f)) as [->|Hgf].
    + left. simpl. exists cb. by eapply Hex.
    + right. rewrite <- Hne by done. split; [done|]. intros b Hb. rewrite Hb in Hh. by injection Hh as ->.
Qed.

(** The thread gives its fiber up and keeps or loses its callback fiber. *)
Lemma excl_give_up p t th x o s st f cb v :
  excl p -> threads p !! t = Some th ->
  working_cb (t_pc th) = Some (f, cb) -> held x = None -> x <> Crashed ->
  (forall c, t_pc th <> Inside f c) ->
  st = states p \/ (st = <[f := v]> (states p) /\ v <> EXEC) ->
  o = drop_cb cb (t_cb th) \/ (o = t_cb th /\ exists v', st !! f = Some v' /\ idle_state v' = true) ->
  m_fibers s = m_fibers (sh p) ->
  excl (Pool s st (<[t := Thr x o (t_idle th)]> (threads p))) /\
  (o = drop_cb cb (t_cb th) -> forall t' y,
     <[t := Thr x o (t_idle th)]> (threads p) !! t' = Some y -> ~ owns y f).
Proof.
  intros Hx Hth Hw Hhx Halive' Hin Hst Ho Hs.
  pose proof (ex_thread _ Hx t th Hth) as [Halive Hcb Hidle Hsome].
  assert (held (t_pc th) = Some f) as Hh by (by rewrite held_working, Hw).
  assert (working_cb x = None) as Hwx by (rewrite held_working in Hhx; by destruct (working_cb x)).
  assert (forall g, g <> f -> st !! g = states p !! g) as Hne
    by (intros g Hg; destruct Hst as [->|[-> _]]; [done|by rewrite lookup_insert_ne]).
  assert (forall g, is_Some (states p !! g) -> is_Some (st !! g)) as Hdom
    by (intros g Hg; destruct Hst as [->|[-> _]]; [done|apply lookup_insert_is_Some'; auto]).
  assert (forall g, o = Some g -> t_cb th = Some g) as Hog
    by (intros g Hg; destruct Ho as [->|[-> _]]; [by destruct cb|done]).
  assert (forall g, owns (Thr x o (t_idle th)) g -> owns th g) as Hown.
  { intros g [Hg|Hg]; simpl in Hg; [congruence|]. right. auto. }
  assert (o = drop_cb cb (t_cb th) -> ~ owns (Thr x o (t_idle th)) f) as Hlost.
  { intros -> [Hg|Hg]; simpl in Hg; [congruence|]. destruct cb; [done|].
    by apply (Hcb f false Hw). }
  split.
  - eapply excl_keep; try done.
    + intros g Hg. apply Hne. intros ->. apply Hg. by left.
    + split; simpl; [done|by rewrite Hwx| |auto].
      intros g Hg _. destruct (decide (g = f)) as [->|Hgf].
      * destruct Ho as [Ho|[_ Hv]]; [|done]. destruct (Hlost Ho). by right.
      * rewrite Hne by done. apply (Hidle g); [auto|congruence].
    + intros g Hg. right. destruct (decide (g = f)) as [->|Hgf].
      * destruct Hst as [->|[-> Hv]]; [|rewrite lookup_insert_eq in Hg; congruence].
        split; [done|]. apply Hin.
      * rewrite <- Hne by done. split; [done|]. intros c Hc. rewrite Hc in Hh. by injection Hh as ->.
  - intros Hd t' y [[<- <-]|[Hne' Hy]]%lookup_insert_Some; [by apply Hlost|].
    intros Hy'. apply Hne', (ex_owner _ Hx t t' th y f); [done|done|by left|done].
Qed.

(** The thread has no fiber at work before and after. *)
Lemma excl_no_fiber p t th x i s :
  excl p -> threads p !! t = Some th ->
  held (t_pc th) = None -> held x = None -> x <> Crashed ->
  m_fibers s = m_fibers (sh p) ->
  excl (Pool s (states p) (<[t := Thr x (t_cb th) i]> (threads p))).
Proof.
  intros Hx Hth Hh Hh' Ha Hs.
  pose proof (ex_thread _ Hx t th Hth) as [Halive Hcb Hidle Hsome].
  assert (forall y : pc U, held y = None -> working_cb y = None) as Hwy
    by (intros y Hy; rewrite held_working in Hy; by destruct (working_cb y)).
  assert (forall g, owns (Thr x (t_cb th) i) g -> owns th g) as Hown
    by (intros g [Hg|Hg]; simpl in Hg; [congruence|by right]).
  eapply excl_keep; try done.
  - split; simpl; [done|by rewrite Hwy| |auto].
    intros g Hg _. apply (Hidle g Hg). congruence.
  - intros g Hg. right. split; [done|]. intros c Hc. by rewrite Hc in Hh.
Qed.

(** Taking up the callback fiber again. *)
Lemma excl_reuse_cb p t th it g :
  excl p -> threads p !! t = Some th -> t_pc th = Taken it -> ft_fiber it = None ->
  t_cb th = Some g ->
  excl (Pool (sh p) (<[g := INIT]> (states p))
          (<[t := Thr (Entering g true) (Some g) (t_idle th)]> (threads p))).
Proof.
  intros Hx Hth Hpc Hit Hcb. pose proof (ex_thread _ Hx t th Hth) as [_ _ _ Hsome].
  assert (forall f, owns (Thr (Entering g true) (Some g) (t_idle th)) f -> f = g) as Hown
    by (intros f [Hf|Hf]; by simplify_eq/=).
  assert (forall f, is_Some (states p !! f) -> is_Some (<[g := INIT]> (states p) !! f)) as Hdom
    by (intros f Hf; apply lookup_insert_is_Some'; auto).
  eapply excl_keep; try done.
  - intros f Hf. rewrite (Hown f Hf). by right.
  - intros f Hf. apply lookup_insert_ne. intros ->. apply Hf. by right.
  - split; simpl; [done|by intros f cb [= <- <-]|by intros ? [= <-] ?|].
    intros f Hf. rewrite (Hown f Hf), lookup_insert_eq. eauto.
  - intros f [[_ ?]|[_ Hf]]%lookup_insert_Some; [done|]. right. split; [done|]. by rewrite Hpc.
Qed.

(** The assertion of [swapIn] does not fire. *)
Lemma excl_not_exec p t th f :
  excl p -> threads p !! t = Some th -> owns th f -> (forall cb, t_pc th <> Inside f cb) ->
  states p !! f <> Some EXEC.
Proof.
  intros Hx Hth Ho Hin Hf. destruct (ex_exec _ Hx f Hf) as (t' & y & cb & Hy & Hpc).
  assert (owns y f) as Hoy by (left; by rewrite Hpc).
  assert (t' = t) as -> by (by eapply ex_owner). simplify_eq. by eapply Hin.
Qed.

(** No thread runs a fiber that [t] has and does not run. *)
Ltac not_running p t th f Hpc :=
  intros ? ? ->; exfalso; eapply (excl_not_exec p t th f); rewrite ?Hpc; try done; left; by rewrite Hpc.

Lemma excl_move p t th th' s st :
  excl p -> threads p !! t = Some th -> move t th p th' s st ->
  excl (Pool s st (<[t := th']> (threads p))).
Proof.
  intros Hx Hth Hm. pose proof (ex_thread _ Hx t th Hth) as Hok.
  destruct Hm as
    [it q b Hpc Hpick|q b Hpc Hi Hpick|q b Hpc Hi Hpick|it f s Hpc Hf Hs Hfin
    |it f s Hpc Hf Hc Hs Hfin|it k g s Hpc Hf Hk Hc Hs Hid|it k g s Hpc Hf Hk Hc Hs Hid
    |it k g Hpc Hf Hk Hc Hs|f cb s Hpc Hs Hne|f cb Hpc Hs|f cb s Hpc Hs|f cb Hpc|f cb Hpc
    |f cb Hpc Hs|f s Hpc Hs Hfin|f s Hpc Hs Hfin|f cb s Hpc Hs Hfin Hne|f cb Hpc|Hpc Hst|Hpc Hst].
  - apply pick_Some in Hpick as (q1 & q2 & Hq & -> & _ & _).
    by eapply (excl_take p t th it q1 q2).
  - apply pick_None in Hpick as ->.
    apply excl_no_fiber; rewrite ?Hpc; try done. by destruct b.
  - apply pick_None in Hpick as ->.
    apply excl_no_fiber; rewrite ?Hpc; try done. by destruct b.
  - eapply (excl_go_on p t th _ _ _ f false INIT); rewrite ?Hpc; simpl; rewrite ?Hf; auto.
    not_running p t th f Hpc.
  - eapply (excl_give_up p t th _ _ _ _ f false INIT); rewrite ?Hpc; simpl; rewrite ?Hf; auto.
  - by eapply excl_reuse_cb.
  - destruct (tk_idle _ _ Hok g Hc) as (s' & Hs' & Hid'); [rewrite Hpc; simpl; congruence|].
    congruence.
  - by eapply excl_new_cb.
  - eapply (excl_go_on p t th _ _ _ f cb EXEC); rewrite ?Hpc; auto.
  - exfalso. eapply (excl_not_exec p t th f); rewrite ?Hpc; try done. left. by rewrite Hpc.
  - eapply (excl_go_on p t th _ _ _ f cb s); rewrite ?Hpc; auto.
    rewrite lookup_insert_eq. intros v [= <-] ->. naive_solver.
  - eapply (excl_go_on p t th _ _ _ f cb INIT); rewrite ?Hpc; auto.
    not_running p t th f Hpc.
  - eapply (excl_go_on p t th _ _ _ f cb INIT); rewrite ?Hpc; auto.
    not_running p t th f Hpc.
  - destruct (excl_give_up p t th AtLoop (drop_cb cb (t_cb th)) (sh p) (states p) f cb INIT)
      as [Hx' Hfree]; rewrite ?Hpc; auto.
    apply excl_queue; [done|by eexists| |by apply Hfree].
    eapply ex_queue; [done|exact Hth|left; by rewrite Hpc].
  - eapply (excl_give_up p t th _ _ _ _ f false INIT); rewrite ?Hpc; auto.
  - eapply (excl_give_up p t th _ _ _ _ f true INIT); rewrite ?Hpc; auto.
    right. split; [done|]. exists INIT. by rewrite lookup_insert_eq.
  - eapply (excl_go_on p t th _ _ _ f cb INIT); rewrite ?Hpc; auto.
    not_running p t th f Hpc.
  - eapply (excl_give_up p t th _ _ _ _ f cb HOLD); rewrite ?Hpc; auto.
  - apply excl_no_fiber; by rewrite ?Hpc.
  - apply excl_no_fiber; by rewrite ?Hpc.
Qed.

Lemma excl_reachable p : reachable free p -> excl p.
Proof.
  induction 1 as [p (Hq & Ha & Hst & Hth & Hs)|p p' _ IH Hstep].
  - assert (queued p = []) as E by (unfold queued; by rewrite Hq).
    split; rewrite ?E; [constructor| | | | |].
    + by intros ??????%not_elem_of_nil.
    + intros t1 t2 th1 th2 f H1%Hth H2 Ho. subst. by destruct Ho.
    + intros f Hf. by rewrite Hst in Hf.
    + intros t th ->%Hth. split; try done. by intros f [?|?].
    + by intros f ?%not_elem_of_nil.
  - destruct Hstep as [t th th' s st Ht Hm|f thr [Hq Hf] Hs|k thr|f Hf| ].
    + by eapply excl_move.
    + apply excl_queue; try done. by destruct p.
    + destruct IH as [Hn Hq Ho He Ht Hs]. set (p' := Pool _ _ _).
      assert (queued p' = queued p) as E.
      { unfold queued. simpl. rewrite (ext_fibers _ _ _ (schedule_extends _ _ _)).
        by rewrite omap_ft_app, app_nil_r. }
      split; rewrite ?E; done.
    + destruct IH as [Hn Hq Ho He Ht Hs].
      split; cbn [threads states]; try done.
      * intros g [[_ ?]|[_ Hg]]%lookup_insert_Some; [done|auto].
      * intros t th Hth. eapply thread_ok_frame; [by eapply Ht|]. intros g Hg.
        apply lookup_insert_ne. intros <-.
        destruct (tk_states _ _ (Ht t th Hth) f Hg). congruence.
      * intros g Hg. apply lookup_insert_is_Some'. right. by apply Hs.
    + by destruct IH; split.
Qed.

(** C18.  When a fiber is only handed to [schedule] while nobody has it (not
    queued, and every thread that ran it has finished with it), then in every
    interleaving no two threads ever work on the same fiber, no queue entry is
    duplicated, a fiber in EXEC is the one some thread is inside, and no
    assertion of [swapIn] or [reset] fires. *)
Theorem exclusive_fibers p :
  reachable free p ->
  (forall t1 t2 th1 th2 f, threads p !! t1 = Some th1 -> threads p !! t2 = Some th2 ->
     held (t_pc th1) = Some f -> held (t_pc th2) = Some f -> t1 = t2) /\
  (forall t th, threads p !! t = Some th -> t_pc th <> Crashed) /\
  (forall f, states p !! f = Some EXEC ->
     exists t th cb, threads p !! t = Some th /\ t_pc th = Inside f cb) /\
  NoDup (queued p).
Proof.
  intros Hx%excl_reachable. split_and!.
  - intros t1 t2 th1 th2 f H1 H2 Hf1 Hf2. eapply (ex_owner _ Hx t1 t2); [done|done|by left|by left].
  - intros t th Hth. by apply (ex_thread _ Hx t th Hth).
  - apply Hx.
  - apply Hx.
Qed.
End Steps.

(** ** Two threads on one fiber *)

(** A fiber that looks suspended: its state is HOLD. *)
Definition looks_held (p : pool unit) (f : fid) : Prop :=
  states p !! f = Some INIT \/ states p !! f = Some HOLD.

Definition ex_pool : pool unit :=
  Pool (Sched [1; 2] [] None [1; 2] 2 0 0 false false (-1) 0 []) ∅
    (<[1 := Thr AtLoop None false]> {[2 := Thr AtLoop None false]}).

Lemma ex_pool_initial : initial ex_pool.
Proof.
  split_and!; try done. intros t th. cbn [threads ex_pool].
  intros [[_ <-]|[_ [_ <-]%lookup_singleton_Some]]%lookup_insert_Some; done.
Qed.

Lemma go (may : pool unit -> fid -> Prop) p t th th' s st :
  reachable may p -> threads p !! t = Some th -> move t th p th' s st ->
  reachable may (Pool s st (<[t := th']> (threads p))).
Proof. intros. eapply R_step; [done|]. by eapply S_move. Qed.

Lemma go_schedule (may : pool unit -> fid -> Prop) p f thr :
  reachable may p -> may p f -> is_Some (states p !! f) ->
  reachable may (Pool (schedule (ToFiber (Some f)) thr (sh p)) (states p) (threads p)).
Proof. intros. eapply R_step; [done|]. by apply S_schedule_fiber. Qed.

(** Fiber 0 created and queued; thread 1 takes it, enters it and it yields. *)
Lemma ex_yielding (may : pool unit -> fid -> Prop) :
  (forall p f, states p !! f = Some INIT -> may p f) ->
  exists p, reachable may p /\ threads p !! 1 = Some (Thr (Leaving 0%nat false) None false) /\
    threads p !! 2 = Some (Thr AtLoop None false) /\ states p = {[0%nat := HOLD]} /\
    m_fibers (sh p) = [].
Proof.
  intros Hmay. pose proof (R_init may _ ex_pool_initial) as H.
  assert (reachable may (Pool (sh ex_pool) {[0%nat := INIT]} (threads ex_pool))) as H1
    by (eapply R_step; [exact H|]; by apply (S_new may ex_pool 0%nat)).
  eapply (go_schedule may _ 0%nat (-1)) in H1; [|by apply Hmay|by eexists].
  eapply (go may _ 1) in H1; [|reflexivity|eapply M_pick; reflexivity].
  eapply (go may _ 1) in H1; [|reflexivity|eapply M_fiber; reflexivity].
  eapply (go may _ 1) in H1; [|reflexivity|eapply M_enter; [reflexivity|reflexivity|done]].
  eapply (go may _ 1) in H1; [|reflexivity|eapply (M_leave _ _ _ _ _ HOLD); [reflexivity|by left]].
  eexists. split; [exact H1|]. split_and!; reflexivity.
Qed.

(** A fiber that is scheduled as soon as it looks suspended can run twice
    at once: [YieldToHold] writes HOLD before [swapcontext] has saved the
    context, so another thread takes and enters the fiber while the first is
    still leaving it; and after the switch, [run] writes HOLD again without a
    lock, over the EXEC of the thread that runs the fiber now. *)
Theorem early_wakeup_races :
  (exists p, reachable looks_held p /\
     threads p !! 1 = Some (Thr (Leaving 0%nat false) None false) /\
     threads p !! 2 = Some (Thr (Inside 0%nat false) None false)) /\
  (exists p, reachable looks_held p /\
     threads p !! 1 = Some (Thr AtLoop None false) /\
     threads p !! 2 = Some (Thr (Inside 0%nat false) None false) /\
     states p !! 0%nat = Some HOLD).
Proof.
  destruct (ex_yielding looks_held) as (p & H & H1 & H2 & Hs & Hq); [by left|].
  destruct p as [s st th]. simpl in *. subst st.
  assert (forall s0, m_fibers s0 = [] -> forall self,
    pick self (fun f => ({[0%nat := HOLD]} : gmap fid State) !! f) []
      (m_fibers (schedule (ToFiber (Some 0%nat)) (-1) s0)) false
    = Ok (Some (FT (U:=unit) (Some 0%nat) None (-1)), [], true)) as Hpick.
  { intros s0 Hs0 self. unfold schedule, scheduleNoLock. rewrite Hs0. reflexivity. }
  split.
  - eapply (go_schedule _ _ 0%nat (-1)) in H; [|by right|by eexists]. simpl in H.
    eapply (go _ _ 2) in H; [|exact H2|eapply M_pick; [done|by apply Hpick]].
    eapply (go _ _ 2) in H; [|apply lookup_insert_eq|eapply M_fiber; reflexivity].
    eapply (go _ _ 2) in H; [|apply lookup_insert_eq|eapply M_enter; [reflexivity|reflexivity|done]].
    eexists. split; [exact H|]. simpl. by rewrite !lookup_insert_ne, lookup_insert_eq by done.
  - eapply (go _ _ 1) in H; [|exact H1|by eapply M_saved].
    eapply (go _ _ 1) in H; [|apply lookup_insert_eq|by eapply M_count].
    eapply (go _ _ 1) in H; [|apply lookup_insert_eq|eapply M_not_done; [done|reflexivity|done|done]].
    eapply (go_schedule _ _ 0%nat (-1)) in H; [|by right|by eexists]. simpl in H.
    eapply (go _ _ 2) in H; [|simpl; rewrite !lookup_insert_ne by done; exact H2
                             |eapply M_pick; [done|by apply Hpick]].
    eapply (go _ _ 2) in H; [|apply lookup_insert_eq|eapply M_fiber; reflexivity].
    eapply (go _ _ 2) in H; [|apply lookup_insert_eq|eapply M_enter; [reflexivity|reflexivity|done]].
    eapply (go _ _ 1) in H; [|simpl; rewrite !(lookup_insert_ne _ 2 1) by done; apply lookup_insert_eq
                             |by eapply M_hold].
    eexists. split; [exact H|]. simpl.
    rewrite lookup_insert_eq, (lookup_insert_ne _ 1 2), lookup_insert_eq by done. done.
Qed.

(** ** Witnesses *)

Lemma ex_free : exists p : pool unit, reachable free p /\
  threads p !! 1 = Some (Thr (Inside 0%nat false) None false).
Proof.
  pose proof (R_init free _ ex_pool_initial) as H.
  assert (reachable free (Pool (sh ex_pool) {[0%nat := INIT]} (threads ex_pool))) as H1
    by (eapply R_step; [exact H|]; by apply (S_new free ex_pool 0%nat)).
  eapply (go_schedule free _ 0%nat (-1)) in H1; [| |by eexists].
  2:{ split; [by intros ?%not_elem_of_nil|].
      intros t th. cbn [threads ex_pool].
      intros [[_ <-]|[_ [_ <-]%lookup_singleton_Some]]%lookup_insert_Some; by intros [?|?]. }
  eapply (go free _ 1) in H1; [|reflexivity|eapply M_pick; reflexivity].
  eapply (go free _ 1) in H1; [|reflexivity|eapply M_fiber; reflexivity].
  eapply (go free _ 1) in H1; [|reflexivity|eapply M_enter; [reflexivity|reflexivity|done]].
  eexists. split; [exact H1|reflexivity].
Qed.

Lemma exclusive_fibers_witness :
  exists p : pool unit, reachable free p /\
    threads p !! 1 = Some (Thr (Inside 0%nat false) None false) /\ NoDup (queued p).
Proof.
  destruct ex_free as (p & Hr & Ht). exists p. split; [done|]. split; [done|].
  apply (exclusive_fibers p Hr).
Defined.

Lemma stopping_sound_witness :
  exists p : pool unit, reachable free p /\
    m_activeThreadCount (sh p) = Z.of_nat (busy_count p) /\ stopping (sh p) = false.
Proof.
  destruct ex_free as (p & Hr & Ht). exists p.
  destruct (stopping_sound free p Hr) as (Ha & _ & Hs).
  split; [done|]. split; [done|]. destruct (stopping (sh p)); [|done].
  destruct Hs as (_ & _ & _ & Hb); [done|]. by specialize (Hb _ _ Ht).
Defined.
