(* ===== verification/IOManager.v ===== *)
(** * The IO manager (src/sylar/iomanager.h, iomanager.cc)

    One [FdContext] per descriptor, kept on the heap and pointed to by a
    vector; the kernel's epoll instance is an interface ([Epoll]) with the
    documented behaviour of [epoll_ctl] as its laws.  The scheduler is that of
    Scheduler.v, whose virtual [tickle], [stopping] and [idle] are overridden;
    the timers are those of Timer.v. *)

From S2P Require Import Prelude Timer Fiber Scheduler.

(** ** Constants *)

(** [IOManager::Event]. *)
Definition NONE : Z := 0.
Definition READ : Z := 1.
Definition WRITE : Z := 4.

Definition EPOLLIN : Z := 1.
Definition EPOLLOUT : Z := 4.
Definition EPOLLERR : Z := 8.
Definition EPOLLHUP : Z := 16.
Definition EPOLLET : Z := 2 ^ 31.

Inductive epoll_op : Type := EPOLL_CTL_ADD | EPOLL_CTL_DEL | EPOLL_CTL_MOD.

(** Pointers to [FdContext]s, and what [epoll_event::data] holds. *)
Abbreviation ptr := nat.
Inductive epoll_data : Type := TickleFd | Context (p : ptr).
Record epoll_event : Type := EpollEvent { ev_events : Z; ev_data : epoll_data }.

(** The kernel: [epoll_ctl] on an instance, what it has registered, and what is
    left of that when a descriptor is closed. *)
Class Epoll (K : Type) : Type := {
  epoll_ctl : K -> epoll_op -> Z -> epoll_event -> bool * K;
  epoll_closed : K -> Z -> K;
  registered : K -> Z -> option epoll_event }.

(** [epoll_ctl(2)]: ADD fails on a registered descriptor (EEXIST), MOD and DEL
    on one that is not (ENOENT); a failing call changes nothing; MOD and DEL of
    a registered descriptor succeed; other descriptors are not affected.  Closing
    a descriptor (the last one of its file) removes it. *)
Class EpollLaws (K : Type) `{Epoll K} : Prop := {
  ctl_add_twice k fd ev e : registered k fd = Some e ->
    epoll_ctl k EPOLL_CTL_ADD fd ev = (false, k);
  ctl_absent k fd ev op : registered k fd = None -> op <> EPOLL_CTL_ADD ->
    epoll_ctl k op fd ev = (false, k);
  ctl_mod k fd ev e : registered k fd = Some e ->
    exists k', epoll_ctl k EPOLL_CTL_MOD fd ev = (true, k') /\ registered k' fd = Some ev;
  ctl_del k fd ev e : registered k fd = Some e ->
    exists k', epoll_ctl k EPOLL_CTL_DEL fd ev = (true, k') /\ registered k' fd = None;
  ctl_add k fd ev k' : epoll_ctl k EPOLL_CTL_ADD fd ev = (true, k') ->
    registered k' fd = Some ev;
  ctl_fail k op fd ev k' : epoll_ctl k op fd ev = (false, k') -> k' = k;
  ctl_other k op fd ev b k' g : epoll_ctl k op fd ev = (b, k') -> g <> fd ->
    registered k' g = registered k g;
  closed_gone k fd : registered (epoll_closed k fd) fd = None;
  closed_other k fd g : g <> fd -> registered (epoll_closed k fd) g = registered k g }.

(** ** Data *)

(** [FdContext::EventContext]. *)
Record EventContext (U : Type) : Type := EC {
  ec_scheduler : bool;
  ec_fiber : option fid;
  ec_cb : option (code U) }.
Arguments EC {U}.
Arguments ec_scheduler {U}.
Arguments ec_fiber {U}.
Arguments ec_cb {U}.

(** [FdContext]. *)
Record FdContext (U : Type) : Type := FdCtx {
  fc_fd : Z;
  fc_events : Z;
  fc_read : EventContext U;
  fc_write : EventContext U }.
Arguments FdCtx {U}.
Arguments fc_fd {U}.
Arguments fc_events {U}.
Arguments fc_read {U}.
Arguments fc_write {U}.

(** [IOManager]: its scheduler and timer bases, the epoll instance, the bytes
    in the tickle pipe. *)
Record iomanager (U K W : Type) : Type := IOM {
  io_sched : scheduler U;
  io_timers : Timer.manager U W;
  m_epfd : K;
  tickle_pipe : nat;
  m_pendingEventCount : Z;
  m_FdContexts : list (option ptr);
  contexts : gmap ptr (FdContext U);
  next_ptr : ptr }.
Arguments IOM {U K W}.
Arguments io_sched {U K W}.
Arguments io_timers {U K W}.
Arguments m_epfd {U K W}.
Arguments tickle_pipe {U K W}.
Arguments m_pendingEventCount {U K W}.
Arguments m_FdContexts {U K W}.
Arguments contexts {U K W}.
Arguments next_ptr {U K W}.

Section Ops.
Context {U K W : Type} `{Epoll K}.
Abbreviation iom := (iomanager U K W).
Implicit Types (m : iom) (c : FdContext U).

Definition empty_event : EventContext U := EC false None None.

Definition set_sched (s : scheduler U) m : iom :=
  IOM s (io_timers m) (m_epfd m) (tickle_pipe m) (m_pendingEventCount m) (m_FdContexts m)
    (contexts m) (next_ptr m).
Definition set_timers (t : Timer.manager U W) m : iom :=
  IOM (io_sched m) t (m_epfd m) (tickle_pipe m) (m_pendingEventCount m) (m_FdContexts m)
    (contexts m) (next_ptr m).
Definition set_epfd (k : K) m : iom :=
  IOM (io_sched m) (io_timers m) k (tickle_pipe m) (m_pendingEventCount m) (m_FdContexts m)
    (contexts m) (next_ptr m).
Definition set_pipe (n : nat) m : iom :=
  IOM (io_sched m) (io_timers m) (m_epfd m) n (m_pendingEventCount m) (m_FdContexts m)
    (contexts m) (next_ptr m).
Definition add_pending (d : Z) m : iom :=
  IOM (io_sched m) (io_timers m) (m_epfd m) (tickle_pipe m) (u64 (m_pendingEventCount m + d))
    (m_FdContexts m) (contexts m) (next_ptr m).
Definition set_context (p : ptr) c m : iom :=
  IOM (io_sched m) (io_timers m) (m_epfd m) (tickle_pipe m) (m_pendingEventCount m)
    (m_FdContexts m) (<[p := c]> (contexts m)) (next_ptr m).

Definition with_events (e : Z) c : FdContext U := FdCtx (fc_fd c) e (fc_read c) (fc_write c).

(** [FdContext::getContext], and writing through the reference. *)
Definition getContext (event : Z) c : res (EventContext U) :=
  if event =? READ then Ok (fc_read c)
  else if event =? WRITE then Ok (fc_write c)
  else Err (FAssert "getContext").

Definition putContext (event : Z) (x : EventContext U) c : FdContext U :=
  if event =? READ then FdCtx (fc_fd c) (fc_events c) x (fc_write c)
  else FdCtx (fc_fd c) (fc_events c) (fc_read c) x.

(** [FdContext::resetContext]. *)
Definition resetContext (ctx : EventContext U) : EventContext U := empty_event.

Definition get_ctx (p : ptr) m : res (FdContext U) := deref (contexts m !! p) "FdContext".

(** [IOManager::tickle]: a byte into the pipe when some thread is idle. *)
Definition tickle m : iom :=
  if hasIdleThreads (io_sched m) then set_pipe (S (tickle_pipe m)) m else m.

(** [Scheduler::schedule] with the overridden [tickle]. *)
Definition io_schedule (fc : target (code U)) (thr : Z) m : iom :=
  let '(need_tickle, s) := scheduleNoLock fc thr (io_sched m) in
  let m := set_sched s m in
  if need_tickle : bool then tickle m else m.

Definition io_schedule_range (l : list (target (code U))) m : iom :=
  let '(need_tickle, s) := schedule_loop l false (io_sched m) in
  let m := set_sched s m in
  if need_tickle : bool then tickle m else m.

(** [FdContext::triggerEvent]; the swaps leave the context empty. *)
Definition triggerEvent (event : Z) (p : ptr) m : res iom :=
  c ← get_ctx p m;
  _ ← sylar_assert (negb (Z.land (fc_events c) event =? 0)) "events & event";
  let c := with_events (Z.land (fc_events c) (Z.lnot event)) c in
  ctx ← getContext event c;
  _ ← (if ec_scheduler ctx then mret tt else Err (FUB "triggerEvent: null scheduler"));
  let '(fc, ctx') :=
    match ec_cb ctx with
    | Some cb => (ToCb (Some cb), EC false (ec_fiber ctx) None)
    | None => (ToFiber (ec_fiber ctx), EC false None (ec_cb ctx))
    end in
  mret (set_context p (putContext event ctx' c) (io_schedule fc (-1) m)).

(** The loop of [IOManager::contextResize] over the null entries. *)
Fixpoint fill_contexts (i : Z) (l : list (option ptr)) (h : gmap ptr (FdContext U)) (n : ptr)
    : list (option ptr) * gmap ptr (FdContext U) * ptr :=
  match l with
  | [] => ([], h, n)
  | Some p :: l' =>
      let '(r, h, n) := fill_contexts (i + 1) l' h n in (Some p :: r, h, n)
  | None :: l' =>
      let '(r, h', n') :=
        fill_contexts (i + 1) l' (<[n := FdCtx i NONE empty_event empty_event]> h) (S n) in
      (Some n :: r, h', n')
  end.

(** [IOManager::contextResize]: [std::vector::resize] truncates or appends null
    pointers. *)
Definition contextResize (size : nat) m : iom :=
  let v := take size (m_FdContexts m) ++ replicate (size - length (m_FdContexts m)) None in
  let '(v, h, n) := fill_contexts 0 v (contexts m) (next_ptr m) in
  IOM (io_sched m) (io_timers m) (m_epfd m) (tickle_pipe m) (m_pendingEventCount m) v h n.

(** [m_FdContexts[fd]]. *)
Definition at_fd (fd : Z) m : res ptr :=
  if fd <? 0 then Err (FUB "m_FdContexts: negative index")
  else
    o ← deref (m_FdContexts m !! Z.to_nat fd) "m_FdContexts: index out of range";
    deref o "m_FdContexts: null context".

(** [addEvent], first critical section: does the vector have to grow? *)
Definition needs_resize (fd : Z) m : bool := negb (fd <? Z.of_nat (length (m_FdContexts m))).

(** Second critical section: the context of [fd]; [fd*1.5] rounds down. *)
Definition addEvent_context (resize : bool) (fd : Z) m : res (ptr * iom) :=
  let m := if resize then contextResize (Z.to_nat (fd * 3 / 2)) m else m in
  p ← at_fd fd m; mret (p, m).

(** Under the context's lock.  [mine] tells whether the thread has a scheduler,
    [cur] is [Fiber::GetThis()] with its state. *)
Definition addEvent_register (fd event : Z) (cb : option (code U)) (mine : bool)
    (cur : fid * State) (p : ptr) m : res (Z * iom) :=
  c ← get_ctx p m;
  _ ← sylar_assert (Z.land (fc_events c) event =? 0) "!(fd_ctx->events & event)";
  let op := if fc_events c =? 0 then EPOLL_CTL_ADD else EPOLL_CTL_MOD in
  let epevent := EpollEvent (Z.lor EPOLLET (Z.lor (fc_events c) event)) (Context p) in
  let '(ok, k) := epoll_ctl (m_epfd m) op fd epevent in
  let m := set_epfd k m in
  if negb ok then mret (-1, m)
  else
    let m := add_pending 1 m in
    let c := with_events (Z.lor (fc_events c) event) c in
    ctx ← getContext event c;
    _ ← sylar_assert (negb (ec_scheduler ctx) &&
                      (match ec_fiber ctx, ec_cb ctx with None, None => true | _, _ => false end))
          "!scheduler && !fiber && !cb";
    ctx ← (match cb with
           | Some _ => mret (EC mine (ec_fiber ctx) cb)
           | None =>
               _ ← sylar_assert (bool_decide (cur.2 = EXEC)) "fiber->getState()==EXEC";
               mret (EC mine (Some cur.1) (ec_cb ctx))
           end);
    mret (0, set_context p (putContext event ctx c) m).

(** [IOManager::addEvent]. *)
Definition addEvent (fd event : Z) (cb : option (code U)) (mine : bool) (cur : fid * State) m
    : res (Z * iom) :=
  '(p, m) ← addEvent_context (needs_resize fd m) fd m;
  addEvent_register fd event cb mine cur p m.

(** The shared start of [delEvent], [cancelEvent] and [cancelAll]: the context,
    unless the descriptor is beyond the vector. *)
Definition find_context (fd : Z) m : res (option ptr) :=
  if Z.of_nat (length (m_FdContexts m)) <=? fd then mret None
  else p ← at_fd fd m; mret (Some p).

(** The [epoll_ctl] call of [delEvent] and [cancelEvent]: [op] looks at the
    events before the change. *)
Definition unregister (fd event : Z) (p : ptr) c m : bool * iom :=
  let new_events := Z.land (fc_events c) (Z.lnot event) in
  let op := if fc_events c =? 0 then EPOLL_CTL_DEL else EPOLL_CTL_MOD in
  let epevent := EpollEvent (Z.lor EPOLLET new_events) (Context p) in
  let '(ok, k) := epoll_ctl (m_epfd m) op fd epevent in
  (ok, set_epfd k m).

(** [IOManager::delEvent]. *)
Definition delEvent (fd event : Z) m : res (bool * iom) :=
  o ← find_context fd m;
  match o with
  | None => mret (false, m)
  | Some p =>
      c ← get_ctx p m;
      if Z.land (fc_events c) event =? 0 then mret (false, m)
      else
        let '(ok, m) := unregister fd event p c m in
        if negb ok then mret (false, m)
        else
          let m := add_pending (-1) m in
          let c := with_events (Z.land (fc_events c) (Z.lnot event)) c in
          ctx ← getContext event c;
          mret (true, set_context p (putContext event (resetContext ctx) c) m)
  end.

(** [IOManager::cancelEvent]. *)
Definition cancelEvent (fd event : Z) m : res (bool * iom) :=
  o ← find_context fd m;
  match o with
  | None => mret (false, m)
  | Some p =>
      c ← get_ctx p m;
      if Z.land (fc_events c) event =? 0 then mret (false, m)
      else
        let '(ok, m) := unregister fd event p c m in
        if negb ok then mret (false, m)
        else
          m ← triggerEvent event p m;
          mret (true, add_pending (-1) m)
  end.

(** [if(fd_ctx->events & event) { triggerEvent(event); --m_pendingEventCount; }]. *)
Definition trigger_if (cond : bool) (event : Z) (p : ptr) m : res iom :=
  if cond then m ← triggerEvent event p m; mret (add_pending (-1) m) else mret m.

(** [IOManager::cancelAll]. *)
Definition cancelAll (fd : Z) m : res (bool * iom) :=
  o ← find_context fd m;
  match o with
  | None => mret (false, m)
  | Some p =>
      c ← get_ctx p m;
      if fc_events c =? 0 then mret (false, m)
      else
        let '(ok, k) := epoll_ctl (m_epfd m) EPOLL_CTL_DEL fd (EpollEvent 0 (Context p)) in
        let m := set_epfd k m in
        if negb ok then mret (false, m)
        else
          c ← get_ctx p m;
          m ← trigger_if (negb (Z.land (fc_events c) READ =? 0)) READ p m;
          c ← get_ctx p m;
          m ← trigger_if (negb (Z.land (fc_events c) WRITE =? 0)) WRITE p m;
          c ← get_ctx p m;
          _ ← sylar_assert (fc_events c =? 0) "fd_ctx->events==0";
          mret (true, m)
  end.

(** [IOManager::stopping(timeout)]: (stopping?, timeout). *)
Definition stopping_timeout (now : Z) m : res (bool * Z * iom) :=
  '(timeout, t) ← Timer.getNextTimer now (io_timers m);
  let m := set_timers t m in
  mret ((timeout =? U64_MAX) && (m_pendingEventCount m =? 0) && Scheduler.stopping (io_sched m),
        timeout, m).

(** [IOManager::stopping()]. *)
Definition stopping (now : Z) m : res (bool * iom) :=
  '(b, _, m) ← stopping_timeout now m; mret (b, m).

(** The timeout [idle] passes to [epoll_wait], an [int]. *)
Definition MAX_TIMEOUT : Z := 3000.
Definition wait_timeout (next_timeout : Z) : Z :=
  let next_timeout :=
    if negb (next_timeout =? U64_MAX) then
      if s32 next_timeout >? MAX_TIMEOUT then MAX_TIMEOUT else next_timeout
    else MAX_TIMEOUT in
  s32 next_timeout.

(** One event of [idle]'s loop. *)
Definition handle_event (event : epoll_event) m : res iom :=
  match ev_data event with
  | TickleFd => mret (set_pipe 0 m)
  | Context p =>
      c ← get_ctx p m;
      let ev := if Z.land (ev_events event) (Z.lor EPOLLERR EPOLLHUP) =? 0 then ev_events event
                else Z.lor (ev_events event) (Z.lor EPOLLIN EPOLLOUT) in
      let real_events := Z.lor (if Z.land ev EPOLLIN =? 0 then NONE else READ)
                               (if Z.land ev EPOLLOUT =? 0 then NONE else WRITE) in
      if Z.land (fc_events c) real_events =? NONE then mret m
      else
        let left_events := Z.land (fc_events c) (Z.lnot real_events) in
        let op := if left_events =? 0 then EPOLL_CTL_DEL else EPOLL_CTL_MOD in
        let '(ok, k) := epoll_ctl (m_epfd m) op (fc_fd c)
                          (EpollEvent (Z.lor EPOLLET left_events) (Context p)) in
        let m := set_epfd k m in
        if negb ok then mret m
        else
          m ← trigger_if (negb (Z.land real_events READ =? 0)) READ p m;
          trigger_if (negb (Z.land real_events WRITE =? 0)) WRITE p m
  end.

Fixpoint handle_events (l : list epoll_event) m : res iom :=
  match l with
  | [] => mret m
  | e :: l' => m ← handle_event e m; handle_events l' m
  end.

(** One round of [idle] from its check to the switch out: [Ok (true, _)] when
    it leaves the loop.  [epoll_wait] returns [ready] for the timeout it is
    given; [as_code] is the callback of a timer as the scheduler runs it.  The
    clock is read again after the wait. *)
Definition idle_round (now now2 : Z) (probe : loc) (as_code : option (Timer.callback U W) -> target (code U))
    (epoll_wait : Z -> list epoll_event) m : res (bool * iom) :=
  '(b, next_timeout, m) ← stopping_timeout now m;
  if b : bool then '(_, t) ← Timer.getNextTimer now (io_timers m); mret (true, set_timers t m)
  else
    let ready := epoll_wait (wait_timeout next_timeout) in
    '(cbs, t) ← Timer.listExpiredCb now2 probe [] (io_timers m);
    let m := set_timers t m in
    let m := match cbs with [] => m | _ => io_schedule_range (map as_code cbs) m end in
    m ← handle_events ready m;
    mret (false, m).

(** [IOManager::onTimerInsertedAtfront]. *)
Definition onTimerInsertedAtfront m : iom := tickle m.

(** [IOManager::IOManager] after the base class: epoll and the pipe are there,
    [tickle_fd] is registered and the vector has 32 contexts. *)
Definition IOManager_new (now tickle_fd : Z) (new_ids : list Z) (epoll_create pipe nonblock : bool)
    (k : K) (s : scheduler U) : res iom :=
  _ ← sylar_assert epoll_create "m_epfd>0";
  _ ← sylar_assert pipe "pipe";
  _ ← sylar_assert nonblock "fcntl";
  let '(ok, k) := epoll_ctl k EPOLL_CTL_ADD tickle_fd
                    (EpollEvent (Z.lor EPOLLIN EPOLLET) TickleFd) in
  _ ← sylar_assert ok "epoll_ctl";
  let m := contextResize 32 (IOM s (Timer.init_manager now) k 0 0 [] ∅ 0) in
  s ← Scheduler.start new_ids (io_sched m);
  mret (set_sched s m).

(** The loop of [IOManager::~IOManager], after [stop] and the [close]s: [delete]
    of a pointer that is not null. *)
Fixpoint delete_contexts (l : list (option ptr)) (h : gmap ptr (FdContext U))
    : res (gmap ptr (FdContext U)) :=
  match l with
  | [] => mret h
  | None :: l => delete_contexts l h
  | Some p :: l => _ ← deref (h !! p) "delete: FdContext"; delete_contexts l (delete p h)
  end.

Definition IOManager_delete m : res iom :=
  h ← delete_contexts (m_FdContexts m) (contexts m);
  mret (IOM (io_sched m) (io_timers m) (m_epfd m) (tickle_pipe m) (m_pendingEventCount m) [] h (next_ptr m)).
End Ops.

(** ** Invariant *)

Section Theory.
Context {U K W : Type} `{EpollLaws K}.
Abbreviation iom := (iomanager U K W).
Implicit Types (m : iom) (c : FdContext U).

Definition is_event (e : Z) : Prop := e = READ \/ e = WRITE.

Definition has (events e : Z) : bool := negb (Z.land events e =? 0).

(** A waiting event has a scheduler and either a callback or a fiber; one that
    nobody waits for is empty. *)
Definition slot_ok (waiting : bool) (x : EventContext U) : Prop :=
  if waiting then
    ec_scheduler x = true /\
    ((is_Some (ec_cb x) /\ ec_fiber x = None) \/ (ec_cb x = None /\ is_Some (ec_fiber x)))
  else x = empty_event.

Definition slot (e : Z) c : EventContext U := if e =? READ then fc_read c else fc_write c.

Definition events_ok (e : Z) : Prop := e = 0 \/ e = 1 \/ e = 4 \/ e = 5.

Record ctx_ok c : Prop := CtxOk {
  co_events : events_ok (fc_events c);
  co_read : slot_ok (has (fc_events c) READ) (fc_read c);
  co_write : slot_ok (has (fc_events c) WRITE) (fc_write c) }.

(** The number of events waited for on a descriptor. *)
Definition waits c : nat :=
  (if has (fc_events c) READ then 1 else 0) + (if has (fc_events c) WRITE then 1 else 0).

(** What the kernel has for a descriptor with context [p]: exactly the waited
    events, edge-triggered; with nothing to wait for it may still hold the
    descriptor with an empty set. *)
Definition unused (k : K) (fd : Z) : Prop :=
  match registered k fd with Some ev => ev_data ev = TickleFd | None => True end.

Definition synced (k : K) (p : ptr) c : Prop :=
  registered k (fc_fd c) = Some (EpollEvent (Z.lor EPOLLET (fc_events c)) (Context p)) \/
  (fc_events c = 0 /\ unused k (fc_fd c)).

Record inv m : Prop := Inv {
  inv_size : (32 <= length (m_FdContexts m))%nat;
  inv_vector : forall i o, m_FdContexts m !! i = Some o ->
    exists p c, o = Some p /\ contexts m !! p = Some c /\ fc_fd c = Z.of_nat i;
  inv_back : forall p c, contexts m !! p = Some c ->
    0 <= fc_fd c /\ m_FdContexts m !! Z.to_nat (fc_fd c) = Some (Some p);
  inv_ctx : forall p c, contexts m !! p = Some c -> ctx_ok c;
  inv_sync : forall p c, contexts m !! p = Some c -> synced (m_epfd m) p c;
  inv_rest : forall fd, Z.of_nat (length (m_FdContexts m)) <= fd -> unused (m_epfd m) fd;
  inv_fresh : forall p c, contexts m !! p = Some c -> (p < next_ptr m)%nat;
  inv_pending : m_pendingEventCount m = u64 (Z.of_nat (map_sum waits (contexts m))) }.

(** The context after event [e] has been triggered or removed. *)
Definition clear (e : Z) c : FdContext U :=
  putContext e empty_event (with_events (Z.land (fc_events c) (Z.lnot e)) c).

(** Who waits. *)
Definition waiter (x : EventContext U) : target (code U) :=
  match ec_cb x with Some cb => ToCb (Some cb) | None => ToFiber (ec_fiber x) end.

(** What [schedule] changes: the queue, and perhaps a byte in the pipe. *)
Lemma io_schedule_frame fc thr m :
  exists n, io_schedule fc thr m = set_pipe n (set_sched (scheduleNoLock fc thr (io_sched m)).2 m).
Proof.
  unfold io_schedule, tickle. destruct (scheduleNoLock fc thr (io_sched m)) as [need s]. simpl.
  destruct (hasIdleThreads s), need; eexists; try reflexivity;
    instantiate (1 := tickle_pipe m); by destruct m.
Qed.

Lemma scheduleNoLock_fibers fc thr (s : scheduler U) :
  m_fibers (scheduleNoLock fc thr s).2 = m_fibers s ++ entry_of fc thr.
Proof. destruct fc as [[f|]|[k|]]; simpl; by rewrite ?app_nil_r. Qed.

Lemma set_context_twice p c c' m : set_context p c (set_context p c' m) = set_context p c m.
Proof. unfold set_context. simpl. by rewrite insert_insert_eq. Qed.

Lemma getContext_ok e c : is_event e -> getContext e c = Ok (slot e c).
Proof. by intros [-> | ->]. Qed.

Lemma slot_of e c : ctx_ok c -> is_event e -> slot_ok (has (fc_events c) e) (slot e c).
Proof. by intros [] [-> | ->]. Qed.

Lemma slot_ok_true x : slot_ok true x ->
  ec_scheduler x = true /\ waiter x <> ToFiber None /\ waiter x <> ToCb None /\
  (match ec_cb x with Some _ => EC false (ec_fiber x) None | None => EC false None (ec_cb x) end)
    = empty_event.
Proof.
  destruct x as [s f k]. unfold waiter. simpl. intros [-> [[[k' ->] ->]|[-> [f' ->]]]]; done.
Qed.

Lemma triggerEvent_ok e p c m :
  is_event e -> contexts m !! p = Some c -> ctx_ok c -> has (fc_events c) e = true ->
  triggerEvent e p m = Ok (set_context p (clear e c) (io_schedule (waiter (slot e c)) (-1) m)).
Proof.
  intros He Hp Hc Hh. unfold triggerEvent, get_ctx. rewrite Hp. cbn [deref]. res_simpl.
  unfold has in Hh. rewrite Hh. cbn [sylar_assert]. res_simpl.
  rewrite getContext_ok by done. res_simpl.
  assert (slot e (with_events (Z.land (fc_events c) (Z.lnot e)) c) = slot e c) as ->
    by (by destruct He as [-> | ->]).
  pose proof (slot_of e c Hc He) as Hslot. unfold has in Hslot. rewrite Hh in Hslot.
  destruct (slot_ok_true _ Hslot) as (-> & _ & _ & Hempty). res_simpl.
  unfold clear, waiter. rewrite <- Hempty. by destruct (ec_cb (slot e c)).
Qed.

Lemma events_cases e ev : is_event e -> events_ok ev ->
  events_ok (Z.land ev (Z.lnot e)) /\ has (Z.land ev (Z.lnot e)) e = false /\
  events_ok (Z.lor ev e) /\ has (Z.lor ev e) e = true /\
  forall e', is_event e' -> e' <> e -> has (Z.land ev (Z.lnot e)) e' = has ev e' /\
    has (Z.lor ev e) e' = has ev e'.
Proof.
  unfold is_event, events_ok, has.
  intros [-> | ->] [-> |[-> |[-> | ->]]]; vm_compute; repeat split; auto; naive_solver.
Qed.

Lemma clear_ok e c : is_event e -> ctx_ok c -> ctx_ok (clear e c).
Proof.
  intros He [Hev Hr Hw]. destruct (events_cases e _ He Hev) as (H1 & H2 & _ & _ & H3).
  unfold clear, putContext. destruct He as [-> | ->]; simpl; split; simpl; try done.
  - by rewrite H2.
  - rewrite (proj1 (H3 WRITE ltac:(by right) ltac:(done))). done.
  - rewrite (proj1 (H3 READ ltac:(by left) ltac:(done))). done.
  - by rewrite H2.
Qed.

Lemma clear_waits e c : is_event e -> ctx_ok c -> has (fc_events c) e = true ->
  waits c = S (waits (clear e c)).
Proof.
  intros He [Hev _ _]. unfold waits, clear, putContext, is_event, events_ok, has in *.
  destruct He as [-> | ->], Hev as [E|[E|[E|E]]]; simpl; rewrite E; vm_compute; congruence.
Qed.

Lemma clear_events e c : fc_events (clear e c) = Z.land (fc_events c) (Z.lnot e).
Proof. unfold clear, putContext. by destruct (e =? READ). Qed.

Lemma clear_fd e c : fc_fd (clear e c) = fc_fd c.
Proof. unfold clear, putContext. by destruct (e =? READ). Qed.

(** Replacing a context and the kernel's entry for its descriptor. *)
Lemma inv_update p c c' k n s d m :
  inv m -> contexts m !! p = Some c -> ctx_ok c' -> fc_fd c' = fc_fd c ->
  (forall fd, fd <> fc_fd c -> registered k fd = registered (m_epfd m) fd) ->
  synced k p c' ->
  Z.of_nat (waits c') = Z.of_nat (waits c) + d ->
  inv (add_pending d (set_context p c' (set_pipe n (set_sched s (set_epfd k m))))).
Proof.
  intros [Hsz Hv Hb Hc Hs Hr Hf Hp] Hpc Hok Hfd Hk Hsync Hw.
  destruct (Hb p c Hpc) as [Hfd0 Hvec].
  assert (Z.to_nat (fc_fd c) < length (m_FdContexts m))%nat as Hlt by (by apply lookup_lt_Some in Hvec).
  split; simpl; [done|..].
  - intros i o Hi. destruct (Hv i o Hi) as (q & cq & -> & Hq & Hqfd).
    destruct (decide (p = q)) as [<-|Hne].
    + exists p, c'. rewrite lookup_insert_eq. split_and!; congruence.
    + exists q, cq. by rewrite lookup_insert_ne.
  - intros q cq [[<- <-]|[_ Hq]]%lookup_insert_Some; [rewrite Hfd; eauto|eauto].
  - intros q cq [[<- <-]|[_ Hq]]%lookup_insert_Some; eauto.
  - intros q cq [[<- <-]|[Hne Hq]]%lookup_insert_Some; [done|]. unfold synced, unused.
    rewrite Hk; [by apply Hs|]. intros E. destruct (Hb q cq Hq) as [_ Hvq].
    rewrite E in Hvq. congruence.
  - intros fd Hfd1. unfold unused. rewrite Hk; [by apply Hr|]. lia.
  - intros q cq [[<- <-]|[_ Hq]]%lookup_insert_Some; eauto.
  - rewrite Hp. pose proof (map_sum_insert waits _ p c c' Hpc) as Hsum.
    unfold u64, wrap. rewrite Zplus_mod_idemp_l. f_equal. lia.
Qed.

Lemma set_context_id p c m : contexts m !! p = Some c -> set_context p c m = m.
Proof. intros E. unfold set_context. rewrite insert_id by done. by destruct m. Qed.

Lemma add_pending_0 m : u64 (m_pendingEventCount m) = m_pendingEventCount m -> add_pending 0 m = m.
Proof. intros E. unfold add_pending. rewrite Z.add_0_r, E. by destruct m. Qed.

Lemma add_pending_add a b m : add_pending a (add_pending b m) = add_pending (b + a) m.
Proof.
  unfold add_pending. simpl. f_equal. unfold u64, wrap. rewrite Zplus_mod_idemp_l. f_equal. lia.
Qed.

Definition b2z (b : bool) : Z := if b then 1 else 0.
Definition b2n (b : bool) : nat := if b then 1 else 0.

(** The queue entry of event [e]'s waiter. *)
Definition wake (b : bool) (e : Z) c : list (FiberAndThread U) :=
  if b then entry_of (waiter (slot e c)) (-1) else [].

Lemma trigger_if_ok b e p c m :
  is_event e -> contexts m !! p = Some c -> ctx_ok c -> (b = true -> has (fc_events c) e = true) ->
  u64 (m_pendingEventCount m) = m_pendingEventCount m ->
  exists n s, trigger_if b e p m
    = Ok (add_pending (- b2z b) (set_context p (if b then clear e c else c)
            (set_pipe n (set_sched s m)))) /\
    m_fibers s = m_fibers (io_sched m) ++ wake b e c.
Proof.
  intros He Hp Hc Hb Hu. unfold trigger_if. destruct b.
  - rewrite (triggerEvent_ok e p c m) by auto. res_simpl.
    destruct (io_schedule_frame (waiter (slot e c)) (-1) m) as [n ->].
    eexists n, _. split; [done|]. apply scheduleNoLock_fibers.
  - exists (tickle_pipe m), (io_sched m). split; [|by rewrite app_nil_r].
    f_equal. rewrite add_pending_0 by done.
    replace (set_pipe (tickle_pipe m) (set_sched (io_sched m) m)) with m by (by destruct m).
    by rewrite set_context_id.
Qed.

(** The context after the given events have been triggered. *)
Definition clear2 (b1 b2 : bool) c : FdContext U :=
  let c1 := if b1 then clear READ c else c in if b2 then clear WRITE c1 else c1.

Lemma clear_read_slot c : slot WRITE (clear READ c) = slot WRITE c.
Proof. done. Qed.

Lemma clear_read_has c : ctx_ok c -> has (fc_events (clear READ c)) WRITE = has (fc_events c) WRITE.
Proof.
  intros [Hev _ _]. rewrite clear_events.
  destruct (events_cases READ _ ltac:(by left) Hev) as (_ & _ & _ & _ & Hh).
  apply Hh; [by right|done].
Qed.

Lemma clear2_spec b1 b2 c :
  ctx_ok c -> (b1 = true -> has (fc_events c) READ = true) ->
  (b2 = true -> has (fc_events c) WRITE = true) ->
  ctx_ok (clear2 b1 b2 c) /\ fc_fd (clear2 b1 b2 c) = fc_fd c /\
  waits c = (waits (clear2 b1 b2 c) + b2n b1 + b2n b2)%nat.
Proof.
  intros Hc H1 H2. unfold clear2.
  assert (ctx_ok (clear READ c)) as Hc1 by (apply clear_ok; [by left|done]).
  destruct b1, b2; simpl; rewrite ?clear_fd; split_and!; try done; try lia.
  - apply clear_ok; [by right|done].
  - rewrite (clear_waits READ) by (by auto || by left).
    rewrite (clear_waits WRITE (clear READ c));
      [lia|by right|done|rewrite clear_read_has; auto].
  - rewrite (clear_waits READ) by (by auto || by left). lia.
  - apply clear_ok; [by right|done].
  - rewrite (clear_waits WRITE) by (by auto || by right). lia.
Qed.

Lemma trigger_two b1 b2 p c m :
  contexts m !! p = Some c -> ctx_ok c -> (b1 = true -> has (fc_events c) READ = true) ->
  (b2 = true -> has (fc_events c) WRITE = true) ->
  u64 (m_pendingEventCount m) = m_pendingEventCount m ->
  exists n s, (m ← trigger_if b1 READ p m; trigger_if b2 WRITE p m)
    = Ok (add_pending (- b2z b1 - b2z b2) (set_context p (clear2 b1 b2 c)
            (set_pipe n (set_sched s m)))) /\
    m_fibers s = m_fibers (io_sched m) ++ wake b1 READ c ++ wake b2 WRITE c.
Proof.
  intros Hp Hc H1 H2 Hu.
  destruct (trigger_if_ok b1 READ p c m) as (n1 & s1 & -> & Hs1); [by left|done..|].
  res_simpl. set (m1 := add_pending _ _). set (c1 := if b1 then clear READ c else c).
  assert (contexts m1 !! p = Some c1) as Hp1 by apply lookup_insert_eq.
  assert (ctx_ok c1) as Hc1 by (subst c1; destruct b1; [apply clear_ok; [by left|done]|done]).
  assert (slot WRITE c1 = slot WRITE c) as Hsl by (subst c1; by destruct b1).
  assert (has (fc_events c1) WRITE = has (fc_events c) WRITE) as Hh
    by (subst c1; destruct b1; [by apply clear_read_has|done]).
  destruct (trigger_if_ok b2 WRITE p c1 m1) as (n2 & s2 & -> & Hs2); try done.
  { by right. }
  { intros E. rewrite Hh. auto. }
  { unfold m1. simpl. unfold u64. by rewrite wrap_wrap. }
  exists n2, s2. split.
  - f_equal. subst m1. unfold clear2. fold c1.
    assert (forall d e, set_context p e (set_pipe n2 (set_sched s2 (add_pending d
        (set_context p c1 (set_pipe n1 (set_sched s1 m))))))
      = add_pending d (set_context p e (set_pipe n2 (set_sched s2 m)))) as E
      by (intros; unfold set_context, add_pending, set_pipe, set_sched; simpl;
          by rewrite insert_insert_eq).
    rewrite E, add_pending_add. done.
  - rewrite Hs2. subst m1. simpl. rewrite Hs1, <- app_assoc. f_equal. f_equal.
    unfold wake. by rewrite Hsl.
Qed.

(** *** The vector of contexts *)

Definition new_context (i : Z) : FdContext U := FdCtx i NONE empty_event empty_event.

Lemma fill_contexts_some l0 : forall i r (h : gmap ptr (FdContext U)) n,
  Forall (fun o => is_Some o) l0 ->
  fill_contexts i (l0 ++ r) h n =
    (let '(r', h', n') := fill_contexts (i + Z.of_nat (length l0)) r h n in (l0 ++ r', h', n')).
Proof.
  induction l0 as [|o l0 IH]; intros i r h n Hl.
  - simpl. rewrite Z.add_0_r. by destruct (fill_contexts i r h n) as [[? ?] ?].
  - apply Forall_cons in Hl as [[q ->] Hl]. cbn [app fill_contexts]. rewrite IH by done.
    replace (i + 1 + Z.of_nat (length l0)) with (i + Z.of_nat (length (Some q :: l0))) by (simpl; lia).
    by destruct (fill_contexts _ r h n) as [[? ?] ?].
Qed.

Lemma fill_contexts_none k : forall i (h : gmap ptr (FdContext U)) n,
  (forall q c, h !! q = Some c -> (q < n)%nat) ->
  exists h', fill_contexts i (replicate k None) h n = (map Some (seq n k), h', (n + k)%nat) /\
    (forall j, (j < k)%nat -> h' !! (n + j)%nat = Some (new_context (i + Z.of_nat j))) /\
    (forall q, (q < n)%nat -> h' !! q = h !! q) /\
    (forall q c, h' !! q = Some c -> (q < n + k)%nat) /\
    map_sum waits h' = map_sum waits h.
Proof.
  induction k as [|k IH]; intros i h n Hh.
  { exists h. rewrite Nat.add_0_r. split_and!; try done. lia. }
  cbn [replicate fill_contexts].
  destruct (IH (i + 1) (<[n := new_context i]> h) (S n)) as (h' & E & Hnew & Hold & Hb & Hsum).
  { intros q c [[<- _]|[_ Hq]]%lookup_insert_Some; [lia|]. pose proof (Hh q c Hq). lia. }
  fold (new_context i). rewrite E. exists h'. split_and!.
  - simpl. f_equal. lia.
  - intros j Hj. destruct j as [|j].
    + rewrite Nat.add_0_r, Z.add_0_r, Hold by lia. apply lookup_insert_eq.
    + replace (n + S j)%nat with (S n + j)%nat by lia. rewrite Hnew by lia.
      do 2 f_equal. lia.
  - intros q Hq. rewrite Hold by lia. apply lookup_insert_ne. lia.
  - intros q c Hq. pose proof (Hb q c Hq). lia.
  - rewrite Hsum, map_sum_insert_new; [done|].
    destruct (h !! n) as [c|] eqn:Ec; [|done]. pose proof (Hh n c Ec). lia.
Qed.

Lemma new_context_ok i : ctx_ok (new_context i).
Proof. split; [by left|done|done]. Qed.

(** Growing the vector. *)
(** The vector and the heap after [k] new contexts. *)
Lemma grown_vector (v0 : list (option ptr)) (n k : nat) :
  let v := v0 ++ map Some (seq n k) in
  length v = (length v0 + k)%nat /\ (forall i, (i < length v0)%nat -> v !! i = v0 !! i) /\
  forall j, (j < k)%nat -> v !! (length v0 + j)%nat = Some (Some (n + j)%nat).
Proof.
  cbv zeta. split_and!; [by rewrite length_app, length_map, length_seq|intros i Hi; by apply lookup_app_l|].
  intros j Hj. rewrite lookup_app_r by lia. replace (length v0 + j - length v0)%nat with j by lia.
  change (map Some ?l) with (Some <$> l). rewrite list_lookup_fmap, lookup_seq_lt by lia. done.
Qed.

Lemma grown_cases (h h' : gmap ptr (FdContext U)) (n k : nat) (i : Z) :
  (forall j, (j < k)%nat -> h' !! (n + j)%nat = Some (new_context (i + Z.of_nat j))) ->
  (forall q, (q < n)%nat -> h' !! q = h !! q) -> (forall q c, h' !! q = Some c -> (q < n + k)%nat) ->
  forall p c, h' !! p = Some c -> h !! p = Some c \/
    exists j, (j < k)%nat /\ p = (n + j)%nat /\ c = new_context (i + Z.of_nat j).
Proof.
  intros Hnew Hold Hbound p c Hpc. destruct (decide (p < n)%nat) as [Hlt|Hge]; [left; by rewrite <- Hold|].
  right. exists (p - n)%nat. pose proof (Hbound p c Hpc). split_and!; [lia|lia|].
  pose proof (Hnew (p - n)%nat ltac:(lia)) as Hn. replace (n + (p - n))%nat with p in Hn by lia. congruence.
Qed.

Lemma contextResize_grow sz m :
  inv m -> (length (m_FdContexts m) <= sz)%nat ->
  inv (contextResize sz m) /\ length (m_FdContexts (contextResize sz m)) = sz /\
  (forall i, (i < length (m_FdContexts m))%nat ->
     m_FdContexts (contextResize sz m) !! i = m_FdContexts m !! i) /\
  (forall p c, contexts m !! p = Some c -> contexts (contextResize sz m) !! p = Some c) /\
  io_sched (contextResize sz m) = io_sched m /\ m_epfd (contextResize sz m) = m_epfd m.
Proof.
  intros [Hsz Hv Hb Hc Hs Hr Hf Hp] Hle. unfold contextResize.
  set (len := length (m_FdContexts m)) in *.
  rewrite take_ge by done.
  rewrite fill_contexts_some.
  2:{ apply Forall_lookup_2. intros i o Hi. destruct (Hv i o Hi) as (p & _ & -> & _). eauto. }
  destruct (fill_contexts_none (sz - len) (0 + Z.of_nat len) (contexts m) (next_ptr m) Hf)
    as (h' & E & Hnew & Hold & Hbound & Hsum).
  fold len. rewrite E. simpl. rewrite Z.add_0_l in Hnew.
  set (v := m_FdContexts m ++ map Some (seq (next_ptr m) (sz - len))).
  destruct (grown_vector (m_FdContexts m) (next_ptr m) (sz - len)) as (Hlen & Hlow & Hhigh).
  fold len v in Hlen, Hlow, Hhigh. replace (len + (sz - len))%nat with sz in Hlen by lia.
  pose proof (grown_cases _ _ _ _ _ Hnew Hold Hbound) as Hcases.
  assert (forall p c, contexts m !! p = Some c -> h' !! p = Some c) as Hkeep
    by (intros p c Hpc; rewrite Hold by (by eapply Hf); done).
  split_and!; try done. split; simpl; rewrite ?Hlen; [lia|..].
  - intros i o Hi. destruct (decide (i < len)%nat) as [Hl|Hg].
    + rewrite Hlow in Hi by done. destruct (Hv i o Hi) as (p & c & -> & Hpc & Hfd).
      exists p, c. split_and!; auto.
    + assert (i < sz)%nat as Hisz by (apply lookup_lt_Some in Hi; lia).
      pose proof (Hhigh (i - len)%nat ltac:(lia)) as Hi'.
      replace (len + (i - len))%nat with i in Hi' by lia. rewrite Hi in Hi'. injection Hi' as ->.
      eexists _, _. split; [done|]. split; [apply Hnew; lia|]. simpl. lia.
  - intros p c [Hpc|(j & Hj & -> & ->)]%Hcases.
    + destruct (Hb p c Hpc) as [Hnn Hvec]. split; [done|].
      rewrite Hlow; [done|]. by apply lookup_lt_Some in Hvec.
    + simpl. split; [lia|].
      replace (Z.to_nat (Z.of_nat len + Z.of_nat j)) with (len + j)%nat by lia. by apply Hhigh.
  - intros p c [Hpc|(j & Hj & -> & ->)]%Hcases; [by eapply Hc|apply new_context_ok].
  - intros p c [Hpc|(j & Hj & -> & ->)]%Hcases; [by apply Hs|].
    right. split; [done|]. apply Hr. simpl. lia.
  - intros fd Hfd. apply Hr. lia.
  - intros p c Hpc. by eapply Hbound.
  - by rewrite Hsum.
Qed.

(** *** Abstract view: who waits for which event *)

Definition waits_for (c : FdContext U) (e : Z) : option (target (code U)) :=
  if has (fc_events c) e then Some (waiter (slot e c)) else None.

Definition abs m (fd e : Z) : option (target (code U)) :=
  match m_FdContexts m !! Z.to_nat fd with
  | Some (Some p) => c ← contexts m !! p; waits_for c e
  | _ => None
  end.

(** All operations end in this form. *)
Definition updated (p : ptr) c' (d : Z) (k : K) (s : scheduler U) (n : nat) m : iom :=
  add_pending d (set_context p c' (set_pipe n (set_sched s (set_epfd k m)))).

Lemma at_fd_ok fd m :
  inv m -> 0 <= fd < Z.of_nat (length (m_FdContexts m)) ->
  exists p c, at_fd fd m = Ok p /\ contexts m !! p = Some c /\ fc_fd c = fd /\
    m_FdContexts m !! Z.to_nat fd = Some (Some p).
Proof.
  intros Hi Hfd. destruct (lookup_lt_is_Some_2 (m_FdContexts m) (Z.to_nat fd) ltac:(lia)) as [o Ho].
  destruct (inv_vector _ Hi _ _ Ho) as (p & c & -> & Hp & Hc). exists p, c.
  unfold at_fd. destruct (Z.ltb_spec fd 0); [lia|]. rewrite Ho. split_and!; try done. lia.
Qed.

Lemma abs_at fd m p c e :
  m_FdContexts m !! Z.to_nat fd = Some (Some p) -> contexts m !! p = Some c ->
  abs m fd e = waits_for c e.
Proof. intros Hv Hp. unfold abs. by rewrite Hv, Hp. Qed.

Lemma abs_updated p c c' d k s n m fd e :
  inv m -> contexts m !! p = Some c -> 0 <= fd ->
  abs (updated p c' d k s n m) fd e
  = if decide (fd = fc_fd c) then waits_for c' e else abs m fd e.
Proof.
  intros Hi Hp Hfd. destruct (inv_back _ Hi p c Hp) as [Hc Hv]. unfold abs. simpl.
  destruct (decide (fd = fc_fd c)) as [->|Hne].
  - rewrite Hv. by rewrite lookup_insert_eq.
  - destruct (m_FdContexts m !! Z.to_nat fd) as [[q|]|] eqn:Eq; try done.
    destruct (inv_vector _ Hi _ _ Eq) as (q' & cq & [= <-] & Hq & Hcq).
    rewrite lookup_insert_ne; [done|]. intros <-. rewrite Hp in Hq. injection Hq as <-.
    apply Hne. lia.
Qed.

Lemma inv_updated p c c' d k s n m :
  inv m -> contexts m !! p = Some c -> ctx_ok c' -> fc_fd c' = fc_fd c ->
  (forall fd, fd <> fc_fd c -> registered k fd = registered (m_epfd m) fd) ->
  synced k p c' -> Z.of_nat (waits c') = Z.of_nat (waits c) + d ->
  inv (updated p c' d k s n m).
Proof. apply inv_update. Qed.

Lemma inv_u64 m : inv m -> u64 (m_pendingEventCount m) = m_pendingEventCount m.
Proof. intros Hi. rewrite (inv_pending _ Hi). unfold u64. by rewrite wrap_wrap. Qed.

Lemma events_zero_has ev e : events_ok ev -> is_event e -> has ev e = true -> ev <> 0.
Proof. intros _ [-> | ->] Hh ->; done. Qed.

Lemma has_nonzero ev : events_ok ev -> ev <> 0 -> has ev READ = true \/ has ev WRITE = true.
Proof. unfold events_ok, has. intros [->|[->|[->| ->]]] Hne; auto. Qed.

(** [find_context] on a known descriptor. *)
Lemma find_context_ok fd m :
  inv m -> 0 <= fd ->
  (find_context fd m = Ok None /\ forall e, abs m fd e = None) \/
  (exists p c, find_context fd m = Ok (Some p) /\ contexts m !! p = Some c /\ fc_fd c = fd /\
     forall e, abs m fd e = waits_for c e).
Proof.
  intros Hi Hfd. unfold find_context. destruct (Z.leb_spec (Z.of_nat (length (m_FdContexts m))) fd).
  - left. split; [done|]. intros e. unfold abs. by rewrite lookup_ge_None_2 by lia.
  - right. destruct (at_fd_ok fd m Hi) as (p & c & -> & Hp & Hc & Hv); [lia|].
    exists p, c. split_and!; try done. intros e. by eapply abs_at.
Qed.

(** The kernel call of [delEvent] and [cancelEvent] always succeeds. *)
Lemma unregister_ok e p c m :
  inv m -> contexts m !! p = Some c -> is_event e -> has (fc_events c) e = true ->
  exists k, unregister (fc_fd c) e p c m = (true, set_epfd k m) /\ synced k p (clear e c) /\
    (forall fd, fd <> fc_fd c -> registered k fd = registered (m_epfd m) fd).
Proof.
  intros Hi Hp He Hh. unfold unregister.
  assert (fc_events c <> 0) as Hne by (intros E; rewrite E in Hh; by destruct He as [-> | ->]).
  destruct (Z.eqb_spec (fc_events c) 0); [done|].
  destruct (inv_sync _ Hi p c Hp) as [Hreg|[? _]]; [|done].
  destruct (ctl_mod _ _ (EpollEvent (Z.lor EPOLLET (Z.land (fc_events c) (Z.lnot e))) (Context p))
    _ Hreg) as (k & Hk & Hreg'). rewrite Hk. exists k. split_and!; [done| |].
  - left. by rewrite clear_fd, clear_events.
  - intros fd Hfd. by apply (ctl_other _ _ _ _ _ _ _ Hk).
Qed.

Lemma clear_waits_for e e' c : is_event e -> is_event e' -> ctx_ok c ->
  waits_for (clear e c) e' = if decide (e' = e) then None else waits_for c e'.
Proof.
  intros He He' [Hev _ _]. unfold waits_for. rewrite clear_events.
  destruct (events_cases e _ He Hev) as (_ & H2 & _ & _ & H3).
  destruct (decide (e' = e)) as [->|Hne]; [by rewrite H2|].
  rewrite (proj1 (H3 e' He' Hne)).
  destruct He as [-> | ->], He' as [-> | ->]; done.
Qed.

(** *** The operations against the abstract view *)

(** [m'] waits like [m] except for [w] at ([fd], [e]). *)
Definition abs_set (fd e : Z) (w : option (target (code U))) m m' : Prop :=
  forall fd' e', 0 <= fd' -> is_event e' ->
    abs m' fd' e' = if decide (fd' = fd /\ e' = e) then w else abs m fd' e'.

Definition abs_same m m' : Prop :=
  forall fd e, 0 <= fd -> is_event e -> abs m' fd e = abs m fd e.

Lemma abs_set_updated fd e w p c c' d k s n m :
  inv m -> contexts m !! p = Some c -> fc_fd c = fd ->
  waits_for c' e = w ->
  (forall e', is_event e' -> e' <> e -> waits_for c' e' = waits_for c e') ->
  abs_set fd e w m (updated p c' d k s n m).
Proof.
  intros Hi Hp Hfd Hw Hother fd' e' Hfd' He'. rewrite (abs_updated p c) by done. rewrite Hfd.
  destruct (decide (fd' = fd)) as [->|Hne].
  - destruct (decide (e' = e)) as [->|Hne'].
    + by rewrite decide_True.
    + rewrite decide_False by naive_solver. rewrite Hother by done.
      destruct (inv_back _ Hi p c Hp) as [_ Hv]. rewrite Hfd in Hv. symmetry. by eapply abs_at.
  - by rewrite decide_False by naive_solver.
Qed.

Lemma delEvent_ok fd e m :
  inv m -> 0 <= fd -> is_event e ->
  exists m', delEvent fd e m = Ok (match abs m fd e with Some _ => true | None => false end, m') /\
    inv m' /\ abs_set fd e None m m' /\ m_fibers (io_sched m') = m_fibers (io_sched m).
Proof.
  intros Hi Hfd He. unfold delEvent.
  destruct (find_context_ok fd m Hi Hfd) as [[-> Habs]|(p & c & -> & Hp & Hc & Habs)].
  - res_simpl. rewrite Habs. exists m. split_and!; try done.
    intros fd' e' _ _. destruct (decide _) as [[-> ->]|]; [apply Habs|done].
  - res_simpl. unfold get_ctx. rewrite Hp. cbn [deref]. res_simpl.
    rewrite Habs. unfold waits_for. pose proof (inv_ctx _ Hi p c Hp) as Hok.
    destruct (Z.land (fc_events c) e =? 0) eqn:Eh.
    + assert (has (fc_events c) e = false) as Hh by (unfold has; by rewrite Eh). rewrite Hh.
      exists m. split_and!; try done. intros fd' e' _ _.
      destruct (decide _) as [[-> ->]|]; [|done]. rewrite Habs. unfold waits_for. by rewrite Hh.
    + assert (has (fc_events c) e = true) as Hh by (unfold has; by rewrite Eh). rewrite Hh.
      destruct (unregister_ok e p c m Hi Hp He Hh) as (k & Hk & Hsync & Hother).
      rewrite Hc in Hk. rewrite Hk. cbn [negb].
      assert (getContext e (with_events (Z.land (fc_events c) (Z.lnot e)) c)
                = Ok (slot e (with_events (Z.land (fc_events c) (Z.lnot e)) c))) as ->
        by (by apply getContext_ok).
      res_simpl. fold (clear e c).
      assert (set_context p (clear e c) (add_pending (-1) (set_epfd k m))
        = updated p (clear e c) (-1) k (io_sched m) (tickle_pipe m) m) as Eu by (by destruct m).
      change (putContext e (resetContext _) _) with (clear e c). rewrite Eu.
      eexists. split; [done|]. split_and!; [|eapply abs_set_updated; try done|done].
      * apply (inv_updated p c); try done; [by apply clear_ok|apply clear_fd|].
        rewrite (clear_waits e c) by done. lia.
      * by rewrite clear_waits_for, decide_True by done.
      * intros e' He' Hne. by rewrite clear_waits_for, decide_False by done.
Qed.

Lemma cancelEvent_ok fd e m :
  inv m -> 0 <= fd -> is_event e ->
  exists m', cancelEvent fd e m = Ok (match abs m fd e with Some _ => true | None => false end, m') /\
    inv m' /\ abs_set fd e None m m' /\
    m_fibers (io_sched m') = m_fibers (io_sched m) ++
      match abs m fd e with Some w => entry_of w (-1) | None => [] end.
Proof.
  intros Hi Hfd He. unfold cancelEvent.
  destruct (find_context_ok fd m Hi Hfd) as [[-> Habs]|(p & c & -> & Hp & Hc & Habs)].
  - res_simpl. rewrite Habs. exists m. rewrite app_nil_r. split_and!; try done.
    intros fd' e' _ _. destruct (decide _) as [[-> ->]|]; [apply Habs|done].
  - res_simpl. unfold get_ctx. rewrite Hp. cbn [deref]. res_simpl.
    rewrite Habs. unfold waits_for. pose proof (inv_ctx _ Hi p c Hp) as Hok.
    destruct (Z.land (fc_events c) e =? 0) eqn:Eh.
    + assert (has (fc_events c) e = false) as Hh by (unfold has; by rewrite Eh). rewrite Hh.
      exists m. rewrite app_nil_r. split_and!; try done. intros fd' e' _ _.
      destruct (decide _) as [[-> ->]|]; [|done]. rewrite Habs. unfold waits_for. by rewrite Hh.
    + assert (has (fc_events c) e = true) as Hh by (unfold has; by rewrite Eh). rewrite Hh.
      destruct (unregister_ok e p c m Hi Hp He Hh) as (k & Hk & Hsync & Hother).
      rewrite Hc in Hk. rewrite Hk. cbn [negb].
      rewrite (triggerEvent_ok e p c (set_epfd k m)) by done. res_simpl.
      destruct (io_schedule_frame (waiter (slot e c)) (-1) (set_epfd k m)) as [n ->].
      eexists. split; [done|].
      match goal with |- inv (add_pending _ (set_context _ _ (set_pipe _ (set_sched ?s _)))) /\ _ =>
        fold (updated p (clear e c) (-1) k s n m) end.
      split_and!; [|eapply abs_set_updated; try done|].
      * apply (inv_updated p c); try done; [by apply clear_ok|apply clear_fd|].
        rewrite (clear_waits e c) by done. lia.
      * by rewrite clear_waits_for, decide_True by done.
      * intros e' He' Hne. by rewrite clear_waits_for, decide_False by done.
      * simpl. apply scheduleNoLock_fibers.
Qed.

Lemma is_READ : is_event READ.
Proof. by left. Qed.

Lemma is_WRITE : is_event WRITE.
Proof. by right. Qed.

(** The context when both its events are gone. *)
Lemma clear2_waits_for b1 b2 e c : ctx_ok c -> is_event e ->
  waits_for (clear2 b1 b2 c) e
  = if decide ((e = READ /\ b1 = true) \/ (e = WRITE /\ b2 = true)) then None else waits_for c e.
Proof.
  intros Hc He. unfold clear2.
  assert (ctx_ok (clear READ c)) as Hc1 by (apply clear_ok; [by left|done]).
  destruct b1, b2; rewrite ?clear_waits_for by auto using is_READ, is_WRITE;
    destruct He as [-> | ->]; repeat case_decide; try done; exfalso; unfold READ, WRITE in *; lia.
Qed.

Lemma clear2_events b1 b2 c :
  fc_events (clear2 b1 b2 c)
  = Z.land (fc_events c) (Z.lnot (Z.lor (if b1 then READ else 0) (if b2 then WRITE else 0))).
Proof.
  unfold clear2. destruct b1, b2; rewrite ?clear_events; simpl;
    rewrite <- ?Z.land_assoc; try done. by rewrite Z.land_m1_r.
Qed.

(** Both waiters are woken by [cancelAll]. *)
Lemma cancelAll_ok fd m :
  inv m -> 0 <= fd ->
  exists m', cancelAll fd m
    = Ok (match abs m fd READ, abs m fd WRITE with None, None => false | _, _ => true end, m') /\
    inv m' /\
    (forall fd' e, 0 <= fd' -> is_event e ->
       abs m' fd' e = if decide (fd' = fd) then None else abs m fd' e) /\
    m_fibers (io_sched m') = m_fibers (io_sched m) ++
      match abs m fd READ with Some w => entry_of w (-1) | None => [] end ++
      match abs m fd WRITE with Some w => entry_of w (-1) | None => [] end.
Proof.
  intros Hi Hfd. unfold cancelAll.
  destruct (find_context_ok fd m Hi Hfd) as [[-> Habs]|(p & c & -> & Hp & Hc & Habs)].
  { res_simpl. rewrite !Habs. exists m. rewrite app_nil_r. split_and!; try done.
    intros fd' e _ _. destruct (decide _) as [->|]; [apply Habs|done]. }
  res_simpl. unfold get_ctx. rewrite Hp. cbn [deref]. res_simpl. rewrite !Habs. unfold waits_for.
  pose proof (inv_ctx _ Hi p c Hp) as Hok.
  destruct (Z.eqb_spec (fc_events c) 0) as [E0|Hne].
  { rewrite E0. simpl. exists m. rewrite app_nil_r. split_and!; try done.
    intros fd' e _ He. destruct (decide _) as [->|]; [|done].
    rewrite Habs. unfold waits_for. rewrite E0. by destruct He as [-> | ->]. }
  destruct (inv_sync _ Hi p c Hp) as [Hreg|[? _]]; [|done]. rewrite Hc in Hreg.
  destruct (ctl_del _ _ (EpollEvent 0 (Context p)) _ Hreg) as (k & Hk & Hreg'). rewrite Hk.
  cbn [negb]. set (m1 := set_epfd k m).
  assert (contexts m1 !! p = Some c) as Hp1 by done.
  rewrite Hp1. cbn [deref]. res_simpl.
  fold (has (fc_events c) READ).
  destruct (trigger_two (has (fc_events c) READ) (has (fc_events c) WRITE) p c m1)
    as (n & s & Htwo & Hs); try done. { exact (inv_u64 m Hi). }
  destruct (trigger_if_ok (has (fc_events c) READ) READ p c m1) as (n1 & s1 & Hone & _);
    [by left|done|done|done|exact (inv_u64 m Hi)|].
  rewrite Hone in Htwo |- *. res_simpl. cbn [contexts add_pending set_context].
  rewrite lookup_insert_eq. cbn [deref]. res_simpl.
  assert (has (fc_events (if has (fc_events c) READ then clear READ c else c)) WRITE
    = has (fc_events c) WRITE) as E
    by (destruct (has (fc_events c) READ); [by apply clear_read_has|done]).
  unfold has in E at 1. rewrite E, Htwo. res_simpl.
  cbn [contexts add_pending set_context]. rewrite lookup_insert_eq. cbn [deref]. res_simpl.
  assert (fc_events (clear2 (has (fc_events c) READ) (has (fc_events c) WRITE) c) = 0) as Ez.
  { rewrite clear2_events. destruct Hok as [[->|[->|[->| ->]]] _ _]; done. }
  rewrite Ez. cbn [Z.eqb sylar_assert]. res_simpl.
  destruct (clear2_spec (has (fc_events c) READ) (has (fc_events c) WRITE) c Hok) as (Hok' & Hfd' & Hw);
    [done..|].
  eexists. split; [|split; [|split]].
  - do 2 f_equal. destruct (has_nonzero _ (co_events _ Hok) Hne) as [-> | ->]; [done|].
    by destruct (has (fc_events c) READ).
  - apply (inv_updated p c); try done.
    + intros fd' Hne'. rewrite Hc in Hne'. by apply (ctl_other _ _ _ _ _ _ _ Hk).
    + right. unfold unused. rewrite Hfd', Hc, Ez, Hreg'. done.
    + rewrite Hw. unfold b2n, b2z. destruct (has (fc_events c) READ), (has (fc_events c) WRITE); lia.
  - intros fd' e Hfd0 He. unfold m1. 
    match goal with |- abs (add_pending ?d (set_context _ ?c' (set_pipe ?n (set_sched ?s _)))) _ _ = _ =>
      change (abs (updated p c' d k s n m) fd' e = if decide (fd' = fd) then None else abs m fd' e) end.
    rewrite (abs_updated p c) by done. rewrite Hc. destruct (decide (fd' = fd)); [|done].
    unfold waits_for. rewrite Ez. by destruct He as [-> | ->].
  - cbn [io_sched add_pending set_context set_pipe set_sched]. rewrite Hs. unfold wake, m1.
    by destruct (has (fc_events c) READ), (has (fc_events c) WRITE).
Qed.

(** Growing the vector adds contexts nobody waits at. *)
Lemma contextResize_abs sz m :
  inv m -> (length (m_FdContexts m) <= sz)%nat -> abs_same m (contextResize sz m).
Proof.
  intros Hi Hle. destruct (contextResize_grow sz m Hi Hle) as (Hi0 & Hlen & Hlow & Hkeep & Hsch & Hk).
  set (m0 := contextResize _ m) in *. pose proof (inv_size _ Hi) as Hsz.
  intros fd e Hfd He. destruct (Z.lt_ge_cases fd (Z.of_nat (length (m_FdContexts m)))) as [Hl|Hg].
  - destruct (at_fd_ok fd m Hi) as (q & cq & _ & Hq & _ & Hvq); [lia|].
    rewrite (abs_at fd m q cq) by done. eapply abs_at; [by rewrite Hlow by lia|by apply Hkeep].
  - assert (abs m fd e = None) as -> by (unfold abs; by rewrite lookup_ge_None_2 by lia). unfold abs.
    destruct (m_FdContexts m0 !! Z.to_nat fd) as [[q|]|] eqn:Eq; try done.
    destruct (inv_vector _ Hi0 _ _ Eq) as (q' & cq & [= <-] & Hq & Hcq).
    rewrite Hq. cbn [mbind option_bind]. unfold waits_for.
    assert (unused (m_epfd m0) (fc_fd cq)) as Hnone by (rewrite Hk, Hcq; apply (inv_rest _ Hi); lia).
    destruct (inv_sync _ Hi0 q cq Hq) as [Hreg|[-> _]];
      [by unfold unused in Hnone; rewrite Hreg in Hnone|].
    by destruct He as [-> | ->].
Qed.

Lemma contextResize_timers sz m : io_timers (contextResize sz m) = io_timers m.
Proof. unfold contextResize. by destruct (fill_contexts _ _ _ _) as [[? ?] ?]. Qed.

(** The context of a descriptor, growing the vector if needed. *)
Lemma addEvent_context_ok fd m :
  inv m -> 0 <= fd ->
  exists p c m0, addEvent_context (needs_resize fd m) fd m = Ok (p, m0) /\ inv m0 /\
    abs_same m m0 /\ io_sched m0 = io_sched m /\
    contexts m0 !! p = Some c /\ fc_fd c = fd /\ (forall e, is_event e -> abs m fd e = waits_for c e).
Proof.
  intros Hi Hfd. unfold addEvent_context, needs_resize.
  destruct (Z.ltb_spec fd (Z.of_nat (length (m_FdContexts m)))) as [Hlt|Hge]; cbn [negb].
  - destruct (at_fd_ok fd m Hi) as (p & c & -> & Hp & Hc & Hv); [lia|]. res_simpl.
    exists p, c, m. split_and!; try done. intros. by eapply abs_at.
  - pose proof (inv_size _ Hi) as Hsz.
    assert (fd + 1 <= fd * 3 / 2) as Hgrow by (apply Z.div_le_lower_bound; lia).
    destruct (contextResize_grow (Z.to_nat (fd * 3 / 2)) m Hi) as (Hi0 & Hlen & Hlow & Hkeep & Hsch & Hk);
      [lia|].
    set (m0 := contextResize _ m) in *.
    destruct (at_fd_ok fd m0 Hi0) as (p & c & -> & Hp & Hc & Hv); [lia|]. res_simpl.
    assert (abs_same m m0) as Habs by (apply contextResize_abs; [done|lia]).
    exists p, c, m0. split_and!; try done. intros e He.
    rewrite <- (Habs fd e Hfd He). by eapply abs_at.
Qed.

(** The context with a new waiter. *)
Definition enlist (e : Z) (x : EventContext U) c : FdContext U :=
  putContext e x (with_events (Z.lor (fc_events c) e) c).

Lemma enlist_ok e x c :
  is_event e -> ctx_ok c -> has (fc_events c) e = false -> slot_ok true x ->
  ctx_ok (enlist e x c) /\ fc_fd (enlist e x c) = fc_fd c /\
  fc_events (enlist e x c) = Z.lor (fc_events c) e /\
  waits (enlist e x c) = S (waits c) /\ waits_for (enlist e x c) e = Some (waiter x) /\
  (forall e', is_event e' -> e' <> e -> waits_for (enlist e x c) e' = waits_for c e').
Proof.
  intros He [Hev Hr Hw] Hh Hx. destruct (events_cases e _ He Hev) as (_ & _ & H3 & H4 & H5).
  assert (fc_events (enlist e x c) = Z.lor (fc_events c) e) as Ee
    by (unfold enlist, putContext; by destruct (e =? READ)).
  assert (slot e (enlist e x c) = x) as Es by (by destruct He as [-> | ->]).
  assert (forall e', is_event e' -> e' <> e -> slot e' (enlist e x c) = slot e' c) as Eo
    by (intros e' He' Hne; destruct He as [-> | ->], He' as [-> | ->]; done).
  split_and!; try done.
  - split; rewrite ?Ee; [done|..].
    + destruct (Z.eq_dec e READ) as [->|Hne].
      * change (fc_read (enlist READ x c)) with x. by rewrite H4.
      * rewrite (proj2 (H5 READ is_READ ltac:(done))).
        change (fc_read (enlist e x c)) with (slot READ (enlist e x c)). rewrite Eo by (auto using is_READ).
        done.
    + destruct (Z.eq_dec e WRITE) as [->|Hne].
      * change (fc_write (enlist WRITE x c)) with x. by rewrite H4.
      * rewrite (proj2 (H5 WRITE is_WRITE ltac:(done))).
        change (fc_write (enlist e x c)) with (slot WRITE (enlist e x c)).
        rewrite Eo by (auto using is_WRITE). done.
  - unfold enlist, putContext. by destruct (e =? READ).
  - unfold waits. rewrite Ee. destruct He as [-> | ->]; rewrite H4, Hh;
      [rewrite (proj2 (H5 WRITE is_WRITE ltac:(done)))|rewrite (proj2 (H5 READ is_READ ltac:(done)))];
      lia.
  - unfold waits_for. by rewrite Ee, H4, Es.
  - intros e' He' Hne. unfold waits_for. by rewrite Ee, Eo, (proj2 (H5 e' He' Hne)).
Qed.

(** The kernel's answer to [addEvent]. *)
Lemma add_ctl p c m e :
  inv m -> contexts m !! p = Some c ->
  let op := if fc_events c =? 0 then EPOLL_CTL_ADD else EPOLL_CTL_MOD in
  let ev := EpollEvent (Z.lor EPOLLET (Z.lor (fc_events c) e)) (Context p) in
  exists ok k, epoll_ctl (m_epfd m) op (fc_fd c) ev = (ok, k) /\
    (if ok : bool then registered k (fc_fd c) = Some ev else k = m_epfd m) /\
    (forall fd, fd <> fc_fd c -> registered k fd = registered (m_epfd m) fd).
Proof.
  intros Hi Hp op ev. destruct (epoll_ctl (m_epfd m) op (fc_fd c) ev) as [ok k] eqn:Ek.
  exists ok, k. split; [done|]. split.
  - destruct ok; [|by eapply ctl_fail]. subst op. destruct (Z.eqb_spec (fc_events c) 0) as [|Hne].
    + by eapply ctl_add.
    + destruct (inv_sync _ Hi p c Hp) as [Hreg|[? _]]; [|done].
      destruct (ctl_mod _ _ ev _ Hreg) as (k' & Hk' & Hr'). congruence.
  - intros fd Hfd. by apply (ctl_other _ _ _ _ _ _ _ Ek).
Qed.

Definition new_waiter (cb : option (code U)) (f : fid) : target (code U) :=
  match cb with Some k => ToCb (Some k) | None => ToFiber (Some f) end.

Lemma addEvent_ok fd e cb f m :
  inv m -> 0 <= fd -> is_event e ->
  match abs m fd e with
  | Some _ => exists s, addEvent fd e cb true (f, EXEC) m = Err (FAssert s)
  | None => exists r m', addEvent fd e cb true (f, EXEC) m = Ok (r, m') /\ inv m' /\
      m_fibers (io_sched m') = m_fibers (io_sched m) /\
      ((r = 0 /\ abs_set fd e (Some (new_waiter cb f)) m m') \/ (r = -1 /\ abs_same m m'))
  end.
Proof.
  intros Hi Hfd He. unfold addEvent.
  destruct (addEvent_context_ok fd m Hi Hfd) as (p & c & m0 & -> & Hi0 & Hsame & Hsch & Hp & Hc & Habs).
  res_simpl. unfold addEvent_register, get_ctx. rewrite Hp. cbn [deref]. res_simpl.
  rewrite (Habs e He). pose proof (inv_ctx _ Hi0 p c Hp) as Hok. unfold waits_for.
  change (Z.land (fc_events c) e =? 0) with (Z.land (fc_events c) e =? 0).
  destruct (has (fc_events c) e) eqn:Hh; unfold has in Hh; [apply negb_true_iff in Hh|apply negb_false_iff in Hh];
    rewrite Hh; cbn [sylar_assert]; res_simpl; [by eexists|].
  destruct (add_ctl p c m0 e Hi0 Hp) as (ok & k & Hk & Hreg & Hother). simpl in Hk. rewrite Hc in Hk.
  rewrite Hk. destruct ok; cbn [negb].
  - rewrite getContext_ok by done. res_simpl.
    assert (slot e (with_events (Z.lor (fc_events c) e) c) = slot e c) as -> by (by destruct He as [-> | ->]).
    pose proof (slot_of e c Hok He) as Hslot. unfold has in Hslot. rewrite Hh in Hslot. simpl in Hslot.
    rewrite Hslot. cbn [ec_scheduler ec_fiber ec_cb empty_event negb andb sylar_assert]. res_simpl.
    set (x := match cb with Some _ => EC true None cb | None => EC true (Some f) None end).
    assert (slot_ok true x /\ waiter x = new_waiter cb f) as [Hx Hwx]
      by (subst x; destruct cb; simpl; split_and!; eauto).
    destruct (enlist_ok e x c He Hok) as (Hok' & Hfd' & Hev' & Hw & Hwe & Hwo);
      [unfold has; by rewrite Hh|done|].
    assert ((match cb with
             | Some _ => mret (EC true None cb)
             | None => _ ← sylar_assert (bool_decide ((f, EXEC).2 = EXEC)) "fiber->getState()==EXEC";
                       mret (EC true (Some f) None)
             end : res (EventContext U)) = Ok x) as Ex by (subst x; by destruct cb).
    cbn [fst snd] in Ex |- *. rewrite Ex. res_simpl.
    eexists 0, _. split; [done|].
    assert (set_context p (enlist e x c) (add_pending 1 (set_epfd k m0))
      = updated p (enlist e x c) 1 k (io_sched m0) (tickle_pipe m0) m0) as Eu by (by destruct m0).
    fold (enlist e x c). rewrite Eu. split_and!.
    + apply (inv_updated p c); try done; [|lia]. left. rewrite Hfd', Hev'. exact Hreg.
    + simpl. by rewrite Hsch.
    + left. split; [done|]. rewrite <- Hwx. intros fd' e' Hfd'0 He'.
      rewrite (abs_set_updated fd e (Some (waiter x)) p c) by done.
      destruct (decide _); [done|]. by apply Hsame.
  - rewrite Hreg. eexists (-1), _. split; [done|].
    replace (set_epfd (m_epfd m0) m0) with m0 by (by destruct m0). split_and!; [done|by rewrite Hsch|by right].
Qed.

(** *** Events from [epoll_wait] *)

(** The events [idle] derives from what the kernel reports. *)
Definition reported (events : Z) (e : Z) : bool :=
  has events (if e =? READ then EPOLLIN else EPOLLOUT) || has events (Z.lor EPOLLERR EPOLLHUP).

Definition real_of (events : Z) : Z :=
  Z.lor (if reported events READ then READ else NONE) (if reported events WRITE then WRITE else NONE).

Lemma has_lor a b e : (e = EPOLLIN \/ e = EPOLLOUT) -> has (Z.lor a b) e = has a e || has b e.
Proof.
  intros He. unfold has. rewrite Z.land_lor_distr_l.
  destruct (Z.eqb_spec (Z.land a e) 0) as [->|Ha]; [by rewrite Z.lor_0_l|].
  destruct (Z.eqb_spec (Z.lor (Z.land a e) (Z.land b e)) 0) as [E|]; [|done].
  apply Z.lor_eq_0_iff in E as [? _]. done.
Qed.

Lemma real_events_eq events :
  (let ev := if Z.land events (Z.lor EPOLLERR EPOLLHUP) =? 0 then events
             else Z.lor events (Z.lor EPOLLIN EPOLLOUT) in
   Z.lor (if Z.land ev EPOLLIN =? 0 then NONE else READ)
         (if Z.land ev EPOLLOUT =? 0 then NONE else WRITE)) = real_of events.
Proof.
  unfold real_of, reported. fold (has events (Z.lor EPOLLERR EPOLLHUP)).
  assert (has events (Z.lor EPOLLERR EPOLLHUP)
    = negb (Z.land events (Z.lor EPOLLERR EPOLLHUP) =? 0)) as -> by done.
  cbv zeta. destruct (Z.land events (Z.lor EPOLLERR EPOLLHUP) =? 0) eqn:E; cbn [negb].
  - rewrite !orb_false_r. unfold has. simpl (if READ =? READ then _ else _).
    simpl (if WRITE =? READ then _ else _).
    by destruct (Z.land events EPOLLIN =? 0), (Z.land events EPOLLOUT =? 0).
  - rewrite !orb_true_r.
    pose proof (has_lor events (Z.lor EPOLLIN EPOLLOUT) EPOLLIN ltac:(by left)) as H1.
    pose proof (has_lor events (Z.lor EPOLLIN EPOLLOUT) EPOLLOUT ltac:(by right)) as H2.
    rewrite orb_true_r in H1, H2. unfold has in H1, H2.
    apply negb_true_iff in H1, H2. by rewrite H1, H2.
Qed.

Lemma real_of_cases events :
  events_ok (real_of events) /\ has (real_of events) READ = reported events READ /\
  has (real_of events) WRITE = reported events WRITE.
Proof.
  unfold real_of. destruct (reported events READ), (reported events WRITE);
    (split; [unfold events_ok; simpl; auto|done]).
Qed.

(** The reported events may be handled: nothing else is waited for, or they
    are all waited for. *)
Definition handled c (events : Z) : Prop :=
  (has (fc_events c) READ && reported events READ = false /\
   has (fc_events c) WRITE && reported events WRITE = false) \/
  ((reported events READ = true -> has (fc_events c) READ = true) /\
   (reported events WRITE = true -> has (fc_events c) WRITE = true)).

#[export] Instance handled_dec c events : Decision (handled c events).
Proof. unfold handled. apply _. Defined.

Lemma land_zero_iff a b : events_ok a -> events_ok b ->
  (Z.land a b =? 0) = negb (has a READ && has b READ) && negb (has a WRITE && has b WRITE).
Proof. unfold events_ok. intros [->|[->|[->| ->]]] [->|[->|[->| ->]]]; done. Qed.

(** The kernel call for the events that are left. *)
Lemma left_ctl p c m real :
  inv m -> contexts m !! p = Some c -> events_ok real -> Z.land (fc_events c) real <> 0 ->
  let left := Z.land (fc_events c) (Z.lnot real) in
  let op := if left =? 0 then EPOLL_CTL_DEL else EPOLL_CTL_MOD in
  let ev := EpollEvent (Z.lor EPOLLET left) (Context p) in
  exists k, epoll_ctl (m_epfd m) op (fc_fd c) ev = (true, k) /\
    registered k (fc_fd c) = (if left =? 0 then None else Some ev) /\
    (forall fd, fd <> fc_fd c -> registered k fd = registered (m_epfd m) fd).
Proof.
  intros Hi Hp Hr Hne left op ev.
  assert (fc_events c <> 0) as Hne' by (intros E; by rewrite E in Hne).
  destruct (inv_sync _ Hi p c Hp) as [Hreg|[? _]]; [|done].
  assert (exists k, epoll_ctl (m_epfd m) op (fc_fd c) ev = (true, k) /\
    registered k (fc_fd c) = (if left =? 0 then None else Some ev)) as (k & Hk & Hreg').
  { subst op. destruct (left =? 0); [by eapply ctl_del|by eapply ctl_mod]. }
  exists k. split_and!; [done|done|]. intros fd Hfd. by apply (ctl_other _ _ _ _ _ _ _ Hk).
Qed.

Lemma handle_event_ok p c events m :
  inv m -> contexts m !! p = Some c -> handled c events ->
  exists m', handle_event (EpollEvent events (Context p)) m = Ok m' /\ inv m' /\
    (forall fd e, 0 <= fd -> is_event e ->
       abs m' fd e = if decide (fd = fc_fd c /\ reported events e = true) then None else abs m fd e) /\
    m_fibers (io_sched m') = m_fibers (io_sched m) ++
      (if has (fc_events c) READ then wake (reported events READ) READ c else []) ++
      (if has (fc_events c) WRITE then wake (reported events WRITE) WRITE c else []).
Proof.
  intros Hi Hp Hh. pose proof (inv_ctx _ Hi p c Hp) as Hok.
  destruct (inv_back _ Hi p c Hp) as [Hfd0 Hvec].
  unfold handle_event, get_ctx. cbn [ev_data ev_events]. rewrite Hp. cbn [deref]. res_simpl.
  pose proof (real_events_eq events) as Er. cbv zeta in Er. rewrite Er. clear Er.
  destruct (real_of_cases events) as (Hrok & HrR & HrW). unfold NONE.
  destruct (Z.eqb_spec (Z.land (fc_events c) (real_of events)) 0) as [Hz|Hnz].
  - apply Z.eqb_eq in Hz. rewrite (land_zero_iff _ _ (co_events _ Hok) Hrok), HrR, HrW in Hz.
    apply andb_true_iff in Hz as [Hz1 Hz2]. apply negb_true_iff in Hz1, Hz2.
    exists m. split_and!; [done|done| |].
    + intros fd e Hfd He. destruct (decide _) as [[-> Hrep]|]; [|done].
      rewrite (abs_at (fc_fd c) m p c) by done. unfold waits_for.
      destruct He as [-> | ->]; rewrite Hrep in *; [destruct (has (fc_events c) READ)|destruct (has (fc_events c) WRITE)]; done.
    + destruct (has (fc_events c) READ), (has (fc_events c) WRITE), (reported events READ),
        (reported events WRITE); simpl in *; try done; by rewrite app_nil_r.
  - destruct (left_ctl p c m (real_of events) Hi Hp Hrok Hnz) as (k & Hk & Hreg & Hother).
    cbv zeta in Hk. rewrite Hk. cbn [negb].
    fold (has (real_of events) READ). fold (has (real_of events) WRITE). rewrite HrR, HrW.
    assert ((reported events READ = true -> has (fc_events c) READ = true) /\
            (reported events WRITE = true -> has (fc_events c) WRITE = true)) as [H1 H2].
    { destruct Hh as [[Ha Hb]|Hh]; [|done]. destruct Hnz. apply Z.eqb_eq.
      by rewrite (land_zero_iff _ _ (co_events _ Hok) Hrok), HrR, HrW, Ha, Hb. }
    destruct (trigger_two (reported events READ) (reported events WRITE) p c (set_epfd k m))
      as (n & s & Htwo & Hs); try done. { exact (inv_u64 m Hi). }
    destruct (clear2_spec (reported events READ) (reported events WRITE) c Hok H1 H2) as (Hok' & Hfd' & Hw).
    rewrite Htwo. eexists. split; [done|].
    match goal with |- inv (add_pending ?d (set_context _ ?c' (set_pipe ?n (set_sched ?s _)))) /\ _ =>
      change (add_pending d (set_context p c' (set_pipe n (set_sched s (set_epfd k m)))))
        with (updated p c' d k s n m) end.
    split_and!.
    + apply (inv_updated p c); try done.
      * unfold synced, unused. rewrite Hfd', Hreg, clear2_events.
        change (Z.lor (if reported events READ then READ else 0)
                  (if reported events WRITE then WRITE else 0)) with (real_of events).
        destruct (Z.eqb_spec (Z.land (fc_events c) (Z.lnot (real_of events))) 0); auto.
      * rewrite Hw. unfold b2n, b2z. destruct (reported events READ), (reported events WRITE); lia.
    + intros fd e Hfd He. rewrite (abs_updated p c) by done.
      destruct (decide (fd = fc_fd c)) as [->|Hne].
      * rewrite clear2_waits_for, (abs_at (fc_fd c) m p c) by done.
        destruct He as [-> | ->]; repeat case_decide; try done; exfalso; unfold READ, WRITE in *; naive_solver.
      * by rewrite decide_False by naive_solver.
    + simpl. rewrite Hs. f_equal. f_equal; unfold wake.
      * destruct (reported events READ); [by rewrite H1|]. by destruct (has (fc_events c) READ).
      * destruct (reported events WRITE); [by rewrite H2|]. by destruct (has (fc_events c) WRITE).
Qed.

(** The other case trips the assertion of [triggerEvent]. *)
Lemma handle_event_aborts p c events m :
  inv m -> contexts m !! p = Some c -> ~ handled c events ->
  exists s, handle_event (EpollEvent events (Context p)) m = Err (FAssert s).
Proof.
  intros Hi Hp Hh. pose proof (inv_ctx _ Hi p c Hp) as Hok.
  unfold handle_event, get_ctx. cbn [ev_data ev_events]. rewrite Hp. cbn [deref]. res_simpl.
  pose proof (real_events_eq events) as Er. cbv zeta in Er. rewrite Er. clear Er.
  destruct (real_of_cases events) as (Hrok & HrR & HrW). unfold NONE, handled in *.
  destruct (Z.eqb_spec (Z.land (fc_events c) (real_of events)) 0) as [Hz|Hnz].
  { destruct Hh. left. apply Z.eqb_eq in Hz.
    rewrite (land_zero_iff _ _ (co_events _ Hok) Hrok), HrR, HrW in Hz.
    apply andb_true_iff in Hz as [Hz1 Hz2]. by apply negb_true_iff in Hz1, Hz2. }
  destruct (left_ctl p c m (real_of events) Hi Hp Hrok Hnz) as (k & Hk & _ & _).
  cbv zeta in Hk. rewrite Hk. cbn [negb].
  fold (has (real_of events) READ). fold (has (real_of events) WRITE). rewrite HrR, HrW.
  assert ((Z.land (fc_events c) (real_of events) =? 0) = false) as Hz by (by apply Z.eqb_neq).
  rewrite (land_zero_iff _ _ (co_events _ Hok) Hrok), HrR, HrW in Hz.
  destruct (has (fc_events c) READ) eqn:E1, (has (fc_events c) WRITE) eqn:E2,
    (reported events READ) eqn:E3, (reported events WRITE) eqn:E4; simpl in Hz;
    try discriminate; try (destruct Hh; right; split; congruence).
  - destruct (trigger_if_ok true READ p c (set_epfd k m)) as (n & s & -> & _);
      [by left|done|done|done|exact (inv_u64 m Hi)|].
    res_simpl. unfold trigger_if, triggerEvent, get_ctx. cbn [contexts add_pending set_context].
    rewrite lookup_insert_eq. cbn [deref]. res_simpl.
    pose proof (clear_read_has c Hok) as Hc. rewrite E2 in Hc. unfold has in Hc.
    rewrite Hc. by eexists.
  - unfold trigger_if, triggerEvent, get_ctx. cbn [contexts set_epfd]. rewrite Hp. cbn [deref]. res_simpl.
    unfold has in E1. rewrite E1. by eexists.
Qed.

(** *** Reachable states *)

(** *** The destructor *)

Lemma delete_contexts_ok l : forall h : gmap ptr (FdContext U),
  NoDup l -> (forall o, o ∈ l -> exists p, o = Some p /\ is_Some (h !! p)) ->
  (forall p c, h !! p = Some c -> Some p ∈ l) -> delete_contexts l h = Ok ∅.
Proof.
  induction l as [|o l IH]; intros h Hnd Hl Hh.
  - simpl. f_equal. apply map_empty. intros p. destruct (h !! p) as [c|] eqn:E; [|done].
    by apply Hh, not_elem_of_nil in E.
  - apply NoDup_cons in Hnd as [Hno Hnd]. destruct (Hl o ltac:(by left)) as (p & -> & [c Hc]).
    cbn [delete_contexts]. rewrite Hc. cbn [deref]. res_simpl. apply IH; [done|..].
    + intros o Ho. destruct (Hl o ltac:(by right)) as (q & -> & Hq). exists q. split; [done|].
      rewrite lookup_delete_ne; [done|]. by intros ->.
    + intros q d [Hne Hq]%lookup_delete_Some. apply Hh, elem_of_cons in Hq as [[= ->]|?]; done.
Qed.

(** The destructor deletes every context once and leaves none. *)
Lemma destructor_frees m : inv m -> exists m', IOManager_delete m = Ok m' /\ contexts m' = ∅.
Proof.
  intros Hi. unfold IOManager_delete. rewrite delete_contexts_ok.
  - res_simpl. by eexists.
  - apply NoDup_alt. intros i j o Ei Ej.
    destruct (inv_vector _ Hi _ _ Ei) as (p & c & -> & Hc & Hfi), (inv_vector _ Hi _ _ Ej) as (q & d & E & Hd & Hfj).
    injection E as <-. rewrite Hc in Hd. injection Hd as <-. lia.
  - intros o [i Ho]%list_elem_of_lookup. destruct (inv_vector _ Hi _ _ Ho) as (p & c & -> & Hc & _). eauto.
  - intros p c Hc. destruct (inv_back _ Hi _ _ Hc) as [_ Hv]. by eapply list_elem_of_lookup_2.
Qed.

(** A step: a call of a thread of the scheduler, an event the kernel reports
    for a registered descriptor, or anything that touches only the scheduler,
    the timers and the pipe. *)
Inductive io_step m : iom -> Prop :=
| IS_add fd e cb f r m' : 0 <= fd -> is_event e ->
    addEvent fd e cb true (f, EXEC) m = Ok (r, m') -> io_step m m'
| IS_del fd e r m' : 0 <= fd -> is_event e -> delEvent fd e m = Ok (r, m') -> io_step m m'
| IS_cancel fd e r m' : 0 <= fd -> is_event e -> cancelEvent fd e m = Ok (r, m') -> io_step m m'
| IS_cancel_all fd r m' : 0 <= fd -> cancelAll fd m = Ok (r, m') -> io_step m m'
| IS_event ev m' : handle_event ev m = Ok m' ->
    (forall p, ev_data ev = Context p -> is_Some (contexts m !! p)) -> io_step m m'
| IS_other s t n : io_step m (set_pipe n (set_timers t (set_sched s m))).

Inductive io_reachable : iom -> Prop :=
| IR_new now tickle_fd ids k s m :
    (forall fd, registered k fd = None) ->
    IOManager_new now tickle_fd ids true true true k s = Ok m -> io_reachable m
| IR_step m m' : io_reachable m -> io_step m m' -> io_reachable m'.

Lemma inv_other s t n m : inv m -> inv (set_pipe n (set_timers t (set_sched s m))).
Proof. by intros []; split. Qed.

Lemma inv_new now tickle_fd ids k s m :
  (forall fd, registered k fd = None) ->
  IOManager_new now tickle_fd ids true true true k s = Ok m -> inv m.
Proof.
  intros Hk. unfold IOManager_new. cbn [sylar_assert]. res_simpl.
  set (ev := EpollEvent (Z.lor EPOLLIN EPOLLET) TickleFd).
  destruct (epoll_ctl k EPOLL_CTL_ADD tickle_fd ev) as [ok k'] eqn:Ek.
  destruct ok; cbn [sylar_assert]; res_simpl; [|done].
  assert (forall fd, unused k' fd) as Hun.
  { intros fd. unfold unused. destruct (decide (fd = tickle_fd)) as [->|Hne].
    - by rewrite (ctl_add _ _ _ _ Ek).
    - by rewrite (ctl_other _ _ _ _ _ _ _ Ek Hne), Hk. }
  set (m0 := contextResize 32 _). assert (inv m0) as Hi.
  { subst m0. unfold contextResize. cbn [m_FdContexts contexts next_ptr].
    rewrite take_nil, app_nil_l.
    destruct (fill_contexts_none (32 - length (@nil (option ptr))) 0 ∅ 0)
      as (h' & E & Hnew & _ & Hb & Hsum); [by intros q c|].
    rewrite E.
    assert (forall q c, h' !! q = Some c -> (q < 32)%nat /\ c = new_context (Z.of_nat q)) as Hall.
    { intros q c Hq. pose proof (Hb q c Hq) as Hlt. simpl in Hlt. split; [done|].
      pose proof (Hnew q Hlt) as Hn. rewrite Nat.add_0_l, Hq in Hn. injection Hn as ->.
      by rewrite Z.add_0_l. }
    assert (forall i, (i < 32)%nat ->
      map Some (seq 0 (32 - length (@nil (option ptr)))) !! i = Some (Some i)) as Hvec
      by (intros i Hlt; change (map Some ?l) with (Some <$> l);
          by rewrite list_lookup_fmap, lookup_seq_lt by done).
    split; cbn [m_FdContexts contexts next_ptr m_epfd m_pendingEventCount].
    - by rewrite length_map, length_seq.
    - intros i o Ho. assert (i < 32)%nat as Hlt
        by (apply lookup_lt_Some in Ho; by rewrite length_map, length_seq in Ho).
      rewrite Hvec in Ho by done. injection Ho as <-.
      exists i, (new_context (Z.of_nat i)). split_and!; [done| |done].
      pose proof (Hnew i Hlt) as Hn. by rewrite Nat.add_0_l, Z.add_0_l in Hn.
    - intros p c [Hlt ->]%Hall. simpl. split; [lia|]. rewrite Nat2Z.id. by apply Hvec.
    - intros p c [_ ->]%Hall. apply new_context_ok.
    - intros p c [_ ->]%Hall. right. split; [done|apply Hun].
    - intros fd _. apply Hun.
    - intros p c [Hlt _]%Hall. simpl. lia.
    - rewrite Hsum. by unfold map_sum. }
  destruct (Scheduler.start ids (io_sched m0)) as [s'|] eqn:Es; [|done]. res_simpl.
  intros [= <-]. by destruct Hi; split.
Qed.

Lemma handle_event_cases ev m :
  inv m -> (forall p, ev_data ev = Context p -> is_Some (contexts m !! p)) ->
  (exists m', handle_event ev m = Ok m' /\ inv m') \/
  (exists s, handle_event ev m = Err (FAssert s)).
Proof.
  intros Hi Hev. destruct ev as [events [|p]].
  - left. eexists. split; [done|]. by destruct Hi; split.
  - destruct (Hev p eq_refl) as [c Hp].
    destruct (decide ((has (fc_events c) READ && reported events READ = false /\
       has (fc_events c) WRITE && reported events WRITE = false) \/
      ((reported events READ = true -> has (fc_events c) READ = true) /\
       (reported events WRITE = true -> has (fc_events c) WRITE = true)))) as [Hh|Hh].
    + left. destruct (handle_event_ok p c events m Hi Hp Hh) as (m' & Hm & Hi' & _). eauto.
    + right. by eapply handle_event_aborts.
Qed.

Lemma reachable_inv m : io_reachable m -> inv m.
Proof.
  induction 1 as [now tfd ids k s m Hk Hnew|m m' _ IH Hstep]; [by eapply inv_new|].
  destruct Hstep as [fd e cb f r m' Hfd He Hr|fd e r m' Hfd He Hr|fd e r m' Hfd He Hr
    |fd r m' Hfd Hr|ev m' Hr Hev|s t n].
  - pose proof (addEvent_ok fd e cb f m IH Hfd He) as H1.
    destruct (abs m fd e); [destruct H1 as [? H1]; congruence|].
    destruct H1 as (r' & m1 & H1 & Hi & _). congruence.
  - destruct (delEvent_ok fd e m IH Hfd He) as (m1 & H1 & Hi & _). congruence.
  - destruct (cancelEvent_ok fd e m IH Hfd He) as (m1 & H1 & Hi & _). congruence.
  - destruct (cancelAll_ok fd m IH Hfd) as (m1 & H1 & Hi & _). congruence.
  - destruct (handle_event_cases ev m IH Hev) as [(m1 & H1 & Hi)|[s H1]]; congruence.
  - by apply inv_other.
Qed.

(** After [delEvent] or [cancelEvent] the descriptor is still registered. *)
Lemma call_registered fd e m m' :
  inv m -> 0 <= fd -> is_event e ->
  delEvent fd e m = Ok (true, m') \/ cancelEvent fd e m = Ok (true, m') ->
  fd < Z.of_nat (length (m_FdContexts m')) /\ is_Some (registered (m_epfd m') fd).
Proof.
  intros Hi Hfd He Hcall.
  destruct (find_context_ok fd m Hi Hfd) as [[Hn _]|(p & c & Hfind & Hp & Hc & _)].
  { unfold delEvent, cancelEvent in Hcall. rewrite Hn in Hcall. by destruct Hcall. }
  destruct (inv_back _ Hi p c Hp) as [_ Hv]. rewrite Hc in Hv. apply lookup_lt_Some in Hv.
  unfold delEvent, cancelEvent, get_ctx in Hcall. rewrite Hfind in Hcall. res_simpl. rewrite Hp in Hcall.
  cbn [deref] in Hcall. res_simpl.
  destruct (Z.land (fc_events c) e =? 0) eqn:Eh; [by destruct Hcall|].
  assert (has (fc_events c) e = true) as Hh by (unfold has; by rewrite Eh).
  assert (fc_events c <> 0) as Hne by (intros E; rewrite E in Hh; by destruct He as [-> | ->]).
  unfold unregister in Hcall. destruct (Z.eqb_spec (fc_events c) 0); [done|].
  destruct (inv_sync _ Hi p c Hp) as [Hreg|[? _]]; [|done]. rewrite Hc in Hreg.
  destruct (ctl_mod _ _ (EpollEvent (Z.lor EPOLLET (Z.land (fc_events c) (Z.lnot e))) (Context p))
    _ Hreg) as (k & Hk & Hreg'). rewrite Hk in Hcall. cbn [negb] in Hcall.
  rewrite getContext_ok in Hcall by done. 
  rewrite (triggerEvent_ok e p c (set_epfd k m)) in Hcall
    by (done || by eapply inv_ctx). res_simpl.
  destruct (io_schedule_frame (waiter (slot e c)) (-1) (set_epfd k m)) as [np En]. rewrite En in Hcall.
  destruct Hcall as [[= <-]|[= <-]]; simpl; (split; [lia|eauto]).
Qed.

(** A descriptor nobody waits for is closed. *)
Lemma inv_closed fd m : inv m -> 0 <= fd -> (forall e, is_event e -> abs m fd e = None) ->
  inv (set_epfd (epoll_closed (m_epfd m) fd) m).
Proof.
  intros Hi Hfd Hn. assert (forall g, unused (m_epfd m) g -> unused (epoll_closed (m_epfd m) fd) g) as Hun.
  { intros g Hg. unfold unused in *. destruct (decide (g = fd)) as [->|]; [by rewrite closed_gone|].
    by rewrite closed_other. }
  assert (forall p c, contexts m !! p = Some c -> fc_fd c = fd -> fc_events c = 0) as H0'.
  { intros p c Hpc E. destruct (decide (fc_events c = 0)) as [|Hne]; [done|exfalso].
    destruct (inv_back _ Hi p c Hpc) as [_ Hvec]. rewrite E in Hvec.
    destruct (has_nonzero _ (co_events _ (inv_ctx _ Hi p c Hpc)) Hne) as [He|He];
      [specialize (Hn READ is_READ)|specialize (Hn WRITE is_WRITE)]; rewrite (abs_at fd m p c) in Hn by done;
      unfold waits_for in Hn; by rewrite He in Hn. }
  destruct Hi as [Hs Hv Hb Hc Hy Hr Hf Hp]. split; try done; cbn [contexts m_epfd m_FdContexts set_epfd]; [|by auto].
  intros p c Hpc. unfold synced. destruct (decide (fc_fd c = fd)) as [E|Hne].
  - right. split; [by eapply H0'|]. unfold unused. by rewrite E, closed_gone.
  - rewrite closed_other by done. destruct (Hy p c Hpc) as [?|[? ?]]; auto.
Qed.

(** *** Properties *)

(** C1.  In every reachable state of the IO manager, under any sequence of
    calls and kernel events: [m_pendingEventCount] is the number of events
    waited for; an event is waited for by exactly one callback or fiber, with a
    scheduler, and the other slots are empty; the kernel watches exactly the
    events that are waited for; and every descriptor below the size of the
    vector has its own context. *)
Theorem io_consistent m :
  io_reachable m ->
  m_pendingEventCount m = u64 (Z.of_nat (map_sum waits (contexts m))) /\
  (forall p c, contexts m !! p = Some c -> ctx_ok c /\ synced (m_epfd m) p c) /\
  (forall fd, 0 <= fd < Z.of_nat (length (m_FdContexts m)) ->
     exists p c, at_fd fd m = Ok p /\ contexts m !! p = Some c /\ fc_fd c = fd).
Proof.
  intros Hi%reachable_inv. split_and!.
  - apply Hi.
  - intros p c Hp. split; [by eapply inv_ctx|by eapply inv_sync].
  - intros fd Hfd. destruct (at_fd_ok fd m Hi Hfd) as (p & c & ? & ? & ? & _). eauto.
Qed.

(** C2.  The calls implement the abstract map "who waits for which event of
    which descriptor": [addEvent] enters a waiter (or fails with -1 and changes
    nothing, or asserts when somebody waits already), [delEvent] removes it
    without waking it, [cancelEvent] removes it and schedules exactly that
    callback or fiber, [cancelAll] does so for both events; each returns
    whether there was something to do. *)
Theorem events_refine m (fd e : Z) (cb : option (code U)) (f : fid) :
  io_reachable m -> 0 <= fd -> is_event e ->
  match abs m fd e with
  | Some _ => exists s, addEvent fd e cb true (f, EXEC) m = Err (FAssert s)
  | None => exists r m', addEvent fd e cb true (f, EXEC) m = Ok (r, m') /\
      m_fibers (io_sched m') = m_fibers (io_sched m) /\
      ((r = 0 /\ abs_set fd e (Some (new_waiter cb f)) m m') \/ (r = -1 /\ abs_same m m'))
  end /\
  (exists m', delEvent fd e m = Ok (match abs m fd e with Some _ => true | None => false end, m') /\
     abs_set fd e None m m' /\ m_fibers (io_sched m') = m_fibers (io_sched m)) /\
  (exists m', cancelEvent fd e m = Ok (match abs m fd e with Some _ => true | None => false end, m') /\
     abs_set fd e None m m' /\
     m_fibers (io_sched m') = m_fibers (io_sched m) ++
       match abs m fd e with Some w => entry_of w (-1) | None => [] end) /\
  (exists m', cancelAll fd m
       = Ok (match abs m fd READ, abs m fd WRITE with None, None => false | _, _ => true end, m') /\
     (forall fd' e', 0 <= fd' -> is_event e' ->
        abs m' fd' e' = if decide (fd' = fd) then None else abs m fd' e') /\
     m_fibers (io_sched m') = m_fibers (io_sched m) ++
       match abs m fd READ with Some w => entry_of w (-1) | None => [] end ++
       match abs m fd WRITE with Some w => entry_of w (-1) | None => [] end).
Proof.
  intros Hi%reachable_inv Hfd He. split_and!.
  - pose proof (addEvent_ok fd e cb f m Hi Hfd He) as H1. destruct (abs m fd e); [done|].
    destruct H1 as (r & m' & ? & _ & ? & ?). eauto 10.
  - destruct (delEvent_ok fd e m Hi Hfd He) as (m' & ? & _ & ? & ?). eauto.
  - destruct (cancelEvent_ok fd e m Hi Hfd He) as (m' & ? & _ & ? & ?). eauto.
  - destruct (cancelAll_ok fd m Hi Hfd) as (m' & ? & _ & ? & ?). eauto.
Qed.

(** C30.  An event from [epoll_wait] wakes exactly the waiters of the reported
    events (error and hang-up count as both) and stops watching them, and this
    returns exactly when the reported events are all waited for or none is.
    Otherwise - an error or hang-up on a descriptor with one waiter - the
    assertion of [triggerEvent] aborts the process. *)
Theorem ready_event_wakes m (p : ptr) c (events : Z) :
  io_reachable m -> contexts m !! p = Some c ->
  (handled c events ->
     exists m', handle_event (EpollEvent events (Context p)) m = Ok m' /\
       (forall fd e, 0 <= fd -> is_event e ->
          abs m' fd e = if decide (fd = fc_fd c /\ reported events e = true) then None
                        else abs m fd e) /\
       m_fibers (io_sched m') = m_fibers (io_sched m) ++
         (if has (fc_events c) READ then wake (reported events READ) READ c else []) ++
         (if has (fc_events c) WRITE then wake (reported events WRITE) WRITE c else [])) /\
  (~ handled c events ->
     exists s, handle_event (EpollEvent events (Context p)) m = Err (FAssert s)) /\
  (fc_events c = READ \/ fc_events c = WRITE -> ~ handled c EPOLLHUP).
Proof.
  intros Hi%reachable_inv Hp. split_and!.
  - intros Hh. destruct (handle_event_ok p c events m Hi Hp Hh) as (m' & ? & _ & ? & ?). eauto.
  - by apply handle_event_aborts.
  - unfold handled. intros [-> | ->]; vm_compute; naive_solver.
Qed.

(** [delEvent] and [cancelEvent] pass the wrong operation to the kernel
    when they remove the last event: the descriptor stays registered (with no
    event), so every later [addEvent] on it uses ADD, which the kernel refuses,
    and returns -1; after [cancelAll] the descriptor is gone from the kernel. *)
Theorem readd_after_del_fails m m' (fd e e' : Z) cb f :
  io_reachable m -> 0 <= fd -> is_event e -> is_event e' ->
  delEvent fd e m = Ok (true, m') \/ cancelEvent fd e m = Ok (true, m') ->
  abs m' fd READ = None -> abs m' fd WRITE = None ->
  is_Some (registered (m_epfd m') fd) /\
  exists m'', addEvent fd e' cb true (f, EXEC) m' = Ok (-1, m'') /\ abs_same m' m''.
Proof.
  intros Hi%reachable_inv Hfd He He' Hcall HR HW.
  assert (inv m' /\ exists p c, at_fd fd m' = Ok p /\ contexts m' !! p = Some c /\ fc_fd c = fd /\
    m_FdContexts m' !! Z.to_nat fd = Some (Some p) /\ is_Some (registered (m_epfd m') fd))
    as (Hi' & p & c & Hat & Hp & Hc & Hv & Hreg).
  { assert (inv m') as Hi'.
    { destruct Hcall as [Hcall|Hcall].
      - destruct (delEvent_ok fd e m Hi Hfd He) as (m1 & H1 & ? & _). congruence.
      - destruct (cancelEvent_ok fd e m Hi Hfd He) as (m1 & H1 & ? & _). congruence. }
    split; [done|].
    destruct (call_registered fd e m m' Hi Hfd He Hcall) as [Hlen Hreg].
    destruct (at_fd_ok fd m' Hi') as (p & c & ? & ? & ? & ?); [lia|]. eauto 10. }
  split; [done|]. pose proof (addEvent_ok fd e' cb f m' Hi' Hfd He') as Hadd.
  assert (abs m' fd e' = None) as Hn by (by destruct He' as [-> | ->]). rewrite Hn in Hadd.
  destruct Hadd as (r & m'' & Hadd & _ & _ & [[-> _]|[-> Hs]]); [|eauto]. exfalso.
  unfold addEvent, addEvent_context, needs_resize in Hadd.
  assert (fd < Z.of_nat (length (m_FdContexts m'))) as Hlt by (apply lookup_lt_Some in Hv; lia).
  destruct (Z.ltb_spec fd (Z.of_nat (length (m_FdContexts m')))); [|lia]. cbn [negb] in Hadd.
  rewrite Hat in Hadd. res_simpl. unfold addEvent_register, get_ctx in Hadd. rewrite Hp in Hadd.
  cbn [deref] in Hadd. res_simpl.
  assert (fc_events c = 0) as E0.
  { rewrite !(abs_at fd m' p c) in HR, HW by done. unfold waits_for in HR, HW.
    destruct (decide (fc_events c = 0)) as [|Hne]; [done|].
    destruct (has_nonzero _ (co_events _ (inv_ctx _ Hi' p c Hp)) Hne) as [E|E]; by rewrite E in *. }
  rewrite E0 in Hadd. destruct Hreg as [ev Hreg].
  rewrite (ctl_add_twice _ _ _ _ Hreg) in Hadd. by destruct He' as [-> | ->].
Qed.

Lemma waits_le c : (waits c <= 2)%nat.
Proof. unfold waits. destruct (has _ READ), (has _ WRITE); lia. Qed.

Lemma getNextTimer_again now (st st' : Timer.manager U W) t :
  Timer.getNextTimer now st = Ok (t, st') -> exists r, Timer.getNextTimer now st' = Ok r.
Proof.
  unfold Timer.getNextTimer. destruct st as [h [|p l] tk pv]; cbn [m_timers m_heap with_tickled].
  - intros [= <- <-]. by eexists.
  - destruct (h !! p) as [x|] eqn:Eh; [|done]. cbn [deref]. res_simpl. intros [= <- <-].
    cbn [m_timers m_heap with_tickled]. rewrite Eh. by eexists.
Qed.

(** [stopping]: the IO manager may stop exactly when no timer is due at
    any time, nobody waits for an event of any descriptor and the scheduler
    itself may stop; [idle] leaves its loop exactly then. *)
Theorem stopping_iff m now now2 t m' (b : bool) probe as_code epoll_wait :
  io_reachable m -> 2 * Z.of_nat (size (contexts m)) < 2 ^ 64 ->
  stopping_timeout now m = Ok (b, t, m') ->
  (b = true <-> t = U64_MAX /\ (forall p c, contexts m !! p = Some c -> fc_events c = 0) /\
                Scheduler.stopping (io_sched m) = true) /\
  (forall m2, idle_round now now2 probe as_code epoll_wait m = Ok (true, m2) -> b = true) /\
  (b = true -> exists m2, idle_round now now2 probe as_code epoll_wait m = Ok (true, m2)).
Proof.
  intros Hi%reachable_inv Hsize. unfold stopping_timeout, idle_round.
  destruct (Timer.getNextTimer now (io_timers m)) as [[tm ts]|] eqn:Et; [|done].
  unfold stopping_timeout. rewrite Et. res_simpl. intros [= <- <- <-]. cbn [m_pendingEventCount set_timers io_sched].
  split_and!.
  - rewrite !andb_true_iff, !Z.eqb_eq, (inv_pending _ Hi).
    assert (u64 (Z.of_nat (map_sum waits (contexts m))) = 0 <->
      forall p c, contexts m !! p = Some c -> fc_events c = 0) as E.
    { pose proof (map_sum_le 2 waits (contexts m) waits_le) as Hle.
      rewrite u64_small by (unfold is_u64; lia). split.
      - intros Hz p c Hp. assert (map_sum waits (contexts m) = 0%nat) as Hz' by lia.
        pose proof (map_sum_zero waits _ p c Hz' Hp) as Hw.
        destruct (decide (fc_events c = 0)) as [|Hne]; [done|]. exfalso. unfold waits in Hw.
        destruct (has_nonzero _ (co_events _ (inv_ctx _ Hi p c Hp)) Hne) as [E|E]; rewrite E in Hw; lia.
      - intros Hall. enough (map_sum waits (contexts m) = 0%nat) by lia.
        revert Hall. generalize (contexts m) as h. intros h.
        induction h as [|i x h Hix IH] using map_ind; intros Hall; [done|].
        rewrite map_sum_insert_new, IH by
          (done || (intros p c Hp; apply (Hall p); rewrite lookup_insert_ne by congruence; done)).
        unfold waits. rewrite (Hall i x) by apply lookup_insert_eq. done. }
    rewrite E. tauto.
  - intros m2 Hm2. destruct (_ && _); [done|]. res_simpl.
    destruct (Timer.listExpiredCb _ _ _ _) as [[cbs ts']|]; [|done]. res_simpl.
    by destruct (handle_events _ _).
  - intros ->. cbn [io_timers set_timers].
    destruct (getNextTimer_again _ _ _ _ Et) as ([r1 r2] & ->). res_simpl. by eexists.
Qed.

(** Shrinking the vector loses contexts. *)
Lemma contextResize_shrink sz m :
  inv m -> (sz <= length (m_FdContexts m))%nat ->
  contextResize sz m
  = IOM (io_sched m) (io_timers m) (m_epfd m) (tickle_pipe m) (m_pendingEventCount m)
      (take sz (m_FdContexts m)) (contexts m) (next_ptr m).
Proof.
  intros Hi Hsz. unfold contextResize. replace (sz - length (m_FdContexts m))%nat with 0%nat by lia.
  cbn [replicate]. rewrite fill_contexts_some; [cbn [fill_contexts]; by rewrite app_nil_r|].
  apply Forall_lookup_2. intros i o Ho. apply lookup_take_Some in Ho as [Ho _].
  destruct (inv_vector _ Hi i o Ho) as (p & c & -> & _). eauto.
Qed.

(** *** What a call leaves alone *)

(** The timers and the vector of the contexts. *)
Abbreviation frame m := (io_timers m, m_FdContexts m).

Lemma triggerEvent_frame e p m m' : triggerEvent e p m = Ok m' -> frame m' = frame m.
Proof.
  unfold triggerEvent. intros Ht. res_inv. destruct (ec_scheduler _); res_inv.
  destruct (ec_cb _); simplify_eq/=;
    match goal with |- context [io_schedule ?a ?b ?c] =>
      destruct (io_schedule_frame a b c) as [n ->] end; done.
Qed.

Lemma unregister_frame fd e p (x : FdContext U) m : frame (unregister fd e p x m).2 = frame m.
Proof. unfold unregister. by destruct (epoll_ctl _ _ _ _). Qed.

Lemma cancelEvent_frame fd e m b m' : cancelEvent fd e m = Ok (b, m') -> frame m' = frame m.
Proof.
  unfold cancelEvent. destruct (find_context fd m) as [[p|]|]; res_simpl; [|by intros [= _ <-]|done].
  destruct (get_ctx p m) as [x|]; res_simpl; [|done].
  destruct (Z.land _ _ =? 0); [by intros [= _ <-]|].
  pose proof (unregister_frame fd e p x m) as Hu. destruct (unregister fd e p x m) as [ok m1].
  destruct ok; cbn [negb]; [|by intros [= _ <-]].
  destruct (triggerEvent e p m1) as [m2|] eqn:Et; res_simpl; [|done]. intros [= _ <-].
  apply triggerEvent_frame in Et. simpl in *. congruence.
Qed.

Lemma addEvent_register_frame fd e cb b cur p m r m' :
  addEvent_register fd e cb b cur p m = Ok (r, m') -> frame m' = frame m.
Proof.
  unfold addEvent_register. destruct (get_ctx p m) as [x|]; res_simpl; [|done].
  destruct (sylar_assert _ "!(fd_ctx->events & event)"); res_simpl; [|done].
  destruct (epoll_ctl _ _ _ _) as [ok k]. destruct ok; cbn [negb]; [|by intros [= _ <-]].
  destruct (getContext e _) as [y|]; res_simpl; [|done].
  destruct (sylar_assert _ "!scheduler && !fiber && !cb"); res_simpl; [|done].
  destruct cb as [cb|]; res_simpl; [by intros [= _ <-]|].
  destruct (sylar_assert _ _); res_simpl; [|done]. by intros [= _ <-].
Qed.

Lemma delEvent_frame fd e m b m' : delEvent fd e m = Ok (b, m') -> frame m' = frame m.
Proof.
  unfold delEvent. destruct (find_context fd m) as [[p|]|]; res_simpl; [|by intros [= _ <-]|done].
  destruct (get_ctx p m) as [x|]; res_simpl; [|done].
  destruct (Z.land _ _ =? 0); [by intros [= _ <-]|].
  pose proof (unregister_frame fd e p x m) as Hu. destruct (unregister fd e p x m) as [ok m1].
  destruct ok; cbn [negb]; [|by intros [= _ <-]].
  destruct (getContext e _); res_simpl; [|done]. by intros [= _ <-].
Qed.

Lemma trigger_if_frame b e p m m' : trigger_if b e p m = Ok m' -> frame m' = frame m.
Proof.
  unfold trigger_if. destruct b; [|by intros [= <-]].
  destruct (triggerEvent e p m) as [m1|] eqn:E; res_simpl; [|done]. intros [= <-].
  by apply triggerEvent_frame in E.
Qed.

Lemma cancelAll_frame fd m b m' : cancelAll fd m = Ok (b, m') -> frame m' = frame m.
Proof.
  unfold cancelAll. destruct (find_context fd m) as [[p|]|]; res_simpl; [|by intros [= _ <-]|done].
  destruct (get_ctx p m) as [x|]; res_simpl; [|done].
  destruct (fc_events x =? 0); [by intros [= _ <-]|].
  destruct (epoll_ctl _ _ _ _) as [ok k]. destruct ok; cbn [negb]; [|by intros [= _ <-]].
  destruct (get_ctx p (set_epfd k m)) as [y|]; res_simpl; [|done].
  destruct (trigger_if _ READ p _) as [m1|] eqn:E1; res_simpl; [|done].
  destruct (get_ctx p m1) as [z|]; res_simpl; [|done].
  destruct (trigger_if _ WRITE p m1) as [m2|] eqn:E2; res_simpl; [|done].
  destruct (get_ctx p m2) as [u|]; res_simpl; [|done].
  destruct (sylar_assert _ _); res_simpl; [|done]. intros [= _ <-].
  apply trigger_if_frame in E1, E2. simpl in *. congruence.
Qed.

Lemma handle_event_frame ev m m' : handle_event ev m = Ok m' -> frame m' = frame m.
Proof.
  unfold handle_event. destruct (ev_data ev) as [|p]; [by intros [= <-]|].
  destruct (get_ctx p m) as [x|]; res_simpl; [|done]. cbv zeta.
  destruct (_ =? NONE); [by intros [= <-]|].
  destruct (epoll_ctl _ _ _ _) as [ok k]. destruct ok; cbn [negb]; [|by intros [= <-]].
  destruct (trigger_if _ READ p _) as [m1|] eqn:E1; res_simpl; [|done]. intros E2.
  apply trigger_if_frame in E1, E2. simpl in E1. congruence.
Qed.

(** [addEvent] on a descriptor that has its context. *)
Lemma addEvent_at fd e cb b cur p m :
  at_fd fd m = Ok p -> addEvent fd e cb b cur m = addEvent_register fd e cb b cur p m.
Proof.
  intros Hat. unfold addEvent, addEvent_context, needs_resize. pose proof Hat as Hp. unfold at_fd in Hp.
  destruct (Z.ltb_spec fd 0); [done|]. destruct (m_FdContexts m !! Z.to_nat fd) as [o|] eqn:E; [|done].
  apply lookup_lt_Some in E. destruct (Z.ltb_spec fd (Z.of_nat (length (m_FdContexts m)))); [|lia].
  cbn [negb]. by rewrite Hat.
Qed.

Lemma step_vector m m' i o : inv m -> io_step m m' ->
  m_FdContexts m !! i = Some o -> m_FdContexts m' !! i = Some o.
Proof.
  intros Hi Hstep Ho. destruct Hstep as [fd e cb f r m' Hfd He Hr|fd e r m' Hfd He Hr|fd e r m' Hfd He Hr
    |fd r m' Hfd Hr|ev m' Hr Hev|s t n]; [|by apply delEvent_frame in Hr as [= _ ->]|by apply cancelEvent_frame in Hr as [= _ ->]
    |by apply cancelAll_frame in Hr as [= _ ->]|by apply handle_event_frame in Hr as [= _ ->]|done].
  unfold addEvent, addEvent_context in Hr. set (m0 := if needs_resize fd m then _ else m) in Hr.
  assert (m_FdContexts m0 !! i = Some o) as Hm0.
  { subst m0. destruct (needs_resize fd m) eqn:En; [|done]. unfold needs_resize in En. apply negb_true_iff, Z.ltb_ge in En.
    assert (fd <= fd * 3 / 2) by (apply Z.div_le_lower_bound; lia).
    destruct (contextResize_grow (Z.to_nat (fd * 3 / 2)) m Hi ltac:(lia)) as (_ & _ & Hlow & _).
    rewrite Hlow; [done|by eapply lookup_lt_Some]. }
  destruct (at_fd fd m0) as [p|]; res_simpl; [|done]. by apply addEvent_register_frame in Hr as [= _ ->].
Qed.

(** Contexts stay where they are: what a thread finds for a descriptor under the
    lock of the vector is still its context when the thread has the lock of the
    context, whatever the other threads call in between (vectors that two threads
    resize at once apart: [resize_race]).  That is why a call is one step of
    [io_step], although it takes the two locks one after the other. *)
Theorem contexts_stay m m' (fd : Z) (p : ptr) :
  io_reachable m -> 0 <= fd -> at_fd fd m = Ok p -> rtc io_step m m' ->
  at_fd fd m' = Ok p /\ find_context fd m' = Ok (Some p) /\
  (exists c, contexts m' !! p = Some c /\ fc_fd c = fd) /\
  (forall e cb mine cur, addEvent fd e cb mine cur m' = addEvent_register fd e cb mine cur p m').
Proof.
  intros Hr Hfd Hat Hrun.
  assert (io_reachable m' /\ m_FdContexts m' !! Z.to_nat fd = Some (Some p)) as [Hr' Hv].
  { unfold at_fd in Hat. destruct (Z.ltb_spec fd 0); [lia|].
    destruct (m_FdContexts m !! Z.to_nat fd) as [[q|]|] eqn:E; try done. injection Hat as ->.
    induction Hrun as [|m m1 m2 Hs _ IH]; [done|]. apply IH; [by eapply IR_step|].
    eapply step_vector; [by apply reachable_inv|done|done]. }
  pose proof (reachable_inv _ Hr') as Hi. pose proof (lookup_lt_Some _ _ _ Hv) as Hlt.
  destruct (inv_vector _ Hi _ _ Hv) as (q & c & [= <-] & Hc & Hcf).
  assert (at_fd fd m' = Ok p) as Hat' by (unfold at_fd; destruct (Z.ltb_spec fd 0); [lia|]; by rewrite Hv).
  split_and!; [done| | |].
  - unfold find_context. destruct (Z.leb_spec (Z.of_nat (length (m_FdContexts m'))) fd); [lia|]. by rewrite Hat'.
  - exists c. split; [done|]. lia.
  - intros e cb mine cur. by apply addEvent_at.
Qed.

(** Two threads in [addEvent] that both found the vector too short: the
    size is not looked at again under the write lock, so the one that resizes
    last may shrink the vector below the other's descriptor.  Its waiter is
    then unreachable - [cancelEvent] finds nothing - while the pending count
    still counts it. *)
Theorem resize_race m m1 m2 (fd1 fd2 e : Z) cb f p2 :
  io_reachable m -> 0 <= fd2 -> is_event e ->
  needs_resize fd1 m = true -> needs_resize fd2 m = true -> fd2 * 3 / 2 <= fd1 ->
  addEvent fd1 e cb true (f, EXEC) m = Ok (0, m1) ->
  addEvent_context true fd2 m1 = Ok (p2, m2) ->
  abs m1 fd1 e = Some (new_waiter cb f) /\ abs m2 fd1 e = None /\
  cancelEvent fd1 e m2 = Ok (false, m2) /\
  m_pendingEventCount m2 = m_pendingEventCount m1.
Proof.
  intros Hi%reachable_inv Hfd2 He Hr1 Hr2 Hlt Hadd Hctx.
  unfold needs_resize in Hr1, Hr2. apply negb_true_iff, Z.ltb_ge in Hr1, Hr2.
  assert (abs m fd1 e = None) as Hn by (unfold abs; by rewrite lookup_ge_None_2 by lia).
  pose proof (addEvent_ok fd1 e cb f m Hi ltac:(lia) He) as H1. rewrite Hn, Hadd in H1.
  destruct H1 as (r & m' & [= <- <-] & Hi1 & _ & [[_ Habs]|[? _]]); [|done].
  assert (abs m1 fd1 e = Some (new_waiter cb f)) as Habs1
    by (rewrite Habs by (done || lia); by rewrite decide_True).
  assert (fd1 < Z.of_nat (length (m_FdContexts m1))) as Hlen.
  { unfold abs in Habs1. destruct (m_FdContexts m1 !! Z.to_nat fd1) as [o|] eqn:Eo; [|done].
    apply lookup_lt_Some in Eo. lia. }
  unfold addEvent_context in Hctx. rewrite contextResize_shrink in Hctx by (done || lia).
  destruct (at_fd fd2 _); [|done]. res_simpl. injection Hctx as <- <-.
  assert (Z.of_nat (length (take (Z.to_nat (fd2 * 3 / 2)) (m_FdContexts m1))) <= fd1) as Hshort
    by (rewrite length_take; lia).
  split_and!; [done| | |done].
  - unfold abs. cbn [m_FdContexts]. by rewrite lookup_ge_None_2 by lia.
  - unfold cancelEvent, find_context. cbn [m_FdContexts].
    destruct (Z.leb_spec (Z.of_nat (length (take (Z.to_nat (fd2 * 3 / 2)) (m_FdContexts m1)))) fd1);
      [done|lia].
Qed.
End Theory.

(** The timeout [idle] gives to [epoll_wait] is at most [MAX_TIMEOUT] and
    never later than the next timer when that is less than 2^31 ms away; but
    beyond, the cast to [int] makes it negative - wait without limit - for every
    distance in the upper half of each 2^32 range. *)
Theorem wait_timeout_range (t : Z) :
  (0 <= t < 2 ^ 31 \/ t = U64_MAX -> wait_timeout t = Z.min t MAX_TIMEOUT) /\
  (2 ^ 31 <= t mod 2 ^ 32 -> 0 <= t < U64_MAX -> wait_timeout t < 0).
Proof.
  unfold wait_timeout, MAX_TIMEOUT. split.
  - intros [Ht| ->]; [|done].
    assert (t <> U64_MAX) as Hne by (unfold U64_MAX; lia). apply Z.eqb_neq in Hne. rewrite Hne.
    cbn [negb]. rewrite (s32_small t) by lia.
    destruct (Z.gtb_spec t 3000); rewrite s32_small by lia; lia.
  - intros Hm Ht. assert (t <> U64_MAX) as Hne by lia. apply Z.eqb_neq in Hne. rewrite Hne.
    cbn [negb]. assert (s32 t < 0) as Hs.
    { unfold s32. pose proof (Z.mod_pos_bound t (2 ^ 32) ltac:(lia)).
      destruct (Z.ltb_spec (t mod 2 ^ 32) (2 ^ 31)); lia. }
    destruct (Z.gtb_spec (s32 t) 3000); lia.
Qed.

(** ** A kernel, and witnesses *)

#[export] Instance map_epoll : Epoll (gmap Z epoll_event) := {
  epoll_ctl k op fd ev :=
    match op, k !! fd with
    | EPOLL_CTL_ADD, None => (true, <[fd := ev]> k)
    | EPOLL_CTL_MOD, Some _ => (true, <[fd := ev]> k)
    | EPOLL_CTL_DEL, Some _ => (true, delete fd k)
    | _, _ => (false, k)
    end;
  epoll_closed k fd := delete fd k;
  registered k fd := k !! fd }.

#[export] Instance map_epoll_laws : EpollLaws (gmap Z epoll_event).
Proof.
  split; cbn [epoll_ctl epoll_closed registered map_epoll].
  - intros k fd ev e ->. done.
  - intros k fd ev op -> Hop. by destruct op.
  - intros k fd ev e ->. eexists. split; [done|apply lookup_insert_eq].
  - intros k fd ev e ->. eexists. split; [done|apply lookup_delete_eq].
  - intros k fd ev k'. destruct (k !! fd); intros [= <-]. apply lookup_insert_eq.
  - intros k op fd ev k'. destruct op, (k !! fd); by intros [= <-].
  - intros k op fd ev b k' g. destruct op, (k !! fd); intros [= <- <-] Hne;
      rewrite ?lookup_insert_ne, ?lookup_delete_ne by done; done.
  - intros k fd. apply lookup_delete_eq.
  - intros k fd g Hne. by rewrite lookup_delete_ne.
Qed.

Abbreviation ex_iom := (iomanager unit (gmap Z epoll_event) unit).

Definition ex_sched : scheduler unit := Sched [] [] None [] 0 0 1 true false (-1) 0 [].

(** A fresh IO manager whose pipe has descriptor 5. *)
Definition ex_new : ex_iom :=
  match IOManager_new 0 5 [] true true true ∅ ex_sched with
  | Ok m => m
  | Err _ => IOM ex_sched (Timer.init_manager 0) ∅ 0 0 [] ∅ 0
  end.

(** Fiber 3 waits to read descriptor 7. *)
Definition ex_wait : ex_iom :=
  match addEvent 7 READ None true (3%nat, EXEC) ex_new with Ok (_, m) => m | Err _ => ex_new end.

Definition ex_del : ex_iom :=
  match delEvent 7 READ ex_wait with Ok (_, m) => m | Err _ => ex_wait end.

Lemma ex_new_reachable : io_reachable ex_new.
Proof. by apply (IR_new 0 5 [] ∅ ex_sched). Qed.

Lemma ex_wait_reachable : io_reachable ex_wait.
Proof.
  eapply IR_step; [apply ex_new_reachable|].
  apply (IS_add ex_new 7 READ None 3%nat 0); [lia|by left|]. vm_compute. reflexivity.
Qed.

Lemma io_consistent_witness : m_pendingEventCount ex_wait = 1 /\ ctx_ok (new_context 9 (U:=unit)).
Proof.
  destruct (io_consistent ex_wait ex_wait_reachable) as (Hp & Hc & _). split.
  - rewrite Hp. by vm_compute.
  - apply (Hc 9%nat). by vm_compute.
Defined.

Lemma events_refine_witness :
  exists m', cancelEvent 7 READ ex_wait = Ok (true, m') /\ abs m' 7 READ = None /\
    m_fibers (io_sched m') = [FT (Some 3%nat) None (-1)].
Proof.
  destruct (events_refine ex_wait 7 READ None 3%nat ex_wait_reachable) as (_ & _ & (m' & Hc & Ha & Hq) & _);
    [lia|by left|].
  exists m'. split; [exact Hc|]. split.
  - rewrite (Ha 7 READ) by (done || by left). by rewrite decide_True.
  - rewrite Hq. by vm_compute.
Defined.

Lemma ready_event_wakes_witness :
  (exists m', handle_event (EpollEvent EPOLLIN (Context 7)) ex_wait = Ok m' /\
     m_fibers (io_sched m') = [FT (Some 3%nat) None (-1)]) /\
  (exists s, handle_event (EpollEvent EPOLLHUP (Context 7)) ex_wait = Err (FAssert s)).
Proof.
  set (c := FdCtx 7 READ (EC true (Some 3%nat) None) (EC false None None) : FdContext unit).
  assert (contexts ex_wait !! 7%nat = Some c) as Hp by (by vm_compute).
  split.
  - destruct (ready_event_wakes ex_wait 7 c EPOLLIN ex_wait_reachable Hp) as [H _].
    destruct H as (m' & Hm & _ & Hq); [right; by vm_compute|].
    exists m'. split; [exact Hm|]. rewrite Hq. by vm_compute.
  - destruct (ready_event_wakes ex_wait 7 c EPOLLHUP ex_wait_reachable Hp) as (_ & H & Hn).
    apply H, Hn. by left.
Defined.

Lemma readd_after_del_fails_witness :
  exists m'', addEvent 7 WRITE None true (4%nat, EXEC) ex_del = Ok (-1, m'').
Proof.
  destruct (readd_after_del_fails ex_wait ex_del 7 READ WRITE None 4%nat ex_wait_reachable)
    as (_ & m'' & H & _); [lia|by left|by right|left; by vm_compute|by vm_compute..|].
  by exists m''.
Defined.

Lemma stopping_iff_witness :
  exists t m', stopping_timeout 0 ex_wait = Ok (false, t, m') /\
    forall m2, idle_round 0 0 0 (fun _ => ToCb None) (fun _ => []) ex_wait <> Ok (true, m2).
Proof.
  destruct (stopping_timeout 0 ex_wait) as [[[b t] m']|] eqn:E; [|by vm_compute in E].
  destruct (stopping_iff ex_wait 0 0 t m' b 0 (fun _ => ToCb None) (fun _ => [])
    ex_wait_reachable) as (_ & H & _); [by vm_compute|exact E|].
  exists t, m'. assert (b = false) as -> by (by vm_compute in E; injection E).
  split; [done|]. intros m2 Hm. by specialize (H m2 Hm).
Defined.

(** Descriptors 100 and 40 added by two threads that both saw 32 contexts. *)
Definition ex_100 : ex_iom :=
  match addEvent 100 READ None true (3%nat, EXEC) ex_new with Ok (_, m) => m | Err _ => ex_new end.
Definition ex_40 : ex_iom :=
  match addEvent_context true 40 ex_100 with Ok (_, m) => m | Err _ => ex_100 end.

Lemma resize_race_witness :
  abs ex_100 100 READ = Some (ToFiber (Some 3%nat)) /\ cancelEvent 100 READ ex_40 = Ok (false, ex_40).
Proof.
  destruct (resize_race ex_new ex_100 ex_40 100 40 READ None 3%nat 40%nat ex_new_reachable)
    as (H1 & _ & H2 & _); [lia|by left|by vm_compute|by vm_compute|by vm_compute|by vm_compute|by vm_compute|].
  by split.
Defined.

Lemma wait_timeout_range_witness : wait_timeout 500 = 500 /\ wait_timeout (2 ^ 31) < 0.
Proof.
  split; [apply (wait_timeout_range 500); lia|apply (wait_timeout_range (2 ^ 31))];
    [vm_compute; congruence|unfold U64_MAX; lia].
Defined.
