(* ===== verification/FdManager.v ===== *)
(** * Descriptor contexts (src/sylar/fd_manager.h, fd_manager.cc)

    What the hooked calls know about a descriptor.  [FdCtx] objects are shared
    pointers, so they live in a heap; the table of the singleton [FdManager]
    holds 64 of them for ever.  The kernel's view of a descriptor (its type and
    its status flags) is an interface. *)

From S2P Require Import Prelude.

Definition O_NONBLOCK : Z := 2048.
Definition F_GETFL : Z := 3.
Definition F_SETFL : Z := 4.
Definition SO_RCVTIMEO : Z := 20.
Definition SO_SNDTIMEO : Z := 21.

(** [S_ISSOCK(mode)]. *)
Definition S_ISSOCK (mode : Z) : bool := Z.land mode 61440 =? 49152.

(** The result of a system call: its value, or -1 and [errno]. *)
Inductive sysret : Type := Ret (n : Z) | Fail (errno : Z).

#[export] Instance sysret_eq_dec : EqDecision sysret.
Proof. solve_decision. Defined.

Definition value (r : sysret) : Z := match r with Ret n => n | Fail _ => -1 end.

(** [fstat(2)] (the mode, or failure) and [fcntl(2)] with an optional argument. *)
Class FdKernel (Q : Type) : Type := {
  fstat_f : Q -> Z -> option Z;
  fcntl_f : Q -> Z -> Z -> option Z -> sysret * Q }.

(** The [O_NONBLOCK] flag of an open descriptor. *)
Definition nonblocking `{FdKernel Q} (k : Q) (fd : Z) : option bool :=
  match (fcntl_f k fd F_GETFL None).1 with
  | Ret flags => Some (negb (Z.land flags O_NONBLOCK =? 0))
  | Fail _ => None
  end.

(** [fcntl(2)]: F_GETFL returns the flags (they are not negative) and changes
    nothing, an argument is ignored; F_SETFL of an open descriptor succeeds and
    the flag O_NONBLOCK is then as in its argument; other descriptors are not
    affected. *)
Class FdKernelLaws (Q : Type) `{FdKernel Q} : Prop := {
  getfl_pure k fd a : fcntl_f k fd F_GETFL a = ((fcntl_f k fd F_GETFL None).1, k);
  getfl_flags k fd n : (fcntl_f k fd F_GETFL None).1 = Ret n -> 0 <= n;
  setfl_flags k fd a : is_Some (nonblocking k fd) ->
    (fcntl_f k fd F_SETFL (Some a)).1 = Ret 0 /\
    nonblocking (fcntl_f k fd F_SETFL (Some a)).2 fd = Some (negb (Z.land a O_NONBLOCK =? 0));
  setfl_other k fd g a : g <> fd ->
    nonblocking (fcntl_f k fd F_SETFL (Some a)).2 g = nonblocking k g;
  setfl_fstat k fd g a : fstat_f (fcntl_f k fd F_SETFL (Some a)).2 g = fstat_f k g }.

(** [FdCtx] ([m_iomanager] is never set nor read). *)
Record FdCtx : Type := Ctx {
  m_isInit : bool;
  m_isSocket : bool;
  m_sysNonblock : bool;
  m_userNonblock : bool;
  m_isClosed : bool;
  m_fd : Z;
  m_recvTimeout : Z;
  m_sendTimeout : Z }.

(** [FdManager] with the heap of contexts. *)
Record FdManager : Type := FdMgr {
  m_datas : list (option nat);
  ctxs : gmap nat FdCtx;
  fresh_ctx : nat }.

Section Ops.
Context {Q : Type} `{FdKernel Q}.
Implicit Types (d : FdManager) (k : Q) (c : FdCtx).

(** [FdCtx::init]. *)
Definition init c k : bool * FdCtx * Q :=
  if m_isInit c then (true, c, k)
  else
    let '(isInit, isSocket) :=
      match fstat_f k (m_fd c) with
      | None => (false, false)
      | Some mode => (true, S_ISSOCK mode)
      end in
    let '(sysNonblock, k) :=
      if isSocket : bool then
        let '(r, k) := fcntl_f k (m_fd c) F_GETFL (Some 0) in
        let flags := value r in
        if Z.land flags O_NONBLOCK =? 0
        then (true, (fcntl_f k (m_fd c) F_SETFL (Some (Z.lor flags O_NONBLOCK))).2)
        else (false, k)
      else (m_sysNonblock c, k) in
    (isInit, Ctx isInit isSocket sysNonblock false false (m_fd c) U64_MAX U64_MAX, k).

(** [FdCtx::FdCtx]. *)
Definition FdCtx_new (fd : Z) k : FdCtx * Q :=
  let '(_, c, k) := init (Ctx false false false false false fd U64_MAX U64_MAX) k in (c, k).

Definition setUserNonblock (v : bool) c : FdCtx :=
  Ctx (m_isInit c) (m_isSocket c) (m_sysNonblock c) v (m_isClosed c) (m_fd c)
    (m_recvTimeout c) (m_sendTimeout c).

Definition setsysNonblock (v : bool) c : FdCtx :=
  Ctx (m_isInit c) (m_isSocket c) v (m_userNonblock c) (m_isClosed c) (m_fd c)
    (m_recvTimeout c) (m_sendTimeout c).

(** [FdCtx::setTimeout], [FdCtx::getTimeout]. *)
Definition setTimeout (type v : Z) c : FdCtx :=
  if type =? SO_RCVTIMEO
  then Ctx (m_isInit c) (m_isSocket c) (m_sysNonblock c) (m_userNonblock c) (m_isClosed c)
         (m_fd c) v (m_sendTimeout c)
  else Ctx (m_isInit c) (m_isSocket c) (m_sysNonblock c) (m_userNonblock c) (m_isClosed c)
         (m_fd c) (m_recvTimeout c) v.

Definition getTimeout (type : Z) c : Z :=
  if type =? SO_RCVTIMEO then m_recvTimeout c else m_sendTimeout c.

(** [FdManager::FdManager]. *)
Definition FdManager_new : FdManager := FdMgr (replicate 64 None) ∅ 0.

(** [m_datas[fd]], read and written. *)
Definition data_at (fd : Z) d : res (option nat) :=
  if fd <? 0 then Err (FUB "m_datas: negative index")
  else deref (m_datas d !! Z.to_nat fd) "m_datas: index out of range".

Definition set_data (fd : Z) (o : option nat) d : res FdManager :=
  _ ← data_at fd d;
  mret (FdMgr (<[Z.to_nat fd := o]> (m_datas d)) (ctxs d) (fresh_ctx d)).

(** [FdManager::get] under the read lock: [None] when a context is to be
    created. *)
Definition get_read (fd : Z) (auto_create : bool) d : res (option (option nat)) :=
  if Z.of_nat (length (m_datas d)) <=? fd then
    mret (if auto_create then None else Some None)
  else
    o ← data_at fd d;
    mret (match o with
          | Some p => Some (Some p)
          | None => if auto_create then None else Some None
          end).

(** [FdManager::get] under the write lock. *)
Definition get_create (fd : Z) d k : res (option nat * FdManager * Q) :=
  let '(c, k) := FdCtx_new fd k in
  let p := fresh_ctx d in
  d ← set_data fd (Some p) (FdMgr (m_datas d) (<[p := c]> (ctxs d)) (S p));
  mret (Some p, d, k).

(** [FdManager::get]. *)
Definition get (fd : Z) (auto_create : bool) d k : res (option nat * FdManager * Q) :=
  o ← get_read fd auto_create d;
  match o with
  | Some r => mret (r, d, k)
  | None => get_create fd d k
  end.

(** [FdManager::del]. *)
Definition del (fd : Z) d : res FdManager :=
  if Z.of_nat (length (m_datas d)) <=? fd then mret d else set_data fd None d.

(** Access through a [FdCtx::ptr]. *)
Definition ctx_at (p : nat) d : res FdCtx := deref (ctxs d !! p) "FdCtx".

Definition upd_ctx (g : FdCtx -> FdCtx) (p : nat) d : res FdManager :=
  c ← ctx_at p d; mret (FdMgr (m_datas d) (<[p := g c]> (ctxs d)) (fresh_ctx d)).

(** ** What the table promises *)

(** The context of a descriptor. *)
Definition context_of (fd : Z) d : option (nat * FdCtx) :=
  match m_datas d !! Z.to_nat fd with
  | Some (Some p) => match ctxs d !! p with Some c => Some (p, c) | None => None end
  | _ => None
  end.

(** The table has its 64 entries, each entry its own context, and no context
    ever counts as closed. *)
Record wf d : Prop := Wf {
  wf_size : length (m_datas d) = 64%nat;
  wf_data : forall i p, m_datas d !! i = Some (Some p) ->
    exists c, ctxs d !! p = Some c /\ m_fd c = Z.of_nat i;
  wf_fresh : forall p c, ctxs d !! p = Some c -> (p < fresh_ctx d)%nat;
  wf_open : forall p c, ctxs d !! p = Some c -> m_isClosed c = false }.

(** What a fresh context says about its descriptor. *)
Definition is_socket k (fd : Z) : bool :=
  match fstat_f k fd with Some mode => S_ISSOCK mode | None => false end.

End Ops.

(** ** Calls *)

Section Theory.
Context {Q : Type} `{HL : FdKernelLaws Q}.
Implicit Types (d : FdManager) (k : Q) (c : FdCtx).

Lemma lor_nonblock n : (Z.land (Z.lor n O_NONBLOCK) O_NONBLOCK =? 0) = false.
Proof.
  apply Z.eqb_neq. rewrite Z.land_comm, Z.lor_comm, Z.land_lor_distr_r, Z.land_diag.
  intros [E _]%Z.lor_eq_0_iff. done.
Qed.


(** A new context: it is a socket as [fstat] says, unlimited timeouts, blocking
    for the user; a socket is made non-blocking and everything else left alone. *)
Lemma FdCtx_new_ok fd k :
  (is_socket k fd = true -> is_Some (nonblocking k fd)) ->
  exists c k', FdCtx_new fd k = (c, k') /\
    c = Ctx (bool_decide (is_Some (fstat_f k fd))) (is_socket k fd)
          (is_socket k fd && bool_decide (nonblocking k fd = Some false))
          false false fd U64_MAX U64_MAX /\
    (forall g, fstat_f k' g = fstat_f k g) /\
    (forall g, nonblocking k' g
       = if decide (g = fd /\ is_socket k fd = true) then Some true else nonblocking k g).
Proof.
  intros Hopen. unfold FdCtx_new, init, is_socket in *. cbn [m_isInit m_fd m_sysNonblock].
  destruct (fstat_f k fd) as [mode|] eqn:Ef.
  2: { do 2 eexists. split; [done|]. rewrite (bool_decide_false (is_Some None)) by (intros [? E]; discriminate E).
       split_and!; [done|done|]. intros g. by rewrite decide_False by (intros [_ E]; discriminate E). }
  rewrite bool_decide_true by eauto.
  destruct (S_ISSOCK mode); cbn [andb].
  2: { do 2 eexists. split; [done|]. split_and!; [done|done|].
       intros g. by rewrite decide_False by (intros [_ E]; discriminate E). }
  destruct (Hopen eq_refl) as [b Hb]. rewrite getfl_pure. pose proof Hb as Hb'.
  unfold nonblocking in Hb. destruct (fcntl_f k fd F_GETFL None).1 as [n|] eqn:En; [|done].
  cbn [value]. destruct (Z.land n O_NONBLOCK =? 0) eqn:El.
  - destruct (setfl_flags k fd (Z.lor n O_NONBLOCK) ltac:(eauto)) as [_ Hset].
    do 2 eexists. split; [done|]. simplify_eq/=.
    rewrite (bool_decide_true (nonblocking k fd = Some false)) by done.
    split_and!; [done|intros g; apply setfl_fstat|]. intros g.
    destruct (decide (g = fd /\ true = true)) as [[-> _]|Hg].
    + rewrite Hset. by rewrite lor_nonblock.
    + apply setfl_other. naive_solver.
  - do 2 eexists. split; [done|]. simplify_eq/=.
    rewrite (bool_decide_false (nonblocking k fd = Some false)) by (rewrite Hb'; done).
    split_and!; [done|done|]. intros g.
    destruct (decide (g = fd /\ true = true)) as [[-> _]|Hg]; [|done]. done.
Qed.

Lemma manager_wf_new : wf FdManager_new.
Proof.
  split; [done| |by intros|by intros]. intros i p Hi. unfold FdManager_new in Hi. cbn [m_datas] in Hi.
  apply lookup_replicate in Hi as [? _]. done.
Qed.

Lemma data_at_ok fd d : wf d -> 0 <= fd < 64 ->
  exists o, m_datas d !! Z.to_nat fd = Some o /\ data_at fd d = Ok o.
Proof.
  intros Hwf Hfd. unfold data_at. destruct (Z.ltb_spec fd 0); [lia|].
  destruct (m_datas d !! Z.to_nat fd) as [o|] eqn:E; [by eauto|].
  apply lookup_ge_None in E. rewrite (wf_size _ Hwf) in E. lia.
Qed.

Lemma context_of_None fd d : wf d -> 0 <= fd < 64 -> context_of fd d = None ->
  m_datas d !! Z.to_nat fd = Some None.
Proof.
  intros Hwf Hfd Hc. destruct (data_at_ok fd d Hwf Hfd) as (o & Ho & _).
  unfold context_of in Hc. rewrite Ho in *. destruct o as [p|]; [|done].
  destruct (wf_data _ Hwf _ _ Ho) as (c & Hp & _). by rewrite Hp in Hc.
Qed.

Lemma context_of_beyond fd d : wf d -> 64 <= fd -> context_of fd d = None.
Proof.
  intros Hwf Hfd. unfold context_of.
  destruct (m_datas d !! Z.to_nat fd) as [o|] eqn:E; [|done].
  apply lookup_lt_Some in E. rewrite (wf_size _ Hwf) in E. lia.
Qed.

(** Without creating, [get] reads the table. *)
Lemma get_lookup fd d k : wf d -> 0 <= fd -> get fd false d k = Ok (fst <$> context_of fd d, d, k).
Proof.
  intros Hwf Hfd. unfold get, get_read. rewrite (wf_size _ Hwf).
  destruct (Z.leb_spec (Z.of_nat 64) fd); [by rewrite context_of_beyond|].
  destruct (data_at_ok fd d Hwf ltac:(lia)) as (o & Ho & ->). unfold context_of. rewrite Ho. res_simpl.
  destruct o as [p|]; [|done]. by destruct (wf_data _ Hwf _ _ Ho) as (c & -> & _).
Qed.

Lemma get_present fd auto d k p c : wf d -> 0 <= fd -> context_of fd d = Some (p, c) ->
  get fd auto d k = Ok (Some p, d, k).
Proof.
  intros Hwf Hfd Hc. assert (fd < 64) as Hlt.
  { destruct (Z.lt_ge_cases fd 64); [done|]. by rewrite context_of_beyond in Hc. }
  unfold get, get_read. rewrite (wf_size _ Hwf). destruct (Z.leb_spec (Z.of_nat 64) fd); [lia|].
  destruct (data_at_ok fd d Hwf ltac:(lia)) as (o & Ho & ->). unfold context_of in Hc. rewrite Ho in Hc.
  res_simpl. destruct o as [q|]; [|done]. destruct (ctxs d !! q); [|done]. by simplify_eq/=.
Qed.

(** The context [get] creates. *)
Definition fresh_context k (fd : Z) : FdCtx :=
  Ctx (bool_decide (is_Some (fstat_f k fd))) (is_socket k fd)
    (is_socket k fd && bool_decide (nonblocking k fd = Some false)) false false fd U64_MAX U64_MAX.

Lemma get_create_ok fd d k :
  wf d -> 0 <= fd < 64 -> (is_socket k fd = true -> is_Some (nonblocking k fd)) ->
  exists d' k', get_create fd d k = Ok (Some (fresh_ctx d), d', k') /\ wf d' /\
    context_of fd d' = Some (fresh_ctx d, fresh_context k fd) /\
    (forall g, 0 <= g -> g <> fd -> context_of g d' = context_of g d) /\
    (forall g, fstat_f k' g = fstat_f k g) /\
    (forall g, nonblocking k' g
       = if decide (g = fd /\ is_socket k fd = true) then Some true else nonblocking k g).
Proof.
  intros Hwf Hfd Hopen. destruct (FdCtx_new_ok fd k Hopen) as (c & k' & Hn & -> & Hst & Hnb).
  fold (fresh_context k fd) in Hn.
  destruct (data_at_ok fd d Hwf Hfd) as (o & Ho & Hat).
  assert (Z.to_nat fd < length (m_datas d))%nat as Hlt by (by apply lookup_lt_Some in Ho).
  unfold get_create. rewrite Hn. unfold set_data.
  replace (data_at fd _) with (data_at fd d) by done. rewrite Hat. res_simpl.
  do 2 eexists. split; [done|]. cbn [m_datas ctxs fresh_ctx]. split_and!; [| | |done|done].
  - destruct Hwf as [Hs Hd Hf Ho']. split; cbn [m_datas ctxs fresh_ctx].
    + by rewrite length_insert.
    + intros i p Hi. destruct (decide (i = Z.to_nat fd)) as [->|Hne].
      * rewrite list_lookup_insert_eq in Hi by done. simplify_eq.
        exists (fresh_context k fd). rewrite lookup_insert_eq. split; [done|]. simpl. lia.
      * rewrite list_lookup_insert_ne in Hi by done. destruct (Hd i p Hi) as (c & Hc & ?).
        exists c. rewrite lookup_insert_ne; [done|]. specialize (Hf p c Hc). lia.
    + intros p c [[<- <-]|[_ Hp]]%lookup_insert_Some; [lia|]. specialize (Hf p c Hp). lia.
    + intros p c [[<- <-]|[_ Hp]]%lookup_insert_Some; [done|by eapply Ho'].
  - unfold context_of. cbn [m_datas ctxs]. rewrite list_lookup_insert_eq by done.
    by rewrite lookup_insert_eq.
  - intros g Hg Hne. unfold context_of. cbn [m_datas ctxs].
    rewrite list_lookup_insert_ne by lia. destruct (m_datas d !! Z.to_nat g) as [[p|]|] eqn:Eg; try done.
    destruct (wf_data _ Hwf _ _ Eg) as (c & Hc & _). pose proof (wf_fresh _ Hwf p c Hc).
    by rewrite lookup_insert_ne by lia.
Qed.

Lemma del_ok fd d : wf d -> 0 <= fd ->
  exists d', del fd d = Ok d' /\ wf d' /\ context_of fd d' = None /\
    (forall g, 0 <= g -> g <> fd -> context_of g d' = context_of g d).
Proof.
  intros Hwf Hfd. unfold del. rewrite (wf_size _ Hwf). destruct (Z.leb_spec (Z.of_nat 64) fd).
  - exists d. split_and!; [done|done|by apply context_of_beyond|done].
  - destruct (data_at_ok fd d Hwf ltac:(lia)) as (o & Ho & Hat).
    assert (Z.to_nat fd < length (m_datas d))%nat as Hlt by (by apply lookup_lt_Some in Ho).
    unfold set_data. rewrite Hat. res_simpl. eexists. split; [done|]. split_and!.
    + destruct Hwf as [Hs Hd Hf Ho']. split; cbn [m_datas ctxs fresh_ctx];
        [by rewrite length_insert| |done|done].
      intros i p Hi. destruct (decide (i = Z.to_nat fd)) as [->|Hne].
      * by rewrite list_lookup_insert_eq in Hi by done.
      * rewrite list_lookup_insert_ne in Hi by done. by eapply Hd.
    + unfold context_of. cbn [m_datas]. by rewrite list_lookup_insert_eq by done.
    + intros g Hg Hne. unfold context_of. cbn [m_datas ctxs]. by rewrite list_lookup_insert_ne by lia.
Qed.

(** C38.  [FdManager::get] and [del] as a map from descriptors to contexts: a
    context that exists is returned as it is, without creating nothing changes,
    and a created one is entered for that descriptor alone, says whether the
    descriptor is a socket, and a socket is non-blocking from then on; but the
    table never grows, so creating one for a descriptor from 64 on writes
    outside the vector. *)
Theorem get_contexts fd d k :
  wf d -> 0 <= fd -> (is_socket k fd = true -> is_Some (nonblocking k fd)) ->
  get fd false d k = Ok (fst <$> context_of fd d, d, k) /\
  (forall p c, context_of fd d = Some (p, c) -> get fd true d k = Ok (Some p, d, k)) /\
  (context_of fd d = None -> fd < 64 ->
     exists p d' k', get fd true d k = Ok (Some p, d', k') /\ wf d' /\
       context_of fd d' = Some (p, fresh_context k fd) /\
       (forall g, 0 <= g -> g <> fd -> context_of g d' = context_of g d) /\
       (forall g, nonblocking k' g
          = if decide (g = fd /\ is_socket k fd = true) then Some true else nonblocking k g)) /\
  (64 <= fd -> exists what, get fd true d k = Err (FUB what)) /\
  (exists d', del fd d = Ok d' /\ wf d' /\ context_of fd d' = None /\
     forall g, 0 <= g -> g <> fd -> context_of g d' = context_of g d).
Proof.
  intros Hwf Hfd Hopen. split_and!.
  - by apply get_lookup.
  - intros p c Hc. by eapply get_present.
  - intros Hc Hlt. destruct (get_create_ok fd d k Hwf ltac:(lia) Hopen)
      as (d' & k' & Hg & ? & ? & ? & _ & ?).
    exists (fresh_ctx d), d', k'. split_and!; try done. unfold get, get_read.
    rewrite (wf_size _ Hwf). destruct (Z.leb_spec (Z.of_nat 64) fd); [lia|].
    unfold data_at. destruct (Z.ltb_spec fd 0); [lia|].
    by rewrite (context_of_None fd d Hwf ltac:(lia) Hc).
  - intros Hge. unfold get, get_read. rewrite (wf_size _ Hwf).
    destruct (Z.leb_spec (Z.of_nat 64) fd); [|lia]. res_simpl. unfold get_create.
    destruct (FdCtx_new fd k) as [c k']. unfold set_data, data_at. cbn [m_datas].
    destruct (Z.ltb_spec fd 0); [lia|].
    rewrite lookup_ge_None_2 by (rewrite (wf_size _ Hwf); lia). by eexists.
  - by apply del_ok.
Qed.

(** [get] checks for a context under the read lock and creates one under
    the write lock without checking again: when two threads meet, the second
    replaces the context the first has been given, and - because the first has
    made the socket non-blocking meanwhile - the one that stays takes the flag
    for the user's ([m_sysNonblock] is false). *)
Theorem get_race fd d k :
  wf d -> 0 <= fd < 64 -> context_of fd d = None ->
  is_socket k fd = true -> nonblocking k fd = Some false ->
  get_read fd true d = Ok None /\
  exists p1 d1 k1 p2 d2 k2 c2,
    get_create fd d k = Ok (Some p1, d1, k1) /\ get_create fd d1 k1 = Ok (Some p2, d2, k2) /\
    p1 <> p2 /\ context_of fd d2 = Some (p2, c2) /\ m_sysNonblock c2 = false /\
    (m_sysNonblock <$> ctxs d2 !! p1) = Some true.
Proof.
  intros Hwf Hfd Hc Hsock Hnb. split.
  { unfold get_read. rewrite (wf_size _ Hwf). destruct (Z.leb_spec (Z.of_nat 64) fd); [lia|].
    unfold data_at. destruct (Z.ltb_spec fd 0); [lia|]. by rewrite (context_of_None fd d). }
  destruct (get_create_ok fd d k Hwf Hfd ltac:(eauto)) as (d1 & k1 & Hg1 & Hwf1 & Hc1 & _ & Hst1 & Hnb1).
  assert (is_socket k1 fd = true) as Hs1 by (unfold is_socket in *; by rewrite Hst1).
  assert (nonblocking k1 fd = Some true) as Hn1 by (rewrite Hnb1; by rewrite decide_True).
  destruct (get_create_ok fd d1 k1 Hwf1 Hfd ltac:(eauto)) as (d2 & k2 & Hg2 & _ & Hc2 & _).
  assert (ctxs d1 !! fresh_ctx d = Some (fresh_context k fd)) as Hp1.
  { unfold context_of in Hc1. destruct (m_datas d1 !! Z.to_nat fd) as [[q|]|]; try done.
    destruct (ctxs d1 !! q) eqn:Eq; [|done]. by simplify_eq. }
  assert (fresh_ctx d < fresh_ctx d1)%nat as Hlt by (by eapply wf_fresh).
  exists (fresh_ctx d), d1, k1, (fresh_ctx d1), d2, k2, (fresh_context k1 fd).
  split_and!; [done|done|lia|done| |].
  - simpl. by rewrite Hs1, Hn1.
  - assert (ctxs d2 !! fresh_ctx d = ctxs d1 !! fresh_ctx d) as ->.
    { unfold get_create in Hg2. destruct (FdCtx_new fd k1) as [c k'].
      unfold set_data, data_at in Hg2. destruct (fd <? 0); [done|]. cbn [m_datas] in Hg2.
      destruct (m_datas d1 !! Z.to_nat fd); [|done]. res_simpl. injection Hg2 as <- _. cbn [ctxs].
      rewrite lookup_insert_ne; [done|lia]. }
    rewrite Hp1. unfold fresh_context. cbn. by rewrite Hsock, Hnb, bool_decide_true.
Qed.
End Theory.

(** ** A concrete kernel: the status flags of its descriptors *)

(** Descriptors with their flags; all are sockets. *)
Abbreviation ex_kernel := (gmap Z Z).

#[export] Instance ex_fd : FdKernel ex_kernel := {
  fstat_f k fd := match k !! fd with Some _ => Some 49152 | None => None end;
  fcntl_f k fd cmd a :=
    match k !! fd with
    | None => (Fail 9, k)
    | Some flags =>
        if cmd =? F_GETFL then (Ret (Z.abs flags), k)
        else if cmd =? F_SETFL then
          match a with Some v => (Ret 0, <[fd := Z.land v O_NONBLOCK]> k) | None => (Fail 22, k) end
        else (Ret 0, k)
    end }.

#[export] Instance ex_fd_laws : FdKernelLaws ex_kernel.
Proof.
  split; unfold nonblocking; cbn.
  - intros k fd a. by destruct (k !! fd).
  - intros k fd n. destruct (k !! fd); simpl; [intros [= <-]; lia|done].
  - intros k fd a [b Hb]. destruct (k !! fd) eqn:E; [|done]. simpl. rewrite lookup_insert_eq. simpl.
    split; [done|]. rewrite Z.abs_eq by (apply Z.land_nonneg; right; done).
    by rewrite <- Z.land_assoc, Z.land_diag.
  - intros k fd g a Hne. destruct (k !! fd) eqn:E; simpl; [|done].
    rewrite lookup_insert_ne by congruence. by destruct (k !! g).
  - intros k fd g a. destruct (k !! fd) eqn:E; simpl; [|done].
    destruct (decide (g = fd)) as [->|]; [by rewrite lookup_insert_eq, E|by rewrite lookup_insert_ne by congruence].
Qed.

Definition ex_k : ex_kernel := <[3 := 0]> (<[70 := 0]> ∅).

Lemma get_contexts_witness :
  exists d' k', get 3 true FdManager_new ex_k = Ok (Some 0%nat, d', k') /\
    context_of 3 d' = Some (0%nat, Ctx true true true false false 3 U64_MAX U64_MAX).
Proof.
  destruct (get_contexts (HL := ex_fd_laws) 3 FdManager_new ex_k manager_wf_new ltac:(lia) ltac:(eexists; vm_compute; reflexivity))
    as (_ & _ & H & _).
  destruct (H eq_refl ltac:(lia)) as (p & d' & k' & Hg & _ & Hc & _).
  exists d', k'. assert (p = 0%nat) as -> by (vm_compute in Hg; congruence).
  split; [exact Hg|]. rewrite Hc. reflexivity.
Defined.

Lemma get_race_witness :
  exists p1 d1 k1 p2 d2 k2,
    get_create 3 FdManager_new ex_k = Ok (Some p1, d1, k1) /\
    get_create 3 d1 k1 = Ok (Some p2, d2, k2) /\ p1 <> p2.
Proof.
  destruct (get_race (HL := ex_fd_laws) 3 FdManager_new ex_k manager_wf_new ltac:(lia) eq_refl
    ltac:(vm_compute; reflexivity) ltac:(vm_compute; reflexivity))
    as (_ & p1 & d1 & k1 & p2 & d2 & k2 & c2 & H1 & H2 & H3 & _).
  exists p1, d1, k1, p2, d2, k2. split_and!; [exact H1|exact H2|exact H3].
Defined.
