(* ===== verification/Hook.v ===== *)
(** * The hooked system calls (src/sylar/hook.cc)

    The calls run in a fiber of an IO manager: a call that would block leaves a
    timer and an event behind and yields.  So a hooked call is modelled as the
    pieces of code between yields - its start, and [resume_frame] for what
    follows a yield - over the state of the thread: the flag [t_hook_enable],
    [errno], the descriptor contexts, the IO manager and the [timer_info]
    objects shared with the timers' callbacks.  The real system calls are an
    interface. *)

From S2P Require Import Prelude Timer Fiber Scheduler IOManager FdManager.

Definition EINTR : Z := 4.
Definition EBADF : Z := 9.
Definition ETIMEDOUT : Z := 110.
Definition EINPROGRESS : Z := 115.
Definition SOL_SOCKET : Z := 1.
Definition SO_ERROR : Z := 4.
Definition FIONBIO : Z := 21537.

(** The calls that go through [do_io], with the arguments the hook only passes
    on ([A]). *)
Inductive io_name : Type :=
| Accept | Read | Readv | Recv | Recvfrom | Recvmsg
| Write | Writev | Send | Sendto | Sendmsg.
Record io_call (A : Type) : Type := Call { c_name : io_name; c_fd : Z; c_args : A }.
Arguments Call {A}.
Arguments c_name {A}.
Arguments c_fd {A}.
Arguments c_args {A}.

(** The real calls. *)
Class Kernel (Q A : Type) `{FdKernel Q} : Type := {
  io_f : Q -> io_call A -> sysret * Q;
  socket_f : Q -> A -> sysret * Q;
  connect_f : Q -> Z -> A -> sysret * Q;
  close_f : Q -> Z -> sysret * Q;
  ioctl_f : Q -> Z -> Z -> Z -> sysret * Q;
  getsockopt_f : Q -> Z -> Z -> Z -> sysret * Z * Q;
  setsockopt_f : Q -> Z -> Z -> Z -> A -> sysret * Q;
  sleep_f : Q -> A -> sysret * Q }.

(** The callbacks hooks give to timers and schedulers, among the client's. *)
Inductive task (V : Type) : Type :=
| Client (v : V)
| OnTimeout (winfo : nat) (fd event : Z)
| WakeFiber (f : fid).
Arguments Client {V} v.
Arguments OnTimeout {V} winfo fd event.
Arguments WakeFiber {V} f.

(** The state a hooked call sees. *)
Record hooks (V K Q : Type) : Type := Hooks {
  t_hook_enable : bool;
  errno : Z;
  fdmgr : FdManager;
  kern : Q;
  iom : option (iomanager (task V) K nat);
  infos : gmap nat Z;
  next_info : nat;
  s_connct_timeout : Z }.
Arguments Hooks {V K Q}.
Arguments t_hook_enable {V K Q}.
Arguments errno {V K Q}.
Arguments fdmgr {V K Q}.
Arguments kern {V K Q}.
Arguments iom {V K Q}.
Arguments infos {V K Q}.
Arguments next_info {V K Q}.
Arguments s_connct_timeout {V K Q}.

(** Where a hooked call has yielded. *)
Inductive frame (A : Type) : Type :=
| InDoIo (c : io_call A) (to : Z) (tinfo : nat) (timer : option loc)
| InConnect (fd : Z) (tinfo : nat) (timer : option loc)
| InSleep.
Arguments InDoIo {A} c to tinfo timer.
Arguments InConnect {A} fd tinfo timer.
Arguments InSleep {A}.

Inductive outcome (A : Type) : Type := Returned (n : Z) | Yields (fr : frame A).
Arguments Returned {A} n.
Arguments Yields {A} fr.

Section Ops.
Context {V K Q A : Type} `{Epoll K} `{HQ : FdKernel Q} `{!Kernel Q A}.
Abbreviation hk := (hooks V K Q).
Abbreviation iomgr := (iomanager (task V) K nat).
Implicit Types (h : hk) (c : io_call A) (m : iomgr).

Definition set_hook_enabled (flag : bool) h : hk :=
  Hooks flag (errno h) (fdmgr h) (kern h) (iom h) (infos h) (next_info h) (s_connct_timeout h).
Definition set_errno (e : Z) h : hk :=
  Hooks (t_hook_enable h) e (fdmgr h) (kern h) (iom h) (infos h) (next_info h) (s_connct_timeout h).
Definition set_fdmgr (d : FdManager) h : hk :=
  Hooks (t_hook_enable h) (errno h) d (kern h) (iom h) (infos h) (next_info h) (s_connct_timeout h).
Definition set_kern (k : Q) h : hk :=
  Hooks (t_hook_enable h) (errno h) (fdmgr h) k (iom h) (infos h) (next_info h) (s_connct_timeout h).
Definition set_iom (m : iomgr) h : hk :=
  Hooks (t_hook_enable h) (errno h) (fdmgr h) (kern h) (Some m) (infos h) (next_info h)
    (s_connct_timeout h).
Definition set_infos (i : gmap nat Z) (n : nat) h : hk :=
  Hooks (t_hook_enable h) (errno h) (fdmgr h) (kern h) (iom h) i n (s_connct_timeout h).
Definition set_connect_timeout (t : Z) h : hk :=
  Hooks (t_hook_enable h) (errno h) (fdmgr h) (kern h) (iom h) (infos h) (next_info h) t.

(** [is_hook_enabled]. *)
Definition is_hook_enabled h : bool := t_hook_enable h.

(** [new timer_info] and the end of its last [shared_ptr]. *)
Definition new_info h : nat * hk :=
  (next_info h, set_infos (<[next_info h := 0]> (infos h)) (S (next_info h)) h).
Definition drop_info (tinfo : nat) h : hk := set_infos (delete tinfo (infos h)) (next_info h) h.

(** A real call: a failure sets [errno]. *)
Definition sys (r : sysret * Q) h : Z * hk :=
  let h := set_kern r.2 h in
  match r.1 with Ret n => (n, h) | Fail e => (-1, set_errno e h) end.

(** [FdMgr::GetInstance()->get(fd, auto_create)]. *)
Definition hk_get (fd : Z) (auto_create : bool) h : res (option nat * hk) :=
  '(o, d, k) ← FdManager.get fd auto_create (fdmgr h) (kern h);
  mret (o, set_kern k (set_fdmgr d h)).

(** [addTimer] and [addConditionTimer] of the IO manager, with the virtual
    [onTimerInsertedAtfront]. *)
Definition io_addTimer (now : Z) (addr : loc) (ms : Z) (cb : option (Timer.callback (task V) nat)) m
    : iomgr :=
  let '(front, t) := Timer.addTimer now addr ms cb false (io_timers m) in
  let m := set_timers t m in
  if front : bool then onTimerInsertedAtfront m else m.

Definition io_addConditionTimer (now : Z) (addr : loc) (ms : Z) (cb : task V) (winfo : nat) m : iomgr :=
  let '(front, t) := Timer.addConditionTimer now addr ms (Some cb) winfo false (io_timers m) in
  let m := set_timers t m in
  if front : bool then onTimerInsertedAtfront m else m.

(** [if(timer) timer->cancel()]. *)
Definition cancel_timer (timer : option loc) m : res iomgr :=
  match timer with
  | None => mret m
  | Some p => '(_, t) ← Timer.cancel p (io_timers m); mret (set_timers t m)
  end.

(** The callback of the condition timer. *)
Definition on_timeout (winfo : nat) (fd event : Z) h : res hk :=
  match infos h !! winfo with
  | None => mret h
  | Some cancelled =>
      if negb (cancelled =? 0) then mret h
      else
        let h := set_infos (<[winfo := ETIMEDOUT]> (infos h)) (next_info h) h in
        m ← deref (iom h) "timeout: iom";
        '(_, m) ← cancelEvent fd event m;
        mret (set_iom m h)
  end.

(** The event and the socket option of a call. *)
Definition event_of (n : io_name) : Z :=
  match n with
  | Accept | Read | Readv | Recv | Recvfrom | Recvmsg => READ
  | Write | Writev | Send | Sendto | Sendmsg => WRITE
  end.
Definition timeout_of (n : io_name) : Z :=
  match n with
  | Accept | Read | Readv | Recv | Recvfrom | Recvmsg => SO_RCVTIMEO
  | Write | Writev | Send | Sendto | Sendmsg => SO_SNDTIMEO
  end.

(** [n=fun(...); while(n==-1 && errno==EINTR) n=fun(...)]; [None] when the call
    is interrupted more than [fuel] times. *)
Fixpoint call_eintr (fuel : nat) c h : option (Z * hk) :=
  let '(n, h) := sys (io_f (kern h) c) h in
  if (n =? -1) && (errno h =? EINTR) then
    match fuel with O => None | S fuel => call_eintr fuel c h end
  else Some (n, h).

Section Calls.
(** [Fiber::GetThis()], [GetCurrentMS()], the address of a new timer, and the
    [errno] a failing [epoll_ctl] leaves. *)
Variables (cur : fid) (now : Z) (addr : loc) (epoll_errno : Z).

(** [do_io] once the call has failed with EAGAIN, up to the yield. *)
Definition do_io_wait c (to : Z) (tinfo : nat) h : res (outcome A * hk) :=
  m ← deref (iom h) "IOManager::GetThis()";
  let event := event_of (c_name c) in
  let '(timer, m) :=
    if to =? U64_MAX then (None, m)
    else (Some addr, io_addConditionTimer now addr to (OnTimeout tinfo (c_fd c) event) tinfo m) in
  '(rt, m) ← addEvent (c_fd c) event None true (cur, EXEC) m;
  if negb (rt =? 0) then
    m ← cancel_timer timer m;
    mret (Returned (-1), drop_info tinfo (set_errno epoll_errno (set_iom m h)))
  else mret (Yields (InDoIo c to tinfo timer), set_iom m h).

(** [do_io] from the label [retry]. *)
Definition do_io_retry (fuel : nat) c (to : Z) (tinfo : nat) h : res (option (outcome A * hk)) :=
  match call_eintr fuel c h with
  | None => mret None
  | Some (n, h) =>
      if (n =? -1) && (errno h =? EAGAIN) then Some <$> do_io_wait c to tinfo h
      else mret (Some (Returned n, drop_info tinfo h))
  end.

(** [do_io]. *)
Definition do_io (fuel : nat) c h : res (option (outcome A * hk)) :=
  let direct h := let '(n, h) := sys (io_f (kern h) c) h in mret (Some (Returned n, h)) in
  if negb (t_hook_enable h) then direct h
  else
    '(o, h) ← hk_get (c_fd c) false h;
    match o with
    | None => direct h
    | Some p =>
        ctx ← ctx_at p (fdmgr h);
        if m_isClosed ctx then mret (Some (Returned (-1), set_errno EBADF h))
        else if negb (m_isSocket ctx) || m_userNonblock ctx then direct h
        else
          let to := getTimeout (timeout_of (c_name c)) ctx in
          let '(tinfo, h) := new_info h in
          do_io_retry fuel c to tinfo h
    end.

(** What [accept] does after [do_io] returned. *)
Definition after_io c (n : Z) h : res (outcome A * hk) :=
  match c_name c with
  | Accept =>
      let fd := s32 n in
      if 0 <=? fd then '(_, h) ← hk_get fd true h; mret (Returned fd, h) else mret (Returned fd, h)
  | _ => mret (Returned n, h)
  end.

Definition finish_io c (o : option (outcome A * hk)) : res (option (outcome A * hk)) :=
  match o with
  | Some (Returned n, h) => Some <$> after_io c n h
  | o => mret o
  end.

(** [accept], [read], [readv], [recv], [recvfrom], [recvmsg], [write],
    [writev], [send], [sendto], [sendmsg]. *)
Definition io (fuel : nat) c h : res (option (outcome A * hk)) :=
  o ← do_io fuel c h; finish_io c o.

(** [connect_with_timeout] after the event has been waited for, or not. *)
Definition connect_result (fd : Z) h : Z * hk :=
  let '(r, error, k) := getsockopt_f (kern h) fd SOL_SOCKET SO_ERROR in
  let '(n, h) := sys (r, k) h in
  if n =? -1 then (-1, h)
  else if error =? 0 then (0, h)
  else (-1, set_errno error h).

Definition connect_with_timeout (fd : Z) (args : A) (timeout_ms : Z) h : res (outcome A * hk) :=
  let direct h := let '(n, h) := sys (connect_f (kern h) fd args) h in mret (Returned n, h) in
  if negb (t_hook_enable h) then direct h
  else
    '(o, h) ← hk_get fd false h;
    match o with
    | None => direct h
    | Some p =>
        ctx ← ctx_at p (fdmgr h);
        if m_isClosed ctx || negb (m_isSocket ctx) then direct h
        else if m_userNonblock ctx then direct h
        else
          let '(n, h) := sys (connect_f (kern h) fd args) h in
          if n =? 0 then mret (Returned 0, h)
          else if negb (n =? -1) || negb (errno h =? EINPROGRESS) then mret (Returned n, h)
          else
            m ← deref (iom h) "IOManager::GetThis()";
            let '(tinfo, h) := new_info h in
            let '(timer, m) :=
              if timeout_ms =? U64_MAX then (None, m)
              else (Some addr,
                    io_addConditionTimer now addr timeout_ms (OnTimeout tinfo fd WRITE) tinfo m) in
            '(rt, m) ← addEvent fd WRITE None true (cur, EXEC) m;
            if rt =? 0 then mret (Yields (InConnect fd tinfo timer), set_iom m h)
            else
              m ← cancel_timer timer m;
              let '(n, h) := connect_result fd (set_iom m h) in
              mret (Returned n, drop_info tinfo h)
    end.

(** [connect]. *)
Definition connect (fd : Z) (args : A) h : res (outcome A * hk) :=
  connect_with_timeout fd args (s_connct_timeout h) h.

(** What follows the yield. *)
Definition resume_frame (fuel : nat) (fr : frame A) h : res (option (outcome A * hk)) :=
  match fr with
  | InDoIo c to tinfo timer =>
      m ← deref (iom h) "iom";
      m ← cancel_timer timer m;
      let h := set_iom m h in
      cancelled ← deref (infos h !! tinfo) "tinfo";
      o ← (if negb (cancelled =? 0)
           then mret (Some (Returned (-1), drop_info tinfo (set_errno cancelled h)))
           else do_io_retry fuel c to tinfo h);
      finish_io c o
  | InConnect fd tinfo timer =>
      m ← deref (iom h) "iom";
      m ← cancel_timer timer m;
      let h := set_iom m h in
      cancelled ← deref (infos h !! tinfo) "tinfo";
      if negb (cancelled =? 0)
      then mret (Some (Returned (-1), drop_info tinfo (set_errno cancelled h)))
      else
        let '(n, h) := connect_result fd h in
        mret (Some (Returned n, drop_info tinfo h))
  | InSleep => mret (Some (Returned 0, h))
  end.

(** [sleep], [usleep] and [nanosleep] with the timeout they compute. *)
Definition sleep_for (ms : Z) (args : A) h : res (outcome A * hk) :=
  if negb (t_hook_enable h) then
    let '(n, h) := sys (sleep_f (kern h) args) h in mret (Returned n, h)
  else
    m ← deref (iom h) "IOManager::GetThis()";
    mret (Yields InSleep,
          set_iom (io_addTimer now addr ms (Some (CbFun (WakeFiber cur))) m) h).

Definition sleep (seconds : Z) (args : A) h := sleep_for (u32 (seconds * 1000)) args h.
Definition usleep (usec : Z) (args : A) h := sleep_for (usec / 1000) args h.
Definition nanosleep (tv_sec tv_nsec : Z) (args : A) h :=
  sleep_for (u64 (s32 (tv_sec * 1000 + Z.quot (Z.quot tv_nsec 1000) 1000))) args h.
End Calls.

(** A hook's callback as the IO manager runs it. *)
Definition run_task (t : task V) h : res hk :=
  match t with
  | OnTimeout winfo fd event => on_timeout winfo fd event h
  | WakeFiber f =>
      m ← deref (iom h) "wake: iom";
      mret (set_iom (io_schedule (ToFiber (Some f)) (-1) m) h)
  | Client _ => mret h
  end.

(** [socket]. *)
Definition socket (args : A) h : res (Z * hk) :=
  let '(fd, h') := sys (socket_f (kern h) args) h in
  if negb (t_hook_enable h) then mret (fd, h')
  else if fd =? -1 then mret (fd, h')
  else '(_, h'') ← hk_get fd true h'; mret (fd, h'').

(** [close_f(fd)] of a descriptor the hooks know: the kernel also takes it out of
    the epoll instance.  (A descriptor without a context is taken not to be
    there.) *)
Definition close_known (fd : Z) h : Z * hk :=
  let '(n, h) := sys (close_f (kern h) fd) h in
  (n, if n =? 0 then match iom h with
                     | Some m => set_iom (set_epfd (epoll_closed (m_epfd m) fd) m) h
                     | None => h
                     end
      else h).

(** [close]. *)
Definition close (fd : Z) h : res (Z * hk) :=
  if negb (t_hook_enable h) then mret (sys (close_f (kern h) fd) h)
  else
    '(o, h) ← hk_get fd false h;
    match o with
    | None => mret (sys (close_f (kern h) fd) h)
    | Some _ =>
        h ← (match iom h with
             | Some m => '(_, m) ← cancelAll fd m; mret (set_iom m h)
             | None => mret h
             end);
        d ← FdManager.del fd (fdmgr h);
        mret (close_known fd (set_fdmgr d h))
    end.

(** The commands whose argument [fcntl] passes on: the [int] ones, the locks
    and the owners. *)
Definition passes_argument (cmd : Z) : bool :=
  bool_decide (cmd ∈ [0; 1030; 2; 8; 10; 1024; 1026; 1031; 6; 7; 5; 15; 16]).

(** [fcntl]. *)
Definition hooked_ctx (fd : Z) h : res (option (nat * FdCtx) * hk) :=
  '(o, h) ← hk_get fd false h;
  match o with
  | None => mret (None, h)
  | Some p =>
      ctx ← ctx_at p (fdmgr h);
      mret (if m_isClosed ctx || negb (m_isSocket ctx) then None else Some (p, ctx), h)
  end.

Definition fcntl (fd cmd : Z) (arg : Z) h : res (Z * hk) :=
  if cmd =? F_SETFL then
    '(o, h) ← hooked_ctx fd h;
    match o with
    | None => mret (sys (fcntl_f (kern h) fd cmd (Some arg)) h)
    | Some (p, ctx) =>
        d ← upd_ctx (setUserNonblock (negb (Z.land arg O_NONBLOCK =? 0))) p (fdmgr h);
        let arg := if m_sysNonblock ctx then Z.lor arg O_NONBLOCK
                   else Z.land arg (Z.lnot O_NONBLOCK) in
        let h := set_fdmgr d h in
        mret (sys (fcntl_f (kern h) fd cmd (Some arg)) h)
    end
  else if cmd =? F_GETFL then
    let '(arg, h) := sys (fcntl_f (kern h) fd cmd None) h in
    '(o, h) ← hooked_ctx fd h;
    match o with
    | None => mret (arg, h)
    | Some (_, ctx) =>
        mret (if m_userNonblock ctx then Z.lor arg O_NONBLOCK
              else Z.land arg (Z.lnot O_NONBLOCK), h)
    end
  else
    mret (sys (fcntl_f (kern h) fd cmd (if passes_argument cmd then Some arg else None)) h).

(** [ioctl]; for FIONBIO [arg] is the [int] pointed to. *)
Definition ioctl (fd request arg : Z) h : res (Z * hk) :=
  if request =? FIONBIO then
    '(o, h) ← hooked_ctx fd h;
    match o with
    | None => mret (sys (ioctl_f (kern h) fd request arg) h)
    | Some (p, _) =>
        d ← upd_ctx (setUserNonblock (negb (arg =? 0))) p (fdmgr h);
        let h := set_fdmgr d h in
        mret (sys (ioctl_f (kern h) fd request arg) h)
    end
  else mret (sys (ioctl_f (kern h) fd request arg) h).

(** [getsockopt]. *)
Definition getsockopt (fd level optname : Z) h : Z * Z * hk :=
  let '(r, v, k) := getsockopt_f (kern h) fd level optname in
  let '(n, h) := sys (r, k) h in (n, v, h).

(** [setsockopt]; [tv] is the [timeval] read for the two timeouts. *)
Definition setsockopt (fd level optname : Z) (tv_sec tv_usec : Z) (args : A) h : res (Z * hk) :=
  let direct h := mret (sys (setsockopt_f (kern h) fd level optname args) h) in
  if negb (t_hook_enable h) then direct h
  else if (level =? SOL_SOCKET) && ((optname =? SO_RCVTIMEO) || (optname =? SO_SNDTIMEO)) then
    '(o, h) ← hk_get fd false h;
    match o with
    | None => direct h
    | Some p =>
        d ← upd_ctx (setTimeout optname (u64 (tv_sec * 100 + Z.quot tv_usec 1000))) p (fdmgr h);
        direct (set_fdmgr d h)
    end
  else direct h.

(** [_HookIniter]: the value of "tcp.connect.timeout" (an [int]), at start and
    in the listener. *)
Definition HookIniter (value : Z) h : hk := set_connect_timeout (u64 value) h.
Definition connect_timeout_listener (old_value new_value : Z) h : hk :=
  set_connect_timeout (u64 new_value) h.
End Ops.

(** ** Frames *)

(** A call that does not fail does not return a negative value. *)
Class KernelLaws (Q A : Type) `{Kernel Q A} : Prop := {
  io_nonneg k c n : (io_f k c).1 = Ret n -> 0 <= n;
  getsockopt_nonneg k fd l o n : (getsockopt_f k fd l o).1.1 = Ret n -> 0 <= n }.

Section Theory.
Context {V K Q A : Type} `{EpollLaws K} `{HQ : FdKernelLaws Q} `{!Kernel Q A, !KernelLaws Q A}.
Abbreviation hk := (hooks V K Q).
Abbreviation iomgr := (iomanager (task V) K nat).
Implicit Types (h : hk) (c : io_call A) (m : iomgr).

Lemma hk_get_lookup fd h : FdManager.wf (fdmgr h) -> 0 <= fd ->
  hk_get fd false h = Ok (fst <$> context_of fd (fdmgr h), h).
Proof.
  intros Hwf Hfd. unfold hk_get. rewrite get_lookup by done. res_simpl. by destruct h.
Qed.

Lemma ctx_at_of fd d p x : context_of fd d = Some (p, x) -> ctx_at p d = Ok x.
Proof.
  unfold context_of, ctx_at. destruct (m_datas d !! Z.to_nat fd) as [[q|]|]; try done.
  destruct (ctxs d !! q) eqn:E; [|done]. intros [= <- <-]. by rewrite E.
Qed.

Lemma context_open fd d p x : FdManager.wf d -> context_of fd d = Some (p, x) -> m_isClosed x = false.
Proof.
  unfold context_of. intros Hwf Hc. destruct (m_datas d !! Z.to_nat fd) as [[q|]|]; try done.
  destruct (ctxs d !! q) eqn:E; [|done]. simplify_eq. by eapply wf_open.
Qed.

(** What the state of the timers and the pipe does not touch. *)
Lemma inv_timers t n m : inv m -> inv (set_pipe n (set_timers t m)).
Proof. by intros []; split. Qed.

Lemma front_frame (b : bool) t m :
  exists n, (if b then onTimerInsertedAtfront (set_timers t m) else set_timers t m)
    = set_pipe n (set_timers t m).
Proof.
  unfold onTimerInsertedAtfront, tickle. destruct b; [destruct (hasIdleThreads _)|]; eexists; try done;
    instantiate (1 := tickle_pipe m); by destruct m.
Qed.

Lemma cancelEvent_timers fd e m b m' : cancelEvent fd e m = Ok (b, m') -> io_timers m' = io_timers m.
Proof. by intros [= -> _]%cancelEvent_frame. Qed.

Lemma addEvent_timers fd e cb b cur m r m' :
  addEvent fd e cb b cur m = Ok (r, m') -> io_timers m' = io_timers m.
Proof.
  unfold addEvent, addEvent_context. set (m0 := if needs_resize fd m then _ else m).
  assert (io_timers m0 = io_timers m) as <- by (subst m0; destruct (needs_resize fd m);
    [unfold contextResize; by destruct (fill_contexts _ _ _ _) as [[? ?] ?]|done]).
  destruct (at_fd fd m0) as [p|]; res_simpl; [|done]. by intros [= -> _]%addEvent_register_frame.
Qed.

Lemma cancelAll_timers fd m b m' : cancelAll fd m = Ok (b, m') -> io_timers m' = io_timers m.
Proof. by intros [= -> _]%cancelAll_frame. Qed.

Lemma handle_event_timers ev m m' : handle_event ev m = Ok m' -> io_timers m' = io_timers m.
Proof. by intros [= -> _]%handle_event_frame. Qed.

(** *** The pieces of a waiting call *)

(** The pending timer of a waiting call. *)
Definition condition_timer (now to : Z) (tinfo : nat) (fd event : Z) : timer (task V) nat :=
  new_timer now to (Some (CbOnTimer tinfo (Some (OnTimeout tinfo fd event)))) false.

Lemma io_addConditionTimer_ok now addr ms tinfo fd e m :
  inv m -> Timer.wf (io_timers m) -> m_heap (io_timers m) !! addr = None -> is_u64 ms ->
  let m' := io_addConditionTimer now addr ms (OnTimeout tinfo fd e) tinfo m in
  inv m' /\ Timer.wf (io_timers m') /\ (forall g a, abs m' g a = abs m g a) /\
  io_sched m' = io_sched m /\
  m_heap (io_timers m') = <[addr := condition_timer now ms tinfo fd e]> (m_heap (io_timers m)) /\
  pending (io_timers m') = <[addr := condition_timer now ms tinfo fd e]> (pending (io_timers m)).
Proof.
  intros Hi Hw Hh Hms. unfold io_addConditionTimer, addConditionTimer.
  destruct (addTimer _ _ _ _ _ _) as [front t] eqn:Ea.
  destruct (addTimer_ok _ _ _ _ _ _ _ _ Hw Hh Hms Ea) as (Hwt & Hp & Hhp & _).
  destruct (front_frame front t m) as [n ->]. cbv zeta.
  split_and!; [by apply inv_timers|done|done|done|done|done].
Qed.

(** A timer that was cancelled: it has no callback, and is not pending any more
    (it was not before, if it had no callback then). *)
Definition timer_gone (timer : option loc) (t t' : Timer.manager (task V) nat) : Prop :=
  match timer with
  | None => t' = t
  | Some p => exists x, m_heap t !! p = Some x /\ m_heap t' = <[p := set_cb None x]> (m_heap t) /\
      pending t' = if bool_decide (is_Some (Timer.m_cb x)) then delete p (pending t) else pending t
  end.

Definition timer_alive (timer : option loc) m : Prop :=
  forall p, timer = Some p -> is_Some (m_heap (io_timers m) !! p).

Lemma cancel_timer_ok timer m :
  Timer.wf (io_timers m) -> timer_alive timer m ->
  exists t, cancel_timer timer m = Ok (set_timers t m) /\ Timer.wf t /\ timer_gone timer (io_timers m) t.
Proof.
  intros Hw Hp. destruct timer as [p|].
  - destruct (Hp p eq_refl) as [x Hx]. destruct (cancel_ok _ _ _ Hw Hx) as (t & Hc & Hwt & Hh & Hpe & _).
    exists t. unfold cancel_timer. rewrite Hc. res_simpl. split_and!; [done|done|]. by exists x.
  - exists (io_timers m). split_and!; [|done|done]. simpl. by destruct m.
Qed.

(** *** The call and its interruptions *)

(** The kernel after [n] times the call, and whether the next is interrupted. *)
Definition kern_after (n : nat) c (k : Q) : Q := Nat.iter n (fun k => (io_f k c).2) k.
Definition interrupted c (k : Q) : Prop := (io_f k c).1 = Fail EINTR.

Lemma kern_after_S n c k : kern_after (S n) c k = kern_after n c (io_f k c).2.
Proof. unfold kern_after. by rewrite Nat.iter_succ_r. Qed.

(** The state after a call that changed only the kernel and [errno]. *)
Record called h (r : sysret * Q) h' : Prop := Called {
  ca_enable : t_hook_enable h' = t_hook_enable h;
  ca_fdmgr : fdmgr h' = fdmgr h;
  ca_kern : kern h' = r.2;
  ca_iom : iom h' = iom h;
  ca_infos : infos h' = infos h;
  ca_next : next_info h' = next_info h;
  ca_errno : forall e, r.1 = Fail e -> errno h' = e }.

Lemma sys_called r h : called h r (sys r h).2 /\ (sys r h).1 = value r.1.
Proof. destruct r as [[n|e] k]; (split; [split|]); unfold sys; simpl; congruence. Qed.

Lemma call_eintr_ok i fuel c h :
  (i <= fuel)%nat -> (forall j, (j < i)%nat -> interrupted c (kern_after j c (kern h))) ->
  ~ interrupted c (kern_after i c (kern h)) ->
  exists h', call_eintr fuel c h = Some (value (io_f (kern_after i c (kern h)) c).1, h') /\
    called h (io_f (kern_after i c (kern h)) c) h'.
Proof.
  revert fuel h. induction i as [|i IH]; intros fuel h Hf Hint Hn.
  - destruct (sys_called (io_f (kern h) c) h) as [Hc Hv]. exists (sys (io_f (kern h) c) h).2.
    split; [|done]. unfold kern_after in *. simpl in *. unfold interrupted in Hn.
    assert (forall fuel, call_eintr fuel c h = (let '(n, h') := sys (io_f (kern h) c) h in
      if (n =? -1) && (errno h' =? EINTR) then
        match fuel with O => None | S fuel => call_eintr fuel c h' end else Some (n, h'))) as ->
      by (by intros []).
    destruct (sys (io_f (kern h) c) h) as [n h'] eqn:E. simpl in *. subst n.
    destruct (io_f (kern h) c) as [[n|e] k] eqn:Ek; simpl in *.
    + pose proof (io_nonneg (kern h) c n) as Hnn. rewrite Ek in Hnn. specialize (Hnn eq_refl).
      destruct (Z.eqb_spec n (-1)); [lia|done].
    + rewrite (ca_errno _ _ _ Hc e eq_refl). destruct (Z.eqb_spec e EINTR); [congruence|done].
  - destruct fuel as [|fuel]; [lia|]. pose proof (Hint 0%nat ltac:(lia)) as H0'.
    unfold kern_after, interrupted in H0'. simpl in H0'. cbn [call_eintr].
    destruct (sys_called (io_f (kern h) c) h) as [Hc Hv].
    destruct (sys (io_f (kern h) c) h) as [n h1] eqn:E. simpl in Hc, Hv. subst n.
    rewrite (ca_errno _ _ _ Hc _ H0'), H0'. cbn [value].
    rewrite !Z.eqb_refl. cbn [andb].
    rewrite !kern_after_S in *. rewrite <- (ca_kern _ _ _ Hc) in *.
    destruct (IH fuel h1) as (h' & Hcall & Hc'); [lia| |done|].
    { intros j Hj. pose proof (Hint (S j) ltac:(lia)) as Hi. rewrite kern_after_S in Hi.
      by rewrite (ca_kern _ _ _ Hc). }
    exists h'. split; [done|]. destruct Hc, Hc'. split; first [done|congruence].
Qed.

(** *** A thread of an IO manager *)

Record hosted h m : Prop := Hosted {
  ho_enable : t_hook_enable h = true;
  ho_iom : iom h = Some m;
  ho_inv : inv m;
  ho_timers : Timer.wf (io_timers m);
  ho_fdmgr : FdManager.wf (fdmgr h);
  ho_fresh : infos h !! next_info h = None }.

(** A hooked descriptor: a socket the user has not made non-blocking. *)
Definition hooked (fd : Z) (x : FdCtx) h : Prop :=
  (exists p, context_of fd (fdmgr h) = Some (p, x)) /\
  m_isSocket x = true /\ m_userNonblock x = false.

Section Calls.
Variables (cur : fid) (now : Z) (addr : loc) (epoll_errno : Z).

Lemma event_of_ok c : is_event (event_of (c_name c)).
Proof. destruct (c_name c); first [by left|by right]. Qed.

(** The running fiber waits for an event, perhaps not for longer than [to]. *)
Definition listens (timer : option loc) (to : Z) (tinfo : nat) (fd e : Z) m m' : Prop :=
  inv m' /\ Timer.wf (io_timers m') /\
  abs_set fd e (Some (ToFiber (Some cur))) m m' /\
  m_fibers (io_sched m') = m_fibers (io_sched m) /\
  (to = U64_MAX -> timer = None /\ pending (io_timers m') = pending (io_timers m)) /\
  (to <> U64_MAX -> timer = Some addr /\
     pending (io_timers m') = <[addr := condition_timer now to tinfo fd e]> (pending (io_timers m))).

(** What remains of a call that waits. *)
Definition waits_with (timer : option loc) (to : Z) (tinfo : nat) c m m' : Prop :=
  listens timer to tinfo (c_fd c) (event_of (c_name c)) m m'.

(** The timer, then the event: the fiber waits, or epoll has refused and the
    timer can be taken back. *)
Definition with_timer (to : Z) (tinfo : nat) (fd e : Z) m : option loc * iomgr :=
  if to =? U64_MAX then (None, m)
  else (Some addr, io_addConditionTimer now addr to (OnTimeout tinfo fd e) tinfo m).

Lemma listen_ok to tinfo fd e m :
  inv m -> Timer.wf (io_timers m) -> m_heap (io_timers m) !! addr = None ->
  is_u64 to -> 0 <= fd -> is_event e -> abs m fd e = None ->
  let tm := with_timer to tinfo fd e m in
  exists rt m', addEvent fd e None true (cur, EXEC) tm.2 = Ok (rt, m') /\
    ((rt = 0 /\ listens tm.1 to tinfo fd e m m') \/
     (rt = -1 /\ exists t, cancel_timer tm.1 m' = Ok (set_timers t m') /\ inv (set_timers t m') /\ Timer.wf t /\
        abs_same m (set_timers t m') /\ pending t = pending (io_timers m))).
Proof.
  intros Hi Hw Haddr Hto Hfd He Habs tm.
  destruct (io_addConditionTimer_ok now addr to tinfo fd e m Hi Hw Haddr Hto) as (Hi1 & Hw1 & Ha1 & Hs1 & Hh1 & Hp1).
  set (m1 := io_addConditionTimer now addr to (OnTimeout tinfo fd e) tinfo m) in *.
  assert (inv tm.2 /\ Timer.wf (io_timers tm.2) /\ (forall g a, abs tm.2 g a = abs m g a) /\
    io_sched tm.2 = io_sched m) as (Hi2 & Hw2 & Ha2 & Hs2)
    by (subst tm; unfold with_timer; destruct (to =? U64_MAX); done).
  pose proof (addEvent_ok fd e None cur tm.2 Hi2 Hfd He) as Hadd. rewrite Ha2, Habs in Hadd.
  destruct Hadd as (r & m' & Hadd & Hi' & Hq & Hr). pose proof (addEvent_timers _ _ _ _ _ _ _ _ Hadd) as Ht.
  exists r, m'. split; [done|]. destruct Hr as [[-> Hset]|[-> Hsame]]; [left|right]; (split; [done|]).
  - unfold listens. rewrite Ht. split_and!; [done|done| |congruence|..].
    + intros g a Hg Ha. rewrite Hset by done. by rewrite Ha2.
    + intros ->. done.
    + intros Hne. subst tm. unfold with_timer. destruct (Z.eqb_spec to U64_MAX); [done|]. split; [done|exact Hp1].
  - destruct (cancel_timer_ok tm.1 m') as (t & Hct & Hwt & Hg); [by rewrite Ht| |].
    { intros p. rewrite Ht. subst tm. unfold with_timer. destruct (to =? U64_MAX); simpl; [done|]. intros [= <-].
      fold m1. rewrite Hh1, lookup_insert_eq. eauto. }
    exists t. split_and!; [done|by apply (inv_timers t (tickle_pipe m'))|done|..].
    + intros g a Hgd Ha. change (abs m' g a = abs m g a). rewrite Hsame by done. by rewrite Ha2.
    + rewrite Ht in Hg. subst tm. unfold with_timer in Hg. destruct (Z.eqb_spec to U64_MAX); simpl in Hg; [by rewrite Hg|].
      destruct Hg as (x & Hx & _ & ->). fold m1 in Hx, Hp1 |- *. rewrite Hh1, lookup_insert_eq in Hx. injection Hx as <-.
      rewrite bool_decide_true by eauto. rewrite Hp1, delete_insert_id; [done|].
      unfold pending. apply map_lookup_filter_None. by left.
Qed.

Lemma do_io_wait_ok c to tinfo h m :
  iom h = Some m -> inv m -> Timer.wf (io_timers m) -> m_heap (io_timers m) !! addr = None ->
  is_u64 to -> 0 <= c_fd c -> abs m (c_fd c) (event_of (c_name c)) = None ->
  (exists timer m', do_io_wait cur now addr epoll_errno c to tinfo h
       = Ok (Yields (InDoIo c to tinfo timer), set_iom m' h) /\
     waits_with timer to tinfo c m m') \/
  (exists m', do_io_wait cur now addr epoll_errno c to tinfo h
       = Ok (Returned (-1), drop_info tinfo (set_errno epoll_errno (set_iom m' h))) /\
     inv m' /\ Timer.wf (io_timers m') /\ abs_same m m' /\
     pending (io_timers m') = pending (io_timers m)).
Proof.
  intros Hm Hi Hw Haddr Hto Hfd Habs. unfold do_io_wait. rewrite Hm. cbn [deref]. res_simpl.
  set (e := event_of (c_name c)) in *. fold (with_timer to tinfo (c_fd c) e m).
  destruct (listen_ok to tinfo (c_fd c) e m Hi Hw Haddr Hto Hfd (event_of_ok c) Habs) as (rt & m' & Hadd & Hr).
  destruct (with_timer to tinfo (c_fd c) e m) as [timer m1]. cbn [fst snd] in Hadd, Hr. rewrite Hadd. res_simpl.
  destruct Hr as [[-> Hl]|[-> (t & Hct & ? & ? & ? & ?)]].
  - left. cbn [Z.eqb negb]. by exists timer, m'.
  - right. change (negb (-1 =? 0)) with true. cbn iota. rewrite Hct. res_simpl. by exists (set_timers t m').
Qed.

(** The call made until it is not interrupted, [i] times. *)
Lemma do_io_retry_ok (fuel i : nat) c to tinfo h m :
  iom h = Some m -> inv m -> Timer.wf (io_timers m) -> m_heap (io_timers m) !! addr = None ->
  is_u64 to -> 0 <= c_fd c -> abs m (c_fd c) (event_of (c_name c)) = None ->
  (i <= fuel)%nat -> (forall j, (j < i)%nat -> interrupted c (kern_after j c (kern h))) ->
  ~ interrupted c (kern_after i c (kern h)) ->
  let r := io_f (kern_after i c (kern h)) c in
  let call := do_io_retry cur now addr epoll_errno fuel c to tinfo h in
  (r.1 <> Fail EAGAIN ->
     exists h', call = Ok (Some (Returned (value r.1), h')) /\ kern h' = r.2 /\
       iom h' = Some m /\ fdmgr h' = fdmgr h /\ infos h' = delete tinfo (infos h) /\
       forall e, r.1 = Fail e -> errno h' = e) /\
  (r.1 = Fail EAGAIN ->
     (exists timer m' h', call = Ok (Some (Yields (InDoIo c to tinfo timer), h')) /\
        iom h' = Some m' /\ infos h' = infos h /\ kern h' = r.2 /\ waits_with timer to tinfo c m m') \/
     (exists m' h', call = Ok (Some (Returned (-1), h')) /\ errno h' = epoll_errno /\
        iom h' = Some m' /\ infos h' = delete tinfo (infos h) /\ abs_same m m' /\
        pending (io_timers m') = pending (io_timers m))).
Proof.
  intros Hm Hi Hw Haddr Hto Hfd Habs Hf Hint Hn r call. subst call. unfold do_io_retry.
  destruct (call_eintr_ok i fuel c h Hf Hint Hn) as (h1 & -> & [_ Hd Hk Hio Hin _ He]). fold r in Hk, He |- *.
  rewrite Hm in Hio. split; intros Hr.
  - assert ((value r.1 =? -1) && (errno h1 =? EAGAIN) = false) as ->.
    { destruct r.1 as [n|e] eqn:Er; simpl.
      - pose proof (io_nonneg _ _ _ Er). by destruct (Z.eqb_spec n (-1)); [lia|].
      - rewrite (He e eq_refl). destruct (Z.eqb_spec e EAGAIN); congruence. }
    res_simpl. exists (drop_info tinfo h1). split_and!; try done. cbn. by rewrite Hin.
  - rewrite (He _ Hr), Hr. cbn [value]. rewrite !Z.eqb_refl. cbn [andb].
    destruct (do_io_wait_ok c to tinfo h1 m Hio Hi Hw Haddr Hto Hfd Habs)
      as [(timer & m' & -> & Hwt)|(m' & -> & _ & _ & Hsame & Hp)]; res_simpl.
    + left. by exists timer, m', (set_iom m' h1).
    + right. eexists m', _. split_and!; try done. cbn. by rewrite Hin.
Qed.

(** A call of a descriptor that is not hooked - the hook is off for the
    thread, the descriptor has no context, is no socket, or the user has made it
    non-blocking - is the real call: made once, its result and [errno] passed
    on, nothing else touched.  The EBADF branch is dead: no context is ever
    marked closed. *)
Theorem do_io_direct (fuel : nat) c h :
  FdManager.wf (fdmgr h) -> 0 <= c_fd c ->
  (forall p x, context_of (c_fd c) (fdmgr h) = Some (p, x) -> m_isClosed x = false) /\
  (t_hook_enable h = false \/
   match context_of (c_fd c) (fdmgr h) with
   | None => True
   | Some (_, x) => m_isSocket x = false \/ m_userNonblock x = true
   end ->
   do_io cur now addr epoll_errno fuel c h
     = Ok (Some (Returned (sys (io_f (kern h) c) h).1, (sys (io_f (kern h) c) h).2))).
Proof.
  intros Hwf Hfd. split; [intros p x; by apply context_open|]. intros Hd. unfold do_io.
  assert ((let '(n, h') := sys (io_f (kern h) c) h in mret (Some (Returned n, h')))
    = Ok (Some (Returned (A:=A) (sys (io_f (kern h) c) h).1, (sys (io_f (kern h) c) h).2))) as Heq
    by (by destruct (sys (io_f (kern h) c) h)).
  destruct (t_hook_enable h) eqn:Ee; cbn [negb]; [|exact Heq].
  rewrite hk_get_lookup by done. res_simpl.
  destruct (context_of (c_fd c) (fdmgr h)) as [[p x]|] eqn:Ec; simpl; [|exact Heq].
  rewrite (ctx_at_of _ _ _ _ Ec). res_simpl. rewrite (context_open _ _ _ _ Hwf Ec).
  destruct Hd as [?|Hd]; [done|].
  replace (negb (m_isSocket x) || m_userNonblock x) with true; [exact Heq|].
  destruct Hd as [-> | ->]; [done|by rewrite orb_true_r].
Qed.

Lemma do_io_hooked (fuel : nat) c h m x :
  hosted h m -> 0 <= c_fd c -> hooked (c_fd c) x h ->
  do_io cur now addr epoll_errno fuel c h
    = do_io_retry cur now addr epoll_errno fuel c (getTimeout (timeout_of (c_name c)) x)
        (next_info h) (new_info h).2.
Proof.
  intros Hh Hfd ((p & Hp) & Hs & Hu). unfold do_io. rewrite (ho_enable _ _ Hh). cbn [negb].
  rewrite hk_get_lookup by (apply Hh || done). rewrite Hp. res_simpl. simpl.
  rewrite (ctx_at_of _ _ _ _ Hp). res_simpl. by rewrite (context_open _ _ _ _ (ho_fdmgr _ _ Hh) Hp), Hs, Hu.
Qed.

(** C20.  [do_io] on a hooked socket makes the call until it is not interrupted
    and then: a result or an error other than EAGAIN is returned as it is, with
    nothing left behind; EAGAIN makes the running fiber the waiter of the
    call's event, with a timer of the socket's timeout unless that is
    unlimited, and yields - or, when epoll refuses the descriptor, returns -1
    with the timer taken back and nobody waiting. *)
Theorem do_io_waits (fuel i : nat) c h m x :
  hosted h m -> 0 <= c_fd c -> hooked (c_fd c) x h ->
  let to := getTimeout (timeout_of (c_name c)) x in
  let event := event_of (c_name c) in
  is_u64 to -> m_heap (io_timers m) !! addr = None -> abs m (c_fd c) event = None ->
  (i <= fuel)%nat -> (forall j, (j < i)%nat -> interrupted c (kern_after j c (kern h))) ->
  ~ interrupted c (kern_after i c (kern h)) ->
  let r := io_f (kern_after i c (kern h)) c in
  let call := do_io cur now addr epoll_errno fuel c h in
  (r.1 <> Fail EAGAIN ->
     exists h', call = Ok (Some (Returned (value r.1), h')) /\ kern h' = r.2 /\
       iom h' = Some m /\ fdmgr h' = fdmgr h /\ infos h' = infos h /\
       forall e, r.1 = Fail e -> errno h' = e) /\
  (r.1 = Fail EAGAIN ->
     (exists timer m' h', call = Ok (Some (Yields (InDoIo c to (next_info h) timer), h')) /\
        iom h' = Some m' /\ infos h' = <[next_info h := 0]> (infos h) /\ kern h' = r.2 /\
        waits_with timer to (next_info h) c m m') \/
     (exists m' h', call = Ok (Some (Returned (-1), h')) /\ errno h' = epoll_errno /\
        iom h' = Some m' /\ infos h' = infos h /\ abs_same m m' /\
        pending (io_timers m') = pending (io_timers m))).
Proof.
  intros Hh Hfd Hhk to event Hto Haddr Habs Hf Hint Hn r call.
  subst call. rewrite (do_io_hooked fuel c h m x Hh Hfd Hhk). fold to. set (h0 := (new_info h).2).
  destruct (do_io_retry_ok fuel i c to (next_info h) h0 m) as [Ha Hb]; try done; [apply Hh..|].
  change (kern h0) with (kern h) in Ha, Hb. fold r in Ha, Hb.
  change (infos h0) with (<[next_info h := 0]> (infos h)) in Ha, Hb.
  rewrite delete_insert_id in Ha, Hb by apply Hh. split; [exact Ha|]. intros Hr.
  destruct (Hb Hr) as [(timer & m' & h' & ?)|?]; [left; by exists timer, m', h'|by right].
Qed.

(** Somebody wakes who waits for an event: the kernel reports it, or it is
    cancelled. *)
Inductive woken (fd e : Z) m : iomgr -> Prop :=
| W_event p x events m' : contexts m !! p = Some x -> fc_fd x = fd -> reported events e = true ->
    handle_event (EpollEvent events (Context p)) m = Ok m' -> woken fd e m m'
| W_cancel b m' : cancelEvent fd e m = Ok (b, m') -> woken fd e m m'
| W_cancel_all b m' : cancelAll fd m = Ok (b, m') -> woken fd e m m'.

(** What that leaves, of the state in which the fiber is resumed. *)
Definition woken_up (fd e : Z) (w : target (code (task V))) m m' : Prop :=
  inv m' /\ abs m' fd e = None /\ io_timers m' = io_timers m /\
  exists l1 l2, m_fibers (io_sched m') = m_fibers (io_sched m) ++ l1 ++ entry_of w (-1) ++ l2.

Lemma event_wakes fd e w p x events m m' : inv m -> 0 <= fd -> is_event e -> abs m fd e = Some w ->
  contexts m !! p = Some x -> fc_fd x = fd -> reported events e = true ->
  handle_event (EpollEvent events (Context p)) m = Ok m' -> woken_up fd e w m m'.
Proof.
  intros Hi Hfd He Habs Hp Hx Hrep Hc. pose proof (handle_event_timers _ _ _ Hc) as Ht.
  destruct (decide (handled x events)) as [Hh|Hn];
    [|by destruct (handle_event_aborts p x events m Hi Hp Hn) as [s Ea]; congruence].
  destruct (handle_event_ok p x events m Hi Hp Hh) as (m1 & E & Hi1 & Hset & Hq).
  rewrite Hc in E. injection E as <-. destruct (inv_back _ Hi p x Hp) as [_ Hv]. rewrite Hx in Hv.
  rewrite (abs_at fd m p x) in Habs by done. unfold waits_for in Habs.
  destruct (has (fc_events x) e) eqn:Eh; [|done]. injection Habs as <-.
  split_and!; [done|by rewrite Hset, decide_True by done|done|]. rewrite Hq. unfold wake.
  destruct He as [-> | ->]; rewrite Eh, Hrep; [exists []; by eexists|].
  eexists _, []. by rewrite app_nil_r.
Qed.

Lemma woken_ok fd e w m m' : inv m -> 0 <= fd -> is_event e -> abs m fd e = Some w -> woken fd e m m' ->
  woken_up fd e w m m'.
Proof.
  intros Hi Hfd He Habs [p x events m1 Hp Hx Hrep Hc|b m1 Hc|b m1 Hc]; [by eapply event_wakes|..].
  - pose proof (cancelEvent_timers _ _ _ _ _ Hc) as Ht.
    destruct (cancelEvent_ok fd e m Hi Hfd He) as (m2 & E & Hi1 & Hset & Hq). rewrite Hc in E. injection E as _ <-.
    rewrite Habs in Hq. split_and!; [done|by rewrite Hset, decide_True by done|done|].
    exists [], []. by rewrite app_nil_r.
  - pose proof (cancelAll_timers _ _ _ _ Hc) as Ht.
    destruct (cancelAll_ok fd m Hi Hfd) as (m2 & E & Hi1 & Hset & Hq). rewrite Hc in E. injection E as _ <-.
    split_and!; [done|by rewrite Hset, decide_True by done|done|]. rewrite Hq.
    destruct He as [-> | ->]; rewrite Habs; [exists []; by eexists|]. eexists _, []. by rewrite app_nil_r.
Qed.

(** The mark of the callback of the timer. *)
Lemma on_timeout_marks tinfo fd e h m w : iom h = Some m -> inv m -> 0 <= fd -> is_event e ->
  infos h !! tinfo = Some 0 -> abs m fd e = Some w ->
  exists m1, on_timeout tinfo fd e h
      = Ok (set_iom m1 (set_infos (<[tinfo := ETIMEDOUT]> (infos h)) (next_info h) h)) /\
    inv m1 /\ io_timers m1 = io_timers m /\ abs_set fd e None m m1 /\
    m_fibers (io_sched m1) = m_fibers (io_sched m) ++ entry_of w (-1).
Proof.
  intros Hm Hi Hfd He Hinfo Habs. destruct (cancelEvent_ok fd e m Hi Hfd He) as (m1 & Hc & Hi1 & Hset & Hq).
  rewrite Habs in Hc, Hq. pose proof (cancelEvent_timers _ _ _ _ _ Hc) as Ht. exists m1.
  split_and!; try done. unfold on_timeout. rewrite Hinfo. cbn [Z.eqb negb]. unfold iom at 1, set_infos.
  rewrite Hm. cbn [deref]. res_simpl. by rewrite Hc.
Qed.

Lemma finish_failed c h : finish_io c (Some (Returned (A:=A) (-1), h)) = Ok (Some (Returned (-1), h)).
Proof. unfold finish_io, after_io. by destruct (c_name c). Qed.

Lemma on_timeout_dropped tinfo fd e h : infos h !! tinfo = None -> on_timeout tinfo fd e h = Ok h.
Proof. intros E. unfold on_timeout. by rewrite E. Qed.

(** C27.  A waiting call ends in one of two ways.  When its timer goes off
    first: the waiter is woken exactly once and no longer waits, the timer has
    nothing left to do, and the call returns -1 with ETIMEDOUT without another
    real call.  When the kernel reports the event, or it is cancelled, first:
    the waiter leaves the event and enters the queue, and from that state, or any
    later one where it waits no more and the timer has not gone off, the resumed
    call cancels its timer and makes the real call again until it is not
    interrupted: a result, or an error other than EAGAIN, is
    returned, the mark of the timer is freed, so its callback does nothing any
    more; EAGAIN makes the fiber wait again, with a new timer of the same length,
    or fails when epoll refuses. *)
Theorem timeout_or_retry (fuel : nat) c (to : Z) (tinfo : nat) (timer : option loc) h m (f : fid) :
  hosted h m -> 0 <= c_fd c -> infos h !! tinfo = Some 0 ->
  let event := event_of (c_name c) in
  abs m (c_fd c) event = Some (ToFiber (Some f)) -> timer_alive timer m ->
  let resume := resume_frame cur now addr epoll_errno fuel (InDoIo c to tinfo timer) in
  (exists h1 m1 t h2, on_timeout tinfo (c_fd c) event h = Ok h1 /\ iom h1 = Some m1 /\
     m_fibers (io_sched m1) = m_fibers (io_sched m) ++ entry_of (ToFiber (Some f)) (-1) /\
     abs_set (c_fd c) event None m m1 /\
     resume h1 = Ok (Some (Returned (-1), h2)) /\ errno h2 = ETIMEDOUT /\ kern h2 = kern h /\
     iom h2 = Some (set_timers t m1) /\ timer_gone timer (io_timers m) t /\
     on_timeout tinfo (c_fd c) event h2 = Ok h2) /\
  (forall m1, woken (c_fd c) event m m1 -> woken_up (c_fd c) event (ToFiber (Some f)) m m1) /\
  (forall h1 m1 i, iom h1 = Some m1 -> inv m1 -> Timer.wf (io_timers m1) -> timer_alive timer m1 ->
     abs m1 (c_fd c) event = None -> infos h1 !! tinfo = Some 0 ->
     is_u64 to -> m_heap (io_timers m1) !! addr = None -> (i <= fuel)%nat ->
     (forall j, (j < i)%nat -> interrupted c (kern_after j c (kern h1))) ->
     ~ interrupted c (kern_after i c (kern h1)) ->
     let r := io_f (kern_after i c (kern h1)) c in
     exists t, timer_gone timer (io_timers m1) t /\
     (r.1 <> Fail EAGAIN ->
        exists h2, resume h1 = finish_io c (Some (Returned (value r.1), h2)) /\ kern h2 = r.2 /\
          iom h2 = Some (set_timers t m1) /\ infos h2 = delete tinfo (infos h1) /\
          on_timeout tinfo (c_fd c) event h2 = Ok h2 /\ forall e, r.1 = Fail e -> errno h2 = e) /\
     (r.1 = Fail EAGAIN ->
        (exists timer' m2 h2, resume h1 = Ok (Some (Yields (InDoIo c to tinfo timer'), h2)) /\
           iom h2 = Some m2 /\ infos h2 = infos h1 /\ kern h2 = r.2 /\
           waits_with timer' to tinfo c (set_timers t m1) m2) \/
        (exists m2 h2, resume h1 = Ok (Some (Returned (-1), h2)) /\ errno h2 = epoll_errno /\
           iom h2 = Some m2 /\ infos h2 = delete tinfo (infos h1) /\ abs_same m1 m2 /\
           pending (io_timers m2) = pending t))).
Proof.
  intros Hh Hfd Hi event Habs Htm resume. destruct Hh as [_ Hm Hinv Hw _ _]. split_and!.
  - destruct (on_timeout_marks tinfo (c_fd c) event h m _ Hm Hinv Hfd (event_of_ok c) Hi Habs)
      as (m1 & E & Hi1 & Ht & Hset & Hq).
    destruct (cancel_timer_ok timer m1) as (t & Hct & _ & Hg); [by rewrite Ht|intros p; rewrite Ht; apply Htm|].
    rewrite Ht in Hg. eexists _, m1, t, _. split_and!; [exact E|done|done|done|..|done|].
    + unfold resume, resume_frame. cbn [iom set_iom deref]. res_simpl. rewrite Hct. res_simpl.
      cbn [infos set_iom set_infos]. rewrite lookup_insert_eq. cbn [deref]. res_simpl.
      change (negb (ETIMEDOUT =? 0)) with true. cbn iota. res_simpl. apply finish_failed.
    + done.
    + done.
    + done.
    + apply on_timeout_dropped. cbn. apply lookup_delete_eq.
  - intros m1 Hwk. by eapply woken_ok; [..|exact (event_of_ok c)| |].
  - intros h1 m1 i Hm1 Hi1 Hw1 Htm1 Ha1 Hinfo Hto Haddr Hf Hint Hn r.
    destruct (cancel_timer_ok timer m1 Hw1 Htm1) as (t & Hct & Hwt & Hg). exists t. split; [done|].
    set (m2 := set_timers t m1). assert (m_heap t !! addr = None) as Haddr2.
    { destruct timer as [p|]; simpl in Hg; [|by rewrite Hg]. destruct Hg as (x & Hx & -> & _).
      rewrite lookup_insert_ne; [done|congruence]. }
    destruct (do_io_retry_ok fuel i c to tinfo (set_iom m2 h1) m2) as [HA HB]; try done.
    { by apply (inv_timers t (tickle_pipe m1)). }
    cbn [kern set_iom infos] in HA, HB. fold r in HA, HB.
    assert (resume h1 = (o ← do_io_retry cur now addr epoll_errno fuel c to tinfo (set_iom m2 h1);
      finish_io c o)) as ->.
    { unfold resume, resume_frame. rewrite Hm1. cbn [deref]. res_simpl. rewrite Hct. res_simpl.
      cbn [infos set_iom]. rewrite Hinfo. cbn [deref]. by res_simpl. }
    split; intros Hr.
    + destruct (HA Hr) as (h2 & -> & ? & ? & ? & Hi2 & ?). res_simpl. exists h2. split_and!; try done.
      apply on_timeout_dropped. rewrite Hi2. apply lookup_delete_eq.
    + destruct (HB Hr) as [(timer' & m3 & h2 & -> & ? & ? & ? & ?)|(m3 & h2 & -> & ? & ? & ? & ? & ?)]; res_simpl.
      * left. by exists timer', m3, h2.
      * right. exists m3, h2. rewrite finish_failed. by split_and!.
Qed.

(** [sleep], [usleep] and [nanosleep] in a fiber yield after adding one
    one-shot timer, whose callback puts the fiber back into the queue; they then
    return 0.  The duration of [sleep] is reduced modulo 2^32 milliseconds: it
    is right below 4294968 seconds and too short from there on. *)
Theorem sleep_wakes (fuel : nat) (seconds : Z) (args : A) h m :
  hosted h m -> m_heap (io_timers m) !! addr = None -> is_u32 seconds ->
  exists h' m', sleep cur now addr seconds args h = Ok (Yields InSleep, h') /\ iom h' = Some m' /\
    pending (io_timers m')
      = <[addr := new_timer now (u32 (seconds * 1000)) (Some (CbFun (WakeFiber cur))) false]>
        (pending (io_timers m)) /\
    (exists h2 m2, run_task (WakeFiber cur) h' = Ok h2 /\ iom h2 = Some m2 /\
       m_fibers (io_sched m2) = m_fibers (io_sched m) ++ entry_of (ToFiber (Some cur)) (-1)) /\
    resume_frame cur now addr epoll_errno fuel (InSleep (A:=A)) h' = Ok (Some (Returned 0, h')) /\
    (seconds < 4294968 -> u32 (seconds * 1000) = seconds * 1000) /\
    (4294968 <= seconds -> u32 (seconds * 1000) < seconds * 1000).
Proof.
  intros [He Hm Hi Hw _ _] Haddr Hs. unfold sleep, sleep_for. rewrite He, Hm. cbn [negb deref]. res_simpl.
  unfold io_addTimer. destruct (addTimer _ _ _ _ _ _) as [front t] eqn:Ea.
  assert (is_u64 (u32 (seconds * 1000))) as Hu
    by (pose proof (u32_range (seconds * 1000)); unfold is_u64, is_u32 in *; lia).
  destruct (addTimer_ok _ _ _ _ _ _ _ _ Hw Haddr Hu Ea) as (_ & Hp & _ & _).
  destruct (front_frame front t m) as [n ->].
  do 2 eexists. split; [done|]. split; [done|]. split; [done|]. split_and!.
  - cbn [run_task iom set_iom deref]. res_simpl. do 2 eexists. split; [done|]. split; [done|].
    match goal with |- context [io_schedule ?a ?b ?c] => destruct (io_schedule_frame a b c) as [n' ->] end.
    cbn [io_sched set_pipe set_sched set_timers]. by rewrite scheduleNoLock_fibers.
  - done.
  - intros Hlt. apply u32_small. unfold is_u32 in *. lia.
  - intros Hge. pose proof (u32_range (seconds * 1000)). unfold is_u32 in *. lia.
Qed.
End Calls.

(** The context after a store through its pointer. *)
Lemma upd_ctx_of fd g d p x :
  context_of fd d = Some (p, x) ->
  exists d', upd_ctx g p d = Ok d' /\ context_of fd d' = Some (p, g x).
Proof.
  intros Hc. unfold upd_ctx. rewrite (ctx_at_of _ _ _ _ Hc). res_simpl. eexists. split; [done|].
  unfold context_of in *. cbn [m_datas ctxs]. destruct (m_datas d !! Z.to_nat fd) as [[q|]|]; try done.
  destruct (ctxs d !! q); [|done]. simplify_eq. by rewrite lookup_insert_eq.
Qed.

Lemma upd_ctx_wf g d p x fd :
  FdManager.wf d -> context_of fd d = Some (p, x) -> m_isClosed (g x) = false -> m_fd (g x) = m_fd x ->
  forall d', upd_ctx g p d = Ok d' -> FdManager.wf d'.
Proof.
  intros [Hs Hd Hf Ho] Hc Hcl Hfd d' Hu. unfold upd_ctx in Hu. rewrite (ctx_at_of _ _ _ _ Hc) in Hu.
  res_simpl. injection Hu as <-.
  assert (ctxs d !! p = Some x) as Hp by (apply ctx_at_of in Hc; by apply deref_Ok in Hc).
  split; cbn [m_datas ctxs fresh_ctx]; [done|..].
  - intros i q Hq. destruct (Hd i q Hq) as (y & Hy & Hyf). destruct (decide (p = q)) as [<-|Hne].
    + rewrite lookup_insert_eq. eexists. split; [done|]. congruence.
    + rewrite lookup_insert_ne by done. eauto.
  - intros q y [[<- <-]|[_ Hq]]%lookup_insert_Some; eauto.
  - intros q y [[<- <-]|[_ Hq]]%lookup_insert_Some; eauto.
Qed.

Lemma hooked_ctx_ok fd h p x :
  FdManager.wf (fdmgr h) -> 0 <= fd -> context_of fd (fdmgr h) = Some (p, x) -> m_isSocket x = true ->
  hooked_ctx fd h = Ok (Some (p, x), h).
Proof.
  intros Hwf Hfd Hc Hs. unfold hooked_ctx. rewrite hk_get_lookup by done. rewrite Hc. res_simpl. simpl.
  rewrite (ctx_at_of _ _ _ _ Hc). res_simpl. by rewrite (context_open _ _ _ _ Hwf Hc), Hs.
Qed.

(** [O_NONBLOCK] in a word of flags. *)
Definition has_nonblock (flags : Z) : bool := negb (Z.land flags O_NONBLOCK =? 0).

Lemma has_nonblock_set a : has_nonblock (Z.lor a O_NONBLOCK) = true.
Proof. unfold has_nonblock. by rewrite lor_nonblock. Qed.

Lemma has_nonblock_clear a : has_nonblock (Z.land a (Z.lnot O_NONBLOCK)) = false.
Proof.
  unfold has_nonblock.
  by rewrite <- Z.land_assoc, (Z.land_comm (Z.lnot _)), Z.land_lnot_diag, Z.land_0_r.
Qed.

(** For the user of a hooked socket, [fcntl(F_GETFL)] after
    [fcntl(F_SETFL, flags)] reports O_NONBLOCK exactly as set; but what the
    kernel has is [m_sysNonblock]: a socket that was already non-blocking when
    its context was made (where [m_sysNonblock] is false) becomes blocking by
    any F_SETFL, even one that asks for O_NONBLOCK. *)
Theorem fcntl_user_view (fd flags : Z) h p x :
  FdManager.wf (fdmgr h) -> 0 <= fd -> context_of fd (fdmgr h) = Some (p, x) ->
  m_isSocket x = true -> is_Some (nonblocking (kern h) fd) ->
  exists h1, fcntl fd F_SETFL flags h = Ok (0, h1) /\
    nonblocking (kern h1) fd = Some (m_sysNonblock x) /\
    exists r h2, fcntl fd F_GETFL 0 h1 = Ok (r, h2) /\ has_nonblock r = has_nonblock flags /\
      kern h2 = kern h1.
Proof.
  intros Hwf Hfd Hc Hs Hnb. unfold fcntl at 1. change (F_SETFL =? F_SETFL) with true. cbn iota.
  rewrite (hooked_ctx_ok fd h p x) by done. res_simpl.
  destruct (upd_ctx_of fd (setUserNonblock (has_nonblock flags)) (fdmgr h) p x Hc) as (d & Hu & Hd).
  pose proof (upd_ctx_wf (setUserNonblock (has_nonblock flags)) _ p x fd Hwf Hc (context_open _ _ _ _ Hwf Hc) eq_refl _ Hu) as Hwd.
  unfold has_nonblock at 1 in Hu. rewrite Hu. res_simpl.
  set (arg := if m_sysNonblock x then _ else _). cbn [kern set_fdmgr].
  destruct (setfl_flags (kern h) fd arg Hnb) as [Hr Hk].
  assert (negb (Z.land arg O_NONBLOCK =? 0) = m_sysNonblock x) as Harg.
  { change (has_nonblock arg = m_sysNonblock x). subst arg.
    destruct (m_sysNonblock x); [apply has_nonblock_set|apply has_nonblock_clear]. }
  rewrite Harg in Hk. unfold sys at 1. rewrite Hr. eexists. split; [done|]. split; [done|].
  set (h1 := set_kern _ _). unfold fcntl. change (F_GETFL =? F_SETFL) with false.
  change (F_GETFL =? F_GETFL) with true. cbn iota.
  destruct (sys_called (fcntl_f (kern h1) fd F_GETFL None) h1) as [[_ Hfm Hk2 _ _ _ _] Hv].
  destruct (sys (fcntl_f (kern h1) fd F_GETFL None) h1) as [r h2]. cbn [fst snd] in Hv, Hfm, Hk2.
  rewrite getfl_pure in Hk2. cbn [snd] in Hk2.
  rewrite (hooked_ctx_ok fd h2 p (setUserNonblock (has_nonblock flags) x)).
  - res_simpl. cbn [m_userNonblock setUserNonblock]. do 2 eexists. split; [done|]. split; [|done].
    destruct (has_nonblock flags); [apply has_nonblock_set|apply has_nonblock_clear].
  - by rewrite Hfm.
  - done.
  - by rewrite Hfm.
  - done.
Qed.

(** [setsockopt(SO_RCVTIMEO / SO_SNDTIMEO)] stores a timeout for that
    direction only and passes the call on; the seconds are multiplied by 100, so
    from one second on the calls time out ten times too early. *)
Theorem setsockopt_timeout (fd : Z) (optname tv_sec tv_usec : Z) (args : A) h p x :
  FdManager.wf (fdmgr h) -> 0 <= fd -> t_hook_enable h = true ->
  context_of fd (fdmgr h) = Some (p, x) -> optname = SO_RCVTIMEO \/ optname = SO_SNDTIMEO ->
  0 <= tv_sec < 2 ^ 32 -> 0 <= tv_usec < 1000000 ->
  exists h' x', setsockopt fd SOL_SOCKET optname tv_sec tv_usec args h
      = Ok (value (setsockopt_f (kern h) fd SOL_SOCKET optname args).1, h') /\
    context_of fd (fdmgr h') = Some (p, x') /\
    getTimeout optname x' = tv_sec * 100 + tv_usec / 1000 /\
    (forall o, o = SO_RCVTIMEO \/ o = SO_SNDTIMEO -> o <> optname -> getTimeout o x' = getTimeout o x) /\
    (1 <= tv_sec -> getTimeout optname x' < tv_sec * 1000 + tv_usec / 1000).
Proof.
  intros Hwf Hfd He Hc Ho Hsec Husec. unfold setsockopt. rewrite He. cbn [negb].
  assert ((SOL_SOCKET =? SOL_SOCKET) && ((optname =? SO_RCVTIMEO) || (optname =? SO_SNDTIMEO)) = true)
    as -> by (by destruct Ho as [-> | ->]).
  rewrite hk_get_lookup by done. rewrite Hc. res_simpl. cbn [fmap option_fmap option_map fst].
  set (v := u64 _).
  assert (v = tv_sec * 100 + tv_usec / 1000) as Hv.
  { subst v. rewrite Z.quot_div_nonneg by lia. apply u64_small.
    pose proof (Z.div_pos tv_usec 1000). assert (tv_usec / 1000 < 1000) by (apply Z.div_lt_upper_bound; lia).
    unfold is_u64. lia. }
  destruct (upd_ctx_of fd (setTimeout optname v) (fdmgr h) p x Hc) as (d & Hu & Hd). rewrite Hu. res_simpl.
  destruct (sys_called (setsockopt_f (kern h) fd SOL_SOCKET optname args) (set_fdmgr d h)) as [[_ Hfm _ _ _ _ _] Hval].
  change (kern (set_fdmgr d h)) with (kern h).
  destruct (sys _ (set_fdmgr d h)) as [n h']. simpl in Hval, Hfm. subst n.
  exists h', (setTimeout optname v x). rewrite Hfm. split_and!; [done|done|..].
  - destruct Ho as [-> | ->]; exact Hv.
  - intros o Hoo Hne. destruct Ho as [-> | ->], Hoo as [-> | ->]; done.
  - intros Hge. assert (getTimeout optname (setTimeout optname v x) = v) as -> by (by destruct Ho as [-> | ->]).
    lia.
Qed.

(** [close] in a fiber wakes everybody who waits for the descriptor,
    leaves nobody waiting, forgets the context - so the number can be reused -
    and closes the descriptor, which the kernel no longer watches then; without
    a context it only closes. *)
Theorem close_releases (fd : Z) h m :
  hosted h m -> 0 <= fd ->
  (context_of fd (fdmgr h) = None ->
     close fd h = Ok (sys (close_f (kern h) fd) h)) /\
  (forall p x, context_of fd (fdmgr h) = Some (p, x) ->
     exists m' h', close fd h = Ok (value (close_f (kern h) fd).1, h') /\ iom h' = Some m' /\
       context_of fd (fdmgr h') = None /\ kern h' = (close_f (kern h) fd).2 /\
       (forall g e, 0 <= g -> is_event e -> abs m' g e = if decide (g = fd) then None else abs m g e) /\
       m_fibers (io_sched m') = m_fibers (io_sched m) ++
         match abs m fd READ with Some w => entry_of w (-1) | None => [] end ++
         match abs m fd WRITE with Some w => entry_of w (-1) | None => [] end /\
       ((close_f (kern h) fd).1 = Ret 0 -> registered (m_epfd m') fd = None)).
Proof.
  intros [He Hm Hi Hw Hwf _] Hfd. unfold close. rewrite He. cbn [negb].
  rewrite hk_get_lookup by done. res_simpl. split.
  - intros ->. done.
  - intros p x ->. cbn [fmap option_fmap option_map fst]. rewrite Hm.
    destruct (cancelAll_ok fd m Hi Hfd) as (m' & -> & _ & Habs & Hq). res_simpl.
    cbn [fdmgr set_iom]. destruct (del_ok fd (fdmgr h) Hwf Hfd) as (d & -> & _ & Hd & _). res_simpl.
    unfold close_known. cbn [kern set_fdmgr set_iom].
    destruct (sys_called (close_f (kern h) fd) (set_fdmgr d (set_iom m' h))) as [[_ Hfm Hk Hi' _ _ _] Hv].
    destruct (sys _ (set_fdmgr d (set_iom m' h))) as [n h']. simpl in *. subst n. rewrite Hi'.
    destruct (value (close_f (kern h) fd).1 =? 0) eqn:E0.
    + exists (set_epfd (epoll_closed (m_epfd m') fd) m'), (set_iom (set_epfd (epoll_closed (m_epfd m') fd) m') h').
      cbn [fdmgr kern iom set_iom]. rewrite Hfm. split_and!; try done. intros _. apply closed_gone.
    + exists m', h'. rewrite Hfm. split_and!; try done. intros Hr. by rewrite Hr in E0.
Qed.

(** What SO_ERROR says of a connection: done, failed, or the question failed. *)
Definition so_error_says (fd : Z) (k : Q) (n : Z) h' : Prop :=
  let '(r, error, k') := getsockopt_f k fd SOL_SOCKET SO_ERROR in
  kern h' = k' /\
  match r with
  | Ret _ => if error =? 0 then n = 0 else n = -1 /\ errno h' = error
  | Fail e => n = -1 /\ errno h' = e
  end.

Lemma connect_result_ok fd h : exists n h', connect_result fd h = (n, h') /\
  so_error_says fd (kern h) n h' /\ iom h' = iom h /\ infos h' = infos h /\ next_info h' = next_info h.
Proof.
  unfold connect_result, so_error_says. pose proof (getsockopt_nonneg (kern h) fd SOL_SOCKET SO_ERROR) as Hnn.
  destruct (getsockopt_f (kern h) fd SOL_SOCKET SO_ERROR) as [[r error] k]. cbn [fst] in Hnn.
  destruct (sys_called (r, k) h) as [[_ _ Hk Hm Hi Hx He] Hv]. destruct (sys (r, k) h) as [n h1].
  cbn [fst snd] in *. subst n. destruct r as [n|e]; cbn [value].
  - specialize (Hnn n eq_refl). destruct (Z.eqb_spec n (-1)); [lia|].
    destruct (error =? 0); do 2 eexists; (split; [done|]); by split_and!.
  - do 2 eexists. split; [done|]. split_and!; try done. by apply He.
Qed.

(** How a waiting [connect] ends, whatever woke it. *)
Definition connect_ends (cur : fid) (now : Z) (addr : loc) (epoll_errno : Z) (fuel : nat) (fd : Z) : Prop :=
  forall h m tinfo timer mark, iom h = Some m -> Timer.wf (io_timers m) -> timer_alive timer m ->
  infos h !! tinfo = Some mark ->
  exists n t h', resume_frame cur now addr epoll_errno fuel (InConnect (A:=A) fd tinfo timer) h
      = Ok (Some (Returned n, h')) /\
    iom h' = Some (set_timers t m) /\ timer_gone timer (io_timers m) t /\ infos h' = delete tinfo (infos h) /\
    if mark =? 0 then so_error_says fd (kern h) n h' else n = -1 /\ errno h' = mark /\ kern h' = kern h.

Lemma connect_ends_ok cur now addr epoll_errno fuel fd : connect_ends cur now addr epoll_errno fuel fd.
Proof.
  intros h m tinfo timer mark Hm Hw Ha Hi. destruct (cancel_timer_ok timer m Hw Ha) as (t & Hct & _ & Hg).
  unfold resume_frame. rewrite Hm. cbn [deref]. res_simpl. rewrite Hct. res_simpl.
  cbn [infos set_iom]. rewrite Hi. cbn [deref]. res_simpl. destruct (mark =? 0) eqn:E; cbn [negb].
  - destruct (connect_result_ok fd (set_iom (set_timers t m) h)) as (n & h' & -> & Hso & Hio & Hin & Hnx).
    exists n, t, (drop_info tinfo h'). split_and!; [done|done|done|cbn; by rewrite Hin|].
    exact Hso.
  - by exists (-1), t, (drop_info tinfo (set_errno mark (set_iom (set_timers t m) h))).
Qed.

(** [connect] in progress: the fiber listens, or epoll has refused. *)
Lemma connect_waits cur now addr fd h m timeout :
  hosted h m -> 0 <= fd -> abs m fd WRITE = None -> is_u64 timeout -> m_heap (io_timers m) !! addr = None ->
  exists o h1,
  (let '(tinfo, h) := new_info h in
   let '(timer, m) := with_timer now addr timeout tinfo fd WRITE m in
   '(rt, m) ← addEvent fd WRITE None true (cur, EXEC) m;
   if rt =? 0 then mret (Yields (InConnect (A:=A) fd tinfo timer), set_iom m h)
   else
     m ← cancel_timer timer m;
     let '(n, h) := connect_result fd (set_iom m h) in
     mret (Returned n, drop_info tinfo h)) = Ok (o, h1) /\
  ((exists timer m1, o = Yields (InConnect fd (next_info h) timer) /\ iom h1 = Some m1 /\
     infos h1 = <[next_info h := 0]> (infos h) /\ kern h1 = kern h /\
     listens cur now addr timer timeout (next_info h) fd WRITE m m1) \/
  (exists n m1, o = Returned n /\ so_error_says fd (kern h) n h1 /\ iom h1 = Some m1 /\
     infos h1 = infos h /\ abs_same m m1 /\ pending (io_timers m1) = pending (io_timers m))).
Proof.
  intros Hh Hfd Habs Hto Haddr. unfold new_info.
  destruct (listen_ok cur now addr timeout (next_info h) fd WRITE m (ho_inv _ _ Hh) (ho_timers _ _ Hh) Haddr Hto Hfd
    ltac:(by right) Habs) as (rt & m1 & Hadd & Hr).
  destruct (with_timer now addr timeout (next_info h) fd WRITE m) as [timer m0]. cbn [fst snd] in Hadd, Hr.
  rewrite Hadd. res_simpl. destruct Hr as [[-> Hl]|[-> (t & Hct & Hi1 & Hw1 & Hsame & Hp)]].
  - cbn [Z.eqb]. do 2 eexists. split; [done|]. left. by exists timer, m1.
  - change (-1 =? 0) with false. cbn iota. rewrite Hct. res_simpl.
    match goal with |- context [connect_result fd ?h0] =>
      destruct (connect_result_ok fd h0) as (n & h2 & -> & Hso & Hio & Hin & _) end.
    do 2 eexists. split; [done|]. right. exists n, (set_timers t m1). split_and!; try done.
    cbn [infos drop_info set_infos]. rewrite Hin. cbn [infos set_iom set_infos]. apply delete_insert_id, Hh.
Qed.

(** C37.  [connect] on a hooked socket nobody waits to write to: an immediate
    result is passed on.  On EINPROGRESS the fiber becomes the waiter of WRITE, with a timer of the
    configured timeout unless that is unlimited; the timer, when it goes off,
    wakes the fiber and leaves the mark ETIMEDOUT; the resumed call cancels the
    timer and frees the mark, and returns -1 with the mark as errno if there is
    one, else what SO_ERROR says: 0, or -1 with that error, or -1 with the errno
    of [getsockopt].  When epoll refuses the descriptor the call does not fail
    but asks SO_ERROR at once - so it reports success while the connection is in
    progress. *)
Theorem connect_outcomes (cur : fid) (now : Z) (addr : loc) (epoll_errno : Z) (fuel : nat)
    (fd : Z) (args : A) h m x :
  hosted h m -> 0 <= fd -> hooked fd x h -> abs m fd WRITE = None ->
  let to := s_connct_timeout h in
  is_u64 to -> m_heap (io_timers m) !! addr = None ->
  let r := connect_f (kern h) fd args in
  let call := connect cur now addr fd args h in
  (r.1 = Ret 0 -> exists h', call = Ok (Returned 0, h') /\ iom h' = iom h /\ infos h' = infos h) /\
  (forall e, r.1 = Fail e -> e <> EINPROGRESS ->
     exists h', call = Ok (Returned (-1), h') /\ errno h' = e /\ iom h' = iom h /\ infos h' = infos h) /\
  (r.1 = Fail EINPROGRESS ->
     (exists timer m' h', call = Ok (Yields (InConnect fd (next_info h) timer), h') /\ iom h' = Some m' /\
        infos h' = <[next_info h := 0]> (infos h) /\ kern h' = r.2 /\
        listens cur now addr timer to (next_info h) fd WRITE m m' /\
        exists h1 m1, on_timeout (next_info h) fd WRITE h' = Ok h1 /\ iom h1 = Some m1 /\
          infos h1 !! next_info h = Some ETIMEDOUT /\ abs_set fd WRITE None m' m1 /\
          m_fibers (io_sched m1) = m_fibers (io_sched m') ++ entry_of (ToFiber (Some cur)) (-1)) \/
     (exists n m' h', call = Ok (Returned n, h') /\ so_error_says fd r.2 n h' /\ iom h' = Some m' /\
        infos h' = infos h /\ abs_same m m' /\ pending (io_timers m') = pending (io_timers m))) /\
  connect_ends cur now addr epoll_errno fuel fd.
Proof.
  intros Hh Hfd ((p & Hp) & Hs & Hu) Habs to Hto Haddr r call. subst call.
  unfold connect, connect_with_timeout. fold to. rewrite (ho_enable _ _ Hh). cbn [negb].
  rewrite hk_get_lookup by (apply Hh || done). rewrite Hp. res_simpl. cbn [fmap option_fmap option_map fst].
  rewrite (ctx_at_of _ _ _ _ Hp). res_simpl. rewrite (context_open _ _ _ _ (ho_fdmgr _ _ Hh) Hp), Hs, Hu.
  cbn [negb orb]. fold r. destruct (sys_called r h) as [[Hen Hfm Hk Hm Hi Hnx He] Hv].
  destruct (sys r h) as [n h1] eqn:Es. cbn [fst snd] in *. subst n. split_and!; [| | |apply connect_ends_ok].
  - intros ->. cbn [value Z.eqb]. by exists h1.
  - intros e Hr Hne. rewrite Hr. cbn [value]. change (-1 =? 0) with false. change (-1 =? -1) with true.
    rewrite (He e Hr). destruct (Z.eqb_spec e EINPROGRESS); [done|]. cbn [negb orb].
    exists h1. split_and!; [done|by apply He|done|done].
  - intros Hr. rewrite Hr. cbn [value]. change (-1 =? 0) with false. change (-1 =? -1) with true.
    rewrite (He _ Hr), Z.eqb_refl. cbn [negb orb]. rewrite Hm, (ho_iom _ _ Hh). cbn [deref]. res_simpl.
    assert (hosted h1 m) as Hh1 by (destruct Hh; split; try congruence).
    destruct (connect_waits cur now addr fd h1 m to Hh1 Hfd Habs Hto Haddr)
      as (o & h2 & E & [(timer & m1 & -> & Hm1 & Hi1 & Hk1 & Hl)|(n & m1 & -> & Hso & Hm1 & Hi1 & Hsame & Hp1)]).
    + left. rewrite Hnx in *. exists timer, m1, h2. split; [exact E|]. rewrite Hi in Hi1.
      split_and!; [done|done|by rewrite Hk1|done|]. destruct Hl as (Hinv & _ & Hset & _).
      destruct (on_timeout_marks (next_info h) fd WRITE h2 m1 (ToFiber (Some cur)) Hm1 Hinv Hfd) as (m2 & Ho & _ & _ & Hset2 & Hq);
        [by right|rewrite Hi1; apply lookup_insert_eq|rewrite Hset by (done || by right); by rewrite decide_True|].
      eexists _, m2. split_and!; [exact Ho|done|cbn; apply lookup_insert_eq|done|done].
    + right. exists n, m1, h2. rewrite Hk in Hso. rewrite Hi in Hi1. split_and!; [exact E|done..].
Qed.
End Theory.

(** ** Witnesses *)

(** A call returns its argument, or EAGAIN for 0. *)
#[export] Instance ex_hook_kernel : Kernel (gmap Z Z) Z := {
  io_f k c := (if c_args c =? 0 then Fail EAGAIN else Ret (Z.abs (c_args c)), k);
  socket_f k a := (Ret a, k);
  connect_f k fd a := (if a =? 0 then Fail EINPROGRESS else Ret 0, k);
  close_f k fd := (Ret 0, delete fd k);
  ioctl_f k fd r a := (Ret 0, k);
  getsockopt_f k fd l o := (Ret 0, 0, k);
  setsockopt_f k fd l o a := (Ret 0, k);
  sleep_f k a := (Ret 0, k) }.

#[export] Instance ex_hook_laws : KernelLaws (gmap Z Z) Z.
Proof.
  split; intros k c; [intros n; simpl; destruct (c_args c =? 0); [done|]|intros l o n; simpl]; intros [= <-]; lia.
Qed.

Abbreviation ex_hooks := (hooks unit (gmap Z epoll_event) (gmap Z Z)).

Definition ex_hsched : scheduler (task unit) := Sched [] [] None [] 0 0 1 true false (-1) 0 [].

Definition ex_hiom : iomanager (task unit) (gmap Z epoll_event) nat :=
  match IOManager_new 0 5 [] true true true ∅ ex_hsched with
  | Ok m => m
  | Err _ => IOM ex_hsched (Timer.init_manager 0) ∅ 0 0 [] ∅ 0
  end.

(** Sockets 3 and 7; 7 has a context. *)
Definition ex_hfd : FdManager * gmap Z Z :=
  match FdManager.get 7 true FdManager_new (<[3 := 0]> (<[7 := 0]> ∅)) with
  | Ok (_, d, k) => (d, k)
  | Err _ => (FdManager_new, ∅)
  end.

Definition ex_hook : ex_hooks := Hooks true 0 ex_hfd.1 ex_hfd.2 (Some ex_hiom) ∅ 0 U64_MAX.

Lemma ex_hiom_inv : inv ex_hiom.
Proof. apply reachable_inv. by apply (IR_new 0 5 [] ∅ ex_hsched). Qed.

Lemma ex_hfd_wf : FdManager.wf ex_hfd.1.
Proof.
  destruct (get_create_ok (HL := ex_fd_laws) 7 FdManager_new (<[3 := 0]> (<[7 := 0]> ∅)) manager_wf_new)
    as (d' & k' & Hg & Hwf & _); [lia|intros _; eexists; vm_compute; reflexivity|].
  assert (ex_hfd.1 = d') as ->; [|done]. unfold ex_hfd, FdManager.get, get_read.
  replace (data_at 7 FdManager_new) with (Ok (A:=option nat) None) by done. simpl. by rewrite Hg.
Qed.

Lemma ex_hosted : hosted ex_hook ex_hiom.
Proof.
  split; [done|done|apply ex_hiom_inv| |apply ex_hfd_wf|done].
  replace (io_timers ex_hiom) with (Timer.init_manager (F:=task unit) (W:=nat) 0) by (vm_compute; done).
  apply Timer.init_wf.
Qed.

Definition ex_ctx : FdCtx := Ctx true true true false false 7 U64_MAX U64_MAX.

Lemma ex_hooked : hooked 7 ex_ctx ex_hook.
Proof. split; [exists 0%nat; vm_compute; done|done]. Qed.

Lemma do_io_direct_witness :
  do_io 1%nat 0 9 0 0 (Call Read 3 5) ex_hook = Ok (Some (Returned 5, ex_hook)).
Proof.
  destruct (do_io_direct 1%nat 0 9 0 0 (Call Read 3 5) ex_hook ex_hfd_wf ltac:(done)) as [_ H].
  rewrite H by (right; vm_compute; exact I). vm_compute. reflexivity.
Defined.

Lemma do_io_waits_witness :
  exists h', do_io 1%nat 0 9 0 0 (Call Read 7 5) ex_hook = Ok (Some (Returned 5, h')) /\
    infos h' = ∅.
Proof.
  destruct (do_io_waits 1%nat 0 9 0 0 0 (Call Read 7 5) ex_hook ex_hiom ex_ctx ex_hosted)
    as [H _]; [done|apply ex_hooked|unfold is_u64; vm_compute; split; done|vm_compute; done
      |vm_compute; done|lia|intros j Hj; lia|vm_compute; done|].
  destruct H as (h' & H & _ & _ & _ & Hi & _); [done|]. exists h'. split; [exact H|exact Hi].
Defined.

(** Fiber 1 waits to read descriptor 7, for 20 ms. *)
Definition ex_wait7 : ex_hooks :=
  match do_io_wait 1%nat 0 9 0 (Call Read 7 0) 20 0%nat (new_info ex_hook).2 with
  | Ok (_, h) => h
  | Err _ => ex_hook
  end.

Definition ex_iom7 : iomanager (task unit) (gmap Z epoll_event) nat :=
  match iom ex_wait7 with Some m => m | None => ex_hiom end.

Lemma ex_wait7_ok :
  hosted ex_wait7 ex_iom7 /\ abs ex_iom7 7 READ = Some (ToFiber (Some 1%nat)).
Proof.
  destruct (do_io_wait_ok 1%nat 0 9 0 (Call Read 7 0) 20 0%nat (new_info ex_hook).2 ex_hiom)
    as [(tm & m' & E & Hi & Hw & Hset & _)|(m' & E & _)];
    [done|apply ex_hiom_inv|apply ex_hosted|vm_compute; done|unfold is_u64; lia|done|vm_compute; done| |].
  - assert (ex_wait7 = set_iom m' (new_info ex_hook).2) as Ex by (unfold ex_wait7; rewrite E; done).
    assert (ex_iom7 = m') as -> by (unfold ex_iom7; rewrite Ex; done). rewrite Ex. split.
    + split; [done|done|done|done|apply ex_hfd_wf|done].
    + rewrite Hset by (done || by left). done.
  - exfalso. vm_compute in E. discriminate E.
Qed.

(** The timer goes off; or somebody cancels the event, and the call is made again. *)
Definition ex_cancelled7 : iomanager (task unit) (gmap Z epoll_event) nat :=
  match cancelEvent 7 READ ex_iom7 with Ok (_, m) => m | Err _ => ex_iom7 end.

Lemma timeout_or_retry_witness :
  exists h1 h2 h3, on_timeout 0%nat 7 READ ex_wait7 = Ok h1 /\
    resume_frame 1%nat 0 10 0 0 (InDoIo (Call Read 7 5) 20 0%nat (Some 9)) h1
      = Ok (Some (Returned (-1), h2)) /\ errno h2 = ETIMEDOUT /\
    resume_frame 1%nat 0 10 0 0 (InDoIo (Call Read 7 5) 20 0%nat (Some 9)) (set_iom ex_cancelled7 ex_wait7)
      = Ok (Some (Returned 5, h3)) /\ infos h3 = ∅.
Proof.
  destruct ex_wait7_ok as [Hh Ha].
  assert (timer_alive (Some 9) ex_iom7) as Htm
    by (intros p Hp; injection Hp as <-; eexists; vm_compute; reflexivity).
  destruct (timeout_or_retry 1%nat 0 10 0 0 (Call Read 7 5) 20 0%nat (Some 9) ex_wait7 ex_iom7 1%nat Hh)
    as ((h1 & m1 & t1 & h2 & H1 & _ & _ & _ & H2 & H3 & _) & Hw & Hr);
    [done|vm_compute; done|exact Ha|exact Htm|].
  exists h1, h2. destruct (Hw ex_cancelled7) as (Hi & Hn & Ht & _).
  { apply (W_cancel _ _ _ true). vm_compute. reflexivity. }
  destruct (Hr (set_iom ex_cancelled7 ex_wait7) ex_cancelled7 0%nat) as (t & _ & [h3 Hr3] & _);
    [done|exact Hi|rewrite Ht; apply Hh|intros p; rewrite Ht; apply Htm|exact Hn|vm_compute; done|
     unfold is_u64; lia|vm_compute; done|lia|intros j Hj; lia|vm_compute; done|vm_compute; done|].
  exists h3. destruct Hr3 as (Hr3 & _ & _ & Hin & _). split; [exact H1|]. split; [exact H2|]. split; [exact H3|].
  split; [exact Hr3|]. rewrite Hin. vm_compute. reflexivity.
Defined.

Lemma sleep_wakes_witness :
  exists h', sleep 1%nat 0 9 4294968 0 ex_hook = Ok (Yields InSleep, h') /\
    u32 (4294968 * 1000) < 4294968 * 1000.
Proof.
  destruct (sleep_wakes 1%nat 0 9 0 0 4294968 0 ex_hook ex_hiom ex_hosted)
    as (h' & m' & H1 & _ & _ & _ & _ & _ & H2); [vm_compute; done|unfold is_u32; lia|].
  exists h'. split; [exact H1|apply H2; lia].
Defined.

Lemma fcntl_user_view_witness :
  exists h1, fcntl 7 F_SETFL 0 ex_hook = Ok (0, h1) /\ nonblocking (kern h1) 7 = Some true.
Proof.
  destruct (fcntl_user_view (HQ := ex_fd_laws) 7 0 ex_hook 0%nat ex_ctx ex_hfd_wf)
    as (h1 & H1 & H2 & _); [done|vm_compute; done|done|eexists; vm_compute; reflexivity|].
  exists h1. split; [exact H1|exact H2].
Defined.

Lemma setsockopt_timeout_witness :
  exists h' x', setsockopt 7 SOL_SOCKET SO_RCVTIMEO 5 0 0 ex_hook = Ok (0, h') /\
    context_of 7 (fdmgr h') = Some (0%nat, x') /\ getTimeout SO_RCVTIMEO x' = 500.
Proof.
  destruct (setsockopt_timeout 7 SO_RCVTIMEO 5 0 0 ex_hook 0%nat ex_ctx ex_hfd_wf)
    as (h' & x' & H1 & H2 & H3 & _); [done|done|vm_compute; done|by left|lia|lia|].
  exists h', x'. split; [exact H1|]. split; [exact H2|]. rewrite H3. reflexivity.
Defined.

Lemma close_releases_witness :
  exists m' h', close 7 ex_wait7 = Ok (0, h') /\ iom h' = Some m' /\ abs m' 7 READ = None /\
    context_of 7 (fdmgr h') = None.
Proof.
  destruct ex_wait7_ok as [Hh Ha].
  destruct (close_releases 7 ex_wait7 ex_iom7 Hh ltac:(done)) as [_ H].
  destruct (H 0%nat ex_ctx) as (m' & h' & H1 & H2 & H3 & _ & H4 & _); [vm_compute; done|].
  exists m', h'. split; [exact H1|]. split; [exact H2|]. split; [|exact H3].
  rewrite H4 by (done || by left). reflexivity.
Defined.

(** The connection is refused, which SO_ERROR says. *)
Definition ex_refused : Kernel (gmap Z Z) Z := {|
  io_f k c := (Ret 0, k);
  socket_f k a := (Ret a, k);
  connect_f k fd a := (Fail EINPROGRESS, k);
  close_f k fd := (Ret 0, k);
  ioctl_f k fd r a := (Ret 0, k);
  getsockopt_f k fd l o := (Ret 0, 111, k);
  setsockopt_f k fd l o a := (Ret 0, k);
  sleep_f k a := (Ret 0, k) |}.

Lemma ex_refused_laws : KernelLaws (gmap Z Z) Z (H0 := ex_refused).
Proof. split; [intros k c n|intros k fd l o n]; simpl; intros [= <-]; lia. Qed.

(** Connecting takes at most 20 ms. *)
Definition ex_hook20 : ex_hooks := Hooks true 0 ex_hfd.1 ex_hfd.2 (Some ex_hiom) ∅ 0 20.

Lemma ex_hosted20 : hosted ex_hook20 ex_hiom.
Proof. destruct ex_hosted. by split. Qed.

Lemma connect_outcomes_witness :
  exists m1 h1 h2, connect (Kernel0 := ex_refused) 1%nat 0 9 7 1 ex_hook20
      = Ok (Yields (InConnect 7 0%nat (Some 9)), h1) /\ iom h1 = Some m1 /\
    abs m1 7 WRITE = Some (ToFiber (Some 1%nat)) /\
    resume_frame (Kernel0 := ex_refused) 1%nat 0 10 0 0 (InConnect (A := Z) 7 0%nat (Some 9)) h1
      = Ok (Some (Returned (-1), h2)) /\ errno h2 = 111.
Proof.
  destruct (connect_outcomes (Kernel0 := ex_refused) (KernelLaws0 := ex_refused_laws)
      1%nat 0 9 0 0 7 1 ex_hook20 ex_hiom ex_ctx ex_hosted20) as (_ & _ & Hp & _);
    [done|apply ex_hooked|vm_compute; done|unfold is_u64; vm_compute; done|vm_compute; done|].
  destruct (connect_outcomes (Kernel0 := ex_refused) (KernelLaws0 := ex_refused_laws)
      1%nat 0 10 0 0 7 1 ex_hook20 ex_hiom ex_ctx ex_hosted20) as (_ & _ & _ & Hr);
    [done|apply ex_hooked|vm_compute; done|unfold is_u64; vm_compute; done|vm_compute; done|].
  destruct (Hp eq_refl) as [(timer & m1 & h1 & Hc & Hm1 & Hi1 & Hk & (Hinv & Hw & Hset & _ & _ & Hto) & _)
    |(n & m1 & h1 & Hc & _)]; [|exfalso; vm_compute in Hc; discriminate Hc].
  destruct (Hto ltac:(done)) as [-> Hpe]. exists m1, h1.
  destruct (Hr h1 m1 0%nat (Some 9) 0 Hm1 Hw) as (n & t & h2 & Hres & _ & _ & _ & Hso).
  - intros p [= <-]. eexists. eapply pending_Some. rewrite Hpe. apply lookup_insert_eq.
  - rewrite Hi1. apply lookup_insert_eq.
  - exists h2. split; [exact Hc|]. split; [exact Hm1|]. split; [rewrite Hset by (done || by right); done|].
    destruct Hso as [_ [-> He]]. split; [exact Hres|exact He].
Defined.
