(* ===== verification/LogFormat.v ===== *)
(** * Log levels, events and the pattern formatter (src/sylar/log.h, log.cc)

    [LogFormatter::init] reads the pattern with an index; so does the model,
    with the inner loop running over the rest of the pattern.  [strftime] on the
    local time is a parameter. *)

From S2P Require Import Prelude Text.

(** [LogLevel::Level]; any [int] can be cast to it. *)
Definition UNKONW : Z := 0.
Definition DEBUG : Z := 1.
Definition INFO : Z := 2.
Definition WARN : Z := 3.
Definition ERROR : Z := 4.
Definition FATAL : Z := 5.

(** [LogLevel::ToString]. *)
Definition ToString (level : Z) : text :=
  if level =? DEBUG then lit "DEBUG"
  else if level =? INFO then lit "INFO"
  else if level =? WARN then lit "WARN"
  else if level =? ERROR then lit "ERROR"
  else if level =? FATAL then lit "FATAL"
  else lit "UNKNOWN".

(** [LogLevel::FromString]. *)
Definition FromString (str : text) : Z :=
  if decide (str = lit "debug") then DEBUG
  else if decide (str = lit "info") then INFO
  else if decide (str = lit "warn") then WARN
  else if decide (str = lit "error") then ERROR
  else if decide (str = lit "fatal") then FATAL
  else if decide (str = lit "DEBUG") then DEBUG
  else if decide (str = lit "INFO") then INFO
  else if decide (str = lit "WARN") then WARN
  else if decide (str = lit "ERROR") then ERROR
  else if decide (str = lit "FATAL") then FATAL
  else UNKONW.

(** [LogEvent]; of the logger only the name is read. *)
Record LogEvent : Type := Event {
  m_file : text;
  m_line : Z;
  m_elapse : Z;
  m_threadId : Z;
  m_fiberId : Z;
  m_time : Z;
  m_ss : text;
  m_logger_name : text;
  m_level : Z;
  m_threadName : text }.

(** [event->getSS() << t]. *)
Definition stream (t : text) (e : LogEvent) : LogEvent :=
  Event (m_file e) (m_line e) (m_elapse e) (m_threadId e) (m_fiberId e) (m_time e) (m_ss e ++ t)
    (m_logger_name e) (m_level e) (m_threadName e).

(** [LogEvent::format]: what [vasprintf] made, nothing when it failed. *)
Definition LogEvent_format (buf : option text) (e : LogEvent) : LogEvent :=
  match buf with Some buf => stream buf e | None => e end.

(** The subclasses of [LogFormatter::FormatItem]. *)
Inductive FormatItem : Type :=
| MessageFormatItem | LevelFormatItem | ElapseFormatItem | NameFormatItem
| ThreadIdFormatItem | NewLineFormatItem | DateTimeFormatItem (format : text)
| FileNameFormatItem | LineFormatItem | TabFormatItem | FiberIdFormatItem
| ThreadNameFormatItem | StringFormatItem (str : text).

#[export] Instance FormatItem_eq_dec : EqDecision FormatItem.
Proof. solve_decision. Defined.

Record LogFormatter : Type := Formatter {
  m_pattern : text;
  m_items : list FormatItem;
  m_error : bool }.

Definition chr (n : Z) : ascii := byte_char n.
Definition PERCENT : ascii := "%"%char.
Definition LBRACE : ascii := "{"%char.
Definition RBRACE : ascii := "}"%char.

(** [isalpha] in the C locale. *)
Definition isalpha (c : ascii) : bool :=
  let b := char_byte c in
  ((65 <=? b) && (b <=? 90)) || ((97 <=? b) && (b <=? 122)).

(** [s.substr(pos, n)] for [pos <= s.size()]. *)
Definition substr (s : text) (pos n : nat) : text := take n (drop pos s).

(** The inner loop of [init] from index [n], where the rest of the pattern is
    [l]: the final [n], [fmt_status], [str] and [fmt]. *)
Fixpoint scan (p : text) (i n : nat) (l : text) (fmt_status : bool) (fmt_begin : nat)
    (str fmt : text) : nat * bool * text * text :=
  match l with
  | [] => (n, fmt_status, str, fmt)
  | c :: l' =>
      if negb fmt_status && negb (isalpha c) && negb (bool_decide (c = LBRACE))
         && negb (bool_decide (c = RBRACE))
      then (n, fmt_status, substr p (i + 1) (n - i - 1), fmt)
      else if negb fmt_status && bool_decide (c = LBRACE) then
        scan p i (S n) l' true n (substr p (i + 1) (n - i - 1)) fmt
      else if fmt_status && bool_decide (c = RBRACE) then
        (S n, false, str, substr p (fmt_begin + 1) (n - fmt_begin - 1))
      else
        let n := S n in
        let str := if (n =? length p)%nat then
                     match str with [] => drop (i + 1) p | _ => str end
                   else str in
        scan p i n l' fmt_status fmt_begin str fmt
  end.

(** The tuples of [vec]: text, format, and whether it is a directive. *)
Abbreviation tuples := (list (text * text * bool)).

Definition flush (nstr : text) : tuples :=
  match nstr with [] => [] | _ => [(nstr, [], false)] end.

(** What [init] prints of a format without its closing brace. *)
Definition parse_error (p : text) (i : nat) : text :=
  lit "pattern parse error: " ++ p ++ lit " - " ++ drop i p ++ [chr 10].

(** The outer loop of [init] from index [i]; [out] is what it has printed, [None]
    is out of fuel. *)
Fixpoint parse (fuel : nat) (p : text) (i : nat) (nstr : text) (vec : tuples) (err : bool) (out : text)
    : option (tuples * bool * text) :=
  match p !! i with
  | None => Some (vec ++ flush nstr, err, out)
  | Some c =>
      match fuel with
      | O => None
      | S fuel =>
          if negb (bool_decide (c = PERCENT)) then parse fuel p (S i) (nstr ++ [c]) vec err out
          else if bool_decide (p !! (S i) = Some PERCENT) then
            parse fuel p (S i) (nstr ++ [PERCENT]) vec err out
          else
            let '(n, fmt_status, str, fmt) := scan p i (S i) (drop (S i) p) false 0 [] [] in
            if fmt_status : bool then
              parse fuel p (S i) nstr (vec ++ [(lit "<<pattern_error>>", fmt, false)]) true
                (out ++ parse_error p i)
            else parse fuel p n [] (vec ++ flush nstr ++ [(str, fmt, true)]) err out
      end
  end.

(** The constructor of [DateTimeFormatItem]. *)
Definition DateTimeFormatItem_new (format : text) : FormatItem :=
  DateTimeFormatItem (match format with [] => lit "%Y-%m-%d %H:%M:%S" | _ => format end).

(** [s_format_items]. *)
Definition s_format_items (str fmt : text) : option FormatItem :=
  if decide (str = lit "m") then Some MessageFormatItem
  else if decide (str = lit "p") then Some LevelFormatItem
  else if decide (str = lit "r") then Some ElapseFormatItem
  else if decide (str = lit "c") then Some NameFormatItem
  else if decide (str = lit "t") then Some ThreadIdFormatItem
  else if decide (str = lit "n") then Some NewLineFormatItem
  else if decide (str = lit "d") then Some (DateTimeFormatItem_new fmt)
  else if decide (str = lit "f") then Some FileNameFormatItem
  else if decide (str = lit "l") then Some LineFormatItem
  else if decide (str = lit "T") then Some TabFormatItem
  else if decide (str = lit "F") then Some FiberIdFormatItem
  else if decide (str = lit "N") then Some ThreadNameFormatItem
  else None.

(** The last loop of [init], for one tuple: the item, and whether it sets
    [m_error]. *)
Definition item_of (t : text * text * bool) : FormatItem * bool :=
  let '(str, fmt, directive) := t in
  if negb directive then (StringFormatItem str, false)
  else match s_format_items str fmt with
       | Some it => (it, false)
       | None => (StringFormatItem (lit "<<error_format %" ++ str ++ lit ">>"), true)
       end.

(** [LogFormatter::init], the constructor, with what it prints: one round of the
    outer loop per character at most. *)
Definition init (pattern : text) : option (LogFormatter * text) :=
  match parse (length pattern) pattern 0 [] [] false [] with
  | None => None
  | Some (vec, err, out) =>
      Some (Formatter pattern (map (fst ∘ item_of) vec) (err || existsb (snd ∘ item_of) vec), out)
  end.

(** [os << n] for an [int32_t]. *)
Definition sdec (n : Z) : text := if n <? 0 then lit "-" ++ dec (- n) else dec n.

Section Format.
(** [strftime] with a format and a time, into the 64 characters of [buf]. *)
Variable strftime : text -> Z -> text.

(** [FormatItem::format]. *)
Definition format_item (it : FormatItem) (level : Z) (event : LogEvent) : text :=
  match it with
  | MessageFormatItem => m_ss event
  | LevelFormatItem => ToString level
  | ElapseFormatItem => dec (m_elapse event)
  | NameFormatItem => m_logger_name event
  | ThreadIdFormatItem => dec (m_threadId event)
  | NewLineFormatItem => [chr 10]
  | DateTimeFormatItem fmt => strftime fmt (m_time event)
  | FileNameFormatItem => m_file event
  | LineFormatItem => sdec (m_line event)
  | TabFormatItem => [chr 9]
  | FiberIdFormatItem => dec (m_fiberId event)
  | ThreadNameFormatItem => m_threadName event
  | StringFormatItem s => s
  end.

(** [LogFormatter::format]. *)
Definition format (f : LogFormatter) (level : Z) (event : LogEvent) : text :=
  m_items f ≫= fun it => format_item it level event.
End Format.

(** ** Patterns *)

(** A pattern as its author writes it: text and directives, with a format in
    braces or not. *)
Inductive piece : Type := Lit (s : text) | Dir (name : text) (arg : option text).

Definition print_piece (x : piece) : text :=
  match x with
  | Lit s => s
  | Dir name None => PERCENT :: name
  | Dir name (Some a) => PERCENT :: name ++ LBRACE :: a ++ [RBRACE]
  end.

Definition print (ps : list piece) : text := ps ≫= print_piece.

(** Where a directive without braces ends. *)
Definition stops (l : text) : bool :=
  match l with
  | [] => true
  | c :: _ => negb (isalpha c) && negb (bool_decide (c = LBRACE)) && negb (bool_decide (c = RBRACE))
  end.

Fixpoint well_formed (ps : list piece) : bool :=
  match ps with
  | [] => true
  | Lit s :: ps => bool_decide (PERCENT ∉ s) && well_formed ps
  | Dir name arg :: ps =>
      forallb isalpha name &&
      match arg with
      | None => negb (bool_decide (name = [])) && stops (print ps)
      | Some a => bool_decide (RBRACE ∉ a)
      end && well_formed ps
  end.

(** What the pieces mean: adjacent text is one item. *)
Fixpoint tuples_of (nstr : text) (ps : list piece) : tuples :=
  match ps with
  | [] => flush nstr
  | Lit s :: ps => tuples_of (nstr ++ s) ps
  | Dir name arg :: ps => flush nstr ++ (name, default [] arg, true) :: tuples_of [] ps
  end.

(** ** The scan of one directive *)

Lemma isalpha_not c x : isalpha c = true -> isalpha x = false -> bool_decide (c = x) = false.
Proof. intros Hc Hx. apply bool_decide_eq_false. congruence. Qed.

Lemma drop_length (p l : text) i : drop (S i) p = l -> l <> [] -> length p = (S i + length l)%nat.
Proof. intros <- Hne. rewrite length_drop. destruct (decide (S i <= length p)%nat); [lia|].
  rewrite drop_ge in Hne by lia. done. Qed.

Lemma substr_pre (p pre l : text) i n :
  drop (S i) p = pre ++ l -> n = (S i + length pre)%nat -> substr p (i + 1) (n - i - 1) = pre.
Proof.
  intros Hd ->. unfold substr. replace (i + 1)%nat with (S i) by lia. rewrite Hd.
  replace (S i + length pre - i - 1)%nat with (length pre) by lia. apply take_app_length.
Qed.

Section Scan.
Context (p : text) (i : nat).

(** One letter of a name, with more to come. *)
Lemma scan_letter c l pre fb fmt n :
  isalpha c = true -> drop (S i) p = pre ++ c :: l -> l <> [] -> n = (S i + length pre)%nat ->
  scan p i n (c :: l) false fb [] fmt = scan p i (S n) l false fb [] fmt.
Proof.
  intros Hc Hd Hl ->. cbn [scan]. rewrite Hc, (isalpha_not c LBRACE) by done. cbn [negb andb].
  pose proof (drop_length p _ i Hd ltac:(by destruct pre)) as Hlen. rewrite length_app in Hlen.
  simpl in Hlen. destruct l as [|c' l]; [done|]. simpl in Hlen.
  destruct (Nat.eqb_spec (S (S i + length pre)) (length p)); [lia|done].
Qed.

Lemma scan_name name : forall pre rest fb fmt n,
  forallb isalpha name = true -> drop (S i) p = pre ++ name ++ rest -> rest <> [] ->
  n = (S i + length pre)%nat ->
  scan p i n (name ++ rest) false fb [] fmt = scan p i (n + length name) rest false fb [] fmt.
Proof.
  induction name as [|c name IH]; intros pre rest fb fmt n Ha Hd Hr Hn.
  - by rewrite Nat.add_0_r.
  - simpl in Ha. apply andb_true_iff in Ha as [Hc Ha]. simpl app in *.
    rewrite (scan_letter c _ pre) by (done || by destruct name).
    rewrite (IH (pre ++ [c]) rest); [|done|by rewrite <- app_assoc|done|rewrite length_app; simpl; lia].
    f_equal. simpl. lia.
Qed.

Lemma scan_name_end name : forall pre fb fmt n,
  forallb isalpha name = true -> drop (S i) p = pre ++ name -> name <> [] ->
  n = (S i + length pre)%nat ->
  scan p i n name false fb [] fmt = (length p, false, pre ++ name, fmt).
Proof.
  induction name as [|c name IH]; intros pre fb fmt n Ha Hd Hr Hn; [done|].
  simpl in Ha. apply andb_true_iff in Ha as [Hc Ha].
  destruct name as [|c' name].
  - cbn [scan]. rewrite Hc, (isalpha_not c LBRACE) by done. cbn [negb andb].
    pose proof (drop_length p _ i Hd ltac:(by destruct pre)) as Hlen. rewrite length_app in Hlen.
    simpl in Hlen. destruct (Nat.eqb_spec (S n) (length p)); [|lia].
    replace (i + 1)%nat with (S i) by lia. by rewrite Hd, e.
  - rewrite (scan_letter c _ pre) by done.
    rewrite (IH (pre ++ [c])); [by rewrite <- app_assoc|done|by rewrite <- app_assoc|done|].
    rewrite length_app. simpl. lia.
Qed.

(** The name ends at a character that is no letter and no brace. *)
Lemma scan_stop rest pre fb fmt n :
  rest <> [] -> stops rest = true -> drop (S i) p = pre ++ rest -> n = (S i + length pre)%nat ->
  scan p i n rest false fb [] fmt = (n, false, pre, fmt).
Proof.
  intros Hr Hs Hd Hn. destruct rest as [|c l]; [done|]. simpl in Hs. cbn [scan negb andb].
  rewrite Hs. by rewrite (substr_pre p pre (c :: l)).
Qed.

Lemma scan_arg a : forall pre rest fb str fmt n,
  RBRACE ∉ a -> drop (S fb) p = pre ++ a ++ RBRACE :: rest -> n = (S fb + length pre)%nat ->
  scan p i n (a ++ RBRACE :: rest) true fb str fmt
    = ((n + length a + 1)%nat, false, str, pre ++ a).
Proof.
  induction a as [|c a IH]; intros pre rest fb str fmt n Ha Hd Hn.
  - simpl app. cbn [scan negb andb]. rewrite bool_decide_true by done. cbn [andb].
    rewrite (substr_pre p pre (RBRACE :: rest)) by done. rewrite app_nil_r. simpl. do 3 f_equal. lia.
  - rewrite not_elem_of_cons in Ha. destruct Ha as [Hc Ha]. simpl app. cbn [scan negb andb].
    rewrite bool_decide_false by congruence. cbn [andb].
    pose proof (drop_length p _ fb Hd ltac:(by destruct pre)) as Hlen.
    rewrite length_app in Hlen. simpl in Hlen. rewrite length_app in Hlen. simpl in Hlen.
    destruct (Nat.eqb_spec (S n) (length p)); [lia|].
    rewrite (IH (pre ++ [c]) rest); [|done|by rewrite <- app_assoc|rewrite length_app; simpl; lia].
    rewrite <- app_assoc. simpl. do 3 f_equal. lia.
Qed.

(** Without a closing brace the scan ends in [fmt_status] 1. *)
Lemma scan_unclosed a : forall fb str fmt n,
  RBRACE ∉ a -> exists n' str', scan p i n a true fb str fmt = (n', true, str', fmt).
Proof.
  induction a as [|c a IH]; intros fb str fmt n Ha; [by do 2 eexists|].
  rewrite not_elem_of_cons in Ha. destruct Ha as [Hc Ha]. cbn [scan negb andb].
  rewrite bool_decide_false by congruence. cbn [andb]. by apply IH.
Qed.

Lemma scan_brace rest pre fb fmt n :
  drop (S i) p = pre ++ LBRACE :: rest -> n = (S i + length pre)%nat ->
  scan p i n (LBRACE :: rest) false fb [] fmt = scan p i (S n) rest true n pre fmt.
Proof.
  intros Hd Hn. cbn [scan]. rewrite bool_decide_true by done. rewrite andb_false_r. cbn [negb andb].
  by rewrite (substr_pre p pre (LBRACE :: rest)).
Qed.

Lemma scan_ge l : forall n s fb str fmt n' s' str' fmt',
  scan p i n l s fb str fmt = (n', s', str', fmt') -> (n <= n')%nat.
Proof.
  induction l as [|c l IH]; intros n s fb str fmt n' s' str' fmt' E; cbn [scan] in E; [simplify_eq; lia|].
  destruct (_ && negb (bool_decide (c = RBRACE))); [simplify_eq; lia|].
  destruct (negb s && _); [apply IH in E; lia|].
  destruct (s && _); [simplify_eq; lia|]. apply IH in E. lia.
Qed.

(** A whole directive. *)
Lemma scan_dir name arg rest :
  drop i p = print_piece (Dir name arg) ++ rest -> forallb isalpha name = true ->
  match arg with None => name <> [] /\ stops rest = true | Some a => RBRACE ∉ a end ->
  scan p i (S i) (drop (S i) p) false 0 [] []
    = ((i + length (print_piece (Dir name arg)))%nat, false, name, default [] arg).
Proof.
  intros Hd Ha Harg.
  assert (drop (S i) p = drop 1 (print_piece (Dir name arg)) ++ rest) as Hd1.
  { replace (S i) with (i + 1)%nat by lia. rewrite <- drop_drop, Hd. by destruct arg. }
  destruct arg as [a|]; simpl in Hd1 |- *; rewrite ?drop_0 in Hd1.
  - rewrite <- app_assoc in Hd1. simpl in Hd1. rewrite <- app_assoc in Hd1. simpl in Hd1. rewrite Hd1.
    rewrite (scan_name name []) by (done || (simpl; lia)).
    rewrite (scan_brace _ name) by (done || lia).
    rewrite (scan_arg a [] rest); [|done| |simpl; lia].
    + simpl. f_equal. f_equal. f_equal. rewrite length_app. simpl. rewrite length_app. simpl. lia.
    + simpl. replace (S (S (i + length name))) with (S i + S (length name))%nat by lia.
      rewrite <- drop_drop, Hd1. change (S (length name)) with (1 + length name)%nat.
      rewrite Nat.add_comm, <- drop_drop, drop_app_length. done.
  - destruct Harg as [Hne Hs]. rewrite Hd1. destruct rest as [|c l] eqn:Er.
    + rewrite app_nil_r in *. rewrite (scan_name_end name []) by (done || (simpl; lia)).
      pose proof (drop_length p name i Hd1 Hne). simpl. do 3 f_equal. lia.
    + rewrite (scan_name name [] (c :: l)) by (done || (simpl; lia)).
      rewrite (scan_stop (c :: l) name) by (done || lia). do 3 f_equal. simpl. lia.
Qed.
End Scan.

(** ** The whole pattern *)

Lemma lookup_drop_head (p l : text) i : drop i p = l -> p !! i = head l.
Proof. intros <-. rewrite <- (Nat.add_0_r i) at 1. rewrite <- lookup_drop. by destruct (drop i p). Qed.

Lemma drop_next (p l : text) i c : drop i p = c :: l -> drop (S i) p = l.
Proof. intros Hd. replace (S i) with (i + 1)%nat by lia. by rewrite <- drop_drop, Hd. Qed.

Lemma parse_lit (p : text) s : forall rest fuel i nstr vec err out,
  drop i p = s ++ rest -> PERCENT ∉ s -> (length p - i <= fuel)%nat ->
  parse fuel p i nstr vec err out
    = parse (fuel - length s) p (i + length s) (nstr ++ s) vec err out.
Proof.
  induction s as [|c s IH]; intros rest fuel i nstr vec err out Hd Hs Hf.
  - simpl. by rewrite app_nil_r, Nat.sub_0_r, Nat.add_0_r.
  - rewrite not_elem_of_cons in Hs. destruct Hs as [Hc Hs]. simpl app in Hd.
    pose proof (f_equal length Hd) as Hlen. rewrite length_drop in Hlen. simpl in Hlen.
    destruct fuel as [|fuel]; [lia|]. cbn [parse]. rewrite (lookup_drop_head _ _ _ Hd). cbn [head].
    rewrite bool_decide_false by congruence. cbn [negb].
    rewrite (IH rest); [|by eapply drop_next|done|lia]. rewrite <- app_assoc. simpl.
    f_equal. lia.
Qed.

Lemma parse_end (p : text) fuel i nstr vec err out :
  drop i p = [] -> parse fuel p i nstr vec err out = Some (vec ++ flush nstr, err, out).
Proof.
  intros Hd. apply lookup_drop_head in Hd. simpl in Hd. by destruct fuel; simpl; rewrite Hd.
Qed.

Lemma parse_dir (p : text) name arg rest fuel i nstr vec err out :
  drop i p = print_piece (Dir name arg) ++ rest -> forallb isalpha name = true ->
  match arg with None => name <> [] /\ stops rest = true | Some a => RBRACE ∉ a end ->
  (length p - i <= S fuel)%nat ->
  parse (S fuel) p i nstr vec err out
    = parse fuel p (i + length (print_piece (Dir name arg))) []
        (vec ++ flush nstr ++ [(name, default [] arg, true)]) err out.
Proof.
  intros Hd Ha Harg Hf. cbn [parse]. rewrite (lookup_drop_head _ _ _ Hd).
  replace (head _) with (Some PERCENT) by (by destruct arg).
  rewrite bool_decide_true by done. cbn [negb].
  rewrite (scan_dir p i name arg rest) by done.
  rewrite bool_decide_false; [done|].
  assert (exists l, drop i p = PERCENT :: l) as [l Hl] by (rewrite Hd; by destruct arg; eexists).
  pose proof (drop_next _ _ _ _ Hl) as Hd1. rewrite (lookup_drop_head _ _ _ Hd1).
  rewrite Hd in Hl. destruct name as [|c name].
  - destruct arg as [a|]; [|by destruct Harg]. simpl in Hl. injection Hl as <-. done.
  - simpl in Ha. apply andb_true_iff in Ha as [Hc _]. intros E.
    destruct arg; simpl in Hl; injection Hl as <-; simpl in E; injection E as ->; done.
Qed.

Lemma parse_pieces (p : text) ps : forall fuel i nstr vec err out,
  (i <= length p)%nat -> drop i p = print ps -> well_formed ps = true -> (length p - i <= fuel)%nat ->
  parse fuel p i nstr vec err out = Some (vec ++ tuples_of nstr ps, err, out).
Proof.
  induction ps as [|[s|name arg] ps IH]; intros fuel i nstr vec err out Hi Hd Hwf Hf.
  - by apply parse_end.
  - simpl in Hwf. apply andb_true_iff in Hwf as [Hs Hwf]. apply bool_decide_eq_true in Hs.
    change (print (Lit s :: ps)) with (s ++ print ps) in Hd.
    pose proof (f_equal length Hd) as Hlen. rewrite length_drop, length_app in Hlen.
    rewrite (parse_lit p s (print ps)) by done.
    rewrite IH; [done|lia| |done|lia].
    rewrite <- drop_drop, Hd. apply drop_app_length.
  - simpl in Hwf. rewrite !andb_true_iff in Hwf. destruct Hwf as [[Ha Harg] Hwf].
    change (print (Dir name arg :: ps)) with (print_piece (Dir name arg) ++ print ps) in Hd.
    pose proof (f_equal length Hd) as Hlen. rewrite length_drop, length_app in Hlen.
    assert (1 <= length (print_piece (Dir name arg)))%nat by (destruct arg; simpl; lia).
    destruct fuel as [|fuel]; [lia|].
    rewrite (parse_dir p name arg (print ps)); [|done|done| |lia].
    + rewrite IH; [simpl; by rewrite <- app_assoc, <- app_assoc|lia| |done|lia].
      rewrite <- drop_drop, Hd. apply drop_app_length.
    + destruct arg as [a|]; [by apply bool_decide_eq_true in Harg|].
      apply andb_true_iff in Harg as [Hne Hs]. apply negb_true_iff, bool_decide_eq_false in Hne. done.
Qed.

Lemma parse_total (p : text) : forall fuel i nstr vec err out,
  (length p - i <= fuel)%nat -> is_Some (parse fuel p i nstr vec err out).
Proof.
  induction fuel as [|fuel IH]; intros i nstr vec err out Hf; cbn [parse];
    destruct (p !! i) as [c|] eqn:Ec; [apply lookup_lt_Some in Ec; lia|eauto| |eauto].
  destruct (negb _); [apply IH; lia|]. destruct (bool_decide _); [apply IH; lia|].
  destruct (scan _ _ _ _ _ _ _ _) as [[[n s] str] fmt] eqn:Es. apply scan_ge in Es.
  destruct s; apply IH; lia.
Qed.

Definition formatter_of (pattern : text) (vec : tuples) (err : bool) : LogFormatter :=
  Formatter pattern (map (fst ∘ item_of) vec) (err || existsb (snd ∘ item_of) vec).

(** C26.  [LogFormatter::init] ends on every pattern, and reads a well-formed
    one as it was written: one item per directive, of the class its name has in
    the table and with the format in its braces, the text between as it stands;
    [isError] is true exactly when a directive's name is not in the table, and
    nothing is printed. *)
Theorem init_reads_pattern (pattern : text) (ps : list piece) :
  is_Some (init pattern) /\
  (well_formed ps = true ->
     init (print ps) = Some (formatter_of (print ps) (tuples_of [] ps) false, [])).
Proof.
  split.
  - unfold init. destruct (parse_total pattern (length pattern) 0 [] [] false []) as [[[vec err] out] ->]; [lia|].
    eauto.
  - intros Hwf. unfold init.
    by rewrite (parse_pieces (print ps) ps) by (done || lia || by rewrite drop_0).
Qed.

(** The two irregular forms.  [%%] does not give a percent sign only: the
    second percent sign opens a directive as well, so "100%%d" prints the date
    after "100%".  A format without its closing brace is printed as an error, and
    reported in front of the text collected before it; its characters count as
    text. *)
Theorem init_irregular (s name : text) (arg : option text) (ps : list piece) (rest : text) :
  (PERCENT ∉ s) -> well_formed (Dir name arg :: ps) = true ->
  let escaped := s ++ PERCENT :: print (Dir name arg :: ps) in
  init escaped
    = Some (formatter_of escaped (tuples_of (s ++ [PERCENT]) (Dir name arg :: ps)) false, []) /\
  ((PERCENT ∉ rest) -> (RBRACE ∉ rest) ->
   let unclosed := s ++ PERCENT :: name ++ LBRACE :: rest in
   init unclosed
     = Some (formatter_of unclosed
         [(lit "<<pattern_error>>", [], false); (s ++ name ++ LBRACE :: rest, [], false)] true,
         parse_error unclosed (length s))).
Proof.
  intros Hs Hwf escaped. split.
  - unfold init. rewrite (parse_lit escaped s (PERCENT :: print (Dir name arg :: ps)))
      by (done || lia || by rewrite drop_0).
    set (n := length s). assert (length escaped = n + S (length (print (Dir name arg :: ps))))%nat as Hlen
      by (subst escaped n; rewrite length_app; simpl; done).
    assert (drop n escaped = PERCENT :: print (Dir name arg :: ps)) as Hd by apply drop_app_length.
    pose proof (drop_next _ _ _ _ Hd) as Hd1.
    replace (length escaped - n)%nat with (S (length (print (Dir name arg :: ps)))) by lia.
    simpl Nat.add. cbn [parse]. rewrite (lookup_drop_head _ _ _ Hd). cbn [head].
    rewrite bool_decide_true by done. cbn [negb].
    rewrite bool_decide_true by (rewrite (lookup_drop_head _ _ _ Hd1); by destruct arg).
    rewrite (parse_pieces escaped (Dir name arg :: ps)); [done|lia|done|done|lia].
  - intros Hr Hb unclosed. unfold init.
    simpl in Hwf. rewrite !andb_true_iff in Hwf. destruct Hwf as [[Ha _] _].
    rewrite (parse_lit unclosed s (PERCENT :: name ++ LBRACE :: rest))
      by (done || lia || by rewrite drop_0).
    set (n := length s).
    assert (length unclosed = n + S (length (name ++ LBRACE :: rest)))%nat as Hlen
      by (subst unclosed n; rewrite length_app; simpl; done).
    assert (drop n unclosed = PERCENT :: name ++ LBRACE :: rest) as Hd by apply drop_app_length.
    pose proof (drop_next _ _ _ _ Hd) as Hd1.
    replace (length unclosed - n)%nat with (S (length (name ++ LBRACE :: rest))) by lia.
    simpl Nat.add. cbn [parse]. rewrite (lookup_drop_head _ _ _ Hd). cbn [head].
    rewrite bool_decide_true by done. cbn [negb].
    rewrite bool_decide_false.
    2: { rewrite (lookup_drop_head _ _ _ Hd1). destruct name as [|c name]; [done|].
         simpl in Ha. apply andb_true_iff in Ha as [Hc _]. intros [= ->]. done. }
    rewrite Hd1.
    rewrite (scan_name unclosed n name [] (LBRACE :: rest)) by (done || (simpl; lia)).
    rewrite (scan_brace unclosed n rest name) by (done || lia).
    destruct (scan_unclosed unclosed n rest (S n + length name) name [] (S (S n + length name)) Hb)
      as (n' & str' & ->).
    assert (PERCENT ∉ name ++ LBRACE :: rest) as Hp.
    { rewrite elem_of_app, elem_of_cons. intros [Hin|[?|?]]; [|done|done].
      rewrite forallb_forall in Ha. by specialize (Ha _ (proj1 (list_elem_of_In _ _) Hin)). }
    rewrite (parse_lit unclosed (name ++ LBRACE :: rest) []); [|by rewrite app_nil_r|done|lia].
    rewrite parse_end; [|rewrite <- drop_drop, Hd1; apply drop_ge; lia].
    rewrite !app_nil_l.
    destruct (s ++ name ++ LBRACE :: rest) as [|c l] eqn:E; [|done].
    destruct s, name; discriminate E.
Qed.

(** [FromString] reads what [ToString] writes for each of the five levels
    (and UNKONW back from "UNKNOWN"), lower case as well; any other text and
    any other number give UNKONW. *)
Theorem level_roundtrip (level : Z) (str : text) :
  FromString (ToString level) = (if (1 <=? level) && (level <=? 5) then level else UNKONW) /\
  (UNKONW <= FromString str <= FATAL) /\
  (FromString str <> UNKONW -> ToString (FromString str) = map (fun c =>
     if (97 <=? char_byte c) && (char_byte c <=? 122) then byte_char (char_byte c - 32) else c) str).
Proof.
  split; [|split].
  - unfold ToString, DEBUG, INFO, WARN, ERROR, FATAL.
    destruct (Z.eqb_spec level 1) as [->|]; [done|]. destruct (Z.eqb_spec level 2) as [->|]; [done|].
    destruct (Z.eqb_spec level 3) as [->|]; [done|]. destruct (Z.eqb_spec level 4) as [->|]; [done|].
    destruct (Z.eqb_spec level 5) as [->|]; [done|].
    destruct (Z.leb_spec 1 level), (Z.leb_spec level 5); try done; lia.
  - unfold FromString. repeat case_decide; unfold UNKONW, DEBUG, INFO, WARN, ERROR, FATAL; lia.
  - unfold FromString. repeat case_decide; subst; intros; try done.
Qed.

(** ** Witnesses *)

Definition default_pieces : list piece :=
  [Dir (lit "d") (Some (lit "%Y-%m-%d %H:%M:%S")); Dir (lit "T") None; Dir (lit "t") None;
   Dir (lit "T") None; Dir (lit "N") None; Dir (lit "T") None; Dir (lit "F") None; Dir (lit "T") None;
   Lit (lit "["); Dir (lit "p") None; Lit (lit "]"); Dir (lit "T") None; Lit (lit "[");
   Dir (lit "c") None; Lit (lit "]"); Dir (lit "T") None; Dir (lit "f") None; Lit (lit ":");
   Dir (lit "l") None; Dir (lit "T") None; Dir (lit "m") None; Dir (lit "n") None].

(** The pattern of [Logger::Logger]. *)
Definition default_pattern : text :=
  lit "%d{%Y-%m-%d %H:%M:%S}%T%t%T%N%T%F%T[%p]%T[%c]%T%f:%l%T%m%n".

Lemma init_reads_pattern_witness :
  exists f, init default_pattern = Some (f, []) /\ m_error f = false /\ length (m_items f) = 22%nat.
Proof.
  destruct (init_reads_pattern [] default_pieces) as [_ H].
  assert (print default_pieces = default_pattern) as E by (vm_compute; reflexivity).
  rewrite E in H. eexists. split; [apply H; vm_compute; reflexivity|].
  split; vm_compute; reflexivity.
Defined.

Lemma init_irregular_witness :
  exists f, init (lit "100%%d") = Some (f, []) /\
    m_items f = [StringFormatItem (lit "100%"); DateTimeFormatItem (lit "%Y-%m-%d %H:%M:%S")].
Proof.
  destruct (init_irregular (lit "100") (lit "d") None [] []) as [H _];
    [apply (bool_decide_unpack _); vm_compute; exact I|vm_compute; reflexivity|].
  eexists. split; [exact H|]. vm_compute. reflexivity.
Defined.

Lemma level_roundtrip_witness : ToString (FromString (lit "warn")) = lit "WARN".
Proof.
  destruct (level_roundtrip 3 (lit "warn")) as (_ & _ & H). rewrite H by (vm_compute; done).
  vm_compute. reflexivity.
Defined.
