(* ===== verification/Logger.v ===== *)
(** * Loggers, appenders and their manager (src/sylar/log.h, log.cc)

    Loggers and appenders are shared objects in a heap; formatters never change
    after their construction, so they are values.  A file appender keeps what it
    has written to its file since it last opened (and thereby emptied) it.  Each
    call of [time(0)] is an argument; whether a file can be opened is a
    parameter. *)

From S2P Require Import Prelude Text LogFormat.

(** Pointers to loggers and to appenders. *)
Abbreviation lptr := nat.
Abbreviation aptr := nat.

Inductive appender_kind : Type := StdoutLogAppender | FileLogAppender (m_filename : text).

(** [LogAppender] with the members of its subclasses; [ap_stream] is [None]
    when the file could not be opened. *)
Record LogAppender : Type := Appender {
  ap_kind : appender_kind;
  ap_level : Z;
  ap_hasFormatter : bool;
  ap_formatter : option LogFormatter;
  ap_lastTime : Z;
  ap_stream : option text }.

Record Logger : Type := Logg {
  lg_name : text;
  lg_level : Z;
  lg_appenders : list aptr;
  lg_formatter : option LogFormatter;
  lg_root : option lptr }.

(** [LoggerManager], the heaps and the standard output. *)
Record logs : Type := Logs {
  loggers : gmap lptr Logger;
  appenders : gmap aptr LogAppender;
  next_obj : nat;
  m_loggers : gmap text lptr;
  m_root : lptr;
  std_out : text }.

(** [new LogFormatter(pattern)], and what [init] prints meanwhile; it ends on
    every pattern. *)
Definition LogFormatter_new (pattern : text) : LogFormatter :=
  default (Formatter pattern [] true) (fst <$> init pattern).
Definition LogFormatter_out (pattern : text) : text := default [] (snd <$> init pattern).

Definition endl : text := [chr 10].

(** Where a log statement stands, and when it is executed. *)
Record place : Type := Place {
  pl_file : text;
  pl_line : Z;
  pl_threadId : Z;
  pl_fiberId : Z;
  pl_time : Z;
  pl_threadName : text }.

(** [new LogEvent(logger, level, __FILE__, __LINE__, 0, GetThreadId(),
    GetFiberId(), time(0), Thread::GetName())]. *)
Definition LogEvent_new (logger : Logger) (level : Z) (p : place) : LogEvent :=
  Event (pl_file p) (pl_line p) 0 (pl_threadId p) (pl_fiberId p) (pl_time p) [] (lg_name logger) level
    (pl_threadName p).

Section Ops.
Context (strftime : text -> Z -> text) (can_open : text -> bool).
Implicit Types (w : logs) (l : lptr) (a : aptr).

Definition get_logger l w : res Logger := deref (loggers w !! l) "logger".
Definition get_appender a w : res LogAppender := deref (appenders w !! a) "appender".
Definition put_logger l (x : Logger) w : logs :=
  Logs (<[l := x]> (loggers w)) (appenders w) (next_obj w) (m_loggers w) (m_root w) (std_out w).
Definition put_appender a (x : LogAppender) w : logs :=
  Logs (loggers w) (<[a := x]> (appenders w)) (next_obj w) (m_loggers w) (m_root w) (std_out w).
Definition put_out (t : text) w : logs :=
  Logs (loggers w) (appenders w) (next_obj w) (m_loggers w) (m_root w) (std_out w ++ t).

Definition with_level (v : Z) (x : Logger) : Logger :=
  Logg (lg_name x) v (lg_appenders x) (lg_formatter x) (lg_root x).
Definition with_appenders (v : list aptr) (x : Logger) : Logger :=
  Logg (lg_name x) (lg_level x) v (lg_formatter x) (lg_root x).
Definition with_formatter (v : option LogFormatter) (x : Logger) : Logger :=
  Logg (lg_name x) (lg_level x) (lg_appenders x) v (lg_root x).
Definition ap_with_formatter (has : bool) (v : option LogFormatter) (x : LogAppender) : LogAppender :=
  Appender (ap_kind x) (ap_level x) has v (ap_lastTime x) (ap_stream x).
Definition ap_with_level (v : Z) (x : LogAppender) : LogAppender :=
  Appender (ap_kind x) v (ap_hasFormatter x) (ap_formatter x) (ap_lastTime x) (ap_stream x).

(** [new Logger(name)], with the default pattern of the source, of which [init]
    prints nothing (default_out). *)
Definition Logger_new (name : text) (root : option lptr) w : lptr * logs :=
  let this := next_obj w in
  let x := Logg name DEBUG [] (Some (LogFormatter_new default_pattern)) root in
  (this, Logs (<[this := x]> (loggers w)) (appenders w) (S this) (m_loggers w) (m_root w) (std_out w)).

(** [FileLogAppender::reopen]: [ofstream::open] empties the file. *)
Definition reopen (x : LogAppender) : bool * LogAppender :=
  match ap_kind x with
  | FileLogAppender f =>
      (can_open f, Appender (ap_kind x) (ap_level x) (ap_hasFormatter x) (ap_formatter x)
                     (ap_lastTime x) (if can_open f then Some [] else None))
  | StdoutLogAppender => (false, x)
  end.

(** [new StdoutLogAppender], [new FileLogAppender(filename)]. *)
Definition LogAppender_new (k : appender_kind) w : aptr * logs :=
  let this := next_obj w in
  let x := (reopen (Appender k DEBUG false None 0 None)).2 in
  (this, Logs (loggers w) (<[this := x]> (appenders w)) (S this) (m_loggers w) (m_root w) (std_out w)).

(** [LogAppender::setFormatter], [LogAppender::setLevel]. *)
Definition ap_setFormatter a (val : option LogFormatter) w : res logs :=
  x ← get_appender a w;
  mret (put_appender a (ap_with_formatter (match val with Some _ => true | None => false end) val x) w).
Definition ap_setLevel a (val : Z) w : res logs :=
  x ← get_appender a w; mret (put_appender a (ap_with_level val x) w).

(** [StdoutLogAppender::log]. *)
Definition stdout_log (level : Z) (event : LogEvent) (x : LogAppender) w : res logs :=
  if level <? ap_level x then mret w
  else
    f ← deref (ap_formatter x) "m_formatter";
    mret (put_out (format strftime f level event) w).

(** [FileLogAppender::log]: a stream that could not be opened takes nothing. *)
Definition write_error : text := lit "error" ++ endl.
Definition file_log (now level : Z) (event : LogEvent) a (x : LogAppender) w : res logs :=
  if level <? ap_level x then mret w
  else
    let x :=
      if negb (now =? ap_lastTime x) then
        let x := (reopen x).2 in
        Appender (ap_kind x) (ap_level x) (ap_hasFormatter x) (ap_formatter x) now (ap_stream x)
      else x in
    f ← deref (ap_formatter x) "m_formatter";
    let t := format strftime f level event in
    mret (put_out (match ap_stream x with Some _ => [] | None => write_error end)
            (put_appender a
               (Appender (ap_kind x) (ap_level x) (ap_hasFormatter x) (ap_formatter x)
                  (ap_lastTime x) ((fun s => s ++ t) <$> ap_stream x)) w)).

(** The virtual [log]. *)
Definition appender_log (now level : Z) (event : LogEvent) a w : res logs :=
  x ← get_appender a w;
  match ap_kind x with
  | StdoutLogAppender => stdout_log level event x w
  | FileLogAppender _ => file_log now level event a x w
  end.

Fixpoint appenders_log (now level : Z) (event : LogEvent) (as_ : list aptr) w : res logs :=
  match as_ with
  | [] => mret w
  | a :: as_ => w ← appender_log now level event a w; appenders_log now level event as_ w
  end.

(** [Logger::log]; a chain of roots longer than the heap has a cycle, on which
    the recursion never ends. *)
Fixpoint log_chain (depth : nat) (now level : Z) (event : LogEvent) l w : res logs :=
  x ← get_logger l w;
  if level <? lg_level x then mret w
  else
    match lg_appenders x with
    | [] =>
        match lg_root x with
        | None => mret w
        | Some r =>
            match depth with
            | O => Err (FUB "Logger::log: endless recursion")
            | S depth => log_chain depth now level event r w
            end
        end
    | as_ => appenders_log now level event as_ w
    end.

Definition log (now level : Z) (event : LogEvent) l w : res logs :=
  log_chain (size (loggers w)) now level event l w.

Definition debug (now : Z) (event : LogEvent) l w : res logs := log now DEBUG event l w.
Definition info (now : Z) (event : LogEvent) l w : res logs := log now INFO event l w.
Definition warn (now : Z) (event : LogEvent) l w : res logs := log now WARN event l w.
Definition error (now : Z) (event : LogEvent) l w : res logs := log now ERROR event l w.
Definition fatal (now : Z) (event : LogEvent) l w : res logs := log now FATAL event l w.

(** [~LogEventWrap]. *)
Definition LogEventWrap_delete (now : Z) (event : LogEvent) l w : res logs :=
  log now (m_level event) event l w.

(** [SYLAR_LOG_LEVEL(logger, level) << content]: the temporary is destroyed at
    the end of the statement; [now] is the time its appenders see. *)
Definition SYLAR_LOG_LEVEL (now level : Z) (p : place) (content : text) l w : res logs :=
  x ← get_logger l w;
  if lg_level x <=? level then LogEventWrap_delete now (stream content (LogEvent_new x level p)) l w
  else mret w.

(** [SYLAR_LOG_FMT_LEVEL(logger, level, fmt, ...)]. *)
Definition SYLAR_LOG_FMT_LEVEL (now level : Z) (p : place) (buf : option text) l w : res logs :=
  x ← get_logger l w;
  if lg_level x <=? level then LogEventWrap_delete now (LogEvent_format buf (LogEvent_new x level p)) l w
  else mret w.

(** [Logger::getFormatter], [LogAppender::getFormatter]. *)
Definition getFormatter l w : res (option LogFormatter) := lg_formatter <$> get_logger l w.
Definition ap_getFormatter a w : res (option LogFormatter) := ap_formatter <$> get_appender a w.

(** [Logger::setLevel], [Logger::delAppender], [Logger::clearAppenders]. *)
Definition setLevel l (val : Z) w : res logs :=
  x ← get_logger l w; mret (put_logger l (with_level val x) w).

Fixpoint erase_first (a : aptr) (as_ : list aptr) : list aptr :=
  match as_ with
  | [] => []
  | b :: as_ => if (b =? a)%nat then as_ else b :: erase_first a as_
  end.

Definition delAppender l a w : res logs :=
  x ← get_logger l w; mret (put_logger l (with_appenders (erase_first a (lg_appenders x)) x) w).

Definition clearAppenders l w : res logs :=
  x ← get_logger l w; mret (put_logger l (with_appenders [] x) w).

(** [Logger::addAppender]. *)
Definition addAppender l a w : res logs :=
  x ← get_logger l w;
  y ← get_appender a w;
  let w := match ap_formatter y with
           | None => put_appender a (ap_with_formatter (ap_hasFormatter y) (lg_formatter x) y) w
           | Some _ => w
           end in
  mret (put_logger l (with_appenders (lg_appenders x ++ [a]) x) w).

(** The loop of [Logger::setFormatter(ptr)]. *)
Fixpoint set_formatters (val : option LogFormatter) (as_ : list aptr) w : res logs :=
  match as_ with
  | [] => mret w
  | a :: as_ =>
      y ← get_appender a w;
      set_formatters val as_
        (if ap_hasFormatter y then w else put_appender a (ap_with_formatter false val y) w)
  end.

Definition setFormatter l (val : option LogFormatter) w : res logs :=
  x ← get_logger l w;
  set_formatters val (lg_appenders x) (put_logger l (with_formatter val x) w).

(** [Logger::setFormatter(const std::string&)]. *)
Definition invalid_formatter (name : text) : text :=
  lit "Logger setFormatter name=" ++ name ++ lit "value=" ++ lit " invalid formatter" ++ endl.
Definition setFormatter_pattern l (val : text) w : res logs :=
  let new_val := LogFormatter_new val in
  let w := put_out (LogFormatter_out val) w in
  if m_error new_val then
    x ← get_logger l w;
    mret (put_out (invalid_formatter (lg_name x)) w)
  else setFormatter l (Some new_val) w.

(** [LoggerManager::getLogger]. *)
Definition getLogger (name : text) w : lptr * logs :=
  match m_loggers w !! name with
  | Some l => (l, w)
  | None =>
      let '(l, w) := Logger_new name (Some (m_root w)) w in
      (l, Logs (loggers w) (appenders w) (next_obj w) (<[name := l]> (m_loggers w)) (m_root w)
            (std_out w))
  end.

(** [LoggerManager::LoggerManager]. *)
Definition LoggerManager_new : res logs :=
  let '(root, w) := Logger_new (lit "root") None (Logs ∅ ∅ 0 ∅ 0 []) in
  let '(a, w) := LogAppender_new StdoutLogAppender w in
  w ← addAppender root a w;
  x ← get_logger root w;
  mret (Logs (loggers w) (appenders w) (next_obj w) (<[lg_name x := root]> (m_loggers w)) root
          (std_out w)).

(** ** What a client can do *)

Inductive call : Type :=
| GetLogger (name : text)
| NewAppender (k : appender_kind)
| AddAppender l a | DelAppender l a | ClearAppenders l
| SetLevel l (val : Z) | SetFormatter l (val : LogFormatter) | SetPattern l (val : text)
| ApSetLevel a (val : Z) | ApSetFormatter a (val : LogFormatter)
| Log (now level : Z) (event : LogEvent) l.

Definition exec (c : call) w : res logs :=
  match c with
  | GetLogger name => mret (getLogger name w).2
  | NewAppender k => mret (LogAppender_new k w).2
  | AddAppender l a => addAppender l a w
  | DelAppender l a => delAppender l a w
  | ClearAppenders l => clearAppenders l w
  | SetLevel l val => setLevel l val w
  | SetFormatter l val => setFormatter l (Some val) w
  | SetPattern l val => setFormatter_pattern l val w
  | ApSetLevel a val => ap_setLevel a val w
  | ApSetFormatter a val => ap_setFormatter a (Some val) w
  | Log now level event l => log now level event l w
  end.

(** The objects a call names exist. *)
Definition valid (c : call) w : Prop :=
  match c with
  | GetLogger _ | NewAppender _ => True
  | AddAppender l a | DelAppender l a => is_Some (loggers w !! l) /\ is_Some (appenders w !! a)
  | ClearAppenders l | SetLevel l _ | SetFormatter l _ | SetPattern l _ | Log _ _ _ l =>
      is_Some (loggers w !! l)
  | ApSetLevel a _ | ApSetFormatter a _ => is_Some (appenders w !! a)
  end.

Inductive reachable : logs -> Prop :=
| R_new w : LoggerManager_new = Ok w -> reachable w
| R_call c w w' : reachable w -> valid c w -> exec c w = Ok w' -> reachable w'.

(** ** Invariant *)

Record wf w : Prop := Wf {
  wf_next_l : forall l x, loggers w !! l = Some x -> (l < next_obj w)%nat;
  wf_next_a : forall a y, appenders w !! a = Some y -> (a < next_obj w)%nat;
  wf_formatter : forall l x, loggers w !! l = Some x -> is_Some (lg_formatter x);
  wf_appenders : forall l x a, loggers w !! l = Some x -> a ∈ lg_appenders x ->
    exists y, appenders w !! a = Some y /\ is_Some (ap_formatter y);
  wf_own : forall a y, appenders w !! a = Some y -> ap_hasFormatter y = true -> is_Some (ap_formatter y);
  wf_root : exists x, loggers w !! m_root w = Some x /\ lg_root x = None /\ lg_name x = lit "root";
  wf_chain : forall l x r, loggers w !! l = Some x -> lg_root x = Some r -> r = m_root w;
  wf_names : forall n l, m_loggers w !! n = Some l ->
    exists x, loggers w !! l = Some x /\ lg_name x = n /\ (lg_root x = None -> l = m_root w) }.
End Ops.

Section Theory.
Context (strftime : text -> Z -> text) (can_open : text -> bool).
Implicit Types (w : logs) (l : lptr) (a : aptr).

Lemma wf_put_logger l x x' w :
  wf w -> loggers w !! l = Some x -> lg_name x' = lg_name x -> lg_root x' = lg_root x ->
  is_Some (lg_formatter x') ->
  (forall a, a ∈ lg_appenders x' -> exists y, appenders w !! a = Some y /\ is_Some (ap_formatter y)) ->
  wf (put_logger l x' w).
Proof.
  intros [Hl Ha Hf Hap Ho (r & Hr & Hrr & Hrn) Hc Hn] Hx En Er Hf' Hap'.
  split; cbn [loggers appenders next_obj m_loggers m_root put_logger]; [|done| | |done| | |].
  - intros k z [[<- <-]|[_ Hz]]%lookup_insert_Some; eauto.
  - intros k z [[<- <-]|[_ Hz]]%lookup_insert_Some; eauto.
  - intros k z a [[<- <-]|[_ Hz]]%lookup_insert_Some; eauto.
  - destruct (decide (l = m_root w)) as [->|Hne].
    + exists x'. rewrite lookup_insert_eq. simplify_eq. split_and!; congruence.
    + exists r. by rewrite lookup_insert_ne.
  - intros k z q [[<- <-]|[_ Hz]]%lookup_insert_Some; [rewrite Er|]; eauto.
  - intros n k Hk. destruct (Hn n k Hk) as (z & Hz & Hzn & Hzr). destruct (decide (l = k)) as [<-|Hne].
    + exists x'. rewrite lookup_insert_eq. simplify_eq. split_and!; [done|congruence|].
      rewrite Er. done.
    + exists z. by rewrite lookup_insert_ne.
Qed.

Lemma wf_put_appender a y y' w :
  wf w -> appenders w !! a = Some y -> (is_Some (ap_formatter y) -> is_Some (ap_formatter y')) ->
  (ap_hasFormatter y' = true -> is_Some (ap_formatter y')) -> wf (put_appender a y' w).
Proof.
  intros [Hl Ha Hf Hap Ho Hr Hc Hn] Hy Hf' Ho'.
  split; cbn [loggers appenders next_obj m_loggers m_root put_appender]; [done| |done| | |done|done|done].
  - intros k z [[<- <-]|[_ Hz]]%lookup_insert_Some; eauto.
  - intros l x b Hx Hb. destruct (Hap l x b Hx Hb) as (z & Hz & Hzf).
    destruct (decide (a = b)) as [<-|Hne].
    + exists y'. rewrite lookup_insert_eq. simplify_eq. eauto.
    + exists z. by rewrite lookup_insert_ne.
  - intros k z [[<- <-]|[_ Hz]]%lookup_insert_Some; eauto.
Qed.

Lemma wf_put_out t w : wf w -> wf (put_out t w).
Proof. by intros []; split. Qed.

(** *** Logging one event *)

(** A file appender after an event was logged through it. *)
Definition written (now level : Z) (event : LogEvent) (y : LogAppender) : LogAppender :=
  if level <? ap_level y then y
  else
    match ap_kind y, ap_formatter y with
    | FileLogAppender f, Some fm =>
        Appender (ap_kind y) (ap_level y) (ap_hasFormatter y) (ap_formatter y) now
          ((fun s => s ++ format strftime fm level event)
           <$> (if now =? ap_lastTime y then ap_stream y
                else if can_open f then Some [] else None))
    | _, _ => y
    end.

(** What an appender prints: its text, or that it could not write it. *)
Definition printed (now level : Z) (event : LogEvent) (y : LogAppender) : text :=
  if level <? ap_level y then []
  else
    match ap_kind y, ap_formatter y with
    | StdoutLogAppender, Some fm => format strftime fm level event
    | FileLogAppender f, Some _ =>
        if (if now =? ap_lastTime y then bool_decide (is_Some (ap_stream y)) else can_open f) then []
        else write_error
    | _, None => []
    end.

Lemma put_out_nil w : put_out [] w = w.
Proof. destruct w. unfold put_out. simpl. by rewrite app_nil_r. Qed.

Lemma put_out_twice t1 t2 w : put_out t2 (put_out t1 w) = put_out (t1 ++ t2) w.
Proof. unfold put_out. cbn. by rewrite app_assoc. Qed.

Lemma written_setup now level event y :
  ap_kind (written now level event y) = ap_kind y /\ ap_level (written now level event y) = ap_level y /\
  ap_hasFormatter (written now level event y) = ap_hasFormatter y /\
  ap_formatter (written now level event y) = ap_formatter y.
Proof. unfold written. destruct (level <? ap_level y); [done|]. by destruct (ap_kind y) eqn:?, (ap_formatter y) eqn:?. Qed.

(** An appender that is used twice for an event finds its stream as it left it. *)
Lemma printed_written now level event y :
  printed now level event (written now level event y) = printed now level event y.
Proof.
  destruct (written_setup now level event y) as (Ek & El & _ & Ef).
  unfold printed. rewrite Ek, El, Ef. destruct (level <? ap_level y) eqn:Elv; [done|].
  destruct (ap_kind y) as [|f] eqn:Eky; [done|]. destruct (ap_formatter y) as [fm|] eqn:Efy; [|done].
  unfold written. rewrite Elv, Eky, Efy. cbn [ap_lastTime ap_stream]. rewrite Z.eqb_refl.
  destruct (now =? ap_lastTime y).
  - destruct (ap_stream y); done.
  - by destruct (can_open f).
Qed.

Lemma appender_log_ok now level event a y w :
  appenders w !! a = Some y -> is_Some (ap_formatter y) ->
  appender_log strftime can_open now level event a w
    = Ok (put_out (printed now level event y) (put_appender a (written now level event y) w)).
Proof.
  intros Hy [fm Hf]. unfold appender_log, stdout_log, file_log, get_appender, printed, written. rewrite Hy, Hf. cbn [deref].
  res_simpl.
  assert (put_appender a y w = w) as Hsame
    by (destruct w; unfold put_appender; simpl in *; by rewrite insert_id).
  destruct (level <? ap_level y); [rewrite put_out_nil, Hsame; by destruct (ap_kind y)|].
  destruct y as [k lv has f lt st]. simpl in *. subst f. destruct k as [|fn]; simpl; [by rewrite Hsame|].
  destruct (Z.eqb_spec now lt) as [->|]; simpl; [by destruct st|by destruct (can_open fn)].
Qed.

Lemma appenders_log_ok now level event as_ : forall w,
  (forall a, a ∈ as_ -> exists y, appenders w !! a = Some y /\ is_Some (ap_formatter y)) ->
  wf w ->
  exists w', appenders_log strftime can_open now level event as_ w = Ok w' /\ wf w' /\
    loggers w' = loggers w /\ m_loggers w' = m_loggers w /\ m_root w' = m_root w /\
    (forall a, a ∉ as_ -> appenders w' !! a = appenders w !! a) /\
    (NoDup as_ -> forall a, a ∈ as_ -> appenders w' !! a = written now level event <$> appenders w !! a) /\
    std_out w' = std_out w ++ (as_ ≫= fun a => match appenders w !! a with
                                              | Some y => printed now level event y | None => [] end).
Proof.
  induction as_ as [|a as_ IH]; intros w Has Hwf.
  - exists w. simpl. rewrite app_nil_r. split_and!; try done. intros _ a Ha. by apply not_elem_of_nil in Ha.
  - destruct (Has a ltac:(by left)) as (y & Hy & Hf). cbn [appenders_log].
    rewrite (appender_log_ok _ _ _ _ y) by done. res_simpl.
    set (w1 := put_out _ _).
    destruct (written_setup now level event y) as (_ & _ & Eh & Ef).
    assert (wf w1) as Hwf1.
    { apply wf_put_out. apply (wf_put_appender a y); try done; rewrite ?Ef, ?Eh; eauto. }
    assert (appenders w1 = <[a := written now level event y]> (appenders w)) as Ea by done.
    destruct (IH w1) as (w' & -> & Hwf' & Hl & Hm & Hr & Ho & Hin & Hout).
    + intros b Hb. rewrite Ea. destruct (decide (a = b)) as [<-|Hne].
      * rewrite lookup_insert_eq. eexists. split; [done|]. by rewrite Ef.
      * rewrite lookup_insert_ne by done. apply Has. by right.
    + exact Hwf1.
    + exists w'. split_and!; [done|done|done|done|done|..].
      * intros b Hb. rewrite not_elem_of_cons in Hb. destruct Hb as [Hne Hb]. rewrite Ho by done.
        rewrite Ea. by rewrite lookup_insert_ne.
      * intros [Hna Hnd]%NoDup_cons b [->|Hb]%elem_of_cons.
        -- rewrite Ho by done. rewrite Ea, lookup_insert_eq, Hy. done.
        -- rewrite Hin by done. rewrite Ea. rewrite lookup_insert_ne; [done|]. by intros ->.
      * rewrite Hout, bind_cons, Hy. cbn [std_out w1 put_out put_appender]. rewrite <- app_assoc. f_equal. f_equal.
        assert (forall b, (match appenders w1 !! b with Some y => printed now level event y | None => [] end)
          = match appenders w !! b with Some y => printed now level event y | None => [] end) as He.
        { intros b. rewrite Ea. destruct (decide (a = b)) as [<-|Hne]; [|by rewrite lookup_insert_ne].
          rewrite lookup_insert_eq, Hy. apply printed_written. }
        clear -He. induction as_ as [|b bs IHb]; [done|]. by rewrite !bind_cons, He, IHb.
Qed.

(** The appenders an event reaches. *)
Definition targets w l (level : Z) : list aptr :=
  match loggers w !! l with
  | None => []
  | Some x =>
      if level <? lg_level x then []
      else match lg_appenders x, lg_root x with
           | [], Some r =>
               match loggers w !! r with
               | Some y => if level <? lg_level y then [] else lg_appenders y
               | None => []
               end
           | as_, _ => as_
           end
  end.

Lemma log_targets now level event l w :
  wf w -> is_Some (loggers w !! l) ->
  log strftime can_open now level event l w
    = appenders_log strftime can_open now level event (targets w l level) w /\
  (forall a, a ∈ targets w l level -> exists y, appenders w !! a = Some y /\ is_Some (ap_formatter y)).
Proof.
  intros Hwf [x Hx]. unfold log, targets.
  destruct (size (loggers w)) as [|d] eqn:Es; [apply map_size_empty_inv in Es; by rewrite Es in Hx|].
  cbn [log_chain]. unfold get_logger. rewrite Hx. cbn [deref]. res_simpl.
  destruct (level <? lg_level x); [split; [done|by intros a Ha%not_elem_of_nil]|].
  destruct (lg_appenders x) as [|a0 as0] eqn:Ea.
  2: { split; [by destruct (lg_root x)|]. intros a Ha. eapply (wf_appenders _ Hwf l x); [done|].
       rewrite Ea. by destruct (lg_root x). }
  destruct (lg_root x) as [r|] eqn:Er; [|split; [done|by intros a Ha%not_elem_of_nil]].
  destruct (wf_root _ Hwf) as (y & Hy & Hyr & _). pose proof (wf_chain _ Hwf _ _ _ Hx Er) as ->.
  rewrite Hy. assert (log_chain strftime can_open d now level event (m_root w) w
    = if level <? lg_level y then mret w else
        appenders_log strftime can_open now level event (lg_appenders y) w) as ->.
  { destruct d; cbn [log_chain]; unfold get_logger; rewrite Hy; cbn [deref]; res_simpl;
      destruct (level <? lg_level y); try done; destruct (lg_appenders y); by rewrite ?Hyr. }
  destruct (level <? lg_level y); [split; [done|by intros a Ha%not_elem_of_nil]|].
  split; [done|]. intros a Ha. by eapply (wf_appenders _ Hwf (m_root w) y).
Qed.

(** *** The calls preserve the invariant *)

Lemma wf_new_logger name root w :
  wf w -> (forall r, root = Some r -> r = m_root w) ->
  let '(l, w') := Logger_new name root w in
  wf w' /\ loggers w !! l = None /\
  loggers w' !! l = Some (Logg name DEBUG [] (Some (LogFormatter_new default_pattern)) root) /\
  (forall k, k <> l -> loggers w' !! k = loggers w !! k) /\ m_loggers w' = m_loggers w /\
  m_root w' = m_root w /\ appenders w' = appenders w /\ std_out w' = std_out w.
Proof.
  intros Hwf Hroot. unfold Logger_new. destruct Hwf as [Hl Ha Hf Hap Ho Hr Hc Hn].
  assert (loggers w !! next_obj w = None) as Hnone
    by (destruct (loggers w !! next_obj w) as [x|] eqn:E; [specialize (Hl _ _ E); lia|done]).
  cbn [loggers appenders m_loggers m_root std_out].
  split_and!; [|done|by rewrite lookup_insert_eq|intros k Hk; by rewrite lookup_insert_ne|done..].
  split; cbn [loggers appenders next_obj m_loggers m_root].
  - intros k z [[<- <-]|[_ Hz]]%lookup_insert_Some; [lia|]. specialize (Hl _ _ Hz). lia.
  - intros k z Hz. specialize (Ha _ _ Hz). lia.
  - intros k z [[<- <-]|[_ Hz]]%lookup_insert_Some; eauto.
  - intros k z a [[<- <-]|[_ Hz]]%lookup_insert_Some; [by intros ?%not_elem_of_nil|eauto].
  - done.
  - destruct Hr as (x & Hx & ?). exists x. rewrite lookup_insert_ne; [done|]. intros E.
    rewrite E in Hnone. congruence.
  - intros k z r [[<- <-]|[_ Hz]]%lookup_insert_Some; [simpl; eauto|eauto].
  - intros n k Hk. destruct (Hn n k Hk) as (x & Hx & ?). exists x. rewrite lookup_insert_ne; [done|].
    intros E. rewrite E in Hnone. congruence.
Qed.

Lemma wf_getLogger name w :
  wf w ->
  let '(l, w') := getLogger name w in
  wf w' /\ m_loggers w' !! name = Some l /\ m_root w' = m_root w /\
  (forall n, n <> name -> m_loggers w' !! n = m_loggers w !! n) /\
  (exists x, loggers w' !! l = Some x /\ lg_name x = name) /\
  (m_loggers w !! name = None ->
     loggers w' !! l = Some (Logg name DEBUG [] (Some (LogFormatter_new default_pattern)) (Some (m_root w)))) /\
  (m_loggers w !! name <> None -> w' = w).
Proof.
  intros Hwf. unfold getLogger. destruct (m_loggers w !! name) as [l|] eqn:E.
  - destruct (wf_names _ Hwf _ _ E) as (x & Hx & Hxn & _). split_and!; try done. eauto.
  - pose proof (wf_new_logger name (Some (m_root w)) w Hwf ltac:(congruence)) as Hnew.
    destruct (Logger_new name (Some (m_root w)) w) as [l w1].
    destruct Hnew as (Hwf1 & Hnone & Hl & Hother & Hm & Hr & Ha & _).
    cbn [loggers m_loggers m_root]. split_and!; try done.
    + destruct Hwf1 as [Hl1 Ha1 Hf1 Hap1 Ho1 Hr1 Hc1 Hn1]. split; try done.
      cbn [m_loggers loggers m_root]. intros n k [[<- <-]|[_ Hk]]%lookup_insert_Some; [|by apply Hn1].
      eexists. split; [exact Hl|done].
    + by rewrite lookup_insert_eq.
    + intros n Hn. rewrite lookup_insert_ne by congruence. by rewrite Hm.
    + eexists. split; [exact Hl|done].
Qed.

Lemma wf_new_appender k w :
  wf w ->
  let '(a, w') := LogAppender_new can_open k w in
  wf w' /\ appenders w !! a = None /\ loggers w' = loggers w /\ m_loggers w' = m_loggers w /\
  m_root w' = m_root w /\
  (exists y, appenders w' !! a = Some y /\ ap_kind y = k /\ ap_level y = DEBUG /\
     ap_hasFormatter y = false /\ ap_formatter y = None) /\
  (forall b, b <> a -> appenders w' !! b = appenders w !! b).
Proof.
  intros [Hl Ha Hf Hap Ho Hr Hc Hn]. unfold LogAppender_new.
  assert (appenders w !! next_obj w = None) as Hnone
    by (destruct (appenders w !! next_obj w) as [x|] eqn:E; [specialize (Ha _ _ E); lia|done]).
  set (y := (reopen can_open (Appender k DEBUG false None 0 None)).2).
  assert (ap_kind y = k /\ ap_level y = DEBUG /\ ap_hasFormatter y = false /\ ap_formatter y = None) as Hy
    by (subst y; unfold reopen; simpl; by destruct k).
  cbn [loggers appenders m_loggers m_root].
  split_and!; [|done|done|done|done| |].
  - split; cbn [loggers appenders next_obj m_loggers m_root]; try done.
    + intros l x Hx. specialize (Hl _ _ Hx). lia.
    + intros b z [[<- <-]|[_ Hz]]%lookup_insert_Some; [lia|]. specialize (Ha _ _ Hz). lia.
    + intros l x b Hx Hb. destruct (Hap l x b Hx Hb) as (z & Hz & ?). exists z.
      rewrite lookup_insert_ne; [done|]. intros E. rewrite E in Hnone. congruence.
    + intros b z [[<- <-]|[_ Hz]]%lookup_insert_Some; [|eauto]. destruct Hy as (_ & _ & -> & _). done.
  - exists y. rewrite lookup_insert_eq. done.
  - intros b Hb. by rewrite lookup_insert_ne.
Qed.

(** [setFormatter]: the appenders without a formatter of their own get it. *)
Definition follow (val : option LogFormatter) (y : LogAppender) : LogAppender :=
  if ap_hasFormatter y then y else ap_with_formatter false val y.

Lemma follow_twice val y : follow val (follow val y) = follow val y.
Proof. unfold follow. destruct (ap_hasFormatter y) eqn:E; simpl; by rewrite ?E. Qed.

Lemma set_formatters_ok fm as_ : forall w,
  wf w -> (forall a, a ∈ as_ -> is_Some (appenders w !! a)) ->
  exists w', set_formatters (Some fm) as_ w = Ok w' /\ wf w' /\ loggers w' = loggers w /\
    m_loggers w' = m_loggers w /\ m_root w' = m_root w /\
    forall a, appenders w' !! a
      = (if decide (a ∈ as_) then follow (Some fm) <$> appenders w !! a else appenders w !! a).
Proof.
  induction as_ as [|a as_ IH]; intros w Hwf Has.
  - exists w. simpl. by split_and!.
  - destruct (Has a ltac:(by left)) as [y Hy]. cbn [set_formatters]. unfold get_appender. rewrite Hy.
    cbn [deref]. res_simpl.
    set (w1 := if ap_hasFormatter y then w else _).
    assert (wf w1 /\ loggers w1 = loggers w /\ m_loggers w1 = m_loggers w /\ m_root w1 = m_root w /\
      appenders w1 = <[a := follow (Some fm) y]> (appenders w)) as (Hwf1 & Hl & Hm & Hr & Ha).
    { subst w1. unfold follow. destruct (ap_hasFormatter y) eqn:E.
      - split_and!; try done. by rewrite insert_id.
      - split_and!; try done. eapply wf_put_appender; [done|done|by simpl|done]. }
    destruct (IH w1 Hwf1) as (w' & -> & Hwf' & Hl' & Hm' & Hr' & Hap).
    { intros b Hb. rewrite Ha. destruct (decide (a = b)) as [<-|Hne];
        [rewrite lookup_insert_eq; eauto|rewrite lookup_insert_ne by done; apply Has; by right]. }
    exists w'. split_and!; [done|done|congruence..|]. intros b. rewrite Hap, Ha.
    destruct (decide (a = b)) as [<-|Hne].
    + rewrite lookup_insert_eq, Hy. rewrite (decide_True (P := a ∈ a :: as_)) by (by left). simpl.
      by destruct (decide (a ∈ as_)); rewrite ?follow_twice.
    + rewrite lookup_insert_ne by done.
      destruct (decide (b ∈ as_)); [rewrite decide_True by (by right)|rewrite decide_False]; try done.
      rewrite elem_of_cons. intros [?|?]; congruence.
Qed.

Lemma erase_first_elem a b as_ : b ∈ erase_first a as_ -> b ∈ as_.
Proof.
  induction as_ as [|c as_ IH]; [done|]. simpl. destruct (Nat.eqb_spec c a) as [->|]; [by right|].
  rewrite !elem_of_cons. naive_solver.
Qed.

Lemma setFormatter_ok l x fm w :
  wf w -> loggers w !! l = Some x ->
  exists w', setFormatter l (Some fm) w = Ok w' /\ wf w' /\
    loggers w' = <[l := with_formatter (Some fm) x]> (loggers w) /\
    m_loggers w' = m_loggers w /\ m_root w' = m_root w /\
    forall a, appenders w' !! a
      = (if decide (a ∈ lg_appenders x) then follow (Some fm) <$> appenders w !! a
         else appenders w !! a).
Proof.
  intros Hwf Hx. unfold setFormatter, get_logger. rewrite Hx. cbn [deref]. res_simpl.
  set (w1 := put_logger l _ w).
  assert (wf w1) as Hwf1.
  { apply (wf_put_logger l x); try done. simpl. intros a Ha. by eapply wf_appenders. }
  destruct (set_formatters_ok fm (lg_appenders x) w1 Hwf1) as (w' & -> & ? & ? & ? & ? & Hap).
  { intros a Ha. destruct (wf_appenders _ Hwf _ _ _ Hx Ha) as (y & Hy & _). change (is_Some (appenders w !! a)).
    rewrite Hy. eauto. }
  exists w'. done.
Qed.

Lemma addAppender_ok l x a y w :
  wf w -> loggers w !! l = Some x -> appenders w !! a = Some y ->
  exists w', addAppender l a w = Ok w' /\ wf w' /\
    loggers w' = <[l := with_appenders (lg_appenders x ++ [a]) x]> (loggers w) /\
    m_loggers w' = m_loggers w /\ m_root w' = m_root w /\
    appenders w' = <[a := match ap_formatter y with Some _ => y
                          | None => ap_with_formatter (ap_hasFormatter y) (lg_formatter x) y end]> (appenders w).
Proof.
  intros Hwf Hx Hy. unfold addAppender, get_logger, get_appender. rewrite Hx, Hy. cbn [deref]. res_simpl.
  destruct (wf_formatter _ Hwf _ _ Hx) as [fx Hfx].
  set (w1 := match ap_formatter y with Some _ => w | None => _ end).
  set (y' := match ap_formatter y with Some _ => y | None => _ end).
  assert (wf w1 /\ loggers w1 = loggers w /\ m_loggers w1 = m_loggers w /\ m_root w1 = m_root w /\
    appenders w1 = <[a := y']> (appenders w) /\ is_Some (ap_formatter y')) as (Hwf1 & Hl & Hm & Hr & Ha & Hf).
  { subst w1 y'. destruct (ap_formatter y) as [fy|] eqn:E.
    - split_and!; try done. by rewrite insert_id.
    - split_and!; try done; try (by rewrite Hfx).
      eapply wf_put_appender; [done|done|by rewrite E; intros [? ?]|by rewrite Hfx]. }
  eexists. split; [done|]. cbn [loggers m_loggers m_root appenders put_logger]. rewrite Hl, Ha.
  split_and!; try done.
  apply (wf_put_logger l x); [done|by rewrite Hl|done|done|by simpl; rewrite Hfx|].
  simpl. intros b [Hb|Hb%list_elem_of_singleton]%elem_of_app.
  - eapply wf_appenders; [done|by rewrite Hl|done].
  - subst b. rewrite Ha, lookup_insert_eq. eauto.
Qed.

Lemma log_exec_ok c w :
  wf w -> valid c w -> exists w', exec strftime can_open c w = Ok w' /\ wf w'.
Proof.
  intros Hwf Hv. destruct c as [name|k|l a|l a|l|l v|l f|l v|a v|a f|now lv ev l]; cbn [valid exec] in *.
  - pose proof (wf_getLogger name w Hwf) as Hg. destruct (getLogger name w) as [l w'].
    exists w'. split; [done|apply Hg].
  - pose proof (wf_new_appender k w Hwf) as Hg. destruct (LogAppender_new can_open k w) as [a w'].
    exists w'. split; [done|apply Hg].
  - destruct Hv as [[x Hx] [y Hy]]. destruct (addAppender_ok l x a y w Hwf Hx Hy) as (w' & ? & ? & _). eauto.
  - destruct Hv as [[x Hx] _]. unfold delAppender, get_logger. rewrite Hx. cbn [deref]. res_simpl.
    eexists. split; [done|]. apply (wf_put_logger l x); try done; [by apply (wf_formatter _ Hwf l x)|].
    simpl. intros b Hb%erase_first_elem. by eapply wf_appenders.
  - destruct Hv as [x Hx]. unfold clearAppenders, get_logger. rewrite Hx. cbn [deref]. res_simpl.
    eexists. split; [done|]. apply (wf_put_logger l x); try done; [by apply (wf_formatter _ Hwf l x)|].
    simpl. by intros b Hb%not_elem_of_nil.
  - destruct Hv as [x Hx]. unfold setLevel, get_logger. rewrite Hx. cbn [deref]. res_simpl.
    eexists. split; [done|]. apply (wf_put_logger l x); try done; [by apply (wf_formatter _ Hwf l x)|].
    simpl. intros b Hb. by eapply wf_appenders.
  - destruct Hv as [x Hx]. destruct (setFormatter_ok l x f w Hwf Hx) as (w' & ? & ? & _). eauto.
  - destruct Hv as [x Hx]. unfold setFormatter_pattern. pose proof (wf_put_out (LogFormatter_out v) w Hwf) as Hwf1.
    destruct (m_error _).
    + unfold get_logger. cbn [loggers put_out]. rewrite Hx. cbn [deref]. res_simpl. eexists. split; [done|].
      by apply wf_put_out.
    + destruct (setFormatter_ok l x (LogFormatter_new v) _ Hwf1 Hx) as (w' & ? & ? & _). eauto.
  - destruct Hv as [y Hy]. unfold ap_setLevel, get_appender. rewrite Hy. cbn [deref]. res_simpl.
    eexists. split; [done|]. eapply wf_put_appender; [done|done|done|]. simpl. by eapply wf_own.
  - destruct Hv as [y Hy]. unfold ap_setFormatter, get_appender. rewrite Hy. cbn [deref]. res_simpl.
    eexists. split; [done|]. eapply wf_put_appender; [done|done|by simpl|by simpl].
  - destruct (log_targets now lv ev l w Hwf Hv) as [-> Ht].
    destruct (appenders_log_ok now lv ev _ w Ht Hwf) as (w' & ? & ? & _). eauto.
Qed.

Lemma default_out : LogFormatter_out default_pattern = [].
Proof. by vm_compute. Qed.

(** The state after [LoggerManager::LoggerManager]. *)
Definition manager0 : logs :=
  let f := LogFormatter_new default_pattern in
  Logs {[0%nat := Logg (lit "root") DEBUG [1%nat] (Some f) None]}
    {[1%nat := Appender StdoutLogAppender DEBUG false (Some f) 0 None]} 2
    {[lit "root" := 0%nat]} 0 [].

Lemma manager0_ok : LoggerManager_new can_open = Ok manager0.
Proof. reflexivity. Qed.

Lemma wf_manager : wf manager0.
Proof.
  split; cbn [manager0 loggers appenders next_obj m_loggers m_root].
  - intros l x [<- <-]%lookup_singleton_Some. lia.
  - intros a y [<- <-]%lookup_singleton_Some. lia.
  - intros l x [<- <-]%lookup_singleton_Some. by eexists.
  - intros l x a [<- <-]%lookup_singleton_Some ->%list_elem_of_singleton.
    eexists. rewrite lookup_singleton_eq. split; [done|by eexists].
  - by intros a y [<- <-]%lookup_singleton_Some.
  - eexists. rewrite lookup_singleton_eq. done.
  - by intros l x r [<- <-]%lookup_singleton_Some.
  - intros n l [<- <-]%lookup_singleton_Some. eexists. rewrite lookup_singleton_eq. done.
Qed.

Lemma reachable_wf w : reachable strftime can_open w -> wf w.
Proof.
  induction 1 as [w Hw|c w w' _ IH Hv He].
  - rewrite manager0_ok in Hw. injection Hw as <-. apply wf_manager.
  - destruct (log_exec_ok c w IH Hv) as (w1 & ? & ?). congruence.
Qed.

(** *** Properties *)

(** Logging never fails: from [LoggerManager()] on, under any calls on
    existing loggers and appenders (with formatters that are not null), every
    logger and every appender it uses has a formatter, the fallback of every
    logger is the root logger, which has none itself - so the recursion of
    [Logger::log] ends - and the next call returns. *)
Theorem logger_safe (c : call) w :
  reachable strftime can_open w -> valid c w ->
  wf w /\ exists w', exec strftime can_open c w = Ok w' /\ wf w'.
Proof. intros Hr%reachable_wf Hv. split; [done|by apply log_exec_ok]. Qed.

(** C34.  [Logger::log] delivers an event to the logger's appenders if its level
    is not below the logger's, or - when it has none - to those of the root
    logger, whose level counts as well; each appender formats it unless the
    level is below its own; the standard output gets, in the order of the
    appenders, the texts of those that write to it and a line "error" for each
    file that could not be opened, and nothing else changes. *)
Theorem log_delivers (now level : Z) (event : LogEvent) l w :
  wf w -> is_Some (loggers w !! l) ->
  exists w', log strftime can_open now level event l w = Ok w' /\ loggers w' = loggers w /\
    std_out w' = std_out w ++ (targets w l level ≫= fun a =>
      match appenders w !! a with Some y => printed now level event y | None => [] end) /\
    (forall a, a ∉ targets w l level -> appenders w' !! a = appenders w !! a) /\
    (NoDup (targets w l level) -> forall a, a ∈ targets w l level ->
       appenders w' !! a = written now level event <$> appenders w !! a).
Proof.
  intros Hwf Hl. destruct (log_targets now level event l w Hwf Hl) as [-> Ht].
  destruct (appenders_log_ok now level event _ w Ht Hwf) as (w' & ? & _ & ? & _ & _ & ? & ? & ?).
  eauto 10.
Qed.

(** The line the default formatter makes of a statement. *)
Definition default_line (name : text) (level : Z) (p : place) (content : text) : text :=
  strftime (lit "%Y-%m-%d %H:%M:%S") (pl_time p) ++ [chr 9] ++ dec (pl_threadId p) ++ [chr 9] ++
  pl_threadName p ++ [chr 9] ++ dec (pl_fiberId p) ++ [chr 9] ++ lit "[" ++ ToString level ++ lit "]" ++
  [chr 9] ++ lit "[" ++ name ++ lit "]" ++ [chr 9] ++ pl_file p ++ lit ":" ++ sdec (pl_line p) ++
  [chr 9] ++ content ++ [chr 10].

Lemma statement_log now level p content l x w :
  loggers w !! l = Some x ->
  SYLAR_LOG_LEVEL strftime can_open now level p content l w
    = log strftime can_open now level (stream content (LogEvent_new x level p)) l w.
Proof.
  intros Hx. unfold SYLAR_LOG_LEVEL, LogEventWrap_delete, get_logger. rewrite Hx. cbn [deref]. res_simpl.
  cbn [m_level stream LogEvent_new]. unfold log.
  destruct (Z.leb_spec (lg_level x) level) as [_|Hlt]; [done|].
  assert (forall d, log_chain strftime can_open d now level (stream content (LogEvent_new x level p)) l w = Ok w)
    as ->; [|done].
  intros d. destruct d; cbn [log_chain]; unfold get_logger; rewrite Hx; cbn [deref]; res_simpl;
    by rewrite (proj2 (Z.ltb_lt _ _)).
Qed.

Lemma default_format level event :
  format strftime (LogFormatter_new default_pattern) level event
    = strftime (lit "%Y-%m-%d %H:%M:%S") (m_time event) ++ [chr 9] ++ dec (m_threadId event) ++ [chr 9] ++
      m_threadName event ++ [chr 9] ++ dec (m_fiberId event) ++ [chr 9] ++ lit "[" ++ ToString level ++ lit "]" ++
      [chr 9] ++ lit "[" ++ m_logger_name event ++ lit "]" ++ [chr 9] ++ m_file event ++ lit ":" ++
      sdec (m_line event) ++ [chr 9] ++ m_ss event ++ [chr 10].
Proof.
  unfold format. set (its := m_items _). vm_compute in its. subst its. cbn [mbind list_bind format_item].
  done.
Qed.

(** A [FileLogAppender] opens its file again whenever the second has
    changed, and opening empties it: after an event in a later second the file
    holds that event alone, everything logged before is lost; within one second
    events are appended. *)
Theorem file_log_truncates (t1 t2 level : Z) (e1 e2 : LogEvent) (f : text) (fm : LogFormatter) y :
  ap_kind y = FileLogAppender f -> ap_formatter y = Some fm -> can_open f = true ->
  ap_level y <= level ->
  let y' := written t2 level e2 (written t1 level e1 y) in
  (t2 <> t1 -> ap_stream y' = Some (format strftime fm level e2)) /\
  (t2 = t1 -> t1 <> ap_lastTime y ->
     ap_stream y' = Some (format strftime fm level e1 ++ format strftime fm level e2)).
Proof.
  intros Hk Hf Ho Hlv y'. subst y'. unfold written at 2 4.
  destruct (Z.ltb_spec level (ap_level y)); [lia|]. rewrite Hk, Hf, Ho. unfold written. cbn.
  destruct (Z.ltb_spec level (ap_level y)); [lia|]. rewrite Ho. split.
  - intros Hne. by destruct (Z.eqb_spec t2 t1).
  - intros -> Hne. rewrite Z.eqb_refl. destruct (Z.eqb_spec t1 (ap_lastTime y)); [done|]. done.
Qed.

(** [getLogger] gives one logger per name: asked again for the name, or
    for any name it already gave, it returns the same pointer and changes
    nothing; a new logger has level DEBUG, the default formatter, no appender
    and falls back to the root logger, which is found under "root". *)
Theorem getLogger_unique (name : text) w :
  reachable strftime can_open w ->
  let '(l, w') := getLogger name w in
  (exists x, loggers w' !! l = Some x /\ lg_name x = name) /\
  getLogger name w' = (l, w') /\
  (forall n k, m_loggers w !! n = Some k -> getLogger n w' = (k, w')) /\
  (m_loggers w !! name = None ->
     loggers w' !! l = Some (Logg name DEBUG [] (Some (LogFormatter_new default_pattern)) (Some (m_root w)))).
Proof.
  intros Hwf%reachable_wf. pose proof (wf_getLogger name w Hwf) as Hg.
  destruct (getLogger name w) as [l w'] eqn:E.
  destruct Hg as (Hwf' & Hm & _ & Hother & Hx & Hnew & Hold). split_and!; [done| | |done].
  - unfold getLogger. by rewrite Hm.
  - intros n k Hk. unfold getLogger. destruct (decide (n = name)) as [->|Hne].
    + rewrite Hold in * by congruence. by rewrite Hk.
    + by rewrite Hother, Hk.
Qed.

(** Formatters are inherited: [Logger::setFormatter] gives the formatter
    to exactly those appenders of the logger that have none of their own, an
    appender added without formatter gets the logger's, one with a formatter
    keeps it, and an invalid pattern is reported on the standard output and
    changes nothing. *)
Theorem formatter_inheritance l x a y (fm : LogFormatter) (pattern : text) w :
  wf w -> loggers w !! l = Some x -> appenders w !! a = Some y ->
  (exists w', setFormatter l (Some fm) w = Ok w' /\
     (lg_formatter <$> loggers w' !! l) = Some (Some fm) /\
     forall b, appenders w' !! b
       = if decide (b ∈ lg_appenders x) then follow (Some fm) <$> appenders w !! b
         else appenders w !! b) /\
  (exists w', addAppender l a w = Ok w' /\
     (lg_appenders <$> loggers w' !! l) = Some (lg_appenders x ++ [a]) /\
     (ap_formatter <$> appenders w' !! a)
       = Some (match ap_formatter y with Some f => Some f | None => lg_formatter x end)) /\
  (m_error (LogFormatter_new pattern) = true -> setFormatter_pattern l pattern w
     = Ok (put_out (LogFormatter_out pattern ++ invalid_formatter (lg_name x)) w)).
Proof.
  intros Hwf Hx Hy. split_and!.
  - destruct (setFormatter_ok l x fm w Hwf Hx) as (w' & ? & _ & Hl & _ & _ & ?).
    exists w'. split_and!; [done| |done]. by rewrite Hl, lookup_insert_eq.
  - destruct (addAppender_ok l x a y w Hwf Hx Hy) as (w' & ? & _ & Hl & _ & _ & Ha).
    exists w'. split_and!; [done| |].
    + by rewrite Hl, lookup_insert_eq.
    + rewrite Ha, lookup_insert_eq. simpl. by destruct (ap_formatter y) eqn:E; rewrite ?E.
  - intros He. unfold setFormatter_pattern, get_logger. rewrite He. cbn [loggers put_out]. rewrite Hx.
    cbn [deref]. res_simpl. by rewrite put_out_twice.
Qed.

(** C35.  What a log statement does, [SYLAR_LOG_INFO(logger) << content] and its
    siblings: it is the logger's [log] of an event that carries the level, the
    place, the thread, the fiber, the time and the content - the test of the
    level only saves making one that [log] would drop - and it always returns;
    the printf-like statement is the same with the formatted text as content.
    Through any logger of a fresh manager it prints one line with all of them in
    the default pattern, unless the level is below DEBUG. *)
Theorem log_statement (now level : Z) (p : place) (content : text) (name : text) l w :
  wf w -> is_Some (loggers w !! l) ->
  (exists x w', loggers w !! l = Some x /\
     SYLAR_LOG_LEVEL strftime can_open now level p content l w
       = log strftime can_open now level (stream content (LogEvent_new x level p)) l w /\
     SYLAR_LOG_FMT_LEVEL strftime can_open now level p (Some content) l w
       = SYLAR_LOG_LEVEL strftime can_open now level p content l w /\
     SYLAR_LOG_LEVEL strftime can_open now level p content l w = Ok w' /\ wf w') /\
  (let '(l, w) := getLogger name manager0 in
   exists w', SYLAR_LOG_LEVEL strftime can_open now level p content l w = Ok w' /\
     std_out w' = if level <? DEBUG then [] else default_line name level p content).
Proof.
  intros Hwf Hl. split.
  - destruct (Hl) as [x Hx]. destruct (log_targets now level (stream content (LogEvent_new x level p)) l w Hwf Hl) as [El Ht].
    destruct (appenders_log_ok now level (stream content (LogEvent_new x level p)) _ w Ht Hwf) as (w' & E & Hwf' & _).
    exists x, w'. pose proof (statement_log now level p content l x w Hx) as Es. split_and!; [done|done|done| |done].
    by rewrite Es, El.
  - pose proof (wf_getLogger name manager0 wf_manager) as Hg. destruct (getLogger name manager0) as [l1 w1] eqn:Eg.
    destruct Hg as (Hwf1 & _ & Hr & _ & (x & Hx & Hn) & Hnew & Hold).
    set (ev := stream content (LogEvent_new x level p)).
    assert (targets w1 l1 level = (if level <? DEBUG then [] else [1%nat]) /\
      appenders w1 !! 1%nat = appenders manager0 !! 1%nat /\ std_out w1 = []) as (Ht & Ha & Ho).
    { revert Eg. unfold getLogger. destruct (m_loggers manager0 !! name) as [k|] eqn:Ek.
      - intros [= <- <-]. cbn [manager0 m_loggers] in Ek. apply lookup_singleton_Some in Ek as [_ <-].
        split_and!; [|done|done]. unfold targets. cbn [manager0 loggers]. rewrite lookup_singleton_eq.
        cbn [lg_level lg_appenders lg_root]. destruct (level <? DEBUG); reflexivity.
      - intros [= <- <-]. split_and!; [|done|done]. unfold targets.
        cbn [manager0 Logger_new loggers m_root next_obj]. rewrite lookup_insert_eq. cbn [lg_level lg_appenders lg_root].
        rewrite lookup_insert_ne, lookup_singleton_eq by done. cbn [lg_level lg_appenders].
        destruct (level <? DEBUG); reflexivity. }
    destruct (log_targets now level ev l1 w1 Hwf1 ltac:(by rewrite Hx)) as [El Has].
    destruct (appenders_log_ok now level ev _ w1 Has Hwf1) as (w' & E & _ & _ & _ & _ & _ & _ & Hout).
    exists w'. rewrite (statement_log now level p content l1 x w1 Hx). fold ev. rewrite El. split; [done|].
    rewrite Hout, Ht, Ho. destruct (level <? DEBUG) eqn:Elv; [done|]. cbn [mbind list_bind]. rewrite Ha.
    unfold printed. cbn [manager0 appenders]. rewrite lookup_singleton_eq. cbn [ap_level ap_kind ap_formatter].
    rewrite Elv, !app_nil_r. unfold default_line. rewrite <- Hn. apply default_format.
Qed.
End Theory.

(** ** Witnesses *)

Definition ex_strftime (f : text) (t : Z) : text := dec t.
Definition ex_open (f : text) : bool := true.

Definition ex_event : LogEvent :=
  Event (lit "a.cc") 7 0 1 2 100 (lit "hello") (lit "system") INFO (lit "main").

(** The manager after [getLogger("system")]. *)
Definition ex_logs : logs := (getLogger (lit "system") manager0).2.

Lemma ex_logs_reachable : reachable ex_strftime ex_open ex_logs.
Proof.
  eapply (R_call _ _ (GetLogger (lit "system")) manager0); [apply R_new; apply manager0_ok|done|done].
Qed.

Lemma logger_safe_witness :
  exists w', exec ex_strftime ex_open (Log 5 INFO ex_event 2%nat) ex_logs = Ok w'.
Proof.
  destruct (logger_safe ex_strftime ex_open (Log 5 INFO ex_event 2%nat) ex_logs ex_logs_reachable)
    as [_ (w' & H & _)]; [by eexists|].
  exists w'. exact H.
Defined.

Lemma log_delivers_witness :
  exists w', log ex_strftime ex_open 5 INFO ex_event 2%nat ex_logs = Ok w' /\
    length (std_out w') = 42%nat.
Proof.
  destruct (log_delivers ex_strftime ex_open 5 INFO ex_event 2%nat ex_logs) as (w' & H & _ & Ho & _).
  - apply (reachable_wf ex_strftime ex_open). apply ex_logs_reachable.
  - by eexists.
  - exists w'. split; [exact H|]. rewrite Ho. vm_compute. reflexivity.
Defined.

(** The file of an appender that cannot be opened. *)
Definition ex_closed : logs :=
  put_appender 1%nat (Appender (FileLogAppender (lit "a.log")) DEBUG true (Some (LogFormatter_new (lit "%m"))) 0 None)
    ex_logs.

Example unwritten_reported :
  std_out <$> log ex_strftime (fun _ => false) 5 INFO ex_event 2%nat ex_closed = Ok (lit "error" ++ [chr 10]).
Proof. vm_compute. reflexivity. Qed.

Definition ex_file : LogAppender :=
  Appender (FileLogAppender (lit "a.log")) DEBUG true (Some (LogFormatter_new (lit "%m"))) 0 (Some []).

Lemma file_log_truncates_witness :
  ap_stream (written ex_strftime ex_open 6 INFO ex_event (written ex_strftime ex_open 5 INFO ex_event ex_file))
    = Some (lit "hello").
Proof.
  destruct (file_log_truncates ex_strftime ex_open 5 6 INFO ex_event ex_event (lit "a.log")
    (LogFormatter_new (lit "%m")) ex_file) as [H _]; [done|done|done|done|].
  rewrite H by done. vm_compute. reflexivity.
Defined.

Lemma getLogger_unique_witness :
  getLogger (lit "system") ex_logs = (2%nat, ex_logs).
Proof.
  pose proof (getLogger_unique ex_strftime ex_open (lit "system") manager0
    (R_new _ _ _ (manager0_ok ex_open))) as H.
  destruct H as (_ & H & _). exact H.
Defined.

Lemma formatter_inheritance_witness :
  exists w', setFormatter 0%nat (Some (LogFormatter_new (lit "%m"))) manager0 = Ok w' /\
    (ap_formatter <$> appenders w' !! 1%nat) = Some (Some (LogFormatter_new (lit "%m"))).
Proof.
  destruct (formatter_inheritance 0%nat
    (Logg (lit "root") DEBUG [1%nat] (Some (LogFormatter_new default_pattern)) None) 1%nat
    (Appender StdoutLogAppender DEBUG false (Some (LogFormatter_new default_pattern)) 0 None)
    (LogFormatter_new (lit "%m")) [] manager0 wf_manager) as [(w' & H & _ & Ha) _]; [done|done|].
  exists w'. split; [exact H|]. rewrite Ha. reflexivity.
Defined.

Definition ex_place : place := Place (lit "a.cc") 7 1 2 100 (lit "main").

Lemma log_statement_witness :
  exists w', SYLAR_LOG_LEVEL ex_strftime ex_open 5 INFO ex_place (lit "hello") 2%nat ex_logs = Ok w' /\
    length (std_out w') = 42%nat.
Proof.
  destruct (log_statement ex_strftime ex_open 5 INFO ex_place (lit "hello") (lit "system") 2%nat ex_logs)
    as [_ (w' & H & Ho)].
  - apply (reachable_wf ex_strftime ex_open). apply ex_logs_reachable.
  - by eexists.
  - exists w'. split; [exact H|]. rewrite Ho. vm_compute. reflexivity.
Defined.
