(* ===== verification/Yaml.v ===== *)
(** * YAML nodes

    The configuration code works on [YAML::Node] of yaml-cpp: the node kinds and
    the operations it calls are modelled, the text format ([YAML::Load] and
    [os << node]) is an interface with the law that reading what was written
    gives the node back. *)

From S2P Require Import Prelude Text.

(** [YAML::Node]; the keys the code uses are scalars. *)
Inductive node : Type :=
| Null
| Scalar (s : text)
| Sequence (l : list node)
| Map (l : list (text * node)).

(** [YAML::Load], [None] for an exception, and [os << node]; what
    [node.as<std::string>()] gives for a null node (an exception or a text,
    depending on the version), and [node[i]] for a map: the value of a key that
    converts to [i]. *)
Class Yaml : Type := {
  Load : text -> option node;
  emit : node -> text;
  null_string : option text;
  map_index : list (text * node) -> nat -> option node }.
Class YamlLaws `{Yaml} : Prop := { load_emit n : Load (emit n) = Some n }.

(** [begin()] to [end()] of a map. *)
Definition pairs_of (n : node) : list (text * node) := match n with Map l => l | _ => [] end.

Definition IsMap (n : node) : bool := match n with Map _ => true | _ => false end.
Definition IsScalar (n : node) : bool := match n with Scalar _ => true | _ => false end.

(** [node.Scalar()]: empty for other kinds. *)
Definition scalar_of (n : node) : text := match n with Scalar s => s | _ => [] end.

Fixpoint assoc (k : text) (l : list (text * node)) : option node :=
  match l with
  | [] => None
  | (k', n) :: l => if decide (k = k') then Some n else assoc k l
  end.

(** [node.size()], and [node[i]]; [None] is a node that is not defined. *)
Definition size_of (n : node) : nat :=
  match n with Sequence l => length l | Map l => length l | _ => 0 end.

Definition index `{Yaml} (n : node) (i : nat) : option node :=
  match n with Sequence l => l !! i | Map l => map_index l i | _ => None end.

(** What [for(i=0;i<node.size();++i) ... node[i]] sees. *)
Definition items_of `{Yaml} (n : node) : list (option node) := map (index n) (seq 0 (size_of n)).

(** [ss << node[i]]: nothing for a node that is not defined. *)
Definition text_of `{Yaml} (o : option node) : text :=
  match o with Some n => emit n | None => [] end.

(** [node[key]] of a node that exists: the outer [None] is the exception of a
    scalar, the inner one a node that is not defined. *)
Definition subscript (k : text) (n : node) : option (option node) :=
  match n with Scalar _ => None | _ => Some (assoc k (pairs_of n)) end.

(** [node.as<std::string>()], [None] for an exception. *)
Definition as_string `{Yaml} (n : node) : option text :=
  match n with Scalar s => Some s | Null => null_string | _ => None end.

(** [node.push_back(x)] on a null node or a sequence. *)
Definition push_back (n x : node) : node :=
  match n with Sequence l => Sequence (l ++ [x]) | _ => Sequence [x] end.

Fixpoint assoc_set (k : text) (x : node) (l : list (text * node)) : list (text * node) :=
  match l with
  | [] => [(k, x)]
  | (k', n) :: l => if decide (k = k') then (k, x) :: l else (k', n) :: assoc_set k x l
  end.

(** [node[key] = x] on a null node or a map. *)
Definition set_field (k : text) (x : node) (n : node) : node :=
  match n with Map l => Map (assoc_set k x l) | _ => Map [(k, x)] end.

Lemma assoc_set_new k x l : assoc k l = None -> assoc_set k x l = l ++ [(k, x)].
Proof.
  induction l as [|[k' n] l IH]; [done|]. simpl. destruct (decide (k = k')); [done|]. intros H.
  by rewrite IH.
Qed.

Lemma assoc_None k l : k ∉ map fst l -> assoc k l = None.
Proof.
  induction l as [|[k' n] l IH]; [done|]. simpl. rewrite not_elem_of_cons. intros [? ?].
  by rewrite decide_False, IH.
Qed.

Lemma items_of_sequence `{Yaml} l : items_of (Sequence l) = map Some l.
Proof.
  unfold items_of. simpl. apply list_eq. intros i.
  change (map ?g ?x) with (g <$> x). rewrite !list_lookup_fmap.
  destruct (decide (i < length l)%nat) as [Hi|Hi].
  - rewrite lookup_seq_lt by done. simpl. apply lookup_lt_is_Some in Hi as [n Hn]. by rewrite Hn.
  - rewrite (lookup_ge_None_2 l) by lia. rewrite lookup_seq_ge by lia. done.
Qed.

(** ** A concrete text format, for the witnesses

    A node is written as the bits of its number in an enumeration. *)

Fixpoint to_tree (n : node) : gen_tree text :=
  match n with
  | Null => GenNode 0 []
  | Scalar s => GenNode 1 [GenLeaf s]
  | Sequence l => GenNode 2 (map to_tree l)
  | Map l => GenNode 3 (map (fun kn => GenNode 4 [GenLeaf (fst kn); to_tree (snd kn)]) l)
  end.

Fixpoint of_tree (t : gen_tree text) : node :=
  match t with
  | GenNode 1 [GenLeaf s] => Scalar s
  | GenNode 2 l => Sequence (map of_tree l)
  | GenNode 3 l =>
      Map (map (fun t => match t with
                         | GenNode _ [GenLeaf k; v] => (k, of_tree v)
                         | _ => ([], Null)
                         end) l)
  | _ => Null
  end.

Fixpoint of_to_tree (n : node) : of_tree (to_tree n) = n.
Proof.
  destruct n as [|s|l|l]; simpl; try done; f_equal.
  - induction l as [|n l IH]; [done|]. simpl. by rewrite of_to_tree, IH.
  - induction l as [|[k n] l IH]; [done|]. simpl. by rewrite of_to_tree, IH.
Qed.

Fixpoint pos_text (p : positive) : text :=
  match p with
  | xH => []
  | xO p => "0"%char :: pos_text p
  | xI p => "1"%char :: pos_text p
  end.

Fixpoint text_pos (t : text) : positive :=
  match t with
  | [] => xH
  | c :: t => if decide (c = "0"%char) then xO (text_pos t) else xI (text_pos t)
  end.

Lemma text_pos_text p : text_pos (pos_text p) = p.
Proof. induction p as [p IH|p IH|]; simpl; by rewrite ?IH. Qed.

Definition ex_yaml : Yaml := {|
  Load t := of_tree <$> decode (text_pos t);
  emit n := pos_text (encode (to_tree n));
  null_string := None;
  map_index l i := assoc (dec (Z.of_nat i)) l |}.

Lemma ex_yaml_laws : @YamlLaws ex_yaml.
Proof.
  split. intros n. simpl. rewrite text_pos_text, decode_encode. simpl. by rewrite of_to_tree.
Qed.
