(* ===== verification/Config.v ===== *)
(** * Configuration variables (src/sylar/config.h, config.cc)

    A variable has one of the types of a universe, given by codes, with the
    casts of its [LexicalCast]; the registry maps names to variables of any type.
    Exceptions of a cast are [None], a listener tells whether it throws.  What
    the code logs is not kept. *)

From S2P Require Import Prelude Text Yaml.

(** ** LexicalCast *)

(** [LexicalCast<T, std::string>] and [LexicalCast<std::string, T>]. *)
Class LexicalCast (T : Type) : Type := {
  to_str : T -> option text;
  from_str : text -> option T }.

(** On the values in [P] the casts invert each other, also through a YAML
    document that contains the text. *)
Class CastLaws (T : Type) `{LexicalCast T, Yaml} (P : T -> Prop) : Prop :=
  cast_inverse x : P x -> exists s n,
    to_str x = Some s /\ Load s = Some n /\ from_str s = Some x /\ from_str (emit n) = Some x.

Section Containers.
Context `{Yaml} {T : Type} `{LexicalCast T}.

(** The node of an element. *)
Definition element_node (x : T) : option node := s ← to_str x; Load s.

(** [std::vector<T>] starts from an empty sequence, [std::list<T>] from a null
    node. *)
Definition seq_cast (start : node) : LexicalCast (list T) := {|
  to_str v := ns ← mapM element_node v; Some (emit (foldl push_back start ns));
  from_str v := n ← Load v; mapM (fun o => from_str (text_of o)) (items_of n) |}.
Definition vector_cast : LexicalCast (list T) := seq_cast (Sequence []).
Definition list_cast : LexicalCast (list T) := seq_cast Null.

(** [std::set<T>], [std::unordered_set<T>]: [order] is the order in which the
    container is walked. *)
Definition set_cast `{Countable T} (order : gset T -> list T) : LexicalCast (gset T) := {|
  to_str v := ns ← mapM element_node (order v); Some (emit (foldl push_back Null ns));
  from_str v := n ← Load v;
                l ← mapM (fun o => from_str (text_of o)) (items_of n); Some (list_to_set l) |}.

(** [std::map<std::string, T>], [std::unordered_map<std::string, T>]; [insert]
    keeps the first value of a key. *)
Definition insert_new (m : gmap text T) (kv : text * T) : gmap text T :=
  match m !! kv.1 with Some _ => m | None => <[kv.1 := kv.2]> m end.
Definition map_cast (order : gmap text T -> list (text * T)) : LexicalCast (gmap text T) := {|
  to_str v :=
    ns ← mapM (fun kv => n ← element_node kv.2; Some (kv.1, n)) (order v);
    Some (emit (foldl (fun n kn => set_field kn.1 kn.2 n) Null ns));
  from_str v :=
    n ← Load v;
    l ← mapM (fun kn => x ← from_str (emit kn.2); Some (kn.1, x)) (pairs_of n);
    Some (foldl insert_new ∅ l) |}.
End Containers.

(** ** Variables *)

(** [ConfigVar<T>::on_change_cb] with its effect on an environment; [true] when
    it throws. *)
Definition on_change_cb (E T : Type) : Type := T -> T -> E -> E * bool.

Record ConfigVar (E T : Type) : Type := Var {
  m_name : text;
  m_description : text;
  m_val : T;
  m_cbs : list (Z * on_change_cb E T) }.
Arguments Var {E T}.
Arguments m_name {E T}.
Arguments m_description {E T}.
Arguments m_val {E T}.
Arguments m_cbs {E T}.

(** [::tolower] in the C locale. *)
Definition tolower (c : ascii) : ascii :=
  let b := char_byte c in if (65 <=? b) && (b <=? 90) then byte_char (b + 32) else c.

(** The names [Lookup] accepts: "abcdefghijklmnopqrstuvwxyz._012345678". *)
Definition charset : text := lit "abcdefghijklmnopqrstuvwxyz._012345678".
Definition valid_name (name : text) : bool := forallb (fun c => bool_decide (c ∈ charset)) name.

Section Var.
Context {E T : Type} `{EqDecision T, LexicalCast T}.
Implicit Types (v : ConfigVar E T).

(** [ConfigVar::ConfigVar]. *)
Definition ConfigVar_new (name : text) (default_value : T) (description : text) : ConfigVar E T :=
  Var (map tolower name) description default_value [].

Definition getValue v : T := m_val v.

(** [toString], [None] inside becomes the empty text. *)
Definition toString v : text := default [] (to_str (m_val v)).

(** The loop over [m_cbs]; a throwing listener ends it. *)
Fixpoint run_cbs (cbs : list (Z * on_change_cb E T)) (old new : T) (e : E) : E * bool :=
  match cbs with
  | [] => (e, false)
  | (_, cb) :: cbs =>
      let '(e, throws) := cb old new e in
      if throws : bool then (e, true) else run_cbs cbs old new e
  end.

(** [setValue]; [true] when an exception leaves it. *)
Definition setValue (x : T) v (e : E) : ConfigVar E T * E * bool :=
  if decide (x = m_val v) then (v, e, false)
  else
    let '(e, throws) := run_cbs (m_cbs v) (m_val v) x e in
    if throws : bool then (v, e, true)
    else (Var (m_name v) (m_description v) x (m_cbs v), e, false).

(** [fromString]: catches everything and returns true. *)
Definition fromString (val : text) v (e : E) : bool * ConfigVar E T * E :=
  match from_str val with
  | Some x => let '(v, e, _) := setValue x v e in (true, v, e)
  | None => (true, v, e)
  end.

(** [m_cbs[key] = cb] in a [std::map]. *)
Fixpoint put_cb (key : Z) (cb : on_change_cb E T) (l : list (Z * on_change_cb E T)) :=
  match l with
  | [] => [(key, cb)]
  | (k, c) :: l' =>
      if key <? k then (key, cb) :: l
      else if key =? k then (key, cb) :: l'
      else (k, c) :: put_cb key cb l'
  end.

(** [addListener] with the counter of the type; [delListener],
    [clearListener], [getListener]. *)
Definition addListener (cb : on_change_cb E T) (s_dun_id : Z) v : Z * ConfigVar E T :=
  let id := u64 (s_dun_id + 1) in
  (id, Var (m_name v) (m_description v) (m_val v) (put_cb id cb (m_cbs v))).
Definition delListener (key : Z) v : ConfigVar E T :=
  Var (m_name v) (m_description v) (m_val v)
    (List.filter (fun kc => negb (fst kc =? key)) (m_cbs v)).
Definition clearListener v : ConfigVar E T := Var (m_name v) (m_description v) (m_val v) [].
Definition getListener (key : Z) v : option (on_change_cb E T) :=
  snd <$> List.find (fun kc => fst kc =? key) (m_cbs v).
End Var.

(** ** The registry *)

Section Registry.
(** The types of the variables, with equality and casts for each. *)
Context {ty : Type} `{!EqDecision ty} {interp : ty -> Type}.
Context `{!forall t, EqDecision (interp t)} `{!forall t, LexicalCast (interp t)}.
Context `{Yaml} {E : Type}.

(** A [ConfigVarBase::ptr] points to a variable of some type. *)
Definition any_var : Type := { t : ty & ConfigVar E (interp t) }.

Record Config : Type := Conf {
  vars : gmap nat any_var;
  datas : gmap text nat;
  fresh_var : nat }.
Implicit Types (c : Config).

(** [std::dynamic_pointer_cast<ConfigVar<T>>]. *)
Definition is_of (t : ty) (a : any_var) : bool := bool_decide (projT1 a = t).

(** [Config::Lookup(name, default_value, description)]. *)
Definition Lookup (t : ty) (name : text) (default_value : interp t) (description : text) c
    : res (option nat * Config) :=
  match datas c !! name with
  | Some p =>
      a ← deref (vars c !! p) "ConfigVarBase";
      mret (if is_of t a then Some p else None, c)
  | None =>
      if negb (valid_name name) then Err (FThrow "std::invalid_argument")
      else
        let p := fresh_var c in
        let v : any_var := existT t (ConfigVar_new name default_value description) in
        mret (Some p, Conf (<[p := v]> (vars c)) (<[name := p]> (datas c)) (S p))
  end.

(** [Config::Lookup(name)]. *)
Definition Lookup_typed (t : ty) (name : text) c : res (option nat) :=
  match datas c !! name with
  | None => mret None
  | Some p => a ← deref (vars c !! p) "ConfigVarBase"; mret (if is_of t a then Some p else None)
  end.

(** [Config::LookupBase]. *)
Definition LookupBase (name : text) c : option nat := datas c !! name.

(** [Config::Visit]: every variable, in the order of the table. *)
Definition Visit (order : gmap text nat -> list (text * nat)) (cb : nat -> E -> E) c (e : E) : E :=
  foldl (fun e np => cb np.2 e) e (order (datas c)).

(** The virtual [fromString]. *)
Definition any_fromString (val : text) (a : any_var) (e : E) : any_var * E :=
  let '(_, v, e) := fromString val (projT2 a) e in (existT (projT1 a) v, e).

(** [ListAllMember]. *)
Definition join (prefix key : text) : text :=
  match prefix with [] => key | _ => prefix ++ lit "." ++ key end.

Fixpoint ListAllMember (prefix : text) (n : node) : list (text * node) :=
  (prefix, n) ::
  match n with
  | Map l => (fix go (l : list (text * node)) : list (text * node) :=
                match l with
                | [] => []
                | kn :: l => ListAllMember (join prefix (fst kn)) (snd kn) ++ go l
                end) l
  | _ => []
  end.

(** The text [LoadFromYaml] hands to a variable. *)
Definition node_text (n : node) : text := if IsScalar n then scalar_of n else emit n.

(** One round of [LoadFromYaml]. *)
Definition load_member (ce : Config * E) (kn : text * node) : Config * E :=
  let '(c, e) := ce in
  match kn.1 with
  | [] => (c, e)
  | _ =>
      match LookupBase (map tolower kn.1) c with
      | None => (c, e)
      | Some p =>
          match vars c !! p with
          | None => (c, e)
          | Some a =>
              let '(a, e) := any_fromString (node_text kn.2) a e in
              (Conf (<[p := a]> (vars c)) (datas c) (fresh_var c), e)
          end
      end
  end.

(** [Config::LoadFromYaml]. *)
Definition LoadFromYaml (root : node) c (e : E) : Config * E :=
  foldl load_member (c, e) (ListAllMember [] root).
End Registry.

(** ** The casts of the containers *)

Section Casts.
Context `{YamlLaws} {T : Type} `{LexicalCast T} (P : T -> Prop) `{!CastLaws T P}.

Lemma push_backs start ns :
  start = Null \/ start = Sequence [] ->
  items_of (foldl push_back start ns) = map Some ns.
Proof.
  assert (forall l ns, foldl push_back (Sequence l) ns = Sequence (l ++ ns)) as Happ.
  { intros l ms. revert l. induction ms as [|n ms IH]; intros l; simpl; [by rewrite app_nil_r|].
    by rewrite IH, <- app_assoc. }
  intros [-> | ->].
  - destruct ns as [|n ns]; [done|]. simpl. rewrite Happ. apply (items_of_sequence (n :: ns)).
  - rewrite Happ. apply items_of_sequence.
Qed.

(** The nodes of a list of elements, and the elements read back from them. *)
Lemma element_nodes l : Forall P l ->
  exists ns, mapM element_node l = Some ns /\
    mapM (fun o => from_str (T := T) (text_of o)) (map Some ns) = Some l /\
    mapM (fun n => from_str (T := T) (emit n)) ns = Some l.
Proof.
  induction 1 as [|x l Hx _ (ns & E1 & E2 & E3)]; [by exists []|].
  destruct (cast_inverse x Hx) as (s & n & Hs & Hn & _ & Hr).
  assert (element_node x = Some n) as He by (unfold element_node; by rewrite Hs).
  exists (n :: ns). simpl. rewrite He, Hr. simpl. by rewrite E1, E2, E3.
Qed.

Lemma cast_of_node {C} `{LexicalCast C} (x : C) n :
  to_str x = Some (emit n) -> from_str (emit n) = Some x ->
  exists s m, to_str x = Some s /\ Load s = Some m /\ from_str s = Some x /\ from_str (emit m) = Some x.
Proof. intros Ht Hf. exists (emit n), n. by rewrite load_emit. Qed.

Lemma seq_laws start : start = Null \/ start = Sequence [] ->
  @CastLaws (list T) (seq_cast start) _ (Forall P).
Proof.
  intros Hstart v Hv. destruct (element_nodes v Hv) as (ns & Hn & Hr & _).
  apply (@cast_of_node _ (seq_cast start) v (foldl push_back start ns)); unfold seq_cast; simpl.
  - by rewrite Hn.
  - rewrite load_emit. simpl. by rewrite push_backs.
Qed.

Lemma set_laws `{Countable T} (order : gset T -> list T) :
  (forall X, order X ≡ₚ elements X) ->
  @CastLaws (gset T) (set_cast order) _ (set_Forall P).
Proof.
  intros Hord X HX.
  assert (Forall P (order X)) as HF by (rewrite (Hord X); by apply set_Forall_elements).
  destruct (element_nodes _ HF) as (ns & Hn & Hr & _).
  apply (@cast_of_node _ (set_cast order) X (foldl push_back Null ns)); unfold set_cast; simpl.
  - by rewrite Hn.
  - rewrite load_emit. simpl. rewrite push_backs by (by left). rewrite Hr. simpl. f_equal.
    apply leibniz_equiv. rewrite (Hord X). apply list_to_set_elements.
Qed.

Lemma set_fields l : NoDup (map fst l) ->
  pairs_of (foldl (fun n kn => set_field kn.1 kn.2 n) Null l) = l.
Proof.
  assert (forall l l0, NoDup (map fst (l0 ++ l)) ->
    foldl (fun n kn => set_field kn.1 kn.2 n) (Map l0) l = Map (l0 ++ l)) as Happ.
  { clear l. induction l as [|[k n] l IH]; intros l0 Hnd; simpl; [by rewrite app_nil_r|].
    rewrite assoc_set_new.
    - rewrite IH; rewrite <- app_assoc; [done|exact Hnd].
    - apply assoc_None. rewrite map_app in Hnd. apply NoDup_app in Hnd as (_ & Hd & _).
      intros Hin. apply (Hd _ Hin). simpl. by left. }
  destruct l as [|[k n] l]; [done|]. intros Hnd.
  change (foldl _ Null ((k, n) :: l)) with (foldl (fun n kn => set_field kn.1 kn.2 n) (Map [(k, n)]) l).
  by rewrite Happ.
Qed.

Lemma insert_news (l : list (text * T)) : forall m0, NoDup (map fst l) ->
  (forall k, k ∈ map fst l -> m0 !! k = None) ->
  foldl insert_new m0 l = list_to_map l ∪ m0.
Proof.
  induction l as [|[k x] l IH]; intros m0 Hnd Hm; simpl; [by rewrite (left_id_L ∅ _)|].
  apply NoDup_cons in Hnd as [Hk Hnd]. unfold insert_new at 2. cbn [fst snd].
  rewrite (Hm k) by (by left). rewrite IH; [|done|].
  - rewrite <- insert_union_l, insert_union_r; [done|].
    apply not_elem_of_list_to_map_1. exact Hk.
  - intros k' Hk'. rewrite lookup_insert_ne by (intros ->; done). apply Hm. by right.
Qed.

Lemma map_laws (order : gmap text T -> list (text * T)) :
  (forall m, order m ≡ₚ map_to_list m) ->
  @CastLaws (gmap text T) (map_cast order) _ (map_Forall (fun _ => P)).
Proof.
  intros Hord m Hm.
  assert (NoDup (map fst (order m))) as Hnd
    by (change (map fst ?l) with (l.*1); rewrite (Hord m); apply NoDup_fst_map_to_list).
  assert (Forall P (map snd (order m))) as HF.
  { apply Forall_forall. intros x Hx. change (map snd ?l) with (l.*2) in Hx.
    apply list_elem_of_fmap in Hx as ([k y] & -> & Hy). rewrite (Hord m) in Hy.
    apply elem_of_map_to_list in Hy. by apply (Hm k). }
  assert (exists kns, mapM (fun kv => n ← element_node (T := T) kv.2; Some (kv.1, n)) (order m) = Some kns /\
    map fst kns = map fst (order m) /\
    mapM (fun kn => x ← from_str (T := T) (emit kn.2); Some (kn.1, x)) kns = Some (order m))
    as (kns & Hk1 & Hk2 & Hk3).
  { clear Hnd. induction (order m) as [|[k x] l IH]; [by exists []|]. simpl in HF.
    apply Forall_cons in HF as [Hx HF]. destruct (IH HF) as (kns & I1 & I2 & I3).
    destruct (cast_inverse x Hx) as (s & n & Hs & Hn & _ & Hr). exists ((k, n) :: kns).
    assert (element_node x = Some n) as He by (unfold element_node; by rewrite Hs).
    simpl. rewrite He, Hr. simpl. by rewrite I1, I2, I3. }
  apply (@cast_of_node _ (map_cast order) m (foldl (fun n kn => set_field kn.1 kn.2 n) Null kns));
    unfold map_cast; simpl.
  - by rewrite Hk1.
  - rewrite load_emit. simpl. rewrite set_fields by (by rewrite Hk2). rewrite Hk3. simpl. f_equal.
    rewrite insert_news by done. rewrite (right_id_L ∅ _). symmetry.
    apply list_to_map_flip. by rewrite (Hord m).
Qed.

(** C36.  The casts of the containers invert each other whenever those of the
    elements do, so configuration values survive being written as text and
    read back: [std::vector], [std::list], the two sets and the two maps (in
    whatever order they are walked), and, since this is the same property again,
    containers of containers. *)
Theorem container_casts `{Countable T} (set_order : gset T -> list T)
    (map_order : gmap text T -> list (text * T)) :
  (forall X, set_order X ≡ₚ elements X) -> (forall m, map_order m ≡ₚ map_to_list m) ->
  @CastLaws (list T) vector_cast _ (Forall P) /\ @CastLaws (list T) list_cast _ (Forall P) /\
  @CastLaws (gset T) (set_cast set_order) _ (set_Forall P) /\
  @CastLaws (gmap text T) (map_cast map_order) _ (map_Forall (fun _ => P)).
Proof.
  intros Hs Hm. split_and!; [apply seq_laws; by right|apply seq_laws; by left|by apply set_laws
    |by apply map_laws].
Qed.
End Casts.

(** ** Variables *)

Section VarTheory.
Context {E T : Type} `{EqDecision T, LexicalCast T}.
Implicit Types (v : ConfigVar E T).

(** No listener throws. *)
Definition quiet v : Prop :=
  forall k cb old new e, (k, cb) ∈ m_cbs v -> (cb old new e).2 = false.

(** The keys of the listeners, in their order. *)
Definition keys_below (id : Z) v : Prop := Forall (fun kc => fst kc < id) (m_cbs v).

Definition with_val (x : T) v : ConfigVar E T := Var (m_name v) (m_description v) x (m_cbs v).

Lemma run_cbs_quiet (cbs : list (Z * on_change_cb E T)) old new e :
  (forall k cb old new e, (k, cb) ∈ cbs -> (cb old new e).2 = false) ->
  run_cbs cbs old new e = (foldl (fun e kc => (kc.2 old new e).1) e cbs, false).
Proof.
  revert e. induction cbs as [|[k cb] cbs IH]; intros e Hq; [done|]. simpl.
  pose proof (Hq k cb old new e ltac:(by left)) as Hc. destruct (cb old new e) as [e' b]. simpl in Hc.
  subst b. simpl. apply IH. intros k' cb' o n e0 Hin. apply (Hq k'). by right.
Qed.

Lemma setValue_quiet x v e : quiet v ->
  setValue x v e
    = (with_val x v,
       if decide (x = m_val v) then e else foldl (fun e kc => (kc.2 (m_val v) x e).1) e (m_cbs v),
       false).
Proof.
  intros Hq. unfold setValue. destruct (decide (x = m_val v)) as [->|Hne]; [by destruct v|].
  by rewrite run_cbs_quiet.
Qed.

(** The value after [fromString] when no listener throws. *)
Definition read_val (val : text) v : ConfigVar E T :=
  match from_str val with Some x => with_val x v | None => v end.

Lemma fromString_quiet val v e : quiet v -> exists e', fromString val v e = (true, read_val val v, e').
Proof.
  intros Hq. unfold fromString, read_val. destruct (from_str val) as [x|]; [|eauto].
  rewrite setValue_quiet by done. eauto.
Qed.

Lemma read_val_quiet val v : quiet v -> quiet (read_val val v).
Proof. unfold read_val, quiet. by destruct (from_str val). Qed.

Lemma put_cb_last id cb l :
  Forall (fun kc : Z * on_change_cb E T => fst kc < id) l -> put_cb id cb l = l ++ [(id, cb)].
Proof.
  induction 1 as [|[k c] l Hk _ IH]; [done|]. simpl in *.
  destruct (Z.ltb_spec id k); [lia|]. destruct (Z.eqb_spec id k); [lia|]. by rewrite IH.
Qed.

Lemma find_below id (l : list (Z * on_change_cb E T)) :
  Forall (fun kc => fst kc < id) l -> List.find (fun kc => fst kc =? id) l = None.
Proof.
  induction 1 as [|[k c] l Hk _ IH]; [done|]. simpl in *. by destruct (Z.eqb_spec k id); [lia|].
Qed.

Lemma filter_below id (l : list (Z * on_change_cb E T)) :
  Forall (fun kc => fst kc < id) l -> List.filter (fun kc => negb (fst kc =? id)) l = l.
Proof.
  induction 1 as [|[k c] l Hk _ IH]; [done|]. simpl in *.
  destruct (Z.eqb_spec k id); [lia|]. simpl. by rewrite IH.
Qed.

Lemma find_app (f : Z * on_change_cb E T -> bool) l1 l2 :
  List.find f (l1 ++ l2) = match List.find f l1 with Some x => Some x | None => List.find f l2 end.
Proof. induction l1 as [|x l1 IH]; [done|]. simpl. by destruct (f x). Qed.

(** [setValue] does nothing for the value the variable has; for another it
    calls every listener once, in the order they were added, with the old and
    the new value, and then stores it; when a listener throws, the ones before
    it have run, the value is kept and the exception leaves [setValue]. *)
Theorem setValue_notifies x v (e : E) :
  (x = m_val v -> setValue x v e = (v, e, false)) /\
  (x <> m_val v -> quiet v ->
     setValue x v e
       = (with_val x v, foldl (fun e kc => (kc.2 (m_val v) x e).1) e (m_cbs v), false)) /\
  (forall l1 k cb l2, x <> m_val v -> m_cbs v = l1 ++ (k, cb) :: l2 ->
     (forall k cb old new e, (k, cb) ∈ l1 -> (cb old new e).2 = false) ->
     let e1 := foldl (fun e kc => (kc.2 (m_val v) x e).1) e l1 in
     (cb (m_val v) x e1).2 = true -> setValue x v e = (v, (cb (m_val v) x e1).1, true)).
Proof.
  split_and!.
  - intros ->. unfold setValue. by rewrite decide_True.
  - intros Hne Hq. rewrite setValue_quiet by done. by rewrite decide_False.
  - intros l1 k cb l2 Hne Hl Hq e1 Ht. unfold setValue. rewrite decide_False by done. rewrite Hl.
    assert (forall l2, run_cbs (l1 ++ l2) (m_val v) x e = run_cbs l2 (m_val v) x e1) as ->.
    { subst e1. clear Hl Ht. revert e. induction l1 as [|[k1 c1] l1 IH]; intros e l; [done|]. simpl.
      pose proof (Hq k1 c1 (m_val v) x e ltac:(by left)) as Hc.
      destruct (c1 (m_val v) x e) as [e' b]. simpl in *. subst b. apply IH.
      intros k' cb' o n e0 Hin. apply (Hq k'). by right. }
    simpl. destruct (cb (m_val v) x e1) as [e' b]. simpl in *. by subst b.
Qed.

(** [addListener] gives a key no listener has (until 2^64 additions), under
    which [getListener] finds the callback and after which [setValue] calls it
    last; [delListener] with that key restores the list; the other listeners
    are not affected. *)
Theorem listeners_keyed (cb : on_change_cb E T) (s_dun_id : Z) v :
  0 <= s_dun_id < 2 ^ 64 - 1 -> keys_below (s_dun_id + 1) v ->
  let '(id, v') := addListener cb s_dun_id v in
  id = s_dun_id + 1 /\ keys_below (id + 1) v' /\ getListener id v' = Some cb /\
  m_cbs v' = m_cbs v ++ [(id, cb)] /\ m_val v' = m_val v /\ delListener id v' = v /\
  (forall k, k <> id -> getListener k v' = getListener k v) /\
  m_cbs (clearListener v') = [].
Proof.
  intros Hid Hk. unfold addListener. rewrite u64_small by (unfold is_u64; lia).
  unfold keys_below in *. cbn [m_cbs m_val]. unfold getListener, delListener. cbn [m_cbs m_name m_description m_val].
  rewrite put_cb_last by done. split_and!; try done.
  - apply Forall_app. split; [eapply Forall_impl; [exact Hk|]; simpl; lia|]. repeat constructor. simpl. lia.
  - rewrite find_app, find_below by done. simpl. by rewrite Z.eqb_refl.
  - rewrite List.filter_app, filter_below by done. simpl. rewrite Z.eqb_refl. simpl.
    rewrite app_nil_r. by destruct v.
  - intros k Hne. rewrite find_app. simpl. destruct (Z.eqb_spec (s_dun_id + 1) k); [congruence|].
    by destruct (List.find _ (m_cbs v)).
Qed.

(** [fromString] never fails visibly: it returns true and leaves the value
    alone when the text does not convert; what [toString] wrote converts back
    to the value. *)
Theorem fromString_toString (val : text) v (e : E) `{Yaml} (P : T -> Prop) `{!CastLaws T P} :
  (fromString val v e).1.1 = true /\
  (from_str val = None -> fromString val v e = (true, v, e)) /\
  (P (m_val v) -> forall w, quiet w ->
     exists e', fromString (toString v) w e = (true, with_val (m_val v) w, e')).
Proof.
  split_and!.
  - unfold fromString. destruct (from_str val) as [x|]; [|done]. by destruct (setValue x v e) as [[? ?] ?].
  - intros Hn. unfold fromString. by rewrite Hn.
  - intros HP w Hq. destruct (cast_inverse (m_val v) HP) as (s & n & Hs & _ & Hf & _).
    destruct (fromString_quiet s w e Hq) as [e' He]. exists e'. unfold toString. rewrite Hs. simpl.
    rewrite He. unfold read_val. by rewrite Hf.
Qed.
End VarTheory.

(** ** The registry *)

Section RegistryTheory.
Context {ty : Type} `{!EqDecision ty} {interp : ty -> Type}.
Context `{!forall t, EqDecision (interp t)} `{!forall t, LexicalCast (interp t)}.
Context `{Yaml} {E : Type}.
Abbreviation any := (any_var (interp := interp) (E := E)).
Abbreviation Conf_ := (Config (interp := interp) (E := E)).
Implicit Types (c : Conf_) (a : any).

(** Names stand for different variables, each called by its name. *)
Record registered c : Prop := Registered {
  reg_vars : forall n p, datas c !! n = Some p ->
    exists a, vars c !! p = Some a /\ m_name (projT2 a) = n;
  reg_fresh : forall p a, vars c !! p = Some a -> (p < fresh_var c)%nat;
  reg_names : forall n p, datas c !! n = Some p -> valid_name n = true }.

Lemma registered_empty : registered (Conf ∅ ∅ 0).
Proof. by split. Qed.

Lemma tolower_valid name : valid_name name = true -> map tolower name = name.
Proof.
  induction name as [|ch name IH]; [done|]. simpl. rewrite andb_true_iff, bool_decide_eq_true.
  intros [Hc Hn]. rewrite IH by done. f_equal.
  assert (Forall (fun x => tolower x = x) charset) as HF by (vm_compute; repeat constructor).
  rewrite Forall_forall in HF. by apply HF.
Qed.

Lemma registered_inj c n1 n2 p :
  registered c -> datas c !! n1 = Some p -> datas c !! n2 = Some p -> n1 = n2.
Proof.
  intros [Hv _ _] E1 E2. destruct (Hv _ _ E1) as (a1 & Ha1 & <-), (Hv _ _ E2) as (a2 & Ha2 & <-).
  assert (a1 = a2) as -> by (apply (inj Some); by rewrite <- Ha1, <- Ha2). done.
Qed.

Lemma fresh_unused c : registered c -> vars c !! fresh_var c = None.
Proof.
  intros Hreg. destruct (vars c !! fresh_var c) as [a|] eqn:Ea; [|done]. apply (reg_fresh _ Hreg) in Ea. lia.
Qed.

(** A new variable in the table. *)
Lemma registered_insert c a name : registered c -> valid_name name = true -> m_name (projT2 a) = name ->
  registered (Conf (<[fresh_var c := a]> (vars c)) (<[name := fresh_var c]> (datas c)) (S (fresh_var c))).
Proof.
  intros Hreg Hv Hn. pose proof (fresh_unused c Hreg) as Hf.
  destruct Hreg as [Hvr Hfr Hnm]. split; cbn [vars datas fresh_var].
  - intros n p [[<- <-]|[_ Hp]]%lookup_insert_Some; [rewrite lookup_insert_eq; by eexists|].
    destruct (Hvr n p Hp) as (b & Hb & ?). exists b. rewrite lookup_insert_ne; [done|]. congruence.
  - intros p b [[<- <-]|[_ Hp]]%lookup_insert_Some; [lia|]. apply Hfr in Hp. lia.
  - intros n p [[<- <-]|[_ Hp]]%lookup_insert_Some; eauto.
Qed.

(** [Config::Lookup] with a default: a name already taken gives the same
    variable whatever the default - or null when its type is another; a new
    name of the charset gives a new variable with the default, found under the
    name from then on, and all others stay; any other name throws.  The charset
    ends at 8: a name with the digit 9 is refused. *)
Theorem Lookup_spec (t : ty) (name : text) (d : interp t) (description : text) c :
  registered c ->
  (forall p, datas c !! name = Some p ->
     exists a, vars c !! p = Some a /\
       Lookup t name d description c = Ok (if is_of t a then Some p else None, c)) /\
  (datas c !! name = None -> valid_name name = true ->
     exists p c', Lookup t name d description c = Ok (Some p, c') /\ registered c' /\
       vars c !! p = None /\
       vars c' !! p = Some (existT t (Var name description d [])) /\
       Lookup_typed t name c' = Ok (Some p) /\
       (forall d', Lookup t name d' [] c' = Ok (Some p, c')) /\
       (forall n, n <> name -> datas c' !! n = datas c !! n) /\
       (forall q, q <> p -> vars c' !! q = vars c !! q)) /\
  (datas c !! name = None -> valid_name name = false ->
     Lookup t name d description c = Err (FThrow "std::invalid_argument")) /\
  ("9"%char ∈ name -> valid_name name = false).
Proof.
  intros Hreg. split_and!.
  - intros p Hp. destruct (reg_vars _ Hreg _ _ Hp) as (a & Ha & _). exists a. split; [done|].
    unfold Lookup. by rewrite Hp, Ha.
  - intros Hn Hv. unfold Lookup. rewrite Hn, Hv. cbn [negb].
    pose proof (fresh_unused c Hreg) as Hf.
    do 2 eexists. split; [done|]. unfold ConfigVar_new. rewrite tolower_valid by done.
    cbn [vars datas fresh_var].
    assert (is_of (E := E) t (existT t (Var name description d [])) = true) as Hof
      by (unfold is_of; by apply bool_decide_true).
    split_and!.
    + by apply registered_insert.
    + done.
    + apply lookup_insert_eq.
    + unfold Lookup_typed. cbn [vars datas]. rewrite !lookup_insert_eq. cbn [deref]. res_simpl.
      by rewrite Hof.
    + intros d'. cbn [vars datas]. rewrite !lookup_insert_eq. cbn [deref]. res_simpl. by rewrite Hof.
    + intros n Hne. by rewrite lookup_insert_ne.
    + intros q Hne. by rewrite lookup_insert_ne.
  - intros Hn Hv. unfold Lookup. by rewrite Hn, Hv.
  - intros H9. apply not_true_is_false. intros Hv. unfold valid_name in Hv.
    rewrite forallb_forall in Hv. specialize (Hv _ (proj1 (list_elem_of_In _ _) H9)).
    vm_compute in Hv. discriminate Hv.
Qed.

(** *** Loading a document *)

(** The nodes of a document by path. *)
Inductive at_path : node -> list text -> node -> Prop :=
| P_here n : at_path n [] n
| P_below l k n path m : (k, n) ∈ l -> at_path n path m -> at_path (Map l) (k :: path) m.

Definition joined (prefix : text) (path : list text) : text := foldl join prefix path.

Lemma ListAllMember_eq prefix n :
  ListAllMember prefix n
    = (prefix, n) :: (pairs_of n ≫= fun kn => ListAllMember (join prefix kn.1) kn.2).
Proof.
  by destruct n.
Qed.

Lemma at_path_member path : forall n m prefix,
  at_path n path m -> (joined prefix path, m) ∈ ListAllMember prefix n.
Proof.
  induction path as [|k path IH]; intros n m prefix Hp; inversion Hp; subst; rewrite ListAllMember_eq.
  - by left.
  - right. cbn [pairs_of]. apply list_elem_of_bind. exists (k, n0). split; [|done]. by apply IH.
Qed.

(** Induction over the nodes of a document. *)
Fixpoint node_depth (n : node) : nat :=
  match n with
  | Map l => S (foldr (fun kn d => Nat.max (node_depth (snd kn)) d) 0%nat l)
  | _ => 0
  end.

Lemma depth_child k n l : (k, n) ∈ l -> (node_depth n < node_depth (Map l))%nat.
Proof.
  intros Hin. cbn [node_depth].
  induction l as [|kn l IH]; [by apply not_elem_of_nil in Hin|]. simpl.
  apply elem_of_cons in Hin as [<-|Hin]; [simpl; lia|]. specialize (IH Hin). lia.
Qed.

Lemma member_at_path d : forall n k m prefix, (node_depth n < d)%nat ->
  (k, m) ∈ ListAllMember prefix n -> exists path, at_path n path m /\ k = joined prefix path.
Proof.
  induction d as [|d IH]; intros n k m prefix Hd Hin; [lia|].
  rewrite ListAllMember_eq in Hin. apply elem_of_cons in Hin as [[= -> ->]|Hin].
  - exists []. split; [constructor|done].
  - apply list_elem_of_bind in Hin as ([k' n'] & Hin & Hkn). cbn [fst snd] in Hin.
    destruct n as [|s|l|l]; try (by apply not_elem_of_nil in Hkn). cbn [pairs_of] in Hkn.
    pose proof (depth_child _ _ _ Hkn). destruct (IH n' k m (join prefix k') ltac:(lia) Hin)
      as (path & Hp & ->). exists (k' :: path). split; [by econstructor|done].
Qed.

(** The texts a document holds for a name, in document order. *)
Definition texts_for (name : text) (root : node) : list text :=
  map (fun kn => node_text kn.2)
    (List.filter (fun kn => negb (bool_decide (kn.1 = [])) && bool_decide (map tolower kn.1 = name))
       (ListAllMember [] root)).

Definition any_read (val : text) a : any := existT (projT1 a) (read_val val (projT2 a)).

Lemma load_members c (e : E) p a name (l : list (text * node)) :
  registered c -> datas c !! name = Some p -> vars c !! p = Some a -> quiet (projT2 a) ->
  exists c' e', foldl load_member (c, e) l = (c', e') /\ datas c' = datas c /\ registered c' /\
    vars c' !! p
      = Some (foldl (fun a t => any_read t a) a
          (map (fun kn => node_text kn.2)
             (List.filter (fun kn => negb (bool_decide (kn.1 = [])) && bool_decide (map tolower kn.1 = name)) l))).
Proof.
  revert c e a. induction l as [|[k n] l IH]; intros c e a Hreg Hd Ha Hq; [by exists c, e|].
  cbn [foldl]. destruct k as [|ch k]; [by apply IH|]. cbn [load_member fst snd].
  unfold LookupBase. cbn [List.filter fst].
  rewrite (bool_decide_false (ch :: k = [])) by done. cbn [negb andb].
  remember (map tolower (ch :: k)) as nm eqn:Enm. clear Enm.
  destruct (datas c !! nm) as [q|] eqn:Eq.
  2: { rewrite bool_decide_false by congruence. by apply IH. }
  destruct (reg_vars _ Hreg _ _ Eq) as (b & Hb & Hbn). rewrite Hb.
  destruct (any_fromString (node_text n) b e) as [b' e'] eqn:Eb.
  assert (m_name (projT2 b') = m_name (projT2 b)) as Hname.
  { unfold any_fromString, fromString, setValue in Eb. destruct (from_str (node_text n)) as [x|].
    - destruct (decide _); [by simplify_eq/=|]. destruct (run_cbs _ _ _ _) as [e1 t].
      destruct t; by simplify_eq/=.
    - by simplify_eq/=. }
  set (c1 := Conf (<[q := b']> (vars c)) (datas c) (fresh_var c)).
  assert (registered c1) as Hreg1.
  { destruct Hreg as [Hv Hf Hn]. split; cbn [c1 vars datas fresh_var].
    - intros n' r Hr. destruct (Hv n' r Hr) as (x & Hx & Hxn). destruct (decide (q = r)) as [<-|Hne].
      + exists b'. rewrite lookup_insert_eq. split; [done|]. rewrite Hname.
        by assert (b = x) as -> by (apply (inj Some); by rewrite <- Hb, <- Hx).
      + exists x. by rewrite lookup_insert_ne.
    - intros r x [[<- <-]|[_ Hr]]%lookup_insert_Some; eauto.
    - exact Hn. }
  destruct (decide (q = p)) as [->|Hne].
  - assert (nm = name) as En by (by eapply (registered_inj c)).
    rewrite (bool_decide_true (_ = name)) by done. cbn [map foldl].
    rewrite Ha in Hb. injection Hb as <-.
    destruct (fromString_quiet (node_text n) (projT2 a) e Hq) as [e2 He2].
    unfold any_fromString in Eb. rewrite He2 in Eb. injection Eb as <- <-.
    apply (IH c1 e2 (any_read (node_text n) a)); [done|done| |].
    + cbn [c1 vars]. by rewrite lookup_insert_eq.
    + by apply read_val_quiet.
  - rewrite bool_decide_false by congruence.
    destruct (IH c1 e' a) as (c' & e2 & E1 & E2 & E3 & E4); [done|done| |done|].
    + cbn [c1 vars]. by rewrite lookup_insert_ne.
    + exists c', e2. done.
Qed.

(** C21.  [LoadFromYaml] gives each variable the values its document has for it:
    the members are exactly the nodes of the document with their dotted paths;
    the variable registered under the (lower-case) path takes each of them in
    document order - a scalar's text or the node as text - and keeps its value
    where the text does not convert or the document says nothing; the table
    stays as it is.  (Listeners that do not throw.) *)
Theorem LoadFromYaml_spec (root : node) c (e : E) name p a :
  registered c -> datas c !! name = Some p -> vars c !! p = Some a -> quiet (projT2 a) ->
  (forall k n, (k, n) ∈ ListAllMember [] root <-> exists path, at_path root path n /\ k = joined [] path) /\
  exists c' e', LoadFromYaml root c e = (c', e') /\ datas c' = datas c /\ registered c' /\
    vars c' !! p = Some (foldl (fun a t => any_read t a) a (texts_for name root)).
Proof.
  intros Hreg Hd Ha Hq. split; [|by apply load_members].
  intros k n. split.
  - apply (member_at_path (S (node_depth root))). lia.
  - intros (path & Hp & ->). by apply at_path_member.
Qed.
End RegistryTheory.

(** ** Witnesses

    Numbers written as the bits of their code, in the text format of [ex_yaml];
    the environment counts what a listener saw. *)

#[local] Existing Instance ex_yaml.
#[local] Existing Instance ex_yaml_laws.

Definition ex_cast : LexicalCast Z := {|
  to_str z := Some (emit (Scalar (pos_text (encode z))));
  from_str s :=
    match Load s with Some (Scalar t) => decode (text_pos t) | _ => None end |}.
#[local] Existing Instance ex_cast.

#[local] Instance ex_cast_laws : CastLaws Z (fun _ => True).
Proof.
  intros z _. apply (cast_of_node z (Scalar (pos_text (encode z)))); [done|]. unfold from_str, ex_cast. rewrite load_emit. simpl.
  by rewrite text_pos_text, decode_encode.
Qed.

(** Numbers and lists of numbers. *)
Definition ex_interp (t : bool) : Type := if t then Z else list Z.
#[local] Instance ex_interp_eq t : EqDecision (ex_interp t).
Proof. destruct t; simpl; apply _. Defined.
#[local] Instance ex_interp_cast t : LexicalCast (ex_interp t) :=
  match t with true => ex_cast | false => vector_cast end.

Definition ex_var : ConfigVar Z Z :=
  Var (lit "system.port") (lit "system port") 8080 [(1, fun old new e => (e + new - old, false))].

Lemma container_casts_witness : exists s n,
  @to_str (list Z) vector_cast [3; 1; 4] = Some s /\ Load s = Some n /\
  @from_str (list Z) vector_cast s = Some [3; 1; 4].
Proof.
  destruct (container_casts (T := Z) (fun _ => True) elements map_to_list) as (Hv & _ & _ & _);
    [done|done|].
  destruct (Hv [3; 1; 4]) as (s & n & ? & ? & ? & _); [repeat constructor|]. by exists s, n.
Defined.

Lemma setValue_notifies_witness : setValue 9000 ex_var 0 = (with_val 9000 ex_var, 920, false).
Proof.
  destruct (setValue_notifies 9000 ex_var 0) as (_ & H & _). apply H; [vm_compute; discriminate|].
  intros k cb old new e Hin%list_elem_of_singleton. by simplify_eq.
Defined.

Lemma listeners_keyed_witness :
  let '(id, v) := addListener (fun _ new e => (new, false)) 1 ex_var in
  id = 2 /\ delListener id v = ex_var.
Proof.
  pose proof (listeners_keyed (fun _ new (e : Z) => (new, false)) 1 ex_var ltac:(lia)
    ltac:(repeat constructor)) as H.
  destruct (addListener _ 1 ex_var) as [id v]. destruct H as (-> & _ & _ & _ & _ & ? & _). done.
Defined.

Lemma fromString_toString_witness :
  exists e, fromString (toString ex_var) (with_val 1 ex_var) 0 = (true, with_val 8080 ex_var, e).
Proof.
  destruct (fromString_toString [] ex_var 0 (fun _ => True)) as (_ & _ & H).
  apply (H I (with_val 1 ex_var)). intros k cb old new e Hin%list_elem_of_singleton. by simplify_eq.
Defined.

Lemma Lookup_spec_witness : exists p c',
  Lookup (ty := bool) (interp := ex_interp) (E := Z) true (lit "system.port") 8080 [] (Conf ∅ ∅ 0)
    = Ok (Some p, c') /\
  Lookup_typed true (lit "system.port") c' = Ok (Some p).
Proof.
  destruct (Lookup_spec (ty := bool) (interp := ex_interp) (E := Z) true (lit "system.port") 8080 []
    (Conf ∅ ∅ 0) registered_empty) as (_ & H & _).
  destruct H as (p & c' & H1 & _ & _ & _ & H2 & _); [done|vm_compute; reflexivity|]. by exists p, c'.
Defined.

Definition ex_any : any_var (interp := ex_interp) (E := Z) := existT true ex_var.
Definition ex_config : Config (interp := ex_interp) (E := Z) :=
  Conf {[0%nat := ex_any]} {[lit "system.port" := 0%nat]} 1.

(** "System: {port: 9}" *)
Definition ex_document : node :=
  Map [(lit "System", Map [(lit "port", Scalar (emit (Scalar (pos_text (encode (9 : Z))))))])].

Lemma ex_registered : registered ex_config.
Proof.
  split; cbn [ex_config datas vars fresh_var].
  - intros n p [<- <-]%lookup_singleton_Some. exists ex_any. split; [apply lookup_singleton_eq|done].
  - intros p a [<- _]%lookup_singleton_Some. lia.
  - intros n p [<- _]%lookup_singleton_Some. vm_compute. reflexivity.
Qed.

Lemma LoadFromYaml_spec_witness : exists c' e' a,
  LoadFromYaml ex_document ex_config 0 = (c', e') /\ vars c' !! 0%nat = Some a /\
  m_val (projT2 a : ConfigVar Z (ex_interp (projT1 a))) = match projT1 a as t return ex_interp t with true => 9 | false => [] end.
Proof.
  destruct (LoadFromYaml_spec ex_document ex_config 0 (lit "system.port") 0 ex_any) as
    (_ & c' & e' & H1 & _ & _ & H2).
  - exact ex_registered.
  - vm_compute. reflexivity.
  - apply lookup_singleton_eq.
  - intros k cb old new e Hin%list_elem_of_singleton. by simplify_eq.
  - eexists c', e', _. split; [exact H1|]. split; [exact H2|]. vm_compute. reflexivity.
Defined.
