(* ===== verification/LogConfig.v ===== *)
(** * The logging configuration (src/sylar/log.cc from LogAppenderDefine on)

    The value of the variable "logs", its casts from and to YAML, the dump of
    the loggers as YAML, and the listener that brings the loggers into the
    configured state.  What the code prints on standard output about malformed
    entries is not kept. *)

From S2P Require Import Prelude StdSet Text LogFormat Logger Yaml Config.

(** ** The definitions of loggers *)

Record LogAppenderDefine : Type := LAD {
  lad_type : Z;
  lad_level : Z;
  lad_formatter : text;
  lad_file : text }.

Record LogDefine : Type := LD {
  ld_name : text;
  ld_level : Z;
  ld_formatter : text;
  ld_appenders : list LogAppenderDefine }.

(** [operator==] compares all members. *)
#[export] Instance LogAppenderDefine_eq_dec : EqDecision LogAppenderDefine.
Proof. solve_decision. Defined.
#[export] Instance LogDefine_eq_dec : EqDecision LogDefine.
Proof. solve_decision. Defined.

(** [operator<] of [std::string]. *)
Fixpoint text_lt (a b : text) : bool :=
  match a, b with
  | _, [] => false
  | [], _ :: _ => true
  | x :: a, y :: b =>
      (char_byte x <? char_byte y) || ((char_byte x =? char_byte y) && text_lt a b)
  end.

(** [LogDefine::operator<]. *)
Definition LogDefine_lt (x y : LogDefine) : bool := text_lt (ld_name x) (ld_name y).

(** A [std::set<LogDefine>] is the list of its elements. *)
Abbreviation defines := (list LogDefine).
Definition insert_define (s : defines) (x : LogDefine) : defines := (set_insert LogDefine_lt s x).2.

Section Casts.
Context `{Yaml}.

(** [if(n[key].IsDefined()) x = n[key].as<std::string>()]. *)
Definition member_text (k : text) (n : node) : option (option text) :=
  o ← subscript k n;
  match o with None => Some None | Some m => s ← as_string m; Some (Some s) end.

(** One round of the loop over "appenders"; the outer [None] is an exception,
    the inner one [continue]. *)
Definition parse_appender (a : option node) : option (option LogAppenderDefine) :=
  a ← a;
  t ← member_text (lit "type") a;
  match t with
  | None => Some None
  | Some type =>
      if decide (type = lit "FileLogAppender") then
        f ← member_text (lit "file") a;
        match f with
        | None => Some None
        | Some file =>
            fm ← member_text (lit "formatter") a;
            Some (Some (LAD 1 UNKONW (default [] fm) file))
        end
      else if decide (type = lit "StdoutLogAppender") then
        fm ← member_text (lit "formatter") a;
        Some (Some (LAD 2 UNKONW (default [] fm) []))
      else Some None
  end.

(** One round of the outer loop. *)
Definition parse_define (n : option node) : option (option LogDefine) :=
  match n with
  | None => Some None
  | Some n =>
      name ← member_text (lit "name") n;
      match name with
      | None => Some None
      | Some name =>
          level ← member_text (lit "level") n;
          fm ← member_text (lit "formatter") n;
          aps ← subscript (lit "appenders") n;
          las ← mapM parse_appender (match aps with Some m => items_of m | None => [] end);
          Some (Some (LD name (FromString (default [] level)) (default [] fm) (omap id las)))
      end
  end.

(** [LexicalCast<std::string, std::set<LogDefine>>]. *)
Definition parse_defines (v : text) : option defines :=
  n ← Load v; ds ← mapM parse_define (items_of n); Some (foldl insert_define [] (omap id ds)).

Definition set_text (k v : text) (n : node) : node := set_field k (Scalar v) n.
Definition set_nonempty (k v : text) (n : node) : node :=
  match v with [] => n | _ => set_text k v n end.
Definition set_level (level : Z) (n : node) : node :=
  if level =? UNKONW then n else set_text (lit "level") (ToString level) n.

(** [n["appenders"].push_back(x)]. *)
Definition push_appender (n x : node) : node :=
  set_field (lit "appenders") (push_back (default Null (assoc (lit "appenders") (pairs_of n))) x) n.

Definition appender_node (a : LogAppenderDefine) : node :=
  let na :=
    if lad_type a =? 1 then
      set_text (lit "file") (lad_file a) (set_text (lit "type") (lit "FileLogAppender") Null)
    else if lad_type a =? 2 then set_text (lit "type") (lit "StdoutLogAppender") Null
    else Null in
  set_nonempty (lit "formatter") (lad_formatter a) (set_level (lad_level a) na).

Definition define_node (i : LogDefine) : node :=
  let n := set_text (lit "name") (ld_name i) Null in
  let n := set_text (lit "level") (ToString (ld_level i)) n in
  let n := set_level (ld_level i) n in
  let n := set_nonempty (lit "formatter") (ld_formatter i) n in
  foldl push_appender n (map appender_node (ld_appenders i)).

(** [LexicalCast<std::set<LogDefine>, std::string>]. *)
Definition print_defines (v : defines) : text := emit (foldl push_back Null (map define_node v)).

Definition defines_cast : LexicalCast defines := {|
  to_str v := Some (print_defines v);
  from_str := parse_defines |}.
End Casts.

(** ** The loggers as YAML *)

Section Dump.
Context `{Yaml}.
Implicit Types (w : logs).

(** [if(m_hasFormatter && m_formatter) node["formatter"] = ...]. *)
Definition own_formatter (y : LogAppender) (n : node) : node :=
  match ap_formatter y with
  | Some f => if ap_hasFormatter y then set_text (lit "formatter") (m_pattern f) n else n
  | None => n
  end.

(** [FileLogAppender::toYamlString], [StdoutLogAppender::toYamlString]. *)
Definition file_yaml (f : text) (y : LogAppender) : text :=
  let n := set_text (lit "type") (lit "FileLogAppender") Null in
  let n := set_text (lit "file") f (set_level (ap_level y) n) in
  emit (own_formatter y n).
Definition stdout_yaml (y : LogAppender) : text :=
  let n := set_text (lit "type") (lit "StdoutLogAppender") Null in
  emit (own_formatter y (set_level (ap_level y) n)).
Definition appender_yaml (y : LogAppender) : text :=
  match ap_kind y with
  | FileLogAppender f => file_yaml f y
  | StdoutLogAppender => stdout_yaml y
  end.

Fixpoint push_appenders (as_ : list aptr) (n : node) w : res node :=
  match as_ with
  | [] => mret n
  | a :: as_ =>
      y ← get_appender a w;
      match Load (appender_yaml y) with
      | Some x => push_appenders as_ (push_appender n x) w
      | None => Err (FThrow "YAML::ParserException")
      end
  end.

(** [Logger::toYamlString]. *)
Definition logger_yaml (l : lptr) w : res text :=
  x ← get_logger l w;
  let n := set_text (lit "name") (lg_name x) Null in
  let n := set_level (lg_level x) n in
  let n := set_text (lit "level") (ToString (lg_level x)) n in
  let n := match lg_formatter x with
           | Some f => set_text (lit "formatter") (m_pattern f) n
           | None => n
           end in
  n ← push_appenders (lg_appenders x) n w;
  mret (emit n).

(** The [std::map] of the loggers in the order it is walked. *)
Definition key_lt (x y : text * lptr) : bool := text_lt x.1 y.1.
Definition loggers_in_order w : list (text * lptr) :=
  foldl (fun s x => (set_insert key_lt s x).2) [] (map_to_list (m_loggers w)).

Fixpoint push_loggers (ls : list (text * lptr)) (n : node) w : res node :=
  match ls with
  | [] => mret n
  | (_, l) :: ls =>
      s ← logger_yaml l w;
      match Load s with
      | Some x => push_loggers ls (push_back n x) w
      | None => Err (FThrow "YAML::ParserException")
      end
  end.

(** [LoggerManager::toYamlString]. *)
Definition toYamlString w : res text :=
  n ← push_loggers (loggers_in_order w) Null w; mret (emit n).
End Dump.

(** ** The listener *)

Section Listener.
Context (strftime : text -> Z -> text) (can_open : text -> bool).
Implicit Types (w : logs).

(** The appender of a definition. *)
Definition new_appender (a : LogAppenderDefine) w : res (aptr * logs) :=
  if lad_type a =? 1 then mret (LogAppender_new can_open (FileLogAppender (lad_file a)) w)
  else if lad_type a =? 2 then mret (LogAppender_new can_open StdoutLogAppender w)
  else Err (FUB "null LogAppender::ptr").

(** What is printed of an appender whose formatter is not valid. *)
Definition formatter_invalid (name : text) (a : LogAppenderDefine) : text :=
  lit "log.name=" ++ name ++ lit "appender type=" ++ sdec (lad_type a) ++ lit "formatter" ++
  lad_formatter a ++ lit "is invalid" ++ endl.

(** One round of the loop over the appenders of the logger [name]. *)
Definition apply_appender (name : text) (l : lptr) (a : LogAppenderDefine) w : res logs :=
  '(ap, w) ← new_appender a w;
  w ← ap_setLevel ap (lad_level a) w;
  w ← match lad_formatter a with
      | [] => mret w
      | p => let fmt := LogFormatter_new p in
             let w := put_out (LogFormatter_out p) w in
             if negb (m_error fmt) then ap_setFormatter ap (Some fmt) w
             else mret (put_out (formatter_invalid name a) w)
      end;
  addAppender l ap w.

Fixpoint apply_appenders (name : text) (l : lptr) (as_ : list LogAppenderDefine) w : res logs :=
  match as_ with
  | [] => mret w
  | a :: as_ => w ← apply_appender name l a w; apply_appenders name l as_ w
  end.

(** A logger that is new or has changed. *)
Definition apply_define (i : LogDefine) w : res logs :=
  let '(l, w) := getLogger (ld_name i) w in
  w ← setLevel l (ld_level i) w;
  w ← match ld_formatter i with [] => mret w | p => setFormatter_pattern l p w end;
  w ← clearAppenders l w;
  apply_appenders (ld_name i) l (ld_appenders i) w.

(** [s.find(x)] *)
Definition find_define (s : defines) (x : LogDefine) : option LogDefine :=
  s !! set_find LogDefine_lt s x.

(** The loop over the new value. *)
Fixpoint apply_new (old new : defines) w : res logs :=
  match new with
  | [] => mret w
  | i :: new =>
      match find_define old i with
      | Some it =>
          if decide (i = it) then apply_new old new w
          else w ← apply_define i w; apply_new old new w
      | None => w ← apply_define i w; apply_new old new w
      end
  end.

(** A logger that is no longer configured. *)
Definition delete_define (i : LogDefine) w : res logs :=
  let '(l, w) := getLogger (ld_name i) w in
  w ← setLevel l 100 w;
  clearAppenders l w.

(** The loop over the old value. *)
Fixpoint delete_old (old new : defines) w : res logs :=
  match old with
  | [] => mret w
  | i :: old =>
      match find_define new i with
      | Some _ => delete_old old new w
      | None => w ← delete_define i w; delete_old old new w
      end
  end.

(** The listener of [LogIniter]. *)
Definition on_logs_changed (now : Z) (p : place) (old new : defines) w : res logs :=
  w ← SYLAR_LOG_LEVEL strftime can_open now INFO p (lit "no_logger_conf_changed") (m_root w) w;
  w ← apply_new old new w;
  delete_old old new w.

(** The variable "logs" with this listener; an exception of the model's
    operations would end the program. *)
Definition logs_listener (now : Z) (p : place) : on_change_cb (res logs) defines :=
  fun old new e => (w ← e; on_logs_changed now p old new w, false).

(** [LogIniter::LogIniter]. *)
Definition LogIniter_new (now : Z) (p : place) (s_dun_id : Z)
    (g_log_defines : ConfigVar (res logs) defines) : Z * ConfigVar (res logs) defines :=
  addListener (logs_listener now p) s_dun_id g_log_defines.
End Listener.

(** ** Sets ordered by a text *)

Lemma text_lt_irrefl a : text_lt a a = false.
Proof. induction a as [|x a IH]; [done|]. simpl. rewrite Z.ltb_irrefl, IH. by rewrite andb_false_r. Qed.

Lemma text_lt_trans a : forall b c, text_lt a b = true -> text_lt b c = true -> text_lt a c = true.
Proof.
  induction a as [|x a IH]; intros [|y b] [|z c]; simpl; try done.
  rewrite !orb_true_iff, !andb_true_iff, !Z.ltb_lt, !Z.eqb_eq.
  intros [?|[? Hab]] [?|[? Hbc]]; [left; lia..|right]. split; [lia|by apply (IH b)].
Qed.

Lemma char_byte_inj x y : char_byte x = char_byte y -> x = y.
Proof.
  unfold char_byte. intros E%N2Z.inj. by rewrite <- (ascii_N_embedding x), E, ascii_N_embedding.
Qed.

Lemma text_lt_total a : forall b, text_lt a b = false -> text_lt b a = false -> a = b.
Proof.
  induction a as [|x a IH]; intros [|y b]; simpl; try done.
  rewrite !orb_false_iff, !andb_false_iff, !Z.ltb_ge, !Z.eqb_neq. intros [? H1] [? H2].
  assert (char_byte x = char_byte y) as E by lia. rewrite (char_byte_inj _ _ E).
  f_equal. apply IH; [destruct H1|destruct H2]; by try lia.
Qed.

Section Keyed.
Context {A : Type} (key : A -> text).
Definition lt_key (x y : A) : bool := text_lt (key x) (key y).
Implicit Types (s : list A).

Lemma insert_cons a s x :
  (set_insert lt_key (a :: s) x).2
    = if lt_key a x then a :: (set_insert lt_key s x).2
      else if lt_key x a then x :: a :: s else a :: s.
Proof.
  unfold set_insert. simpl. destruct (lt_key a x); simpl.
  - destruct (s !! set_lower_bound lt_key s x) as [y|]; [|done]. by destruct (lt_key x y).
  - by destruct (lt_key x a).
Qed.

Lemma sorted_cons a s :
  sorted lt_key (a :: s) <-> sorted lt_key s /\ forall y, y ∈ s -> lt_key a y = true.
Proof.
  unfold sorted. split.
  - intros Hs. inversion Hs as [|? ? ? HF]; subst. by rewrite Forall_forall in HF.
  - intros [? HF]. constructor; [done|]. by apply Forall_forall.
Qed.

Lemma insert_elem s x : sorted lt_key s ->
  sorted lt_key (set_insert lt_key s x).2 /\
  forall y, y ∈ (set_insert lt_key s x).2 <-> y ∈ s \/ (y = x /\ key x ∉ map key s).
Proof.
  induction s as [|a s IH]; intros Hs.
  - simpl. split; [apply sorted_cons; split; [constructor|by intros y Hy%not_elem_of_nil]|].
    intros y. rewrite list_elem_of_singleton. split; [intros ->; right; split; [done|apply not_elem_of_nil]|].
    intros [?%not_elem_of_nil|[-> _]]; done.
  - apply sorted_cons in Hs as [Hs Ha]. destruct (IH Hs) as [IHs IHe]. rewrite insert_cons.
    destruct (lt_key a x) eqn:E1; [|destruct (lt_key x a) eqn:E2].
    + split.
      * apply sorted_cons. split; [done|]. intros y [?|[-> _]]%IHe; auto.
      * intros y. rewrite !elem_of_cons, IHe. simpl. rewrite not_elem_of_cons.
        assert (key x <> key a).
        { intros E. unfold lt_key in E1. rewrite E, text_lt_irrefl in E1. done. }
        naive_solver.
    + assert (forall y, y ∈ a :: s -> lt_key x y = true) as Hx.
      { intros y [->|Hy]%elem_of_cons; [done|]. eapply text_lt_trans; [exact E2|by apply Ha]. }
      split; [apply sorted_cons; split; [by apply sorted_cons|done]|].
      intros y. rewrite elem_of_cons. split; [|naive_solver]. intros [->|?]; [|by left].
      right. split; [done|]. intros (z & Ez & Hz)%list_elem_of_fmap.
      specialize (Hx z Hz). unfold lt_key in Hx. rewrite Ez, text_lt_irrefl in Hx. done.
    + assert (key x = key a) as E by (by apply text_lt_total).
      split; [by apply sorted_cons|]. intros y. split; [by left|]. intros [?|[_ Hn]]; [done|].
      destruct Hn. rewrite E. by left.
Qed.

Lemma find_key s x : sorted lt_key s ->
  match s !! set_find lt_key s x with
  | Some y => y ∈ s /\ key y = key x
  | None => key x ∉ map key s
  end.
Proof.
  unfold set_find. induction s as [|a s IH]; intros Hs; [apply not_elem_of_nil|].
  apply sorted_cons in Hs as [Hs Ha]. specialize (IH Hs). simpl.
  destruct (lt_key a x) eqn:E1; simpl.
  - assert (key x <> key a) as Hne.
    { intros E. unfold lt_key in E1. rewrite E, text_lt_irrefl in E1. done. }
    destruct (s !! set_lower_bound lt_key s x) as [y|] eqn:El; [destruct (lt_key x y)|].
    + change ((a :: s) !! S (length s)) with (s !! length s).
      rewrite lookup_ge_None_2 in IH |- * by lia. by apply not_elem_of_cons.
    + change ((a :: s) !! S ?n) with (s !! n). rewrite El in IH |- *. destruct IH.
      split; [by right|done].
    + change ((a :: s) !! S (length s)) with (s !! length s).
      rewrite lookup_ge_None_2 in IH |- * by lia. by apply not_elem_of_cons.
  - destruct (lt_key x a) eqn:E2; simpl.
    + rewrite lookup_ge_None_2 by lia. intros [E|(z & Ez & Hz)%list_elem_of_fmap]%elem_of_cons.
      * unfold lt_key in E2. rewrite E, text_lt_irrefl in E2. done.
      * assert (lt_key x z = true) as Hz' by (eapply text_lt_trans; [exact E2|by apply Ha]).
        unfold lt_key in Hz'. rewrite Ez, text_lt_irrefl in Hz'. done.
    + split; [by left|]. symmetry. by apply text_lt_total.
Qed.

Lemma sorted_keys s : sorted lt_key s -> NoDup (map key s).
Proof.
  induction s as [|a s IH]; [constructor|]. intros [Hs Ha]%sorted_cons. simpl. constructor; [|auto].
  intros (z & Ez & Hz)%list_elem_of_fmap. specialize (Ha z Hz). unfold lt_key in Ha.
  by rewrite Ez, text_lt_irrefl in Ha.
Qed.

Lemma sorted_unique s x y : sorted lt_key s -> x ∈ s -> y ∈ s -> key x = key y -> x = y.
Proof.
  intros Hs [i Hi]%list_elem_of_lookup [j Hj]%list_elem_of_lookup E.
  assert (i = j) as ->; [|congruence].
  eapply (NoDup_lookup (map key s)); [by apply sorted_keys|..]; change (map ?f ?l) with (f <$> l);
    rewrite list_lookup_fmap, ?Hi, ?Hj; simpl; by rewrite ?E.
Qed.

(** Inserting the elements of a sorted list one after another. *)
Lemma insert_sorted_list l : forall s, sorted lt_key (s ++ l) ->
  foldl (fun s x => (set_insert lt_key s x).2) s l = s ++ l.
Proof.
  induction l as [|x l IH]; intros s Hs; [by rewrite app_nil_r|]. simpl.
  assert ((set_insert lt_key s x).2 = s ++ [x]) as ->; [|rewrite IH; by rewrite <- app_assoc].
  apply sorted_app in Hs as (_ & _ & Hx). clear IH. induction s as [|a s IHs]; [done|].
  rewrite insert_cons. rewrite (Hx a x) by (by left). cbn [app]. f_equal. apply IHs. intros y z Hy. apply Hx. by right.
Qed.

Lemma insert_all_sorted l : forall s, sorted lt_key s ->
  sorted lt_key (foldl (fun s x => (set_insert lt_key s x).2) s l).
Proof. induction l as [|x l IH]; [done|]. intros s Hs. simpl. by apply IH, insert_elem. Qed.
End Keyed.

Lemma sorted_map {A B} (f : A -> B) (lt : A -> A -> bool) (lt' : B -> B -> bool) s :
  (forall x y, lt' (f x) (f y) = lt x y) -> sorted lt s -> sorted lt' (map f s).
Proof.
  intros Hf Hs. induction Hs as [|a s Hs IH Ha]; simpl; constructor; [done|].
  apply Forall_fmap. eapply Forall_impl; [exact Ha|]. intros y Hy. simpl. by rewrite Hf.
Qed.

(** ** Reading back what was written *)

Section Roundtrip.
Context `{YamlLaws}.

(** What becomes of a definition that is written and read again: the level of
    an appender is not read, nor is an appender of another type. *)
Definition read_appender (a : LogAppenderDefine) : option LogAppenderDefine :=
  if lad_type a =? 1 then Some (LAD 1 UNKONW (lad_formatter a) (lad_file a))
  else if lad_type a =? 2 then Some (LAD 2 UNKONW (lad_formatter a) [])
  else None.

Definition read_level (level : Z) : Z := if (1 <=? level) && (level <=? 5) then level else UNKONW.

Definition read_define (d : LogDefine) : LogDefine :=
  LD (ld_name d) (read_level (ld_level d)) (ld_formatter d) (omap read_appender (ld_appenders d)).

Lemma FromString_ToString level : FromString (ToString level) = read_level level.
Proof.
  unfold read_level.
  destruct (decide (level = 1)) as [->|]; [done|]. destruct (decide (level = 2)) as [->|]; [done|].
  destruct (decide (level = 3)) as [->|]; [done|]. destruct (decide (level = 4)) as [->|]; [done|].
  destruct (decide (level = 5)) as [->|]; [done|].
  unfold ToString, DEBUG, INFO, WARN, ERROR, FATAL. rewrite !(proj2 (Z.eqb_neq _ _)) by done.
  destruct (Z.leb_spec 1 level), (Z.leb_spec level 5); try done; lia.
Qed.

Lemma parse_appender_node a : parse_appender (Some (appender_node a)) = Some (read_appender a).
Proof.
  unfold appender_node, read_appender. destruct a as [ty lv fm f]. cbn [lad_type lad_level lad_formatter lad_file].
  destruct (ty =? 1); [|destruct (ty =? 2)]; unfold set_level; destruct (lv =? UNKONW), fm; reflexivity.
Qed.

Lemma push_appenders_node l xs x :
  assoc (lit "appenders") l = None ->
  foldl push_appender (Map l) (x :: xs) = Map (l ++ [(lit "appenders", Sequence (x :: xs))]).
Proof.
  intros Hl. cbn [foldl]. unfold push_appender at 2. cbn [pairs_of set_field]. rewrite Hl. cbn [default push_back].
  rewrite assoc_set_new by done.
  assert (forall ys, foldl push_appender (Map (l ++ [(lit "appenders", Sequence ys)])) xs
    = Map (l ++ [(lit "appenders", Sequence (ys ++ xs))])) as Happ; [|by rewrite Happ].
  clear x. induction xs as [|x xs IH]; intros ys; [by rewrite app_nil_r|]. cbn [foldl].
  assert (push_appender (Map (l ++ [(lit "appenders", Sequence ys)])) x
    = Map (l ++ [(lit "appenders", Sequence (ys ++ [x]))])) as ->; [|by rewrite IH, <- app_assoc].
  unfold push_appender. cbn [pairs_of set_field]. clear IH.
  assert (assoc (lit "appenders") (l ++ [(lit "appenders", Sequence ys)]) = Some (Sequence ys)) as ->
    by (clear -Hl; induction l as [|[k n] l IH]; [done|]; simpl in *; by destruct (decide _); auto).
  cbn [default push_back]. f_equal. clear -Hl. induction l as [|[k n] l IH]; [done|].
  cbn [assoc_set app assoc] in *. destruct (decide _); [done|]. f_equal. by apply IH.
Qed.

(** The members of a definition's node before its appenders. *)
Definition head_fields (name level : text) (formatter : option text) : list (text * node) :=
  (lit "name", Scalar name) :: (lit "level", Scalar level)
    :: match formatter with None => [] | Some f => [(lit "formatter", Scalar f)] end.

Definition nonempty (t : text) : option text := match t with [] => None | _ => Some t end.

Definition with_appender_nodes (l : list (text * node)) (xs : list node) : node :=
  match xs with [] => Map l | _ => Map (l ++ [(lit "appenders", Sequence xs)]) end.

Lemma head_no_appenders name level fm : assoc (lit "appenders") (head_fields name level fm) = None.
Proof. by destruct fm. Qed.

Lemma push_all name level fm xs :
  foldl push_appender (Map (head_fields name level fm)) xs
    = with_appender_nodes (head_fields name level fm) xs.
Proof. destruct xs; [done|]. apply push_appenders_node, head_no_appenders. Qed.

Lemma define_node_eq d :
  define_node d = with_appender_nodes (head_fields (ld_name d) (ToString (ld_level d)) (nonempty (ld_formatter d)))
                    (map appender_node (ld_appenders d)).
Proof.
  rewrite <- push_all. unfold define_node. f_equal. unfold set_level.
  destruct (ld_level d =? UNKONW), (ld_formatter d); reflexivity.
Qed.

(** Reading a logger's node, of a definition or of a dump. *)
Lemma parse_head name level fm xs las :
  mapM parse_appender (map Some xs) = Some las ->
  parse_define (Some (with_appender_nodes (head_fields name level fm) xs))
    = Some (Some (LD name (FromString level) (default [] fm) (omap id las))).
Proof.
  intros Hx. destruct xs as [|x xs].
  - simpl in Hx. injection Hx as <-. destruct fm; reflexivity.
  - unfold with_appender_nodes, parse_define, member_text. 
    assert (subscript (lit "appenders") (Map (head_fields name level fm ++ [(lit "appenders", Sequence (x :: xs))]))
      = Some (Some (Sequence (x :: xs)))) as -> by (destruct fm; reflexivity).
    cbn [mbind option_bind]. rewrite items_of_sequence, Hx. destruct fm; reflexivity.
Qed.

Lemma parse_appender_nodes l : mapM parse_appender (map Some (map appender_node l)) = Some (map read_appender l).
Proof.
  induction l as [|a l IH]; [done|]. cbn [map mapM]. rewrite parse_appender_node. cbn [mbind option_bind].
  by rewrite IH.
Qed.

Lemma parse_define_node d : parse_define (Some (define_node d)) = Some (Some (read_define d)).
Proof.
  rewrite define_node_eq, (parse_head _ _ _ _ (map read_appender (ld_appenders d))) by apply parse_appender_nodes.
  rewrite FromString_ToString. unfold read_define. f_equal. f_equal. f_equal;
    [by destruct (ld_formatter d)|].
  induction (ld_appenders d) as [|a l IH]; [done|]. cbn. destruct (read_appender a); [by f_equal|exact IH].
Qed.

(** A document that is the sequence of such nodes. *)
Lemma parse_sequence ns ds :
  mapM parse_define (map Some ns) = Some (map Some ds) -> sorted LogDefine_lt ds ->
  parse_defines (emit (foldl push_back Null ns)) = Some ds.
Proof.
  intros Hm Hs. unfold parse_defines. rewrite load_emit. cbn [mbind option_bind].
  rewrite push_backs by (by left). rewrite Hm. cbn [mbind option_bind]. f_equal.
  assert (omap id (map Some ds) = ds) as -> by (clear; induction ds as [|d ds IH]; [done|]; cbn; by f_equal).
  exact (insert_sorted_list ld_name ds [] Hs).
Qed.

Lemma parse_print s : sorted LogDefine_lt s -> parse_defines (print_defines s) = Some (map read_define s).
Proof.
  intros Hs. apply parse_sequence.
  - clear Hs. induction s as [|d s IH]; [done|]. cbn [map mapM]. rewrite parse_define_node. cbn [mbind option_bind].
    by rewrite IH.
  - by apply (sorted_map read_define LogDefine_lt).
Qed.

(** A definition that survives: what the reader can produce. *)
Definition readable (d : LogDefine) : Prop :=
  0 <= ld_level d <= 5 /\
  Forall (fun a => lad_level a = UNKONW /\ (lad_type a = 1 \/ (lad_type a = 2 /\ lad_file a = [])))
    (ld_appenders d).

Lemma read_readable d : readable d -> read_define d = d.
Proof.
  intros [Hl Ha]. destruct d as [name level fm aps]. unfold read_define. simpl in *. f_equal.
  - unfold read_level. destruct (Z.leb_spec 1 level), (Z.leb_spec level 5); unfold UNKONW; cbn; lia.
  - induction Ha as [|[ty lv f fl] l [Hv Ht] _ IH]; [done|]. simpl in *. unfold read_appender. simpl.
    subst lv. destruct Ht as [->|[-> ->]]; cbn; by f_equal.
Qed.

Lemma readable_read d : readable (read_define d).
Proof.
  split; simpl.
  - unfold read_level. destruct (Z.leb_spec 1 (ld_level d)), (Z.leb_spec (ld_level d) 5); simpl; unfold UNKONW; lia.
  - apply Forall_forall. intros a (b & _ & Hb)%list_elem_of_omap. unfold read_appender in Hb.
    destruct (lad_type b =? 1); [|destruct (lad_type b =? 2)]; simplify_eq/=; auto.
Qed.

Lemma parse_appender_readable o a : parse_appender o = Some (Some a) ->
  lad_level a = UNKONW /\ (lad_type a = 1 \/ (lad_type a = 2 /\ lad_file a = [])).
Proof.
  unfold parse_appender. intros E. repeat (case_match || simplify_option_eq); simpl; auto.
Qed.

Lemma mapM_omap {A B} (f : A -> option (option B)) (P : B -> Prop) (l : list A) (r : list (option B)) :
  (forall x y, f x = Some (Some y) -> P y) -> mapM f l = Some r -> Forall P (omap id r).
Proof.
  intros Hf. revert r. induction l as [|x l IH]; intros r E; simplify_option_eq; [constructor|].
  case_match; subst; [constructor|]; eauto.
Qed.

Lemma parse_define_readable n d : parse_define n = Some (Some d) -> readable d.
Proof.
  unfold parse_define. intros E. destruct n as [n|]; [|done].
  destruct (member_text (lit "name") n) as [[name|]|]; [|done..]. simplify_option_eq. split; simpl.
  - unfold FromString. repeat case_decide; unfold UNKONW, DEBUG, INFO, WARN, ERROR, FATAL; lia.
  - eapply mapM_omap; [|done]. intros o a. apply parse_appender_readable.
Qed.

Lemma parse_result v s : parse_defines v = Some s -> sorted LogDefine_lt s /\ Forall readable s.
Proof.
  unfold parse_defines. destruct (Load v) as [n|]; [|done]. cbn [mbind option_bind].
  destruct (mapM parse_define (items_of n)) as [ds|] eqn:E; [|done]. intros [= <-]. split.
  - apply (insert_all_sorted ld_name). constructor.
  - assert (Forall readable (omap id ds)) as HF by (eapply mapM_omap; [exact parse_define_readable|done]).
    revert HF. generalize (omap id ds). intros l HF.
    assert (forall s, sorted LogDefine_lt s -> Forall readable s -> Forall readable (foldl insert_define s l)) as Hg.
    2: { apply Hg; [constructor|constructor]. }
    induction HF as [|d l Hd _ IH]; [done|]. intros s Hs HF. cbn [foldl].
    destruct (insert_elem ld_name s d Hs) as [Hs' He]. apply IH; [exact Hs'|].
    apply Forall_forall. intros y [Hy|[-> _]]%He; [|done]. rewrite Forall_forall in HF. auto.
Qed.

(** The cast of the variable "logs" obeys its laws on what the reader gives. *)
#[export] Instance defines_cast_laws :
  @CastLaws defines defines_cast _ (fun s => sorted LogDefine_lt s /\ Forall readable s).
Proof.
  intros s [Hs Hr].
  assert (parse_defines (print_defines s) = Some s) as E.
  { rewrite parse_print by done. f_equal. clear Hs. induction Hr as [|d l Hd _ IH]; [done|]. simpl.
    by rewrite IH, read_readable. }
  by apply (@cast_of_node _ _ _ defines_cast s (foldl push_back Null (map define_node s))).
Qed.

(** C25.  The set of logger definitions through YAML: what is read is sorted by
    name without duplicates; writing a set and reading it back gives every
    definition again but for the levels of its appenders, which are written
    and not read, appenders whose type is neither file (1) nor standard output
    (2), and levels outside of the five; it gives the set itself exactly when
    it has none of these, as every set has that was read. *)
Theorem logs_roundtrip (s : defines) (v : text) :
  (sorted LogDefine_lt s -> parse_defines (print_defines s) = Some (map read_define s) /\
     (parse_defines (print_defines s) = Some s <-> Forall readable s)) /\
  (parse_defines v = Some s ->
     sorted LogDefine_lt s /\ Forall readable s /\ parse_defines (print_defines s) = Some s).
Proof.
  split.
  - intros Hs. split; [by apply parse_print|]. split.
    + rewrite parse_print by done. intros [= E]. rewrite <- E. apply Forall_fmap, Forall_true.
      apply readable_read.
    + intros Hr. by destruct (defines_cast_laws s (conj Hs Hr)) as (? & ? & [= <-] & _ & ? & _).
  - intros [Hs Hr]%parse_result. split_and!; [done|done|].
    by destruct (defines_cast_laws s (conj Hs Hr)) as (? & ? & [= <-] & _ & ? & _).
Qed.

(** *** The dump of the loggers *)

(** The definition an appender's and a logger's YAML says. *)
Definition appender_define (y : LogAppender) : LogAppenderDefine :=
  let fm := if ap_hasFormatter y then match ap_formatter y with Some f => m_pattern f | None => [] end else [] in
  match ap_kind y with
  | FileLogAppender f => LAD 1 UNKONW fm f
  | StdoutLogAppender => LAD 2 UNKONW fm []
  end.

Definition define_of (w : logs) (x : Logger) : LogDefine :=
  LD (lg_name x) (read_level (lg_level x))
    (match lg_formatter x with Some f => m_pattern f | None => [] end)
    (omap (fun a => appender_define <$> appenders w !! a) (lg_appenders x)).

Lemma appender_yaml_back y :
  exists n, Load (appender_yaml y) = Some n /\ parse_appender (Some n) = Some (Some (appender_define y)).
Proof.
  unfold appender_yaml, file_yaml, stdout_yaml, own_formatter, set_level, appender_define.
  destruct y as [k lv has fm lt st]. cbn [ap_kind ap_level ap_hasFormatter ap_formatter].
  destruct k; rewrite load_emit; (eexists; split; [done|]); destruct (lv =? UNKONW), fm, has; reflexivity.
Qed.

Lemma push_appenders_ok w as_ : forall n,
  (forall a, a ∈ as_ -> is_Some (appenders w !! a)) ->
  exists xs, push_appenders as_ n w = Ok (foldl push_appender n xs) /\
    mapM parse_appender (map Some xs)
      = Some (map Some (omap (fun a => appender_define <$> appenders w !! a) as_)).
Proof.
  induction as_ as [|a as_ IH]; intros n Has; [by exists []|].
  destruct (Has a ltac:(by left)) as [y Hy]. cbn [push_appenders]. unfold get_appender. rewrite Hy.
  cbn [deref]. res_simpl. destruct (appender_yaml_back y) as (x & -> & Hx).
  destruct (IH (push_appender n x)) as (xs & -> & Hxs); [intros b Hb; apply Has; by right|].
  exists (x :: xs). split; [done|]. cbn [map mapM]. rewrite Hx. cbn [mbind option_bind]. rewrite Hxs.
  cbn. by rewrite Hy.
Qed.

Lemma logger_yaml_back w l x : wf w -> loggers w !! l = Some x ->
  exists s n, logger_yaml l w = Ok s /\ Load s = Some n /\ parse_define (Some n) = Some (Some (define_of w x)).
Proof.
  intros Hwf Hx. unfold logger_yaml, get_logger. rewrite Hx. cbn [deref]. res_simpl.
  destruct (wf_formatter _ Hwf _ _ Hx) as [f Hf]. unfold define_of. rewrite Hf.
  assert (set_text (lit "formatter") (m_pattern f)
    (set_text (lit "level") (ToString (lg_level x)) (set_level (lg_level x) (set_text (lit "name") (lg_name x) Null)))
    = Map (head_fields (lg_name x) (ToString (lg_level x)) (Some (m_pattern f)))) as ->
    by (unfold set_level; destruct (lg_level x =? UNKONW); reflexivity).
  destruct (push_appenders_ok w (lg_appenders x)
    (Map (head_fields (lg_name x) (ToString (lg_level x)) (Some (m_pattern f))))) as (xs & -> & Hxs).
  { intros a Ha. destruct (wf_appenders _ Hwf _ _ _ Hx Ha) as (y & Hy & _). eauto. }
  res_simpl. do 2 eexists. split; [done|]. rewrite load_emit. split; [done|].
  rewrite push_all, (parse_head _ _ _ _ _ Hxs), FromString_ToString. f_equal. f_equal. f_equal.
  generalize (omap (fun a => appender_define <$> appenders w !! a) (lg_appenders x)).
  induction l0 as [|d ds IH]; [done|]. cbn. by f_equal.
Qed.

Lemma push_loggers_ok w ls : forall n,
  wf w -> (forall k l, (k, l) ∈ ls -> m_loggers w !! k = Some l) ->
  exists ns, push_loggers ls n w = Ok (foldl push_back n ns) /\
    mapM parse_define (map Some ns)
      = Some (map Some (omap (fun kl => define_of w <$> loggers w !! kl.2) ls)).
Proof.
  induction ls as [|[k l] ls IH]; intros n Hwf Hls; [by exists []|].
  destruct (wf_names _ Hwf k l) as (x & Hx & _); [apply Hls; by left|].
  destruct (logger_yaml_back w l x Hwf Hx) as (s & m & Es & Em & Ep). cbn [push_loggers]. rewrite Es. res_simpl.
  rewrite Em. destruct (IH (push_back n m) Hwf) as (ns & -> & Hns); [intros; apply Hls; by right|].
  exists (m :: ns). split; [done|]. cbn [map mapM]. rewrite Ep. cbn [mbind option_bind]. rewrite Hns.
  cbn. by rewrite Hx.
Qed.

Lemma loggers_in_order_spec w :
  sorted key_lt (loggers_in_order w) /\
  forall k l, (k, l) ∈ loggers_in_order w <-> m_loggers w !! k = Some l.
Proof.
  split; [apply (insert_all_sorted fst); constructor|]. intros k l. rewrite <- elem_of_map_to_list.
  unfold loggers_in_order.
  pose proof (NoDup_fst_map_to_list (m_loggers w)) as Hnd. revert Hnd.
  assert (forall ls s, NoDup (ls.*1) -> sorted key_lt s -> (forall kl, kl ∈ s -> kl.1 ∉ ls.*1) ->
    (k, l) ∈ foldl (fun s x => (set_insert key_lt s x).2) s ls <-> (k, l) ∈ s \/ (k, l) ∈ ls) as Hg.
  { induction ls as [|x ls IH]; intros s Hnd Hs Hd; simpl.
    - split; [by left|]. by intros [?|?%not_elem_of_nil].
    - apply NoDup_cons in Hnd as [Hx Hnd]. destruct (insert_elem fst s x Hs) as [Hs' He].
      rewrite IH; [|done|exact Hs'|].
      + rewrite elem_of_cons. change key_lt with (lt_key (A := text * lptr) fst). rewrite He.
        assert (x.1 ∉ map fst s).
        { intros (kl & E & Hkl)%list_elem_of_fmap. apply (Hd kl Hkl). rewrite <- E. by left. }
        naive_solver.
      + intros kl [Hkl|[-> _]]%He; [|done]. specialize (Hd kl Hkl). simpl in Hd.
        by apply not_elem_of_cons in Hd as [_ ?]. }
  intros Hnd. rewrite Hg; [|done|constructor|by intros kl ?%not_elem_of_nil].
  split; [by intros [?%not_elem_of_nil|?]|by right].
Qed.

(** C33.  [LoggerManager::toYamlString] is a configuration: it always returns,
    and reading its text as the variable "logs" gives one definition per
    registered logger, in the order of their names, with the logger's level,
    pattern, appenders and their own patterns - but not the levels of the
    appenders, and UNKONW for a level that is none of the five, such as the 100
    of a logger that was removed from the configuration. *)
Theorem dump_reads_back w : wf w ->
  exists t ds, toYamlString w = Ok t /\ parse_defines t = Some ds /\ sorted LogDefine_lt ds /\
    forall d, d ∈ ds <-> exists n l x, m_loggers w !! n = Some l /\ loggers w !! l = Some x /\
                           d = define_of w x.
Proof.
  intros Hwf. destruct (loggers_in_order_spec w) as [Hs Hin].
  destruct (push_loggers_ok w (loggers_in_order w) Null Hwf) as (ns & E & Hns); [intros k l; apply Hin|].
  unfold toYamlString. rewrite E. res_simpl.
  set (ds := omap (fun kl => define_of w <$> loggers w !! kl.2) (loggers_in_order w)) in *.
  assert (sorted LogDefine_lt ds) as Hds.
  { subst ds. assert (forall k l, (k, l) ∈ loggers_in_order w ->
      exists x, loggers w !! l = Some x /\ lg_name x = k) as Hrec.
    { intros k l Hk%Hin. destruct (wf_names _ Hwf _ _ Hk) as (x & ? & ? & _). eauto. }
    clear E Hns Hin. induction (loggers_in_order w) as [|[k l] ls IH]; [constructor|].
    apply (sorted_cons fst) in Hs as [Hs Hk]. destruct (Hrec k l ltac:(by left)) as (x & Hx & Hxk).
    cbn. rewrite Hx. cbn. apply (sorted_cons ld_name). split; [apply IH; [done|]; intros; apply Hrec; by right|].
    intros d ([k' l'] & Hkl & Hd)%list_elem_of_omap. specialize (Hk _ Hkl). unfold lt_key in *. simpl in *.
    destruct (Hrec k' l' ltac:(by right)) as (x' & Hx' & <-). rewrite Hx' in Hd. injection Hd as <-. simpl.
    by rewrite Hxk. }
  exists (emit (foldl push_back Null ns)), ds. split_and!; [done|by apply parse_sequence|done|].
  intros d. subst ds. rewrite list_elem_of_omap. split.
  - intros ([k l] & Hkl%Hin & Hd). simpl in Hd. destruct (loggers w !! l) as [x|] eqn:Hx; [|done].
    injection Hd as <-. eauto 10.
  - intros (n & l & x & Hn%Hin & Hx & ->). exists (n, l). split; [done|]. simpl. by rewrite Hx.
Qed.
End Roundtrip.

(** ** The listener brings the loggers into the configured state *)

Section ListenerTheory.
Context (strftime : text -> Z -> text) (can_open : text -> bool).
Implicit Types (w : logs).

(** The logger registered under a name. *)
Definition named w (n : text) : option Logger := l ← m_loggers w !! n; loggers w !! l.

(** The formatter of a logger configured by [d], and of one of its appenders. *)
Definition formatter_set (p : text) (old : option LogFormatter) : option LogFormatter :=
  match p with
  | [] => old
  | _ => let f := LogFormatter_new p in if m_error f then old else Some f
  end.

Definition kind_of (a : LogAppenderDefine) : appender_kind :=
  if lad_type a =? 1 then FileLogAppender (lad_file a) else StdoutLogAppender.

(** [ap] was built for [a] with the logger's formatter [fm]. *)
Definition built w (fm : option LogFormatter) (ap : aptr) (a : LogAppenderDefine) : Prop :=
  exists y, appenders w !! ap = Some y /\ ap_kind y = kind_of a /\ ap_level y = lad_level a /\
    ap_formatter y = formatter_set (lad_formatter a) fm.

(** The logger of a name, or what [getLogger] would create. *)
Definition logger_or_new w (n : text) : Logger :=
  default (Logg n DEBUG [] (Some (LogFormatter_new default_pattern)) (Some (m_root w))) (named w n).

(** In [w'] the logger of [d] is configured; its appenders are new since [w]. *)
Definition configured w w' (d : LogDefine) : Prop :=
  let old := logger_or_new w (ld_name d) in
  let fm := formatter_set (ld_formatter d) (lg_formatter old) in
  exists as_, named w' (ld_name d) = Some (Logg (ld_name d) (ld_level d) as_ fm (lg_root old)) /\
    Forall2 (built w' fm) as_ (ld_appenders d) /\
    Forall (fun a => appenders w !! a = None) as_.

(** What a change of the loggers in [ns] leaves alone: the other loggers, the
    appenders that none of them had. *)
Record others_kept (ns : list text) w w' : Prop := Kept {
  ok_wf : wf w';
  ok_root : m_root w' = m_root w;
  ok_named : forall n, n ∉ ns -> named w' n = named w n;
  ok_loggers : forall l, is_Some (loggers w !! l) -> is_Some (loggers w' !! l);
  ok_dom : forall a, is_Some (appenders w !! a) -> is_Some (appenders w' !! a);
  ok_appenders : forall a y, appenders w !! a = Some y ->
    (forall n x, n ∈ ns -> named w n = Some x -> a ∉ lg_appenders x) -> appenders w' !! a = Some y }.

Lemma named_appenders w n x a : wf w -> named w n = Some x -> a ∈ lg_appenders x ->
  is_Some (appenders w !! a).
Proof.
  unfold named. intros Hwf (l & Hl & Hx)%bind_Some Ha.
  destruct (wf_appenders _ Hwf _ _ _ Hx Ha) as (y & -> & _). eauto.
Qed.

Lemma others_kept_refl w : wf w -> others_kept [] w w.
Proof. by split. Qed.

Lemma others_kept_trans ns1 ns2 w1 w2 w3 :
  wf w1 -> (forall n, n ∈ ns2 -> n ∉ ns1) ->
  others_kept ns1 w1 w2 -> others_kept ns2 w2 w3 -> others_kept (ns1 ++ ns2) w1 w3.
Proof.
  intros Hwf Hd [_ Hr1 Hn1 Hl1 Hd1 Ha1] [Hwf2 Hr2 Hn2 Hl2 Hd2 Ha2]. split.
  - done.
  - congruence.
  - intros n [? ?]%not_elem_of_app. rewrite Hn2, Hn1; done.
  - eauto.
  - eauto.
  - intros a y Hy Hin. apply Ha2.
    + apply Ha1; [done|]. intros n x Hn. apply Hin, elem_of_app. by left.
    + intros n x Hn Hx. rewrite Hn1 in Hx by auto. eapply Hin; [apply elem_of_app; by right|done].
Qed.

Lemma configured_later ns ns1 w w1 w2 d :
  wf w -> (forall n, n ∈ ns -> n ∉ ns1) -> others_kept ns1 w w1 -> others_kept ns w1 w2 ->
  configured w w1 d -> ld_name d ∉ ns -> configured w w2 d.
Proof.
  intros Hwf Hns Hk1 Hk2 (as_ & Hn & Hb & Hf) Hd.
  exists as_. split_and!; [by rewrite (ok_named _ _ _ Hk2)| |done].
  clear Hn. induction Hb as [|a ad as_ ads (y & Hy & Hrest) _ IH]; [done|].
  apply Forall_cons in Hf as [Ha Hf]. constructor; [|by apply IH]. exists y. split; [|done].
  apply (ok_appenders _ _ _ Hk2); [done|]. intros n x Hin Hx Hax.
  rewrite (ok_named _ _ _ Hk1) in Hx by auto.
  destruct (named_appenders _ _ _ _ Hwf Hx Hax) as [z Hz]. congruence.
Qed.

Lemma configured_before ns w w1 w2 d :
  ld_name d ∉ ns -> others_kept ns w w1 -> configured w1 w2 d -> configured w w2 d.
Proof.
  intros Hd Hk (as_ & Hn & Hb & Hf).
  assert (logger_or_new w1 (ld_name d) = logger_or_new w (ld_name d)) as E.
  { unfold logger_or_new. by rewrite (ok_named _ _ _ Hk), (ok_root _ _ _ Hk). }
  exists as_. rewrite E in Hn, Hb. split_and!; [done|done|].
  eapply Forall_impl; [exact Hf|]. intros a Ha. simpl in *. destruct (appenders w !! a) eqn:E'; [|done].
  destruct (ok_dom _ _ _ Hk a) as [z Hz]; [eauto|congruence].
Qed.

(** *** One logger *)

(** Replacing the record of a registered logger, and changing appenders. *)
Lemma logger_changed w w' n l x x' :
  wf w -> wf w' -> m_loggers w !! n = Some l -> loggers w !! l = Some x ->
  loggers w' = <[l := x']> (loggers w) -> m_loggers w' = m_loggers w -> m_root w' = m_root w ->
  (forall a, is_Some (appenders w !! a) -> is_Some (appenders w' !! a)) ->
  (forall a y, appenders w !! a = Some y -> a ∉ lg_appenders x -> appenders w' !! a = Some y) ->
  others_kept [n] w w' /\ named w' n = Some x'.
Proof.
  intros Hwf Hwf' Hn Hx El Em Er Hd Ha.
  assert (named w n = Some x) as Hnx by (unfold named; by rewrite Hn).
  split; [split; try done|].
  - intros k Hk. unfold named. rewrite Em, El. destruct (m_loggers w !! k) as [q|] eqn:Eq; [|done].
    cbn [mbind option_bind]. destruct (decide (l = q)) as [<-|Hne]; [|by rewrite lookup_insert_ne].
    destruct Hk. apply list_elem_of_singleton.
    destruct (wf_names _ Hwf _ _ Hn) as (z & Hz & <- & _), (wf_names _ Hwf _ _ Eq) as (z' & Hz' & <- & _).
    congruence.
  - intros k Hk. rewrite El. destruct (decide (l = k)) as [<-|Hne];
      [by rewrite lookup_insert_eq|by rewrite lookup_insert_ne].
  - intros a y Hy Hin. apply Ha; [done|]. apply (Hin n); [by left|done].
  - unfold named. rewrite Em, El, Hn. cbn [mbind option_bind]. by rewrite lookup_insert_eq.
Qed.

Lemma getLogger_kept n w :
  wf w ->
  let '(l, w1) := getLogger n w in
  others_kept [n] w w1 /\ m_loggers w1 !! n = Some l /\
  loggers w1 !! l = Some (logger_or_new w n) /\ (forall a, appenders w1 !! a = appenders w !! a) /\
  lg_name (logger_or_new w n) = n.
Proof.
  intros Hwf. pose proof (wf_getLogger n w Hwf) as Hg. unfold getLogger in *.
  unfold logger_or_new, named. destruct (m_loggers w !! n) as [l|] eqn:E.
  - destruct (wf_names _ Hwf _ _ E) as (x & Hx & Hxn & _). cbn [mbind option_bind]. rewrite Hx.
    split_and!; try done.
  - pose proof (wf_new_logger n (Some (m_root w)) w Hwf ltac:(congruence)) as Hnew.
    destruct (Logger_new n (Some (m_root w)) w) as [l w1].
    destruct Hnew as (_ & Hnone & Hl & Hother & Hm & Hr & Ha & _). cbn [mbind option_bind default].
    cbn [loggers appenders m_loggers m_root]. split_and!.
    + split; cbn [loggers appenders m_loggers m_root].
      * apply Hg.
      * done.
      * intros k Hk. unfold named. cbn [loggers m_loggers].
        rewrite lookup_insert_ne by (intros ->; apply Hk; by left). rewrite Hm.
        destruct (m_loggers w !! k) as [q|] eqn:Eq; [|done]. cbn [mbind option_bind].
        destruct (wf_names _ Hwf _ _ Eq) as (z & Hz & _). apply Hother. congruence.
      * intros k Hk. rewrite Hother; [done|]. intros ->. rewrite Hnone in Hk. by destruct Hk.
      * by rewrite Ha.
      * intros a y Hy _. by rewrite Ha.
    + by rewrite lookup_insert_eq.
    + done.
    + by rewrite Ha.
    + done.
Qed.

Lemma apply_appender_ok name l x a w :
  wf w -> loggers w !! l = Some x -> lad_type a = 1 \/ lad_type a = 2 ->
  exists w' ap, apply_appender can_open name l a w = Ok w' /\ wf w' /\
    loggers w' = <[l := with_appenders (lg_appenders x ++ [ap]) x]> (loggers w) /\
    m_loggers w' = m_loggers w /\ m_root w' = m_root w /\
    appenders w !! ap = None /\ built w' (lg_formatter x) ap a /\
    (forall b y, appenders w !! b = Some y -> appenders w' !! b = Some y).
Proof.
  intros Hwf Hx Ht. unfold apply_appender.
  assert (new_appender can_open a w = Ok (LogAppender_new can_open (kind_of a) w)) as ->
    by (unfold new_appender, kind_of; by destruct Ht as [-> | ->]).
  pose proof (wf_new_appender can_open (kind_of a) w Hwf) as Hnew.
  destruct (LogAppender_new can_open (kind_of a) w) as [ap w1].
  destruct Hnew as (Hwf1 & Hnone & Hl1 & Hm1 & Hr1 & (y & Hy & Hk & _ & Hh & Hf) & Ho). res_simpl.
  unfold ap_setLevel, get_appender at 1. rewrite Hy. cbn [deref]. res_simpl.
  set (y2 := ap_with_level (lad_level a) y). set (w2 := put_appender ap y2 w1).
  assert (wf w2) as Hwf2 by (eapply wf_put_appender; [done|done|done|simpl; by rewrite Hh]).
  assert (appenders w2 = <[ap := y2]> (appenders w1)) as Ha2 by done.
  set (fmt := match lad_formatter a with [] => _ | _ => _ end).
  assert (exists w3 y3, fmt = Ok w3 /\ wf w3 /\ loggers w3 = loggers w /\ m_loggers w3 = m_loggers w /\
    m_root w3 = m_root w /\ appenders w3 = <[ap := y3]> (appenders w1) /\ ap_kind y3 = kind_of a /\
    ap_level y3 = lad_level a /\ ap_formatter y3 = formatter_set (lad_formatter a) None)
    as (w3 & y3 & -> & Hwf3 & Hl3 & Hm3 & Hr3 & Ha3 & Hk3 & Hv3 & Hf3).
  { subst fmt. unfold formatter_set. destruct (lad_formatter a) as [|c p]; [by exists w2, y2|].
    pose proof (wf_put_out (LogFormatter_out (c :: p)) w2 Hwf2) as Hwf3.
    destruct (m_error (LogFormatter_new (c :: p))); cbn [negb].
    { eexists _, y2. split; [done|]. split_and!; try done. by apply wf_put_out. }
    unfold ap_setFormatter, get_appender. cbn [appenders put_out]. rewrite Ha2, lookup_insert_eq. cbn [deref].
    res_simpl. eexists _, (ap_with_formatter true (Some (LogFormatter_new (c :: p))) y2). split; [done|].
    split_and!; try done; [|cbn [appenders put_appender put_out]; by rewrite Ha2, insert_insert_eq].
    eapply wf_put_appender; [done|cbn [appenders put_out]; by rewrite Ha2, lookup_insert_eq|by simpl|by simpl]. }
  res_simpl. destruct (addAppender_ok l x ap y3 w3 Hwf3) as (w4 & -> & Hwf4 & Hl4 & Hm4 & Hr4 & Ha4);
    [by rewrite Hl3|by rewrite Ha3, lookup_insert_eq|].
  exists w4, ap. split_and!; [done|done|by rewrite Hl4, Hl3|congruence|congruence|done| |].
  - eexists. rewrite Ha4, lookup_insert_eq. split; [done|]. rewrite Hf3. unfold formatter_set in *.
    destruct (lad_formatter a) as [|c p]; [by simpl|]. destruct (m_error _); [by simpl|]. by rewrite Hf3.
  - intros b z Hz. assert (b <> ap) by congruence.
    rewrite Ha4, lookup_insert_ne by done. rewrite Ha3, lookup_insert_ne by done. by rewrite Ho.
Qed.

Definition typed (d : LogDefine) : Prop :=
  Forall (fun a => lad_type a = 1 \/ lad_type a = 2) (ld_appenders d).

Lemma apply_appenders_ok name l ads : forall x w,
  wf w -> loggers w !! l = Some x -> Forall (fun a => lad_type a = 1 \/ lad_type a = 2) ads ->
  exists w' as_, apply_appenders can_open name l ads w = Ok w' /\ wf w' /\
    loggers w' = <[l := with_appenders (lg_appenders x ++ as_) x]> (loggers w) /\
    m_loggers w' = m_loggers w /\ m_root w' = m_root w /\
    Forall2 (built w' (lg_formatter x)) as_ ads /\ Forall (fun a => appenders w !! a = None) as_ /\
    (forall b y, appenders w !! b = Some y -> appenders w' !! b = Some y).
Proof.
  induction ads as [|a ads IH]; intros x w Hwf Hx Ht.
  - exists w, []. rewrite app_nil_r. split_and!; try done. by destruct x; rewrite insert_id.
  - apply Forall_cons in Ht as [Ha Ht].
    destruct (apply_appender_ok name l x a w Hwf Hx Ha) as (w1 & ap & E1 & Hwf1 & Hl1 & Hm1 & Hr1 & Hn1 & Hb1 & Ho1).
    cbn [apply_appenders]. rewrite E1. res_simpl.
    destruct (IH (with_appenders (lg_appenders x ++ [ap]) x) w1 Hwf1) as
      (w2 & as_ & E2 & Hwf2 & Hl2 & Hm2 & Hr2 & Hb2 & Hf2 & Ho2); [by rewrite Hl1, lookup_insert_eq|done|].
    exists w2, (ap :: as_). split_and!; [done|done| |congruence|congruence| | |auto].
    + rewrite Hl2, Hl1, insert_insert_eq. cbn. by rewrite <- app_assoc.
    + constructor; [|done]. destruct Hb1 as (y & Hy & Hrest). exists y. split; [by apply Ho2|done].
    + constructor; [done|]. eapply Forall_impl; [exact Hf2|]. intros b Hb. simpl in *.
      destruct (appenders w !! b) as [z|] eqn:Ez; [|done]. apply Ho1 in Ez. congruence.
Qed.

Lemma set_pattern_ok l x p w :
  wf w -> loggers w !! l = Some x ->
  exists w', match p with [] => mret w | q => setFormatter_pattern l q w end = Ok w' /\ wf w' /\
    loggers w' = <[l := with_formatter (formatter_set p (lg_formatter x)) x]> (loggers w) /\
    m_loggers w' = m_loggers w /\ m_root w' = m_root w /\
    (forall a, is_Some (appenders w !! a) -> is_Some (appenders w' !! a)) /\
    (forall a, a ∉ lg_appenders x -> appenders w' !! a = appenders w !! a).
Proof.
  intros Hwf Hx.
  assert (loggers w = <[l := with_formatter (lg_formatter x) x]> (loggers w)) as Hl
    by (rewrite insert_id; [done|by destruct x]).
  unfold formatter_set. destruct p as [|c p]; [by exists w|].
  unfold setFormatter_pattern. pose proof (wf_put_out (LogFormatter_out (c :: p)) w Hwf) as Hwf1.
  destruct (m_error (LogFormatter_new (c :: p))).
  { unfold get_logger. cbn [loggers put_out]. rewrite Hx. cbn [deref]. res_simpl. eexists. split; [done|].
    split_and!; try done. by apply wf_put_out. }
  destruct (setFormatter_ok l x (LogFormatter_new (c :: p)) _ Hwf1 Hx) as (w' & -> & ? & ? & ? & ? & Ha).
  cbn [appenders put_out] in Ha.
  exists w'. split_and!; try done.
  - intros a [y Hy]. rewrite Ha, Hy. destruct (decide _); [by eexists|done].
  - intros a Hn. rewrite Ha. by rewrite decide_False.
Qed.

(** Two changes, of which the appenders are known at the end. *)
Lemma others_kept_then ns ns' w w1 w2 : others_kept ns' w w1 -> others_kept ns w1 w2 ->
  (forall n, n ∈ ns' -> n ∈ ns) ->
  (forall a y, appenders w !! a = Some y ->
    (forall n x, n ∈ ns -> named w n = Some x -> a ∉ lg_appenders x) -> appenders w2 !! a = Some y) ->
  others_kept ns w w2.
Proof.
  intros H1 H2 Hns Ha. split; [apply H2|by rewrite (ok_root _ _ _ H2), (ok_root _ _ _ H1)| | | |done].
  - intros n Hn. rewrite (ok_named _ _ _ H2), (ok_named _ _ _ H1); [done| |done]. intros ?. by apply Hn, Hns.
  - intros k Hk. by apply (ok_loggers _ _ _ H2), (ok_loggers _ _ _ H1).
  - intros a Hk. by apply (ok_dom _ _ _ H2), (ok_dom _ _ _ H1).
Qed.

Lemma apply_define_ok d w : wf w -> typed d ->
  exists w', apply_define can_open d w = Ok w' /\ others_kept [ld_name d] w w' /\ configured w w' d.
Proof.
  intros Hwf Ht. unfold apply_define. pose proof (getLogger_kept (ld_name d) w Hwf) as Hg.
  destruct (getLogger (ld_name d) w) as [l w1]. destruct Hg as (Hk1 & Hm1 & Hx1 & Ha1 & Hname).
  set (x := logger_or_new w (ld_name d)) in *. pose proof (ok_wf _ _ _ Hk1) as Hwf1.
  unfold setLevel, get_logger. rewrite Hx1. cbn [deref]. res_simpl.
  set (x2 := with_level (ld_level d) x). set (w2 := put_logger l x2 w1).
  assert (wf w2) as Hwf2.
  { apply (wf_put_logger l x); try done; [by apply (wf_formatter _ Hwf1 l x)|].
    intros a Ha. by eapply wf_appenders. }
  set (fm := formatter_set (ld_formatter d) (lg_formatter x)).
  destruct (set_pattern_ok l x2 (ld_formatter d) w2 Hwf2) as (w3 & Ef & Hwf3 & Hl3 & Hm3 & Hr3 & Hd3 & Ho3);
    [by subst w2; cbn; rewrite lookup_insert_eq|].
  set (fmt := match ld_formatter d with [] => _ | _ => _ end).
  assert (fmt = Ok w3) as -> by (subst fmt; by destruct (ld_formatter d)).
  assert (loggers w3 = <[l := with_formatter fm x2]> (loggers w1)) as Hl3'
    by (rewrite Hl3; subst w2; cbn; by rewrite insert_insert_eq).
  clear Hl3. rename Hl3' into Hl3. change (lg_appenders x2) with (lg_appenders x) in Ho3.
  res_simpl. unfold clearAppenders, get_logger. rewrite Hl3, lookup_insert_eq. cbn [deref]. res_simpl.
  set (x4 := with_appenders [] (with_formatter fm x2)). set (w4 := put_logger l x4 w3).
  assert (loggers w4 = <[l := x4]> (loggers w1)) as Hl4 by (subst w4; cbn; by rewrite Hl3, insert_insert_eq).
  assert (wf w4) as Hwf4.
  { apply (wf_put_logger l (with_formatter fm x2)); try done; [by rewrite Hl3, lookup_insert_eq| |].
    - apply (wf_formatter _ Hwf3 l (with_formatter fm x2)). by rewrite Hl3, lookup_insert_eq.
    - by intros a Ha%not_elem_of_nil. }
  destruct (apply_appenders_ok (ld_name d) l (ld_appenders d) x4 w4 Hwf4) as
    (w5 & as_ & -> & Hwf5 & Hl5 & Hm5 & Hr5 & Hb5 & Hf5 & Ho5); [by rewrite Hl4, lookup_insert_eq|done|].
  exists w5. split; [done|].
  destruct (logger_changed w1 w5 (ld_name d) l x (with_appenders as_ x4)) as [Hk5 Hn5].
  1-4: done.
  - by rewrite Hl5, Hl4, insert_insert_eq.
  - rewrite Hm5. exact Hm3.
  - rewrite Hr5. exact Hr3.
  - intros a Ha. destruct (Hd3 a Ha) as [y Hy]. exists y. by apply Ho5.
  - intros a y Hy Ha. apply Ho5. change (appenders w4) with (appenders w3). by rewrite Ho3.
  - split.
    + apply (others_kept_then _ _ _ _ _ Hk1 Hk5); [done|].
      intros a y Hy Hin. apply Ho5. change (appenders w4) with (appenders w3). rewrite Ho3; [by rewrite Ha1|].
      unfold x, logger_or_new. destruct (named w (ld_name d)) as [z|] eqn:Ez; [|by apply not_elem_of_nil].
      apply (Hin (ld_name d)); [by left|done].
    + exists as_. split_and!; [|done|].
      * rewrite Hn5. f_equal. subst x4 x2. unfold with_appenders, with_formatter, with_level. cbn. fold x.
        by rewrite Hname.
      * eapply Forall_impl; [exact Hf5|]. intros a Ha. simpl in *. change (appenders w4) with (appenders w3) in Ha.
        destruct (appenders w !! a) as [y|] eqn:Ey; [|done].
        destruct (Hd3 a) as [z Hz]; [rewrite Ha1; eauto|congruence].
Qed.

(** A logger that was removed. *)
Definition deleted w (d : LogDefine) : Prop :=
  exists x, named w (ld_name d) = Some x /\ lg_level x = 100 /\ lg_appenders x = [].

Lemma delete_define_ok d w : wf w ->
  exists w', delete_define d w = Ok w' /\ others_kept [ld_name d] w w' /\ deleted w' d.
Proof.
  intros Hwf. unfold delete_define. pose proof (getLogger_kept (ld_name d) w Hwf) as Hg.
  destruct (getLogger (ld_name d) w) as [l w1]. destruct Hg as (Hk1 & Hm1 & Hx1 & Ha1 & _).
  set (x := logger_or_new w (ld_name d)) in *. pose proof (ok_wf _ _ _ Hk1) as Hwf1.
  unfold setLevel, clearAppenders, get_logger. rewrite Hx1. cbn [deref]. res_simpl.
  cbn [loggers put_logger]. rewrite lookup_insert_eq. cbn [deref]. res_simpl.
  eexists. split; [done|]. set (x2 := with_appenders [] (with_level 100 x)). set (w2 := put_logger l x2 _).
  assert (loggers w2 = <[l := x2]> (loggers w1)) as Hl2 by (subst w2; cbn; by rewrite insert_insert_eq).
  assert (wf w2) as Hwf2.
  { apply (wf_put_logger l (with_level 100 x)); try done.
    - apply (wf_put_logger l x); try done; [by apply (wf_formatter _ Hwf1 l x)|].
      intros a Ha. by eapply wf_appenders.
    - cbn. by rewrite lookup_insert_eq.
    - by apply (wf_formatter _ Hwf1 l x).
    - by intros a Ha%not_elem_of_nil. }
  destruct (logger_changed w1 w2 (ld_name d) l x x2) as [Hk2 Hn2]; try done.
  split; [|by exists x2]. split; [done|by rewrite (ok_root _ _ _ Hk2), (ok_root _ _ _ Hk1)| | | |].
  - intros n Hn. by rewrite (ok_named _ _ _ Hk2), (ok_named _ _ _ Hk1).
  - intros k Hk. by apply (ok_loggers _ _ _ Hk2), (ok_loggers _ _ _ Hk1).
  - intros a Ha. by apply (ok_dom _ _ _ Hk2), (ok_dom _ _ _ Hk1).
  - intros a y Hy _. change (appenders w2) with (appenders w1). by rewrite Ha1.
Qed.

(** *** Appenders of their own *)

(** No appender belongs to two registered loggers. *)
Definition private w : Prop :=
  forall n m x y a, n <> m -> named w n = Some x -> named w m = Some y ->
    a ∈ lg_appenders x -> a ∉ lg_appenders y.

Lemma private_step n w w' :
  wf w -> private w -> others_kept [n] w w' ->
  (forall x, named w' n = Some x -> Forall (fun a => appenders w !! a = None) (lg_appenders x)) ->
  private w'.
Proof.
  intros Hwf Hp Hk Hnew.
  assert (forall m y a, m <> n -> named w' m = Some y -> a ∈ lg_appenders y ->
    named w m = Some y /\ is_Some (appenders w !! a)) as Hold.
  { intros m y a Hm Hy Ha. rewrite (ok_named _ _ _ Hk) in Hy by (by intros ->%list_elem_of_singleton).
    split; [done|]. by eapply named_appenders. }
  assert (forall x a, named w' n = Some x -> a ∈ lg_appenders x -> appenders w !! a = None) as Hfresh.
  { intros x a Hx Ha. pose proof (Hnew x Hx) as HF. rewrite Forall_forall in HF. by apply HF. }
  intros n1 n2 x y a Hne Hx Hy Hax Hay.
  destruct (decide (n1 = n)) as [->|H1], (decide (n2 = n)) as [->|H2]; [done|..].
  - destruct (Hold n2 y a H2 Hy Hay) as [_ [z Hz]]. rewrite (Hfresh x a) in Hz; done.
  - destruct (Hold n1 x a H1 Hx Hax) as [_ [z Hz]]. rewrite (Hfresh y a) in Hz; done.
  - destruct (Hold n1 x a H1 Hx Hax) as [Hx' _], (Hold n2 y a H2 Hy Hay) as [Hy' _].
    by apply (Hp n1 n2 x y a).
Qed.

Lemma configured_private d w w' :
  wf w -> private w -> others_kept [ld_name d] w w' -> configured w w' d -> private w'.
Proof.
  intros Hwf Hp Hk (as_ & Hn & _ & Hf). eapply private_step; [done..|]. intros x Hx. simplify_eq. done.
Qed.

Lemma deleted_private d w w' :
  wf w -> private w -> others_kept [ld_name d] w w' -> deleted w' d -> private w'.
Proof.
  intros Hwf Hp Hk (x & Hn & _ & Ha). eapply private_step; [done..|]. intros y Hy. simplify_eq.
  by rewrite Ha.
Qed.

(** Changes of other loggers leave a configured one configured. *)
Lemma configured_kept ns w0 w w' d :
  private w -> others_kept ns w w' -> ld_name d ∉ ns -> configured w0 w d -> configured w0 w' d.
Proof.
  intros Hp Hk Hd (as_ & Hn & Hb & Hf). exists as_.
  split_and!; [by rewrite (ok_named _ _ _ Hk)| |done].
  apply Forall2_same_length_lookup. split; [by eapply Forall2_length|]. intros i a ad Ha Had.
  destruct (Forall2_lookup_lr _ _ _ _ _ _ Hb Ha Had) as (y & Hy & Hrest). exists y. split; [|done].
  apply (ok_appenders _ _ _ Hk); [done|]. intros n x Hin Hx. eapply (Hp (ld_name d)); [|done..|].
  - intros <-. done.
  - by eapply list_elem_of_lookup_2.
Qed.

(** *** The two loops *)

Definition changed (old : defines) (d : LogDefine) : bool :=
  negb (bool_decide (find_define old d = Some d)).
Definition gone (new : defines) (d : LogDefine) : bool := bool_decide (find_define new d = None).

(** The names a loop touches. *)
Definition names_of (test : LogDefine -> bool) (ds : defines) : list text :=
  map ld_name (List.filter test ds).

Lemma names_of_elem test ds n : n ∈ names_of test ds -> exists d, d ∈ ds /\ test d = true /\ ld_name d = n.
Proof.
  intros (d & -> & Hd)%list_elem_of_fmap. rewrite list_elem_of_In in Hd. apply filter_In in Hd as [Hd ?].
  apply list_elem_of_In in Hd. eauto.
Qed.

Lemma names_fresh test d ds : NoDup (map ld_name (d :: ds)) -> ld_name d ∉ names_of test ds.
Proof.
  intros [Hd _]%NoDup_cons (d' & Hd' & _ & E)%names_of_elem. apply Hd. rewrite <- E.
  by apply list_elem_of_fmap_2.
Qed.

Lemma others_kept_cons n ns w1 w2 w3 :
  wf w1 -> n ∉ ns -> others_kept [n] w1 w2 -> others_kept ns w2 w3 -> others_kept (n :: ns) w1 w3.
Proof.
  intros Hwf Hn. apply (others_kept_trans [n] ns w1 w2 w3 Hwf).
  intros k Hk ->%list_elem_of_singleton. done.
Qed.

Lemma apply_new_ok old new : forall w,
  wf w -> NoDup (map ld_name new) -> Forall typed new ->
  exists w', apply_new can_open old new w = Ok w' /\ others_kept (names_of (changed old) new) w w' /\
    (forall d, d ∈ new -> changed old d = true -> configured w w' d) /\
    (private w -> private w').
Proof.
  induction new as [|d new IH]; intros w Hwf Hnd Ht.
  - exists w. split_and!; [done|by apply others_kept_refl| |done]. by intros d Hd%not_elem_of_nil.
  - pose proof (names_fresh (changed old) d new Hnd) as Hfresh. apply NoDup_cons in Hnd as [_ Hnd].
    apply Forall_cons in Ht as [Htd Ht].
    assert (apply_new can_open old (d :: new) w
      = if changed old d then w ← apply_define can_open d w; apply_new can_open old new w
        else apply_new can_open old new w) as ->.
    { cbn [apply_new]. unfold changed. destruct (find_define old d) as [it|] eqn:E; [|done].
      destruct (decide (d = it)) as [<-|Hne]; [by rewrite bool_decide_true|].
      rewrite bool_decide_false by congruence. done. }
    unfold names_of. cbn [List.filter]. destruct (changed old d) eqn:Ec.
    + destruct (apply_define_ok d w Hwf Htd) as (w1 & -> & Hk1 & Hc1). res_simpl.
      destruct (IH w1 (ok_wf _ _ _ Hk1) Hnd Ht) as (w2 & -> & Hk2 & Hc2 & Hp2). exists w2.
      split_and!; [done| | |eauto using configured_private].
      * by eapply others_kept_cons.
      * intros d' [->|Hd']%elem_of_cons Hch.
        -- eapply (configured_later _ [ld_name d] w w1); try done.
           intros n Hn ->%list_elem_of_singleton. done.
        -- eapply (configured_before [ld_name d]); [|done|by apply Hc2].
           intros E%list_elem_of_singleton. apply Hfresh. rewrite <- E.
           apply list_elem_of_fmap_2. rewrite list_elem_of_In. apply filter_In. by rewrite <- list_elem_of_In.
    + destruct (IH w Hwf Hnd Ht) as (w2 & -> & Hk2 & Hc2 & Hp2). exists w2. split_and!; [done|done| |done].
      intros d' [->|Hd']%elem_of_cons Hch; [congruence|by apply Hc2].
Qed.

Lemma delete_old_ok new old : forall w,
  wf w -> NoDup (map ld_name old) ->
  exists w', delete_old old new w = Ok w' /\ others_kept (names_of (gone new) old) w w' /\
    (forall d, d ∈ old -> gone new d = true -> deleted w' d) /\ (private w -> private w').
Proof.
  induction old as [|d old IH]; intros w Hwf Hnd.
  - exists w. split_and!; [done|by apply others_kept_refl| |done]. by intros d Hd%not_elem_of_nil.
  - pose proof (names_fresh (gone new) d old Hnd) as Hfresh. apply NoDup_cons in Hnd as [_ Hnd].
    unfold names_of. cbn [delete_old List.filter]. unfold gone at 1 3.
    destruct (find_define new d) as [it|] eqn:E; [rewrite bool_decide_false by done|rewrite bool_decide_true by done].
    + destruct (IH w Hwf Hnd) as (w2 & -> & Hk2 & Hc2 & Hp2). exists w2. split_and!; [done|done| |done].
      intros d' [->|Hd']%elem_of_cons Hg; [|by apply Hc2]. unfold gone in Hg. by rewrite E in Hg.
    + destruct (delete_define_ok d w Hwf) as (w1 & -> & Hk1 & Hdel). res_simpl.
      destruct (IH w1 (ok_wf _ _ _ Hk1) Hnd) as (w2 & -> & Hk2 & Hc2 & Hp2). exists w2.
      split_and!; [done| | |eauto using deleted_private].
      * by eapply others_kept_cons.
      * intros d' [->|Hd']%elem_of_cons Hg; [|by apply Hc2]. destruct Hdel as (x & Hx & Hdel).
        exists x. split; [|done]. by rewrite (ok_named _ _ _ Hk2).
Qed.

(** [find] in the sorted sets. *)
Lemma changed_spec old d : sorted LogDefine_lt old -> changed old d = true <-> d ∉ old.
Proof.
  intros Hs. unfold changed. rewrite negb_true_iff, bool_decide_eq_false.
  pose proof (find_key ld_name old d Hs) as Hf. unfold find_define.
  change LogDefine_lt with (lt_key ld_name). destruct (old !! _) as [y|].
  - destruct Hf as [Hy Hn]. split; [|intros Hd [= ->]; done]. intros Hne Hd. apply Hne. f_equal.
    by apply (sorted_unique ld_name old).
  - split; [|done]. intros _ Hd. apply Hf. by apply list_elem_of_fmap_2.
Qed.

Lemma gone_spec new d : sorted LogDefine_lt new -> gone new d = true <-> ld_name d ∉ map ld_name new.
Proof.
  intros Hs. unfold gone. rewrite bool_decide_eq_true. pose proof (find_key ld_name new d Hs) as Hf.
  unfold find_define. change LogDefine_lt with (lt_key ld_name). destruct (new !! _) as [y|]; [|done].
  destruct Hf as [Hy <-]. split; [done|]. intros Hn. destruct Hn. by apply list_elem_of_fmap_2.
Qed.

(** What an appender writes does not change how it is set up. *)
Definition same_setup (y y' : LogAppender) : Prop :=
  ap_kind y' = ap_kind y /\ ap_level y' = ap_level y /\ ap_formatter y' = ap_formatter y.

Lemma appenders_log_setup now level event as_ : forall w w',
  wf w -> (forall a, a ∈ as_ -> exists y, appenders w !! a = Some y /\ is_Some (ap_formatter y)) ->
  appenders_log strftime can_open now level event as_ w = Ok w' ->
  forall a y, appenders w !! a = Some y -> exists y', appenders w' !! a = Some y' /\ same_setup y y'.
Proof.
  induction as_ as [|b as_ IH]; intros w w' Hwf Has He a y Hy.
  - injection He as <-. by exists y.
  - destruct (Has b ltac:(by left)) as (z & Hz & Hf). cbn [appenders_log] in He.
    rewrite (appender_log_ok strftime can_open _ _ _ _ z w Hz Hf) in He. revert He. res_simpl. intros He.
    assert (same_setup z (written strftime can_open now level event z)) as Hs
      by (unfold written; destruct (level <? ap_level z); [done|]; by destruct (ap_kind z) eqn:?, (ap_formatter z) eqn:?).
    assert (forall c u, appenders w !! c = Some u -> exists u', appenders (put_out
        (printed strftime can_open now level event z) (put_appender b (written strftime can_open now level event z) w)) !! c
        = Some u' /\ same_setup u u') as Hstep.
    { intros c u Hu. cbn [appenders put_out put_appender]. destruct (decide (b = c)) as [<-|Hne].
      - rewrite lookup_insert_eq. simplify_eq. eauto.
      - rewrite lookup_insert_ne by done. exists u. split; [done|by split_and!]. }
    destruct (Hstep a y Hy) as (y1 & Hy1 & Hs1). eapply IH in He; [|..|exact Hy1].
    + destruct He as (y2 & Hy2 & ? & ? & ?), Hs1 as (? & ? & ?). exists y2. split; [done|].
      split_and!; congruence.
    + apply wf_put_out. destruct Hs as (_ & _ & Ef). apply (wf_put_appender b z); rewrite ?Ef; try done.
    + intros c Hc. destruct (Has c ltac:(by right)) as (u & Hu & Hfu).
      destruct (Hstep c u Hu) as (u' & ? & _ & _ & Efu). exists u'. by rewrite Efu.
Qed.

Lemma message_ok now p content l w : wf w -> is_Some (loggers w !! l) ->
  exists w1, SYLAR_LOG_LEVEL strftime can_open now INFO p content l w = Ok w1 /\ wf w1 /\
    loggers w1 = loggers w /\ m_loggers w1 = m_loggers w /\ m_root w1 = m_root w /\
    forall a y, appenders w !! a = Some y -> exists y', appenders w1 !! a = Some y' /\ same_setup y y'.
Proof.
  intros Hwf Hl. destruct (Hl) as [x Hx]. rewrite (statement_log _ _ _ _ _ _ _ x w Hx).
  set (event := stream content (LogEvent_new x INFO p)).
  destruct (log_targets strftime can_open now INFO event l w Hwf Hl) as [-> Ht].
  destruct (appenders_log_ok strftime can_open now INFO event _ w Ht Hwf) as (w1 & E & ? & ? & ? & ? & _).
  exists w1. split_and!; try done. by eapply appenders_log_setup.
Qed.

(** The steps of the listener on a well-formed state. *)
Lemma on_logs_changed_steps (now : Z) (p : place) (old new : defines) w :
  wf w -> sorted LogDefine_lt old -> sorted LogDefine_lt new -> Forall typed new ->
  exists w1 w2 w3, SYLAR_LOG_LEVEL strftime can_open now INFO p (lit "no_logger_conf_changed") (m_root w) w = Ok w1 /\ wf w1 /\
    loggers w1 = loggers w /\ m_loggers w1 = m_loggers w /\
    (forall a y, appenders w !! a = Some y -> exists y', appenders w1 !! a = Some y' /\ same_setup y y') /\
    on_logs_changed strftime can_open now p old new w = Ok w3 /\
    others_kept (names_of (changed old) new) w1 w2 /\
    (forall d, d ∈ new -> changed old d = true -> configured w1 w2 d) /\
    others_kept (names_of (gone new) old) w2 w3 /\
    (forall d, d ∈ old -> gone new d = true -> deleted w3 d) /\
    (private w1 -> private w2) /\ (private w2 -> private w3) /\
    m_root w3 = m_root w.
Proof.
  intros Hwf Hso Hsn Ht.
  destruct (message_ok now p (lit "no_logger_conf_changed") (m_root w) w Hwf) as (w1 & E1 & Hwf1 & Hl1 & Hm1 & Hr1 & Ha1).
  { destruct (wf_root _ Hwf) as (x & Hx & _). by rewrite Hx. }
  destruct (apply_new_ok old new w1 Hwf1 (sorted_keys ld_name new Hsn) Ht) as (w2 & E2 & Hk2 & Hc2 & Hp2).
  destruct (delete_old_ok new old w2 (ok_wf _ _ _ Hk2) (sorted_keys ld_name old Hso))
    as (w3 & E3 & Hk3 & Hd3 & Hp3).
  exists w1, w2, w3. split_and!; try done.
  - unfold on_logs_changed. rewrite E1. res_simpl. rewrite E2. res_simpl. exact E3.
  - by rewrite (ok_root _ _ _ Hk3), (ok_root _ _ _ Hk2).
Qed.

Lemma gone_names old new n : sorted LogDefine_lt new -> n ∈ names_of (gone new) old -> n ∉ map ld_name new.
Proof. intros Hs (d & Hd & Hg & <-)%names_of_elem. by apply gone_spec. Qed.

Lemma names_unchanged old new n : sorted LogDefine_lt old ->
  (forall d, d ∈ new -> ld_name d = n -> d ∈ old) -> n ∉ names_of (changed old) new.
Proof.
  intros Hs Hnew (d & Hd & Hc & En)%names_of_elem. apply changed_spec in Hc; [|done]. eauto.
Qed.

(** C15.  The listener of the variable "logs" brings the loggers into the
    configured state, and always returns: every logger whose definition is new
    or has changed has the level of the definition and exactly its appenders,
    newly made in their order, of their kind and level, each with its own
    pattern or - without one, or with an invalid one - the logger's; the
    logger's own formatter is the definition's or stays; a logger that is not
    configured any more writes no event of any level; all others stay as they
    were.  This is what a new text for the variable does, once the listener of
    [LogIniter] is its only one. *)
Theorem logs_applied `{Yaml} (now : Z) (p : place) (old new : defines) w :
  wf w -> sorted LogDefine_lt old -> sorted LogDefine_lt new -> Forall typed new ->
  exists w1 w', SYLAR_LOG_LEVEL strftime can_open now INFO p (lit "no_logger_conf_changed") (m_root w) w = Ok w1 /\
    loggers w1 = loggers w /\ m_loggers w1 = m_loggers w /\
    on_logs_changed strftime can_open now p old new w = Ok w' /\ wf w' /\
    (forall d, d ∈ new -> d ∉ old -> configured w1 w' d) /\
    (forall d, d ∈ old -> ld_name d ∉ map ld_name new ->
       exists l, m_loggers w' !! ld_name d = Some l /\
         forall level, level <= FATAL -> targets w' l level = []) /\
    (forall n, (forall d, d ∈ new -> ld_name d = n -> d ∈ old) ->
       (n ∈ map ld_name old -> n ∈ map ld_name new) -> named w' n = named w n) /\
    (forall key val name description,
       let v x := Var name description x [(key, logs_listener strftime can_open now p)] in
       old <> new -> parse_defines val = Some new ->
       @fromString _ _ _ defines_cast val (v old) (Ok w) = (true, v new, Ok w')).
Proof.
  intros Hwf Hso Hsn Ht.
  destruct (on_logs_changed_steps now p old new w Hwf Hso Hsn Ht)
    as (w1 & w2 & w3 & E1 & Hwf1 & Hl1 & Hm1 & _ & Ew & Hk2 & Hc2 & Hk3 & Hd3 & _).
  exists w1, w3. split_and!; [done|done|done|done|by apply Hk3|..].
  - intros d Hd Hnew. apply changed_spec in Hnew; [|done].
    eapply (configured_later _ (names_of (changed old) new) w1 w2); try done; [|by apply Hc2|].
    + intros n Hn%gone_names (d' & Hd' & _ & <-)%names_of_elem; [|done]. apply Hn. by apply list_elem_of_fmap_2.
    + intros Hn%gone_names; [|done]. apply Hn. by apply list_elem_of_fmap_2.
  - intros d Hd Hn. destruct (Hd3 d Hd) as (x & Hx & Hlv & Hap); [by apply gone_spec|].
    unfold named in Hx. apply bind_Some in Hx as (l & Hl & Hx). exists l. split; [done|].
    intros level Hlevel. unfold targets. rewrite Hx, Hlv. unfold FATAL in *.
    destruct (Z.ltb_spec level 100); [done|lia].
  - intros n Hnew Hold. rewrite (ok_named _ _ _ Hk3), (ok_named _ _ _ Hk2).
    + unfold named. by rewrite Hl1, Hm1.
    + by apply names_unchanged.
    + intros Hin. pose proof (gone_names _ _ _ Hsn Hin) as Hno. apply names_of_elem in Hin as (d & Hd & _ & En).
      apply Hno, Hold. rewrite <- En. by apply list_elem_of_fmap_2.
  - intros key val name description v Hne Hp.
    unfold fromString, defines_cast, from_str. rewrite Hp.
    unfold setValue. cbn [v m_val m_cbs run_cbs]. rewrite decide_False by congruence.
    assert (logs_listener strftime can_open now p old new (Ok w) = (Ok w3, false)) as ->
      by (unfold logs_listener; res_simpl; by rewrite Ew).
    done.
Qed.
End ListenerTheory.

(** ** Witnesses *)

(** A configuration: a root logger and "system" with a file appender. *)
Definition ex_defines : defines :=
  [LD (lit "root") DEBUG (lit "%d%T%m%n") [LAD 2 UNKONW [] []];
   LD (lit "system") ERROR [] [LAD 1 UNKONW (lit "%d%T[%p]%T%m%n") (lit "system.txt"); LAD 2 UNKONW [] []]].

Lemma ex_defines_ok : sorted LogDefine_lt ex_defines /\ Forall readable ex_defines /\ Forall typed ex_defines.
Proof.
  split; [|split].
  - apply (sorted_cons ld_name). split.
    + apply (sorted_cons ld_name). split; [constructor|by intros y Hy%not_elem_of_nil].
    + intros y ->%list_elem_of_singleton. reflexivity.
  - repeat (constructor; simpl; auto); unfold DEBUG, ERROR; lia.
  - repeat (constructor; simpl; auto).
Qed.

Lemma logs_roundtrip_witness :
  @parse_defines ex_yaml (@print_defines ex_yaml ex_defines) = Some ex_defines.
Proof.
  destruct ex_defines_ok as (Hs & Hr & _).
  destruct (@logs_roundtrip ex_yaml ex_yaml_laws ex_defines []) as [H _].
  destruct (H Hs) as [_ [_ Hrt]]. exact (Hrt Hr).
Defined.

Lemma dump_reads_back_witness : exists t ds,
  @toYamlString ex_yaml ex_logs = Ok t /\ @parse_defines ex_yaml t = Some ds /\
  LD (lit "system") DEBUG default_pattern [] ∈ ds.
Proof.
  assert (wf ex_logs) as Hwf.
  { pose proof (wf_getLogger (lit "system") manager0 wf_manager) as Hg. unfold ex_logs.
    destruct (getLogger (lit "system") manager0). apply Hg. }
  destruct (@dump_reads_back ex_yaml ex_yaml_laws ex_logs Hwf) as (t & ds & H1 & H2 & _ & H3).
  exists t, ds. split; [exact H1|]. split; [exact H2|]. apply H3.
  exists (lit "system"), 2%nat. eexists. split; [vm_compute; reflexivity|]. split; vm_compute; reflexivity.
Defined.

Lemma logs_applied_witness : exists w,
  on_logs_changed ex_strftime ex_open 7 ex_place [LD (lit "old") INFO [] []] ex_defines manager0 = Ok w /\
  (exists x, named w (lit "system") = Some x /\ lg_level x = ERROR /\ length (lg_appenders x) = 2%nat) /\
  exists l, m_loggers w !! lit "old" = Some l /\ targets w l FATAL = [].
Proof.
  destruct ex_defines_ok as (Hs & _ & Ht).
  destruct (@logs_applied ex_strftime ex_open ex_yaml 7 ex_place [LD (lit "old") INFO [] []] ex_defines manager0)
    as (w1 & w & _ & _ & _ & He & _ & Hc & Hd & _); [exact wf_manager| |exact Hs|exact Ht|].
  - apply (sorted_cons ld_name). split; [constructor|by intros y Hy%not_elem_of_nil].
  - exists w. split; [exact He|]. split.
    + destruct (Hc (LD (lit "system") ERROR [] [LAD 1 UNKONW (lit "%d%T[%p]%T%m%n") (lit "system.txt");
        LAD 2 UNKONW [] []])) as (as_ & Hn & Hb & _).
      * right. left.
      * intros E%list_elem_of_singleton. vm_compute in E. discriminate E.
      * eexists. split; [exact Hn|]. split; [reflexivity|]. exact (Forall2_length _ _ _ Hb).
    + destruct (Hd (LD (lit "old") INFO [] [])) as (l & Hl & Hlv).
      * by left.
      * apply (bool_decide_unpack _). vm_compute. exact I.
      * exists l. split; [exact Hl|]. apply Hlv. reflexivity.
Defined.
