(* ===== verification/Thread.v ===== *)
(** * Locks and threads (src/sylar/thread.h, thread.cc)

    The scoped locks over any of the lock classes, the lock classes over the
    pthread interface or an atomic flag, the semaphore, and the life of a
    [Thread] object beside the thread it starts, as steps that interleave. *)

From S2P Require Import Prelude Text.

(** ** Locks *)

(** [lock]/[wrlock] take a lock exclusively, [rdlock] shares it. *)
Inductive mode : Type := Shared | Exclusive.
#[export] Instance mode_eq_dec : EqDecision mode.
Proof. solve_decision. Defined.

(** What the scoped locks use of a lock class: taking it, by a thread, can be
    undefined, and is [None] while the thread has to wait. *)
Class Lockable (S : Type) : Type := {
  supports : mode -> bool;
  acquire : mode -> Z -> S -> res (option S);
  release : Z -> S -> res S }.

(** Who holds what: any number shares, or one alone. *)
Definition compatible (h : list (Z * mode)) : Prop :=
  (forall tm, tm ∈ h -> tm.2 = Shared) \/ exists t, h = [(t, Exclusive)].

#[export] Instance compatible_proper : Proper (Permutation ==> iff) compatible.
Proof.
  assert (forall h1 h2, h1 ≡ₚ h2 -> compatible h1 -> compatible h2) as Himp.
  { intros h1 h2 E [Hs|[t ->]]; [left; intros tm; rewrite <- E; apply Hs|right].
    apply Permutation_singleton_l in E. by exists t. }
  intros h1 h2 E. split; by apply Himp.
Qed.

(** A thread can only ask for what it does not hold already, or to share once
    more what it shares. *)
Definition may_take (m : mode) (t : Z) (h : list (Z * mode)) : Prop :=
  forall m', (t, m') ∈ h -> m = Shared /\ m' = Shared.

#[export] Instance may_take_proper m t : Proper (Permutation ==> iff) (may_take m t).
Proof. intros h1 h2 E. unfold may_take. by setoid_rewrite E. Qed.

Lemma may_take_new m t h : t ∉ h.*1 -> may_take m t h.
Proof. intros Ht m' Hin. destruct Ht. apply list_elem_of_fmap. by exists (t, m'). Qed.

(** The promise of a lock class, to threads that ask for what they can. *)
Class LockLaws (S : Type) `{Lockable S} (held : S -> list (Z * mode)) : Prop := {
  acquire_held m t s : supports m = true -> compatible (held s) -> may_take m t (held s) ->
    acquire m t s = Ok None \/
    exists s', acquire m t s = Ok (Some s') /\ held s' ≡ₚ (t, m) :: held s /\ compatible (held s');
  release_held t m s : compatible (held s) -> (t, m) ∈ held s ->
    exists s', release t s = Ok s' /\ held s ≡ₚ (t, m) :: held s' }.

(** *** The lock classes *)

(** The locks of pthread the classes forward to.  A call can be undefined, wait
    ([None]), or return a code - 0 when it has done what it is for - with the
    state it leaves. *)
Class Pthread : Type := {
  mutex_t : Type;
  pthread_mutex_lock : Z -> mutex_t -> res (option (Z * mutex_t));
  pthread_mutex_unlock : Z -> mutex_t -> res (Z * mutex_t);
  spinlock_t : Type;
  pthread_spin_lock : Z -> spinlock_t -> res (option (Z * spinlock_t));
  pthread_spin_unlock : Z -> spinlock_t -> res (Z * spinlock_t);
  rwlock_t : Type;
  pthread_rwlock_rdlock : Z -> rwlock_t -> res (option (Z * rwlock_t));
  pthread_rwlock_wrlock : Z -> rwlock_t -> res (option (Z * rwlock_t));
  pthread_rwlock_unlock : Z -> rwlock_t -> res (Z * rwlock_t) }.

Definition only_exclusive (m : mode) : bool := match m with Exclusive => true | Shared => false end.

(** The classes do not look at the code a call returns. *)
Definition code_ignored {S : Type} (r : res (option (Z * S))) : res (option S) :=
  match r with Ok o => Ok (snd <$> o) | Err e => Err e end.

Section Classes.
Context `{Pthread}.

Definition Mutex : Lockable mutex_t := {|
  supports := only_exclusive;
  acquire _ t s := code_ignored (pthread_mutex_lock t s);
  release t s := '(_, s) ← pthread_mutex_unlock t s; mret s |}.

Definition Spinlock : Lockable spinlock_t := {|
  supports := only_exclusive;
  acquire _ t s := code_ignored (pthread_spin_lock t s);
  release t s := '(_, s) ← pthread_spin_unlock t s; mret s |}.

Definition RWMutex : Lockable rwlock_t := {|
  supports _ := true;
  acquire m t s :=
    code_ignored (match m with
                  | Shared => pthread_rwlock_rdlock t s
                  | Exclusive => pthread_rwlock_wrlock t s
                  end);
  release t s := '(_, s) ← pthread_rwlock_unlock t s; mret s |}.
End Classes.

(** [CASlock]: the flag, and who set it (not in the code). *)
Record CASlock : Type := CAS { m_flag : bool; m_setter : Z }.

(** [atomic_flag_test_and_set]: the old value and the new one. *)
Definition test_and_set (f : bool) : bool * bool := (f, true).

Definition CASlock_new : CASlock := CAS false 0.

(** One round of the loop of [lock]; [unlock] clears the flag of anyone. *)
Definition CASlock_lock (t : Z) (s : CASlock) : option CASlock :=
  let '(old, f) := test_and_set (m_flag s) in if old : bool then None else Some (CAS f t).
Definition CASlock_unlock (t : Z) (s : CASlock) : res CASlock := Ok (CAS false (m_setter s)).

Definition CASlock_lockable : Lockable CASlock := {|
  supports := only_exclusive;
  acquire _ t s := mret (CASlock_lock t s);
  release := CASlock_unlock |}.

(** [NullMutex] and [NullRWMutex]. *)
Definition NullMutex : Lockable unit := {|
  supports _ := true;
  acquire _ _ s := Ok (Some s);
  release _ s := Ok s |}.

(** *** Scoped locks *)

(** [ScopedLockImpl], [ReadScopedLockImpl], [WriteScopedLockImpl]: a local of
    thread [g_thread]. *)
Record guard : Type := Guard { g_thread : Z; g_mode : mode; m_locked : bool }.

Section Guards.
Context {S : Type} `{Lockable S}.

(** A mutex and the scoped locks on it. *)
Record locks : Type := Locks { m_mutex : S; guards : gmap nat guard }.
Implicit Types (w : locks) (g : nat).

(** What a call does: it goes on, or its thread waits. *)
Inductive outcome : Type := Waits | Goes (w : locks).

(** The constructors. *)
Definition guard_new g (t : Z) (m : mode) w : res outcome :=
  o ← acquire m t (m_mutex w);
  mret (match o with
        | None => Waits
        | Some s => Goes (Locks s (<[g := Guard t m true]> (guards w)))
        end).

(** [lock()] *)
Definition guard_lock g w : res outcome :=
  x ← deref (guards w !! g) "ScopedLock";
  if m_locked x then mret (Goes w)
  else
    o ← acquire (g_mode x) (g_thread x) (m_mutex w);
    mret (match o with
          | None => Waits
          | Some s => Goes (Locks s (<[g := Guard (g_thread x) (g_mode x) true]> (guards w)))
          end).

(** [unlock()] *)
Definition guard_unlock g w : res outcome :=
  x ← deref (guards w !! g) "ScopedLock";
  if m_locked x then
    s ← release (g_thread x) (m_mutex w);
    mret (Goes (Locks s (<[g := Guard (g_thread x) (g_mode x) false]> (guards w))))
  else mret (Goes w).

(** The destructors. *)
Definition guard_delete g w : res outcome :=
  o ← guard_unlock g w;
  mret (match o with Goes w => Goes (Locks (m_mutex w) (delete g (guards w))) | Waits => Waits end).

Inductive guard_call : Type :=
| GNew g (t : Z) (m : mode) | GLock g | GUnlock g | GDelete g.

Definition guard_exec (c : guard_call) w : res outcome :=
  match c with
  | GNew g t m => guard_new g t m w
  | GLock g => guard_lock g w
  | GUnlock g => guard_unlock g w
  | GDelete g => guard_delete g w
  end.

(** What the guards that are locked have taken. *)
Definition taking (x : guard) : option (Z * mode) :=
  if m_locked x then Some (g_thread x, g_mode x) else None.
Definition taken (gs : gmap nat guard) : list (Z * mode) :=
  omap (fun gx => taking gx.2) (map_to_list gs).

(** The guard exists, or is new and of a kind the class has, and no thread locks
    what its own guards have locked. *)
Definition guard_valid (c : guard_call) w : Prop :=
  match c with
  | GNew g t m => guards w !! g = None /\ supports m = true /\ may_take m t (taken (guards w))
  | GLock g => exists x, guards w !! g = Some x /\
      (m_locked x = false -> may_take (g_mode x) (g_thread x) (taken (guards w)))
  | GUnlock g | GDelete g => is_Some (guards w !! g)
  end.

(** The calls of all threads, in any order. *)
Inductive guards_reachable (s0 : S) : locks -> Prop :=
| G_start : guards_reachable s0 (Locks s0 ∅)
| G_call c w w' : guards_reachable s0 w -> guard_valid c w -> guard_exec c w = Ok (Goes w') ->
    guards_reachable s0 w'.
End Guards.
Arguments locks : clear implicits.
Arguments outcome : clear implicits.

(** ** Semaphore *)

(** [Semaphore] with [SEM_VALUE_MAX]; a wait is [None] while it blocks, and a
    signal can interrupt it. *)
Definition SEM_VALUE_MAX : Z := 2 ^ 31 - 1.

Definition Semaphore_new (count : Z) : res Z :=
  if SEM_VALUE_MAX <? count then Err (FThrow "sem_init error") else Ok count.
Definition wait (interrupted : bool) (n : Z) : res (option Z) :=
  if 0 <? n then Ok (Some (n - 1))
  else if interrupted then Err (FThrow "sem_wait error") else Ok None.
Definition notify (n : Z) : res Z :=
  if n =? SEM_VALUE_MAX then Err (FThrow "sem_post error") else Ok (n + 1).

(** ** Threads *)

(** Pointers to [Thread] objects, and threads of the system. *)
Abbreviation tptr := nat.
Abbreviation os := nat.

(** [Thread]; [m_thread] is [None] for 0, [m_cb] names a callback. *)
Record Thread : Type := Thr {
  m_id : Z;
  m_thread : option os;
  m_cb : option nat;
  m_name : text }.

(** Where a thread is in [Thread::run]. *)
Inductive pc : Type :=
| Started | Entered | Identified | OsNamed | Running (cb : nat) | Finished.
#[export] Instance pc_eq_dec : EqDecision pc.
Proof. solve_decision. Defined.

(** A thread: its position, its argument, its thread locals, the name the
    system knows, its id; joined or detached threads cannot be joined. *)
Record os_thread : Type := Os {
  os_pc : pc;
  os_arg : option tptr;
  t_thread : option tptr;
  t_thread_name : text;
  os_name : text;
  os_tid : Z;
  os_joinable : bool }.

(** All objects and threads; [ran] are the callbacks that have run. *)
Record world : Type := World {
  objects : gmap tptr Thread;
  threads : gmap os os_thread;
  ran : list nat;
  fresh : nat }.

Section Threads.
Implicit Types (w : world) (p : tptr) (u : os).

Definition get_object p w : res Thread := deref (objects w !! p) "Thread".
Definition put_object p (x : Thread) w : world :=
  World (<[p := x]> (objects w)) (threads w) (ran w) (fresh w).
Definition get_os u w : res os_thread := deref (threads w !! u) "pthread_t".
Definition put_os u (x : os_thread) w : world :=
  World (objects w) (<[u := x]> (threads w)) (ran w) (fresh w).
Definition at_pc (c : pc) (x : os_thread) : os_thread :=
  Os c (os_arg x) (t_thread x) (t_thread_name x) (os_name x) (os_tid x) (os_joinable x).

(** [Thread::Thread]; [rt] is what [pthread_create] returns, [tid] the id the
    new thread will have.  A throwing constructor leaves no object. *)
Definition Thread_new (cb : nat) (name : text) (rt tid : Z) w : res (tptr * world) :=
  if rt =? 0 then
    let p := fresh w in
    let u := S p in
    let x := Thr (-1) (Some u) (Some cb) (match name with [] => lit "UNKNOW" | _ => name end) in
    let o := Os Started (Some p) None (lit "UNKNOW") [] tid true in
    mret (p, World (<[p := x]> (objects w)) (<[u := o]> (threads w)) (ran w) (S u))
  else Err (FThrow "pthread_create error").

(** [Thread::run], one statement (or two on the same object) after another. *)
Definition run_step u w : res world :=
  o ← get_os u w;
  match os_pc o, os_arg o with
  | Started, Some p =>
      x ← get_object p w;
      mret (put_os u (Os Entered (os_arg o) (Some p) (m_name x) (os_name o) (os_tid o) (os_joinable o)) w)
  | Entered, Some p =>
      x ← get_object p w;
      mret (put_os u (at_pc Identified o)
             (put_object p (Thr (os_tid o) (m_thread x) (m_cb x) (m_name x)) w))
  | Identified, Some p =>
      x ← get_object p w;
      mret (put_os u (Os OsNamed (os_arg o) (t_thread o) (t_thread_name o) (c_str (take 15 (m_name x)))
                       (os_tid o) (os_joinable o)) w)
  | OsNamed, Some p =>
      x ← get_object p w;
      match m_cb x with
      | None => Err (FThrow "std::bad_function_call")
      | Some cb =>
          mret (put_os u (at_pc (Running cb) o)
                 (put_object p (Thr (m_id x) (m_thread x) None (m_name x)) w))
      end
  | Running cb, _ =>
      mret (World (objects w) (<[u := at_pc Finished o]> (threads w)) (ran w ++ [cb]) (fresh w))
  | _, _ => mret w
  end.

(** [Thread::SetName], [GetName], [GetThis] on thread [u]. *)
Definition SetName u (name : text) w : res world :=
  o ← get_os u w;
  w ← match t_thread o with
      | Some p => x ← get_object p w; mret (put_object p (Thr (m_id x) (m_thread x) (m_cb x) name) w)
      | None => mret w
      end;
  mret (put_os u (Os (os_pc o) (os_arg o) (t_thread o) name (os_name o) (os_tid o) (os_joinable o)) w).
Definition GetName u w : res text := o ← get_os u w; mret (t_thread_name o).
Definition GetThis u w : res (option tptr) := o ← get_os u w; mret (t_thread o).

(** [pthread_join] and [pthread_detach] of a thread that cannot be joined are
    undefined; joining waits for the end. *)
Definition pthread_join u w : res (option world) :=
  o ← get_os u w;
  if os_joinable o then
    match os_pc o with
    | Finished =>
        mret (Some (put_os u (Os Finished (os_arg o) (t_thread o) (t_thread_name o) (os_name o)
                                (os_tid o) false) w))
    | _ => mret None
    end
  else Err (FUB "pthread_join").
Definition pthread_detach u w : res world :=
  o ← get_os u w;
  if os_joinable o then
    mret (put_os u (Os (os_pc o) (os_arg o) (t_thread o) (t_thread_name o) (os_name o) (os_tid o) false) w)
  else Err (FUB "pthread_detach").

(** [Thread::join]: [m_thread] is cleared on no path. *)
Definition join p w : res (option world) :=
  x ← get_object p w;
  match m_thread x with Some u => pthread_join u w | None => mret (Some w) end.

(** [Thread::~Thread] and the end of the object. *)
Definition Thread_delete p w : res world :=
  x ← get_object p w;
  w ← match m_thread x with Some u => pthread_detach u w | None => mret w end;
  mret (World (delete p (objects w)) (threads w) (ran w) (fresh w)).

(** The steps of the threads that use [Thread] objects. *)
Inductive tstep : Type :=
| TNew (cb : nat) (name : text) (tid : Z)
| TRun u | TSetName u (name : text) | TJoin p | TDelete p.

Definition tstep_exec (c : tstep) w : res world :=
  match c with
  | TNew cb name tid => '(_, w) ← Thread_new cb name 0 tid w; mret w
  | TRun u => run_step u w
  | TSetName u name => SetName u name w
  | TJoin p => o ← join p w; mret (default w o)
  | TDelete p => Thread_delete p w
  end.
End Threads.

(** ** The scoped locks hold what they have taken *)

Section GuardTheory.
Context {S : Type} `{Lockable S} (held : S -> list (Z * mode)) `{!LockLaws S held}.
Implicit Types (w : locks S) (g : nat).

Lemma taken_insert_new gs g x : gs !! g = None ->
  taken (<[g := x]> gs) ≡ₚ option_list (taking x) ++ taken gs.
Proof.
  intros Hg. unfold taken. rewrite map_to_list_insert by done. simpl. by destruct (taking x).
Qed.

Lemma taken_delete gs g x : gs !! g = Some x ->
  taken gs ≡ₚ option_list (taking x) ++ taken (delete g gs).
Proof.
  intros Hg. rewrite <- (insert_delete_id gs g x) at 1 by done.
  apply taken_insert_new, lookup_delete_eq.
Qed.

Lemma taken_insert gs g x y : gs !! g = Some x ->
  taken (<[g := y]> gs) ≡ₚ option_list (taking y) ++ taken (delete g gs).
Proof.
  intros Hg. rewrite <- insert_delete_eq. apply taken_insert_new, lookup_delete_eq.
Qed.

Lemma taken_elem gs tm : tm ∈ taken gs <-> exists g x, gs !! g = Some x /\ taking x = Some tm.
Proof.
  unfold taken. rewrite list_elem_of_omap. split.
  - intros ([g x] & Hg%elem_of_map_to_list & Hx). eauto.
  - intros (g & x & Hg & Hx). exists (g, x). by rewrite elem_of_map_to_list.
Qed.

(** The mutex is held by the locked guards, all of a kind the class has. *)
Record guards_ok w : Prop := GuardsOk {
  go_held : held (m_mutex w) ≡ₚ taken (guards w);
  go_compatible : compatible (held (m_mutex w));
  go_kinds : forall g x, guards w !! g = Some x -> supports (g_mode x) = true }.

(** The outcome of a call. *)
Definition fine w (r : res (outcome S)) (may_wait : bool) : Prop :=
  (r = Ok Waits /\ may_wait = true) \/ exists w', r = Ok (Goes w') /\ guards_ok w'.

Lemma guard_new_ok g t m w : guards_ok w -> guards w !! g = None -> supports m = true ->
  may_take m t (taken (guards w)) -> fine w (guard_new g t m w) true.
Proof.
  intros [Hh Hc Hk] Hg Hm Hmay. unfold guard_new. rewrite <- Hh in Hmay.
  destruct (acquire_held m t _ Hm Hc Hmay) as [->|(s & -> & Hh' & Hc')]; res_simpl; [by left|].
  right. eexists. split; [done|]. split; cbn [m_mutex guards]; [|done|].
  - rewrite Hh', taken_insert_new by done. simpl. by rewrite Hh.
  - intros k x [[<- <-]|[_ Hx]]%lookup_insert_Some; eauto.
Qed.

Lemma guard_lock_ok g w : guards_ok w -> guard_valid (GLock g) w -> fine w (guard_lock g w) true.
Proof.
  intros Hok (x & Hx & Hmay). unfold guard_lock. rewrite Hx. cbn [deref]. res_simpl.
  destruct (m_locked x) eqn:El; [right; eauto|]. destruct Hok as [Hh Hc Hk].
  specialize (Hmay eq_refl). rewrite <- Hh in Hmay.
  destruct (acquire_held _ _ _ (Hk _ _ Hx) Hc Hmay) as [->|(s & -> & Hh' & Hc')]; res_simpl; [by left|].
  right. eexists. split; [done|]. split; cbn [m_mutex guards]; [|done|].
  - rewrite Hh', (taken_insert _ _ x) by done. cbn. rewrite Hh, (taken_delete _ g x) by done.
    unfold taking at 1. by rewrite El.
  - intros k y [[<- <-]|[_ Hy]]%lookup_insert_Some; [exact (Hk g x Hx)|by apply (Hk k)].
Qed.

Lemma compatible_tail tm h h' : compatible h -> h ≡ₚ tm :: h' -> compatible h'.
Proof.
  intros [Hs|[t ->]] E; left; intros y Hy.
  - apply Hs. rewrite E. by right.
  - symmetry in E. apply Permutation_singleton_r in E. simplify_eq. by apply not_elem_of_nil in Hy.
Qed.

Lemma guard_unlock_ok g w : guards_ok w -> is_Some (guards w !! g) ->
  exists w' x, guard_unlock g w = Ok (Goes w') /\ guards_ok w' /\ guards w !! g = Some x /\
    guards w' = <[g := Guard (g_thread x) (g_mode x) false]> (guards w).
Proof.
  intros Hok [x Hx]. unfold guard_unlock. rewrite Hx. cbn [deref]. res_simpl.
  destruct (m_locked x) eqn:El.
  2: { exists w, x. split_and!; [done|done|done|]. destruct x as [t m l]. simpl in *. subst l.
       by rewrite insert_id. }
  destruct Hok as [Hh Hc Hk].
  assert ((g_thread x, g_mode x) ∈ held (m_mutex w)) as Hin
    by (rewrite Hh, taken_elem; exists g, x; unfold taking; by rewrite El).
  destruct (release_held _ _ (m_mutex w) Hc Hin) as (s & -> & Hs). res_simpl.
  eexists _, x. split; [done|]. split; [|done]. split; cbn [m_mutex guards].
  - rewrite (taken_insert _ _ x) by done. cbn. apply (Permutation_cons_inv (a := (g_thread x, g_mode x))).
    rewrite <- Hs, Hh, (taken_delete _ g x) by done. unfold taking at 1. by rewrite El.
  - by eapply compatible_tail.
  - intros k y [[<- <-]|[_ Hy]]%lookup_insert_Some; [exact (Hk g x Hx)|by apply (Hk k)].
Qed.

Lemma guard_delete_ok g w : guards_ok w -> is_Some (guards w !! g) ->
  exists w', guard_delete g w = Ok (Goes w') /\ guards_ok w' /\ guards w' = delete g (guards w).
Proof.
  intros Hok Hg. unfold guard_delete. destruct (guard_unlock_ok g w Hok Hg) as (w1 & x & -> & [Hh Hc Hk] & Hx & E).
  res_simpl. eexists. split; [done|]. split; cbn [m_mutex guards]; [|by rewrite E, delete_insert_eq].
  split; cbn [m_mutex guards]; [|done|].
  - rewrite Hh, (taken_delete _ g (Guard (g_thread x) (g_mode x) false)); [done|by rewrite E, lookup_insert_eq].
  - intros k y [_ Hy]%lookup_delete_Some. eauto.
Qed.

Lemma guards_reachable_ok s0 w : held s0 = [] -> guards_reachable s0 w -> guards_ok w.
Proof.
  intros H0. induction 1 as [|c w w' _ IH Hv He].
  - split; cbn [m_mutex guards]; rewrite ?H0; [done|left; by intros tm ?%not_elem_of_nil|by intros g x [=]].
  - assert (forall r b, r = Ok (Goes w') -> fine w r b -> guards_ok w') as Hf
      by (intros r b -> [[? _]|(w1 & [= <-] & ?)]; done).
    destruct c as [g t m|g|g|g]; cbn [guard_exec guard_valid] in *.
    + destruct Hv as (? & ? & ?). eapply Hf; [exact He|by apply guard_new_ok].
    + eapply Hf; [exact He|by apply guard_lock_ok].
    + destruct (guard_unlock_ok g w IH Hv) as (w1 & ? & ? & ? & _). congruence.
    + destruct (guard_delete_ok g w IH Hv) as (w1 & ? & ? & _). congruence.
Qed.

(** C31.  Scoped locks exclude each other: whatever threads make, lock, unlock
    and destroy guards on one mutex, in any order - as long as no thread locks
    through one guard what it holds through another ([guard_valid]; it may share
    once more what it shares) -, a locked exclusive guard is the only locked
    guard; no such call has undefined behaviour - constructors and [lock] go on
    or wait, [unlock] and destructors always go on, a second [unlock] changes
    nothing - and when all guards are gone nobody holds the mutex.  For a thread
    that locks what it holds none of this is promised: POSIX leaves it undefined
    for a mutex, and for a read-write lock the code it may return is ignored
    (relock_not_excluded). *)
Theorem scoped_locks_exclude s0 w :
  held s0 = [] -> guards_reachable s0 w ->
  (forall g1 g2 x1 x2, guards w !! g1 = Some x1 -> guards w !! g2 = Some x2 ->
     m_locked x1 = true -> m_locked x2 = true -> g_mode x1 = Exclusive -> g1 = g2) /\
  (forall c, guard_valid c w -> exists o, guard_exec c w = Ok o /\
     (o = Waits -> match c with GUnlock _ | GDelete _ => False | _ => True end)) /\
  (forall g, is_Some (guards w !! g) -> exists w', guard_unlock g w = Ok (Goes w') /\
     guard_unlock g w' = Ok (Goes w')) /\
  (guards w = ∅ -> held (m_mutex w) = []).
Proof.
  intros H0 Hr. pose proof (guards_reachable_ok s0 w H0 Hr) as Hok. pose proof Hok as [Hh Hc Hk]. split_and!.
  - intros g1 g2 x1 x2 H1 H2 L1 L2 M1. destruct (decide (g1 = g2)) as [|Hne]; [done|exfalso].
    rewrite Hh in Hc. rewrite (taken_delete _ g1 x1), (taken_delete (delete g1 _) g2 x2) in Hc
      by (done || by rewrite lookup_delete_ne). unfold taking at 1 2 in Hc. rewrite L1, L2 in Hc. simpl in Hc.
    destruct Hc as [Hs|[t E]]; [|done]. specialize (Hs (g_thread x1, g_mode x1) ltac:(by left)). simpl in Hs.
    congruence.
  - intros c Hv. destruct c as [g t m|g|g|g]; cbn [guard_exec guard_valid] in *.
    + destruct Hv as (? & ? & ?). destruct (guard_new_ok g t m w Hok) as [[-> _]|(w' & -> & _)]; eauto.
    + destruct (guard_lock_ok g w Hok Hv) as [[-> _]|(w' & -> & _)]; eauto.
    + destruct (guard_unlock_ok g w Hok Hv) as (w' & ? & -> & _). by eexists.
    + destruct (guard_delete_ok g w Hok Hv) as (w' & -> & _). by eexists.
  - intros g Hg. destruct (guard_unlock_ok g w Hok Hg) as (w' & x & -> & _ & _ & E). exists w'. split; [done|].
    unfold guard_unlock. by rewrite E, lookup_insert_eq.
  - intros E. rewrite E in Hh. by apply Permutation_nil_r in Hh.
Qed.
End GuardTheory.

(** ** The lock classes keep the promise *)

(** What POSIX says of the locks, to a thread that does not lock what it holds:
    a lock that is taken has been free - or, for a shared one, not held
    exclusively -, and its holder can give it back.  [pthread_rwlock_rdlock] may
    find too many read locks taken. *)
Class PthreadLaws `{Pthread} : Type := {
  mutex_held : mutex_t -> list (Z * mode);
  spin_held : spinlock_t -> list (Z * mode);
  rw_held : rwlock_t -> list (Z * mode);
  mutex_lock_ok t s : (t, Exclusive) ∉ mutex_held s -> pthread_mutex_lock t s = Ok None \/
    exists s', pthread_mutex_lock t s = Ok (Some (0, s')) /\ mutex_held s = [] /\
      mutex_held s' = [(t, Exclusive)];
  mutex_unlock_ok t s : mutex_held s = [(t, Exclusive)] ->
    exists s', pthread_mutex_unlock t s = Ok (0, s') /\ mutex_held s' = [];
  spin_lock_ok t s : (t, Exclusive) ∉ spin_held s -> pthread_spin_lock t s = Ok None \/
    exists s', pthread_spin_lock t s = Ok (Some (0, s')) /\ spin_held s = [] /\
      spin_held s' = [(t, Exclusive)];
  spin_unlock_ok t s : spin_held s = [(t, Exclusive)] ->
    exists s', pthread_spin_unlock t s = Ok (0, s') /\ spin_held s' = [];
  rdlock_ok t s : (t, Exclusive) ∉ rw_held s ->
    pthread_rwlock_rdlock t s = Ok None \/ pthread_rwlock_rdlock t s = Ok (Some (EAGAIN, s)) \/
    exists s', pthread_rwlock_rdlock t s = Ok (Some (0, s')) /\
      (forall tm, tm ∈ rw_held s -> tm.2 = Shared) /\ rw_held s' ≡ₚ (t, Shared) :: rw_held s;
  wrlock_ok t s : t ∉ (rw_held s).*1 -> pthread_rwlock_wrlock t s = Ok None \/
    exists s', pthread_rwlock_wrlock t s = Ok (Some (0, s')) /\ rw_held s = [] /\
      rw_held s' = [(t, Exclusive)];
  rwlock_unlock_ok t m s : (t, m) ∈ rw_held s ->
    exists s', pthread_rwlock_unlock t s = Ok (0, s') /\ rw_held s ≡ₚ (t, m) :: rw_held s' }.

(** The most read locks there can be is never reached: the classes would not
    see it either. *)
Class ReadLocksSuffice `{Pthread} : Prop :=
  read_locks_suffice t s s' : pthread_rwlock_rdlock t s <> Ok (Some (EAGAIN, s')).

Definition CASlock_held (s : CASlock) : list (Z * mode) :=
  if m_flag s then [(m_setter s, Exclusive)] else [].

(** A lock that only one thread can hold, exclusively. *)
Lemma exclusive_laws {S} `{Lockable S} (held : S -> list (Z * mode)) :
  supports (S := S) = only_exclusive ->
  (forall t s, (t, Exclusive) ∉ held s -> acquire Exclusive t s = Ok None \/
     exists s', acquire Exclusive t s = Ok (Some s') /\ held s = [] /\ held s' = [(t, Exclusive)]) ->
  (forall t s, held s = [(t, Exclusive)] -> exists s', release t s = Ok s' /\ held s' = []) ->
  (forall s, held s = [] \/ exists t, held s = [(t, Exclusive)]) ->
  LockLaws S held.
Proof.
  intros Hsup Ha Hr Hone. split.
  - intros m t s Hm _ Hmay. rewrite Hsup in Hm. destruct m; [done|]. destruct (Ha t s) as [?|(s' & -> & E & E')].
    + intros Hin. by destruct (Hmay _ Hin).
    + by left.
    + right. exists s'. rewrite E, E'. split_and!; [done|done|right; eauto].
  - intros m t s _ Hin. destruct (Hone s) as [E|[t' E]]; rewrite E in *; [by apply not_elem_of_nil in Hin|].
    apply list_elem_of_singleton in Hin. simplify_eq. destruct (Hr t' s E) as (s' & -> & E').
    exists s'. by rewrite E'.
Qed.

Lemma caslock_laws : @LockLaws CASlock CASlock_lockable CASlock_held.
Proof.
  apply exclusive_laws; [done| | |].
  - intros t [f o] _. cbn. unfold CASlock_lock, CASlock_held. simpl. destruct f; [by left|right]. by eexists.
  - intros t [f o]. unfold CASlock_held. simpl. destruct f; [|done]. intros _. by eexists.
  - intros [f o]. unfold CASlock_held. simpl. destruct f; [right; by eexists|by left].
Qed.

Section ClassTheory.
Context `{PthreadLaws}.

Lemma mutex_laws : (forall s, mutex_held s = [] \/ exists t, mutex_held s = [(t, Exclusive)]) ->
  @LockLaws mutex_t Mutex mutex_held.
Proof.
  intros Hone. apply exclusive_laws; [done|intros t s Ht; cbn|intros t s Hs; cbn|done].
  - destruct (mutex_lock_ok t s Ht) as [->|(s' & -> & ?)]; [by left|right]. by exists s'.
  - destruct (mutex_unlock_ok t s Hs) as (s' & -> & ?). by exists s'.
Qed.

Lemma spinlock_laws : (forall s, spin_held s = [] \/ exists t, spin_held s = [(t, Exclusive)]) ->
  @LockLaws spinlock_t Spinlock spin_held.
Proof.
  intros Hone. apply exclusive_laws; [done|intros t s Ht; cbn|intros t s Hs; cbn|done].
  - destruct (spin_lock_ok t s Ht) as [->|(s' & -> & ?)]; [by left|right]. by exists s'.
  - destruct (spin_unlock_ok t s Hs) as (s' & -> & ?). by exists s'.
Qed.

Lemma rwlock_laws `{!ReadLocksSuffice} : @LockLaws rwlock_t RWMutex rw_held.
Proof.
  split.
  - intros m t s _ _ Hmay. destruct m; cbn.
    + destruct (rdlock_ok t s) as [->|[E|(s' & -> & Hs & Hh)]]; [by intros Hin; destruct (Hmay _ Hin)|by left|
        by apply read_locks_suffice in E|right].
      exists s'. split_and!; [done|done|left]. intros tm. rewrite Hh. intros [->|Htm]%elem_of_cons; [done|by apply Hs].
    + destruct (wrlock_ok t s) as [->|(s' & -> & E & E')]; [|by left|].
      { intros ([t' m'] & [= <-] & Hin)%list_elem_of_fmap. by destruct (Hmay _ Hin). }
      right. exists s'. rewrite E, E'. split_and!; [done|done|right; eauto].
  - intros t m s _ Hin. cbn. destruct (rwlock_unlock_ok t m s Hin) as (s' & -> & ?). by exists s'.
Qed.

(** The lock classes keep the promise the scoped locks rely on: [Mutex],
    [Spinlock] and [RWMutex] by POSIX (at most one thread can hold the first
    two, and the last does not run out of read locks), [CASlock] by its loop over the flag, which ends exactly when the flag
    was clear; [NullMutex] keeps nothing: two scoped locks on it are both
    locked. *)
Theorem lock_classes :
  ((forall s, mutex_held s = [] \/ exists t, mutex_held s = [(t, Exclusive)]) ->
     @LockLaws mutex_t Mutex mutex_held) /\
  ((forall s, spin_held s = [] \/ exists t, spin_held s = [(t, Exclusive)]) ->
     @LockLaws spinlock_t Spinlock spin_held) /\
  (ReadLocksSuffice -> @LockLaws rwlock_t RWMutex rw_held) /\
  @LockLaws CASlock CASlock_lockable CASlock_held /\
  CASlock_held CASlock_new = [] /\
  (forall t s, is_Some (CASlock_lock t s) <-> CASlock_held s = []) /\
  (exists w, @guards_reachable unit NullMutex tt w /\
     guards w = {[1%nat := Guard 1 Exclusive true; 2%nat := Guard 2 Exclusive true]}).
Proof.
  split_and!.
  - apply mutex_laws.
  - apply spinlock_laws.
  - intros ?. apply rwlock_laws.
  - apply caslock_laws.
  - done.
  - intros t [f o]. unfold CASlock_lock, CASlock_held. simpl. by destruct f; split.
  - eexists. split.
    + eapply (G_call tt (GNew 1 1 Exclusive)); [|split_and!; [| |apply may_take_new]|reflexivity].
      * eapply (G_call tt (GNew 2 2 Exclusive)); [apply G_start| |reflexivity].
        split_and!; [apply lookup_empty|done|]. by intros m ?%not_elem_of_nil.
      * done.
      * done.
      * by vm_compute; intros [?|?%not_elem_of_nil]%elem_of_cons.
    + done.
Qed.
End ClassTheory.

(** ** Semaphores count *)

Inductive sem_call : Type := SWait (interrupted : bool) | SNotify.

(** The calls, of any threads, that have gone on. *)
Inductive sem_run (count : Z) : list sem_call -> Z -> Prop :=
| S_new n : Semaphore_new count = Ok n -> sem_run count [] n
| S_wait i cs n n' : sem_run count cs n -> wait i n = Ok (Some n') -> sem_run count (cs ++ [SWait i]) n'
| S_notify cs n n' : sem_run count cs n -> notify n = Ok n' -> sem_run count (cs ++ [SNotify]) n'.

Definition waits (cs : list sem_call) : Z :=
  Z.of_nat (length (List.filter (fun c => match c with SWait _ => true | SNotify => false end) cs)).
Definition notifies (cs : list sem_call) : Z :=
  Z.of_nat (length (List.filter (fun c => match c with SWait _ => false | SNotify => true end) cs)).

Lemma counts_app cs c :
  waits (cs ++ [c]) = waits cs + (match c with SWait _ => 1 | SNotify => 0 end) /\
  notifies (cs ++ [c]) = notifies cs + (match c with SWait _ => 0 | SNotify => 1 end).
Proof.
  unfold waits, notifies. rewrite !List.filter_app, !length_app, !Nat2Z.inj_add. by destruct c.
Qed.

(** A semaphore lets through what it has: no more waits have returned than
    its initial count and the notifications; a wait goes on at once while the
    count is positive, blocks at zero - and throws there when a signal
    interrupts it, since [EINTR] is not retried - and a notification throws
    only at SEM_VALUE_MAX. *)
Theorem semaphore_counts (count : Z) (cs : list sem_call) n :
  0 <= count -> sem_run count cs n ->
  n = count + notifies cs - waits cs /\ 0 <= n <= SEM_VALUE_MAX /\
  (0 < n -> forall i, wait i n = Ok (Some (n - 1))) /\
  (n = 0 -> wait false n = Ok None /\ wait true n = Err (FThrow "sem_wait error")) /\
  (n < SEM_VALUE_MAX -> notify n = Ok (n + 1)).
Proof.
  intros H0 Hr. assert (n = count + notifies cs - waits cs /\ 0 <= n <= SEM_VALUE_MAX) as [Hn Hb].
  { induction Hr as [n Hn|i cs n n' _ [IH Hb] Hw|cs n n' _ [IH Hb] Hw].
    - unfold Semaphore_new in Hn. destruct (Z.ltb_spec SEM_VALUE_MAX count); [done|]. simplify_eq.
      unfold waits, notifies. simpl. lia.
    - destruct (counts_app cs (SWait i)) as [-> ->]. unfold wait in Hw. destruct (Z.ltb_spec 0 n).
      + simplify_eq. lia.
      + by destruct i.
    - destruct (counts_app cs SNotify) as [-> ->]. unfold notify in Hw.
      destruct (Z.eqb_spec n SEM_VALUE_MAX); [done|]. simplify_eq. lia. }
  split_and!; [done|lia|lia| | |].
  - intros Hp i. unfold wait. by destruct (Z.ltb_spec 0 n); [|lia].
  - intros ->. done.
  - intros Hlt. unfold notify. by destruct (Z.eqb_spec n SEM_VALUE_MAX); [lia|].
Qed.

(** ** Threads *)

Section ThreadTheory.
Implicit Types (w : world) (p : tptr) (u : os).

(** The callback a thread still has to run. *)
Definition pending w (o : os_thread) : option nat :=
  match os_pc o with
  | Running cb => Some cb
  | Finished => None
  | _ => p ← os_arg o; x ← objects w !! p; m_cb x
  end.
Definition waiting w : list nat := omap (fun uo => pending w uo.2) (map_to_list (threads w)).

(** Before the callback has been taken out of the object. *)
Definition early (c : pc) : bool :=
  match c with Running _ | Finished => false | _ => true end.

(** What the thread has done to itself and its object so far. *)
Definition progress w u (o : os_thread) p : Prop :=
  (early (os_pc o) = true -> exists x cb, objects w !! p = Some x /\ m_cb x = Some cb) /\
  (os_pc o <> Started -> t_thread o = Some p) /\
  (os_pc o = Started -> t_thread o = None) /\
  (forall x, objects w !! p = Some x ->
     m_id x = (match os_pc o with Started | Entered => -1 | _ => os_tid o end) /\
     (early (os_pc o) = false -> m_cb x = None) /\
     (os_pc o <> Started -> t_thread_name o = m_name x)).

Record threads_ok (created : list nat) w : Prop := ThreadsOk {
  to_objects : forall p x, objects w !! p = Some x ->
    (p < fresh w)%nat /\ m_thread x = Some (S p) /\ is_Some (threads w !! S p);
  to_threads : forall u o, threads w !! u = Some o ->
    (u < fresh w)%nat /\ exists p, u = S p /\ os_arg o = Some p /\ progress w u o p;
  to_ran : ran w ++ waiting w ≡ₚ created }.

(** Uses that keep to the life of the objects: a [Thread] is joined while it can
    be - once -, it is destroyed after its callback has been taken and without
    having been joined, and then its thread does not set its name. *)
Definition tstep_valid (c : tstep) w : Prop :=
  match c with
  | TNew _ _ _ => True
  | TRun u => is_Some (threads w !! u)
  | TSetName u _ => exists o, threads w !! u = Some o /\
      (forall p, t_thread o = Some p -> is_Some (objects w !! p))
  | TJoin p => exists x o, objects w !! p = Some x /\ threads w !! S p = Some o /\ os_joinable o = true
  | TDelete p => exists x o, objects w !! p = Some x /\ threads w !! S p = Some o /\
      os_joinable o = true /\ early (os_pc o) = false
  end.

Definition new_callback (c : tstep) : list nat := match c with TNew cb _ _ => [cb] | _ => [] end.

(** From no objects; [created] are the callbacks of the objects made. *)
Inductive trun : list nat -> world -> Prop :=
| T_start : trun [] (World ∅ ∅ [] 0)
| T_step c created w w' : trun created w -> tstep_valid c w -> tstep_exec c w = Ok w' ->
    trun (created ++ new_callback c) w'.

Lemma omap_cons_app {A B} (f : A -> option B) x l : omap f (x :: l) = option_list (f x) ++ omap f l.
Proof. cbn. by destruct (f x). Qed.

Lemma waiting_insert w w' u o' :
  threads w' = <[u := o']> (threads w) ->
  (forall k o, k <> u -> threads w !! k = Some o -> pending w' o = pending w o) ->
  exists rest, waiting w' ≡ₚ option_list (pending w' o') ++ rest /\
    (forall o, threads w !! u = Some o -> waiting w ≡ₚ option_list (pending w o) ++ rest) /\
    (threads w !! u = None -> waiting w ≡ₚ rest).
Proof.
  intros Et Hp. exists (omap (fun uo => pending w uo.2) (map_to_list (delete u (threads w)))).
  unfold waiting. rewrite Et, <- insert_delete_eq. split; [|split].
  - rewrite map_to_list_insert, omap_cons_app by apply lookup_delete_eq. cbn [snd]. apply reflexive_eq. f_equal.
    apply list_omap_ext, Forall_Forall2_diag, Forall_forall.
    intros [k o] [Hne Hk]%elem_of_map_to_list%lookup_delete_Some. by apply (Hp k).
  - intros o Ho. rewrite <- (insert_delete_id (threads w) u o) at 1 by done.
    by rewrite map_to_list_insert, omap_cons_app by apply lookup_delete_eq.
  - intros Hu. by rewrite delete_id.
Qed.

(** A step of thread [S p] that changes its record and its object. *)
Lemma threads_ok_step created w w' p o o' :
  threads_ok created w -> threads w !! S p = Some o ->
  threads w' = <[S p := o']> (threads w) -> fresh w' = fresh w -> os_arg o' = Some p ->
  (forall q, q <> p -> objects w' !! q = objects w !! q) ->
  (forall x', objects w' !! p = Some x' -> exists x, objects w !! p = Some x /\ m_thread x' = m_thread x) ->
  progress w' (S p) o' p ->
  ran w' ++ option_list (pending w' o') ≡ₚ ran w ++ option_list (pending w o) ->
  threads_ok created w'.
Proof.
  intros [Ho Ht Hr] Hu Et Ef Ea Hother Hobj Hp Hran. split.
  - intros q x Hx. rewrite Ef, Et. assert (exists x0, objects w !! q = Some x0 /\ m_thread x = m_thread x0) as (x0 & Hx0 & ->).
    { destruct (decide (q = p)) as [->|Hne]; [by apply Hobj|]. exists x. by rewrite <- Hother. }
    destruct (Ho q x0 Hx0) as (? & ? & ?). split_and!; [done|done|]. by apply lookup_insert_is_Some'; right.
  - intros k y. rewrite Ef, Et. intros [[<- <-]|[Hne Hk]]%lookup_insert_Some.
    + destruct (Ht _ _ Hu) as (? & _). split; [done|]. by exists p.
    + destruct (Ht _ _ Hk) as (? & q & -> & ? & Hq). split; [done|]. exists q. split_and!; [done|done|].
      unfold progress in *. by rewrite Hother by congruence.
  - destruct (waiting_insert w w' (S p) o' Et) as (rest & E1 & E2 & _).
    + intros k y Hne Hk. destruct (Ht _ _ Hk) as (_ & q & -> & Eq & _). unfold pending. rewrite Eq.
      cbn [mbind option_bind]. by rewrite Hother by congruence.
    + rewrite E1, app_assoc, Hran, <- app_assoc, <- (E2 o Hu). done.
Qed.

Lemma threads_ok_new created w cb name tid w' :
  threads_ok created w -> tstep_exec (TNew cb name tid) w = Ok w' -> threads_ok (created ++ [cb]) w'.
Proof.
  intros [Ho Ht Hr] E. cbn in E. injection E as <-. set (p := fresh w).
  set (x := Thr _ _ _ _). set (o := Os _ _ _ _ _ _ _).
  assert (threads w !! S p = None) as Hnone
    by (destruct (threads w !! S p) as [y|] eqn:E; [destruct (Ht _ _ E); lia|done]).
  split; cbn [objects threads fresh ran].
  - intros q y [[<- <-]|[Hne Hq]]%lookup_insert_Some.
    + split_and!; [lia|done|]. rewrite lookup_insert_eq. by eexists.
    + destruct (Ho q y Hq) as (? & ? & ?). split_and!; [lia|done|]. apply lookup_insert_is_Some'. by right.
  - intros k y [[<- <-]|[Hne Hk]]%lookup_insert_Some.
    + split; [lia|]. exists p. split_and!; [done|done|]. unfold progress. cbn. rewrite lookup_insert_eq.
      split_and!; [eauto|done|done|]. intros z [= <-]. done.
    + destruct (Ht _ _ Hk) as (? & q & -> & ? & Hq). split; [lia|]. exists q. split_and!; [done|done|].
      unfold progress in *. cbn [objects]. by rewrite lookup_insert_ne by lia.
  - destruct (waiting_insert w (World (<[p := x]> (objects w)) (<[S p := o]> (threads w)) (ran w) (S (S p))) (S p) o)
      as (rest & E1 & _ & E2); [done| |].
    + intros k y Hne Hk. destruct (Ht _ _ Hk) as (? & q & -> & Eq & _). unfold pending. rewrite Eq.
      cbn [mbind option_bind objects]. by rewrite lookup_insert_ne by lia.
    + rewrite E1, <- E2 by done. unfold pending. cbn. rewrite lookup_insert_eq. cbn.
      rewrite <- Hr. rewrite (Permutation_app_comm (ran w ++ waiting w)). simpl. solve_Permutation.
Qed.

(** How far a thread is from its end. *)
Definition rank (c : pc) : nat :=
  match c with
  | Started => 5 | Entered => 4 | Identified => 3 | OsNamed => 2 | Running _ => 1 | Finished => 0
  end.

Lemma run_step_ok created w u o :
  threads_ok created w -> threads w !! u = Some o ->
  exists w', run_step u w = Ok w' /\ threads_ok created w' /\
    (os_pc o = Finished -> w' = w) /\
    (os_pc o <> Finished ->
       exists o', threads w' !! u = Some o' /\ (rank (os_pc o') < rank (os_pc o))%nat).
Proof.
  intros Hok Hu. pose proof Hok as [Ho Ht Hr]. destruct (Ht _ _ Hu) as (_ & p & -> & Ea & Hp).
  destruct Hp as (He & Hth & Hns & Hx). unfold run_step, get_os, get_object. rewrite Hu. cbn [deref]. res_simpl.
  rewrite Ea. destruct o as [c a tt tn on tid j]. cbn [os_pc os_arg t_thread t_thread_name os_name os_tid os_joinable] in *.
  subst a. destruct c as [| | | |cb|].
  - destruct (He eq_refl) as (x & cb & Ex & Ecb). rewrite Ex. cbn [deref]. res_simpl.
    eexists. split; [done|]. split_and!; [|done|intros _; eexists; cbn; rewrite lookup_insert_eq; split; [done|simpl; lia]].
    eapply (threads_ok_step created w _ p _ _ Hok Hu); try done; [by eauto|].
    unfold progress. cbn. split_and!; [eauto|done|done|]. intros y Ey. destruct (Hx y Ey). simplify_eq. by split_and!.
  - destruct (He eq_refl) as (x & cb & Ex & Ecb). rewrite Ex. cbn [deref]. res_simpl.
    eexists. split; [done|]. split_and!; [|done|intros _; eexists; cbn; rewrite lookup_insert_eq; split; [done|simpl; lia]].
    eapply (threads_ok_step created w _ p _ _ Hok Hu); try done; cbn [objects put_os put_object at_pc].
    + intros q Hq. by rewrite lookup_insert_ne.
    + intros y. rewrite lookup_insert_eq. intros [= <-]. by exists x.
    + unfold progress. cbn. rewrite lookup_insert_eq. split_and!; [eauto|by intros _; apply Hth|done|].
      intros y [= <-]. cbn. destruct (Hx x Ex) as (_ & _ & Hn). split_and!; [done|done|by intros _; apply Hn].
    + unfold pending. cbn. rewrite lookup_insert_eq. cbn. by rewrite Ex.
  - destruct (He eq_refl) as (x & cb & Ex & Ecb). rewrite Ex. cbn [deref]. res_simpl.
    eexists. split; [done|]. split_and!; [|done|intros _; eexists; cbn; rewrite lookup_insert_eq; split; [done|simpl; lia]].
    eapply (threads_ok_step created w _ p _ _ Hok Hu); try done; [by eauto|].
    unfold progress. cbn. split_and!; [eauto|by intros _; apply Hth|done|].
    intros y Ey. destruct (Hx y Ey) as (? & ? & Hn). split_and!; [done|done|by intros _; apply Hn].
  - destruct (He eq_refl) as (x & cb & Ex & Ecb). rewrite Ex. cbn [deref]. res_simpl. rewrite Ecb.
    eexists. split; [done|]. split_and!; [|done|intros _; eexists; cbn; rewrite lookup_insert_eq; split; [done|simpl; lia]].
    eapply (threads_ok_step created w _ p _ _ Hok Hu); try done; cbn [objects put_os put_object at_pc].
    + intros q Hq. by rewrite lookup_insert_ne.
    + intros y. rewrite lookup_insert_eq. intros [= <-]. by exists x.
    + unfold progress. cbn. rewrite lookup_insert_eq. split_and!; [done|by intros _; apply Hth|done|].
      intros y [= <-]. cbn. destruct (Hx x Ex) as (? & _ & Hn). split_and!; [done|done|by intros _; apply Hn].
    + unfold pending. cbn. rewrite Ex. cbn. by rewrite Ecb.
  - eexists. split; [done|]. split_and!; [|done|intros _; eexists; cbn; rewrite lookup_insert_eq; split; [done|simpl; lia]].
    eapply (threads_ok_step created w _ p _ _ Hok Hu); try done; [by eauto| |].
    + unfold progress. cbn. split_and!; [done|by intros _; apply Hth|done|].
      intros y Ey. destruct (Hx y Ey) as (? & ? & Hn). split_and!; [done|done|by intros _; apply Hn].
    + unfold pending. cbn. by rewrite app_nil_r.
  - exists w. split_and!; done.
Qed.

Lemma tstep_ok created c w :
  threads_ok created w -> tstep_valid c w ->
  exists w', tstep_exec c w = Ok w' /\ threads_ok (created ++ new_callback c) w'.
Proof.
  intros Hok Hv. pose proof Hok as [Ho Ht Hr].
  destruct c as [cb name tid|u|u name|p|p]; cbn [tstep_valid tstep_exec new_callback] in *.
  - eexists. split; [done|]. by eapply threads_ok_new.
  - destruct Hv as [o Hu]. rewrite app_nil_r. destruct (run_step_ok created w u o Hok Hu) as (w' & ? & ? & _). eauto.
  - destruct Hv as (o & Hu & Hlive). rewrite app_nil_r. destruct (Ht _ _ Hu) as (_ & p & -> & Ea & (He & Hth & Hns & Hx)).
    unfold SetName, get_os, get_object. rewrite Hu. cbn [deref]. res_simpl.
    destruct (t_thread o) as [q|] eqn:Eq.
    + assert (q = p) as ->. { destruct (decide (os_pc o = Started)) as [E|E]; [by apply Hns in E|]. by apply Hth in E as [= ->]. }
      destruct (Hlive p eq_refl) as [x Ex]. rewrite Ex. cbn [deref]. res_simpl. eexists. split; [done|].
      eapply (threads_ok_step created w _ p o _ Hok Hu); try done; cbn [objects put_os put_object].
      * intros q Hq. by rewrite lookup_insert_ne.
      * intros y. rewrite lookup_insert_eq. intros [= <-]. by exists x.
      * unfold progress. cbn. rewrite lookup_insert_eq. split_and!; [|exact Hth|exact Hns|].
        -- intros E. destruct (He E) as (z & cb & Ez & ?). simplify_eq. eauto.
        -- intros y [= <-]. cbn. destruct (Hx x Ex) as (? & ? & _). done.
      * unfold pending. cbn. rewrite Ea. cbn. rewrite lookup_insert_eq. cbn. by rewrite Ex.
    + res_simpl. eexists. split; [done|].
      eapply (threads_ok_step created w _ p o _ Hok Hu); try done; cbn [objects put_os]; [by eauto|].
      unfold progress. cbn. split_and!; try done. intros y Ey. destruct (Hx y Ey) as (? & ? & Hn). split_and!; [done|done|].
      intros E. by apply Hth in E.
  - destruct Hv as (x & o & Hp & Hu & Hj). rewrite app_nil_r. destruct (Ho p x Hp) as (_ & Em & _).
    destruct (Ht _ _ Hu) as (_ & p' & [= <-] & Ea & Hprog).
    unfold join, get_object, pthread_join, get_os. rewrite Hp. cbn [deref]. res_simpl. rewrite Em, Hu. cbn [deref]. res_simpl.
    rewrite Hj. destruct (os_pc o) eqn:Epc; res_simpl; cbn [default]; try by exists w.
    eexists. split; [done|]. eapply (threads_ok_step created w _ p o _ Hok Hu); try done; cbn [objects put_os]; [by eauto| |].
    + unfold progress in *. cbn. by rewrite Epc in Hprog.
    + unfold pending. cbn. by rewrite Epc.
  - destruct Hv as (x & o & Hp & Hu & Hj & Hpc). rewrite app_nil_r. destruct (Ho p x Hp) as (_ & Em & _).
    destruct (Ht _ _ Hu) as (_ & p' & [= <-] & Ea & (He & Hth & Hns & Hx)).
    unfold Thread_delete, get_object, pthread_detach, get_os. rewrite Hp. cbn [deref]. res_simpl. rewrite Em, Hu.
    cbn [deref]. res_simpl. rewrite Hj. res_simpl. eexists. split; [done|].
    eapply (threads_ok_step created w _ p o _ Hok Hu); try done; cbn [objects put_os].
    + intros q Hq. by rewrite lookup_delete_ne.
    + intros y. by rewrite lookup_delete_eq.
    + unfold progress. cbn. rewrite lookup_delete_eq. split_and!; [congruence|done|done|done].
    + unfold pending. cbn. by destruct (os_pc o).
Qed.

Lemma trun_ok created w : trun created w -> threads_ok created w.
Proof.
  induction 1 as [|c created w w' _ IH Hv He].
  - split; cbn [objects threads]; [by intros p x [=]|by intros u o [=]|done].
  - destruct (tstep_ok created c w IH Hv) as (w1 & ? & ?). congruence.
Qed.

(** C24.  Threads run what they were given.  The uses it speaks of
    ([tstep_valid]) are those that keep to the life of the objects: a [Thread]
    is joined at most once; it is destroyed only after its callback has been
    taken, and not when it has been joined; and its thread does not call
    [SetName] when the object is gone.  (Outside of them the code has no
    meaning: thread_ends_undefined.) Under such uses no step of any thread
    fails, in any interleaving; every callback of the objects made is run at
    most once, and has been run or still will be; a thread that is not finished
    comes closer to its end with each of its steps; and once it has entered
    [run] its [GetThis] is its object, [GetName] the object's name and the
    object's id its own - before that the id is still -1. *)
Theorem threads_run created w :
  trun created w ->
  (forall c, tstep_valid c w -> exists w', tstep_exec c w = Ok w') /\
  ran w ++ waiting w ≡ₚ created /\
  (forall u o, threads w !! u = Some o -> os_pc o <> Finished ->
     exists w' o', run_step u w = Ok w' /\ threads w' !! u = Some o' /\ (rank (os_pc o') < rank (os_pc o))%nat) /\
  (forall u o p x, threads w !! u = Some o -> os_arg o = Some p -> objects w !! p = Some x ->
     (os_pc o = Started -> m_id x = -1) /\
     (os_pc o <> Started -> GetThis u w = Ok (Some p) /\ GetName u w = Ok (m_name x)) /\
     ((rank (os_pc o) <= 3)%nat -> m_id x = os_tid o)).
Proof.
  intros Hr%trun_ok. split_and!.
  - intros c Hv. destruct (tstep_ok created c w Hr Hv) as (w' & ? & _). eauto.
  - apply Hr.
  - intros u o Hu Hne. destruct (run_step_ok created w u o Hr Hu) as (w' & ? & _ & _ & Hlt).
    destruct (Hlt Hne) as (o' & ? & ?). eauto.
  - intros u o p x Hu Ha Hx. destruct (to_threads _ _ Hr _ _ Hu) as (_ & q & -> & Ea & (He & Hth & Hns & Hp)).
    rewrite Ha in Ea. injection Ea as <-. destruct (Hp x Hx) as (Hid & _ & Hn). unfold GetThis, GetName, get_os.
    rewrite Hu. cbn [deref]. res_simpl. split_and!.
    + intros E. by rewrite E in Hid.
    + intros E. by rewrite Hth, Hn.
    + intros E. destruct (os_pc o); simpl in E; try done; lia.
Qed.

(** Three ends of a [Thread] have no meaning.  [join] leaves [m_thread]
    set: after it a second [join] joins, and the destructor detaches, a thread
    that has been joined.  An object destroyed before its thread has entered
    [run] is read after its end - the constructor does not wait for the thread -
    and [SetName] on a thread whose object is gone writes to it. *)
Theorem thread_ends_undefined w p x u o :
  objects w !! p = Some x -> m_thread x = Some u -> threads w !! u = Some o -> os_joinable o = true ->
  (os_pc o = Finished -> exists w', join p w = Ok (Some w') /\
     join p w' = Err (FUB "pthread_join") /\ Thread_delete p w' = Err (FUB "pthread_detach")) /\
  (os_pc o = Started -> os_arg o = Some p -> exists w', Thread_delete p w = Ok w' /\
     run_step u w' = Err (FUB "Thread")) /\
  (t_thread o = Some p -> forall name, exists w', Thread_delete p w = Ok w' /\
     SetName u name w' = Err (FUB "Thread")).
Proof.
  intros Hp Hm Hu Hj. split_and!.
  - intros E. unfold join, Thread_delete, pthread_join, pthread_detach, get_object, get_os.
    rewrite Hp. cbn [deref]. res_simpl. rewrite Hm, Hu. cbn [deref]. res_simpl. rewrite Hj, E. res_simpl.
    eexists. split; [done|]. cbn [objects put_os]. rewrite Hp. cbn [deref]. res_simpl. rewrite Hm.
    cbn [threads put_os]. rewrite lookup_insert_eq. done.
  - intros E Ea. unfold Thread_delete, pthread_detach, get_object, get_os.
    rewrite Hp. cbn [deref]. res_simpl. rewrite Hm, Hu. cbn [deref]. res_simpl. rewrite Hj. res_simpl.
    eexists. split; [done|]. unfold run_step, get_os, get_object. cbn [threads objects put_os]. rewrite lookup_insert_eq.
    cbn [deref]. res_simpl. cbn. rewrite E, Ea. by rewrite lookup_delete_eq.
  - intros Et name. unfold Thread_delete, pthread_detach, get_object, get_os.
    rewrite Hp. cbn [deref]. res_simpl. rewrite Hm, Hu. cbn [deref]. res_simpl. rewrite Hj. res_simpl.
    eexists. split; [done|]. unfold SetName, get_os, get_object. cbn [threads objects put_os]. rewrite lookup_insert_eq.
    cbn [deref]. res_simpl. cbn. rewrite Et. by rewrite lookup_delete_eq.
Qed.
End ThreadTheory.

(** ** Witnesses *)

(** Locks of pthread as their POSIX states. *)
Inductive ex_rw : Type := Readers (l : list Z) | Writer (t : Z).

Fixpoint ex_leave (t : Z) (l : list Z) : option (list Z) :=
  match l with
  | [] => None
  | x :: l => if x =? t then Some l else cons x <$> ex_leave t l
  end.

(** A mutex relocked by its owner is undefined; a read-write lock finds the owner
    out when it holds it exclusively. *)
Definition ex_take (t : Z) (s : option Z) : res (option (Z * option Z)) :=
  match s with
  | None => Ok (Some (0, Some t))
  | Some o => if o =? t then Err (FUB "lock") else Ok None
  end.
Definition ex_give (t : Z) (s : option Z) : res (Z * option Z) :=
  match s with
  | Some o => if o =? t then Ok (0, None) else Err (FUB "unlock")
  | None => Err (FUB "unlock")
  end.
Definition ex_busy (t o : Z) (s : ex_rw) : res (option (Z * ex_rw)) :=
  if o =? t then Ok (Some (EDEADLK, s)) else Ok None.

#[local] Instance ex_pthread : Pthread := {|
  mutex_t := option Z;
  pthread_mutex_lock := ex_take;
  pthread_mutex_unlock := ex_give;
  spinlock_t := option Z;
  pthread_spin_lock := ex_take;
  pthread_spin_unlock := ex_give;
  rwlock_t := ex_rw;
  pthread_rwlock_rdlock t s :=
    match s with Readers l => Ok (Some (0, Readers (t :: l))) | Writer o => ex_busy t o s end;
  pthread_rwlock_wrlock t s :=
    match s with Readers [] => Ok (Some (0, Writer t)) | Readers _ => Ok None | Writer o => ex_busy t o s end;
  pthread_rwlock_unlock t s :=
    match s with
    | Writer o => if o =? t then Ok (0, Readers []) else Err (FUB "unlock")
    | Readers l => match ex_leave t l with Some l => Ok (0, Readers l) | None => Err (FUB "unlock") end
    end |}.

Definition ex_held (s : option Z) : list (Z * mode) :=
  match s with Some t => [(t, Exclusive)] | None => [] end.
Definition ex_rw_held (s : ex_rw) : list (Z * mode) :=
  match s with Readers l => map (fun t => (t, Shared)) l | Writer t => [(t, Exclusive)] end.

Lemma ex_leave_spec t l : t ∈ l -> exists l', ex_leave t l = Some l' /\ l ≡ₚ t :: l'.
Proof.
  induction l as [|x l IH]; [by intros ?%not_elem_of_nil|]. simpl. intros Hin.
  destruct (Z.eqb_spec x t) as [->|Hne]; [eauto|]. apply elem_of_cons in Hin as [|Hin]; [congruence|].
  destruct (IH Hin) as (l' & -> & E). exists (x :: l'). split; [done|]. rewrite E. apply Permutation_swap.
Qed.

Lemma ex_take_ok t s : (t, Exclusive) ∉ ex_held s -> ex_take t s = Ok None \/
  exists s', ex_take t s = Ok (Some (0, s')) /\ ex_held s = [] /\ ex_held s' = [(t, Exclusive)].
Proof.
  destruct s as [o|]; simpl; [|right; by eexists]. intros Ht. left. destruct (Z.eqb_spec o t) as [->|]; [|done].
  destruct Ht. by left.
Qed.

Lemma ex_give_ok t s : ex_held s = [(t, Exclusive)] -> exists s', ex_give t s = Ok (0, s') /\ ex_held s' = [].
Proof. destruct s; [|done]. intros [= ->]. simpl. rewrite Z.eqb_refl. by exists None. Qed.

Lemma ex_busy_other t o s : t <> o -> ex_busy t o s = Ok None.
Proof. intros Hne. unfold ex_busy. by destruct (Z.eqb_spec o t); [congruence|]. Qed.

#[local] Instance ex_pthread_laws : PthreadLaws.
Proof.
  refine {| mutex_held := (ex_held : mutex_t -> _); spin_held := (ex_held : spinlock_t -> _);
            rw_held := (ex_rw_held : rwlock_t -> _) |}.
  - exact ex_take_ok.
  - exact ex_give_ok.
  - exact ex_take_ok.
  - exact ex_give_ok.
  - intros t [l|o]; simpl; intros Ht; [|left; apply ex_busy_other; intros ->; destruct Ht; by left].
    do 2 right. eexists. split; [done|]. split; [|done]. by intros tm (x & -> & _)%list_elem_of_fmap.
  - intros t [[|x l]|o]; simpl; intros Ht; [right; by eexists|by left|].
    left. apply ex_busy_other. intros ->. destruct Ht. by left.
  - intros t m [l|o]; simpl.
    + intros (x & [= -> ->] & Hx)%list_elem_of_fmap. destruct (ex_leave_spec x l Hx) as (l' & -> & E).
      exists (Readers l'). split; [done|]. simpl. by rewrite E.
    + intros [= -> ->]%list_elem_of_singleton. rewrite Z.eqb_refl. by exists (Readers []).
Defined.

#[local] Instance ex_read_locks : ReadLocksSuffice.
Proof. intros t [l|o] s'; simpl; [done|]. unfold ex_busy. by case_match. Qed.

(** What scoped locks do one after another. *)
Fixpoint guard_calls {S} `{Lockable S} (cs : list guard_call) (w : locks S) : res (outcome S) :=
  match cs with
  | [] => mret (Goes w)
  | c :: cs => o ← guard_exec c w; match o with Goes w => guard_calls cs w | Waits => mret Waits end
  end.

(** A thread that locks what it holds.  POSIX lets [pthread_rwlock_wrlock] refuse
    with EDEADLK; the code is ignored and the second guard believes it is locked,
    so its unlock gives the lock back, and thread 2 gets it beside the first
    guard of thread 1.  A mutex is not even asked to answer. *)
Theorem relock_not_excluded :
  (exists s, @guard_calls _ RWMutex [GNew 1 1 Exclusive; GNew 2 1 Exclusive; GUnlock 2; GNew 3 2 Exclusive]
     (Locks (Readers []) ∅) = Ok (Goes (Locks s
       {[1%nat := Guard 1 Exclusive true; 2%nat := Guard 1 Exclusive false; 3%nat := Guard 2 Exclusive true]}))) /\
  @guard_calls _ Mutex [GNew 1 1 Exclusive; GNew 2 1 Exclusive] (Locks None ∅) = Err (FUB "lock").
Proof. split; [by eexists|done]. Qed.

Lemma lock_classes_witness : @LockLaws mutex_t Mutex mutex_held.
Proof. destruct lock_classes as [H _]. apply H. intros [t|]; [right; by exists t|by left]. Defined.

(** Thread 1 locks, thread 2 waits; after the unlock thread 2 locks. *)
Definition ex_guards : locks CASlock :=
  Locks (CAS true 2) {[1%nat := Guard 1 Exclusive false; 2%nat := Guard 2 Exclusive true]}.

Lemma ex_guards_reachable : @guards_reachable _ CASlock_lockable CASlock_new ex_guards.
Proof.
  eapply (@G_call _ CASlock_lockable _ (GNew 2 2 Exclusive)
    (Locks (CAS false 1) {[1%nat := Guard 1 Exclusive false]})); [|by split_and!; [| |intros m ?%not_elem_of_nil]|reflexivity].
  eapply (@G_call _ CASlock_lockable _ (GUnlock 1) (Locks (CAS true 1) {[1%nat := Guard 1 Exclusive true]}));
    [|by eexists|reflexivity].
  eapply (@G_call _ CASlock_lockable _ (GNew 1 1 Exclusive)); [apply G_start| |reflexivity].
  by split_and!; [| |intros m ?%not_elem_of_nil].
Qed.

Lemma scoped_locks_exclude_witness :
  @guard_new _ CASlock_lockable 3 3 Exclusive ex_guards = Ok (@Waits CASlock) /\
  exists w, @guard_unlock _ CASlock_lockable 2 ex_guards = Ok (Goes w).
Proof.
  destruct (@scoped_locks_exclude CASlock CASlock_lockable CASlock_held caslock_laws CASlock_new ex_guards
    eq_refl ex_guards_reachable) as (_ & _ & H & _).
  split; [reflexivity|]. destruct (H 2%nat) as (w & Hw & _); [by eexists|]. by exists w.
Defined.

Lemma semaphore_counts_witness : wait false 1 = Ok (Some 0) /\ wait true 0 = Err (FThrow "sem_wait error").
Proof.
  split.
  - destruct (semaphore_counts 0 [SNotify] 1) as (_ & _ & H & _); [lia| |by apply H].
    apply (S_notify 0 [] 0); [by apply S_new|done].
  - destruct (semaphore_counts 0 [] 0) as (_ & _ & _ & H & _); [lia|by apply S_new|by apply H].
Defined.

(** A thread "io" that has entered [run]. *)
Definition ex_object : Thread := Thr (-1) (Some 1%nat) (Some 7%nat) (lit "io").
Definition ex_os (c : pc) : os_thread := Os c (Some 0%nat) (Some 0%nat) (lit "io") [] 42 true.
Definition ex_world (c : pc) : world := World {[0%nat := ex_object]} {[1%nat := ex_os c]} [] 2.

Lemma threads_run_witness :
  GetName 1 (ex_world Entered) = Ok (lit "io") /\ GetThis 1 (ex_world Entered) = Ok (Some 0%nat) /\
  waiting (ex_world Entered) = [7%nat].
Proof.
  assert (trun [7%nat] (ex_world Entered)) as Hr.
  { apply (T_step (TRun 1) [7%nat] (World {[0%nat := ex_object]}
      {[1%nat := Os Started (Some 0%nat) None (lit "UNKNOW") [] 42 true]} [] 2)).
    - apply (T_step (TNew 7 (lit "io") 42) [] (World ∅ ∅ [] 0)); [apply T_start|done|reflexivity].
    - by eexists.
    - reflexivity. }
  destruct (threads_run [7%nat] (ex_world Entered) Hr) as (_ & _ & _ & H).
  destruct (H 1%nat (ex_os Entered) 0%nat ex_object) as (_ & H1 & _); [reflexivity..|].
  destruct H1 as [HT HN]; [done|]. split; [exact HN|]. split; [exact HT|]. vm_compute. reflexivity.
Defined.

Lemma thread_ends_undefined_witness : exists w,
  join 0 (ex_world Finished) = Ok (Some w) /\ Thread_delete 0 w = Err (FUB "pthread_detach").
Proof.
  destruct (thread_ends_undefined (ex_world Finished) 0 ex_object 1 (ex_os Finished)) as [H _];
    [reflexivity..|]. destruct (H eq_refl) as (w & ? & _ & ?). by exists w.
Defined.
