(* ===== verification/Interleave.v ===== *)
(** * Threads that share data under mutexes

    What the parts of the library with a lock of their own have in common: each
    thread has a list of instructions to execute - to take or to leave a mutex,
    or to act on the shared data, which puts what follows from it in front of
    the list - and at each turn any thread executes its first one.  A
    [Discipline] says which locks an act needs; if it is kept, no act fails, some
    thread can always go on, and every run ends. *)

From stdpp Require Import functions.
From S2P Require Import Prelude Thread.

Inductive instr (K A : Type) : Type := Lock (m : mode) (k : K) | Unlock (k : K) | Do (a : A).
Arguments Lock {K A} m k.
Arguments Unlock {K A} k.
Arguments Do {K A} a.

(** A scoped lock around [c]. *)
Definition locked {K A} (m : mode) (k : K) (c : list (instr K A)) : list (instr K A) := Lock m k :: c ++ [Unlock k].

(** The shared data, the mutexes, and what each thread still has to do. *)
Record world (K A X S : Type) : Type := World {
  w_data : X;
  w_mutex : K -> S;
  w_threads : list (list (instr K A)) }.
Arguments World {K A X S}.
Arguments w_data {K A X S}.
Arguments w_mutex {K A X S}.
Arguments w_threads {K A X S}.

Section Steps.
Context {K A X S : Type} `{EqDecision K} `{Lockable S}.
Context (act_step : A -> X -> res (list (instr K A) * X)).
Abbreviation state := (world K A X S).
Abbreviation code := (list (instr K A)).
Implicit Types (w : state) (i : nat) (k : K).

(** The mutex [k] in state [s], and [r] left to thread [i]. *)
Definition turn_lock k (s : S) i (r : code) w : state :=
  World (w_data w) (<[k := s]> (w_mutex w)) (<[i := r]> (w_threads w)).

(** A turn of thread [i]: [None] while it waits, or when it has nothing to do. *)
Definition step i w : res (option state) :=
  match w_threads w !! i with
  | Some (Lock m k :: r) =>
      match acquire m (Z.of_nat i) (w_mutex w k) with
      | Ok o => mret ((fun s => turn_lock k s i r w) <$> o)
      | Err e => Err e
      end
  | Some (Unlock k :: r) =>
      s ← release (Z.of_nat i) (w_mutex w k); mret (Some (turn_lock k s i r w))
  | Some (Do a :: r) =>
      '(new, x) ← act_step a (w_data w);
      mret (Some (World x (w_mutex w) (<[i := new ++ r]> (w_threads w))))
  | _ => mret None
  end.

Definition turn w w' : Prop := exists i, step i w = Ok (Some w').

(** Thread [i], which has nothing to do, is given something. *)
Definition begin i (cs : code) w : state :=
  World (w_data w) (w_mutex w) (<[i := cs]> (w_threads w)).

(** What threads may do and in which state they may begin it. *)
Inductive reachable (may : X -> code -> Prop) (w0 : state) : state -> Prop :=
| In_start : reachable may w0 w0
| In_begin i cs w : reachable may w0 w -> w_threads w !! i = Some [] -> may (w_data w) cs ->
    reachable may w0 (begin i cs w)
| In_turn w w' : reachable may w0 w -> turn w w' -> reachable may w0 w'.

(** The same instructions without the locks, uninterrupted. *)
Inductive flat : code -> X -> X -> Prop :=
| F_done x : flat [] x x
| F_lock m k r x y : flat r x y -> flat (Lock m k :: r) x y
| F_unlock k r x y : flat r x y -> flat (Unlock k :: r) x y
| F_do a r new x y z : act_step a x = Ok (new, y) -> flat (new ++ r) y z -> flat (Do a :: r) x z.

Lemma flat_unique cs x y z : flat cs x y -> flat cs x z -> y = z.
Proof.
  intros Hy. revert z. induction Hy as [x|m k r x y _ IH|k r x y _ IH|a r new x y z E _ IH];
    inversion 1; subst; auto. apply IH. congruence.
Qed.

Lemma flat_app (c1 c2 : code) x1 x2 x3 : flat c1 x1 x2 -> flat c2 x2 x3 -> flat (c1 ++ c2) x1 x3.
Proof.
  intros H1 H2. induction H1 as [x|m k r x y _ IH|k r x y _ IH|a r new x1 x y E _ IH]; simpl.
  - done.
  - constructor. by apply IH.
  - constructor. by apply IH.
  - eapply F_do; [exact E|]. rewrite app_assoc. by apply IH.
Qed.

Lemma flat_act a x x' : act_step a x = Ok ([], x') -> flat [Do a] x x'.
Proof. intros E. eapply F_do; [exact E|constructor]. Qed.

Lemma flat_then a x x1 new x' : act_step a x = Ok (new, x1) -> flat new x1 x' -> flat [Do a] x x'.
Proof. intros E Hr. eapply F_do; [exact E|]. by rewrite app_nil_r. Qed.

Lemma flat_locked m k (c : code) x x' : flat c x x' -> flat (locked m k c) x x'.
Proof. intros Hr. constructor. eapply flat_app; [exact Hr|]. repeat constructor. Qed.
End Steps.

(** ** Replacing an element by smaller ones *)

Section Replace.
Context {B : Type} (lt : B -> B -> Prop).

Definition replaces (l' l : list B) : Prop :=
  exists l1 x l2 ys, l = l1 ++ x :: l2 /\ l' = l1 ++ ys ++ l2 /\ forall y, y ∈ ys -> lt y x.

Lemma replaces_cons x l l' : replaces l' (x :: l) ->
  (exists ys, l' = ys ++ l /\ forall y, y ∈ ys -> lt y x) \/ (exists l2, l' = x :: l2 /\ replaces l2 l).
Proof.
  intros ([|z l1] & y & l2 & ys & E & -> & Hys); simpl in E; injection E as -> ->; [left; by exists ys|right].
  eexists. split; [done|]. by exists l1, y, l2, ys.
Qed.

Lemma replaces_wf : well_founded lt -> well_founded replaces.
Proof.
  intros Hwf l. induction l as [|x l IH].
  - split. intros l' (l1 & x & l2 & ys & E & _). by destruct l1.
  - revert l IH. induction (Hwf x) as [x _ IHx]. intros l Hl. induction Hl as [l Hl IHl].
    split. intros l' [(ys & -> & Hys)|(l2 & -> & Hl2)]%replaces_cons; [|by apply IHl].
    induction ys as [|y ys IHys]; [by split|]. simpl. apply IHx; [apply Hys; by left|].
    apply IHys. intros z Hz. apply Hys. by right.
Qed.
End Replace.

(** ** Locking disciplines *)

(** A lock that nobody holds is given to who asks. *)
Class LockGrants (S : Type) `{Lockable S} (held : S -> list (Z * mode)) : Prop :=
  acquire_free m t s : supports m = true -> held s = [] -> exists s', acquire m t s = Ok (Some s').

(** The locks a thread holds, the last taken first. *)
Abbreviation taken K := (list (K * mode)).

(** What a component says of its acts: which state of the data is right, in
    which order mutexes may be taken, what an act finds and needs when its turn
    comes ([fits]), how many locks what it expands to leaves, what mutex
    protects what the act has read before ([guard]) and what it changes
    ([writes]). *)
Record discipline (K A X : Type) : Type := Discipline {
  inv : X -> Prop;
  order : K -> nat;
  fits : X -> taken K -> A -> Prop;
  leaves : A -> nat;
  guard : A -> option K;
  writes : A -> option K }.
Arguments Discipline {K A X}.
Arguments inv {K A X}.
Arguments order {K A X}.
Arguments fits {K A X}.
Arguments leaves {K A X}.
Arguments guard {K A X}.
Arguments writes {K A X}.

Section Tidy.
Context {K A X S : Type} `{EqDecision K} `{Lockable S} (D : discipline K A X).
Abbreviation code := (list (instr K A)).
Implicit Types (x : X) (hs : taken K) (r : code) (k : K).

(** Below all that is held. *)
Definition below k hs : Prop := Forall (fun h => order D k < order D h.1)%nat hs.

Fixpoint ordered hs : Prop :=
  match hs with [] => True | (k, _) :: hs => below k hs /\ ordered hs end.

(** Nothing in [r] relies on what [o] protects. *)
Definition unguarded (o : option K) r : Prop :=
  forall a k, Do a ∈ r -> o = Some k -> guard D a <> Some k.

(** Code that is right for a thread that holds [hs]. *)
Fixpoint tidy x hs r : Prop :=
  match r with
  | [] => hs = []
  | Lock m k :: r => supports m = true /\ below k hs /\ unguarded (Some k) r /\ tidy x ((k, m) :: hs) r
  | Unlock k :: r => exists m hs', hs = (k, m) :: hs' /\ tidy x hs' r
  | Do a :: r => fits D x hs a /\ unguarded (writes D a) r /\ tidy x (drop (leaves D a) hs) r
  end.

(** The laws of a discipline. *)
Class DisciplineLaws (act_step : A -> X -> res (list (instr K A) * X)) : Prop := {
  guard_held x hs a k : fits D x hs a -> guard D a = Some k -> k ∈ hs.*1;
  writes_held x hs a k : fits D x hs a -> writes D a = Some k -> (k, Exclusive) ∈ hs;
  fits_frame x hs a new x' hs' b :
    inv D x -> ordered hs -> fits D x hs a -> act_step a x = Ok (new, x') -> fits D x hs' b ->
    (forall k, writes D a = Some k -> guard D b <> Some k) -> fits D x' hs' b;
  fits_step x hs a : inv D x -> ordered hs -> fits D x hs a ->
    exists new x', act_step a x = Ok (new, x') /\ inv D x' /\
      forall r, unguarded (writes D a) r -> tidy x' (drop (leaves D a) hs) r -> tidy x' hs (new ++ r) }.

Lemma below_not_held k hs : below k hs -> k ∉ hs.*1.
Proof.
  unfold below. rewrite Forall_forall. intros Hb ([k' m] & -> & Hin)%list_elem_of_fmap. apply Hb in Hin.
  simpl in Hin. lia.
Qed.

Lemma ordered_drop n hs : ordered hs -> ordered (drop n hs).
Proof.
  revert hs. induction n as [|n IH]; [done|]. intros [|[k m] hs]; [done|]. intros [_ Ho]. by apply IH.
Qed.
(** What an act relies on is held when it is still to come. *)
Lemma tidy_guarded r : (forall x hs a k, fits D x hs a -> guard D a = Some k -> k ∈ hs.*1) ->
  forall x hs a k, tidy x hs r -> Do a ∈ r -> guard D a = Some k -> k ∈ hs.*1.
Proof.
  intros Hheld. induction r as [|[m k0|k0|b] r IH]; intros x hs a k Ht Hin Hg; [by apply not_elem_of_nil in Hin|..];
    apply elem_of_cons in Hin; cbn [tidy] in Ht.
  - destruct Hin as [?|Hin]; [done|]. destruct Ht as (_ & _ & Hu & Ht).
    pose proof (IH _ _ _ _ Ht Hin Hg) as Hk. apply elem_of_cons in Hk as [->|?]; [|done].
    by destruct (Hu a k0 Hin eq_refl).
  - destruct Hin as [?|Hin]; [done|]. destruct Ht as (m & hs' & -> & Ht). right. by eapply IH.
  - destruct Ht as (Hf & _ & Ht). destruct Hin as [[= ->]|Hin]; [by eapply Hheld|].
    pose proof (IH _ _ _ _ Ht Hin Hg) as Hk. rewrite fmap_drop in Hk.
    exact (subseteq_drop _ _ _ Hk).
Qed.

(** A scoped lock around one act. *)
Lemma tidy_locked m k a r x hs :
  (forall x hs a k, fits D x hs a -> guard D a = Some k -> k ∈ hs.*1) ->
  supports m = true -> below k hs -> fits D x ((k, m) :: hs) a ->
  guard D a = None -> (forall k', writes D a = Some k' -> k' = k) -> leaves D a = 0%nat -> tidy x hs r ->
  tidy x hs (locked m k [Do a] ++ r).
Proof.
  intros Hheld Hsup Hb Hf Hg Hw Hl Ht. assert (forall b, Do b ∈ r -> guard D b <> Some k) as Hr.
  { intros b Hin Hk. apply (below_not_held k hs Hb). by eapply tidy_guarded. }
  cbn [tidy locked app]. rewrite Hl. split_and!; [done|done| |done| |simpl; eauto].
  - intros b k' Hin [= <-]. rewrite !elem_of_cons in Hin.
    destruct Hin as [[= ->]|[?|Hin]]; [congruence|done|by apply Hr].
  - intros b k' Hin ->%Hw. apply elem_of_cons in Hin as [?|Hin]; [done|by apply Hr].
Qed.
End Tidy.
Arguments tidy {K A X S} {_} D x hs r : simpl nomatch.

Section Theory.
Context {K A X S : Type} `{EqDecision K} `{Lockable S}.
Context (held : S -> list (Z * mode)) `{!LockLaws S held}.
Context (act_step : A -> X -> res (list (instr K A) * X)) (D : discipline K A X) `{!DisciplineLaws D act_step}.
Abbreviation state := (world K A X S).
Abbreviation code := (list (instr K A)).
Abbreviation step := (step act_step).
Implicit Types (w : state) (x : X) (hs : taken K) (r : code) (k : K) (i : nat).

(** Code survives the step of an act that writes nothing it relies on. *)
Lemma tidy_frame x hs a new x' r : forall hs',
  inv D x -> ordered D hs -> fits D x hs a -> act_step a x = Ok (new, x') ->
  unguarded D (writes D a) r -> tidy D x hs' r -> tidy D x' hs' r.
Proof.
  induction r as [|[m k|k|b] r IH]; intros hs' Hi Ho Hf E Hu Ht; cbn [tidy] in *; [done|..].
  all: assert (unguarded D (writes D a) r) as Hu' by (intros c k' Hc; apply Hu; by right).
  - destruct Ht as (? & ? & ? & Ht). by eauto 6.
  - destruct Ht as (m & h & -> & Ht). eauto.
  - destruct Ht as (Hb & ? & Ht). split; [|by eauto].
    apply (fits_frame D x hs a new x' hs' b Hi Ho Hf E Hb). intros k Hk. apply (Hu b k); [by left|done].
Qed.

(** *** The invariant *)

Definition holds w i hs : Prop := forall k m, (Z.of_nat i, m) ∈ held (w_mutex w k) <-> (k, m) ∈ hs.

Record ok w : Prop := Fine {
  ok_inv : inv D (w_data w);
  ok_compatible : forall k, compatible (held (w_mutex w k));
  ok_once : forall k, NoDup (held (w_mutex w k)).*1;
  ok_who : forall k t m, (t, m) ∈ held (w_mutex w k) ->
    exists i, t = Z.of_nat i /\ is_Some (w_threads w !! i);
  ok_thread : forall i r, w_threads w !! i = Some r ->
    exists hs, holds w i hs /\ ordered D hs /\ tidy D (w_data w) hs r }.

(** Two threads do not hold a mutex when one of them holds it exclusively. *)
Lemma exclusion w k i j m : ok w ->
  (Z.of_nat i, Exclusive) ∈ held (w_mutex w k) -> (Z.of_nat j, m) ∈ held (w_mutex w k) -> i = j.
Proof.
  intros Hok Hi Hj. destruct (ok_compatible _ Hok k) as [Hs|[t E]]; [by apply Hs in Hi|].
  rewrite E in Hi, Hj. apply list_elem_of_singleton in Hi, Hj. simplify_eq. lia.
Qed.

(** A lock or an unlock of thread [i]. *)
Lemma turn_lock_ok w i k s c r hs :
  ok w -> w_threads w !! i = Some c -> compatible (held s) -> NoDup (held s).*1 ->
  (forall t m, t <> Z.of_nat i -> (t, m) ∈ held s <-> (t, m) ∈ held (w_mutex w k)) ->
  holds (turn_lock k s i r w) i hs -> ordered D hs -> tidy D (w_data w) hs r ->
  ok (turn_lock k s i r w).
Proof.
  intros Hok Hi Hc Hn Ho Hh Hd Ht. pose proof Hok as [Hinv Hcs Hns Hw Hth].
  assert (forall k', w_mutex (turn_lock k s i r w) k' = if decide (k = k') then s else w_mutex w k') as Em.
  { intros k'. cbn [w_mutex turn_lock]. case_decide; [subst; apply fn_lookup_insert|by apply fn_lookup_insert_ne]. }
  assert (i < length (w_threads w))%nat as Hlt by (by eapply lookup_lt_Some).
  split; cbn [w_data w_threads turn_lock]; [done|..].
  - intros k'. rewrite Em. by case_decide.
  - intros k'. rewrite Em. by case_decide.
  - intros k' t m Htm. destruct (decide (t = Z.of_nat i)) as [->|Hne].
    + exists i. split; [done|]. by rewrite list_lookup_insert_eq.
    + destruct (Hw k' t m) as (j & -> & Hj).
      { rewrite Em in Htm. case_decide; [subst; by apply Ho|done]. }
      exists j. split; [done|]. rewrite list_lookup_insert_ne; [done|]. intros ->. done.
  - intros j r' Hj. destruct (decide (i = j)) as [<-|Hne].
    + rewrite list_lookup_insert_eq in Hj by done. injection Hj as <-. by exists hs.
    + rewrite list_lookup_insert_ne in Hj by done. destruct (Hth j r' Hj) as (hs' & Hh' & Ho' & Ht').
      exists hs'. split; [|done]. intros k' m. rewrite <- (Hh' k' m), Em. case_decide; [subst|done]. apply Ho. lia.
Qed.

Lemma lock_ok w i m k r : ok w -> w_threads w !! i = Some (Lock m k :: r) ->
  acquire m (Z.of_nat i) (w_mutex w k) = Ok None \/
  exists s, acquire m (Z.of_nat i) (w_mutex w k) = Ok (Some s) /\ ok (turn_lock k s i r w).
Proof.
  intros Hok Hi. pose proof Hok as [Hinv Hcs Hns _ Hth].
  destruct (Hth i _ Hi) as (hs & Hh & Ho & Hsup & Hb & _ & Ht).
  assert (Z.of_nat i ∉ (held (w_mutex w k)).*1) as Hnot.
  { intros ([t m'] & [= <-] & Hin)%list_elem_of_fmap. apply Hh in Hin. apply (below_not_held D k hs Hb).
    apply list_elem_of_fmap. by exists (k, m'). }
  destruct (acquire_held m _ _ Hsup (Hcs k) (may_take_new m _ _ Hnot)) as [?|(s & Ha & Hs & Hc)]; [by left|right].
  exists s. split; [exact Ha|].
  apply (turn_lock_ok w i k s _ r ((k, m) :: hs) Hok Hi Hc); [| | |done|done].
  - rewrite Hs. simpl. by apply NoDup_cons.
  - intros t m' Hne. rewrite Hs, elem_of_cons. split; [|by right]. by intros [[= -> _]|].
  - intros k' m'. cbn [w_mutex turn_lock]. rewrite elem_of_cons. destruct (decide (k = k')) as [<-|Hne].
    + rewrite fn_lookup_insert, Hs, elem_of_cons, (Hh k m'). naive_solver.
    + rewrite fn_lookup_insert_ne, (Hh k' m') by done. naive_solver.
Qed.

Lemma unlock_ok w i k r : ok w -> w_threads w !! i = Some (Unlock k :: r) ->
  exists s, release (Z.of_nat i) (w_mutex w k) = Ok s /\ ok (turn_lock k s i r w).
Proof.
  intros Hok Hi. pose proof Hok as [Hinv Hcs Hns _ Hth].
  destruct (Hth i _ Hi) as (hs & Hh & Ho & m & hs' & -> & Ht). destruct Ho as [Hb Ho].
  assert ((Z.of_nat i, m) ∈ held (w_mutex w k)) as Hin by (apply Hh; by left).
  destruct (release_held _ m _ (Hcs k) Hin) as (s & Hr & Hs). exists s. split; [done|].
  pose proof (Hns k) as Hn. rewrite Hs in Hn. apply NoDup_cons in Hn as [Hnot Hn].
  apply (turn_lock_ok w i k s _ r hs' Hok Hi); [|done| | |done|done].
  - eapply compatible_tail; [apply Hcs|exact Hs].
  - intros t m' Hne. rewrite Hs, elem_of_cons. split; [by right|]. by intros [[= -> _]|].
  - intros k' m'. cbn [w_mutex turn_lock]. destruct (decide (k = k')) as [<-|Hne].
    + rewrite fn_lookup_insert. split; [|intros Hin'; exfalso; apply (below_not_held D k hs' Hb);
        apply list_elem_of_fmap; by exists (k, m')].
      intros Hin'. exfalso. apply Hnot, list_elem_of_fmap. by exists (Z.of_nat i, m').
    + rewrite fn_lookup_insert_ne, (Hh k' m'), elem_of_cons by done. naive_solver.
Qed.

Lemma do_ok w i a r : ok w -> w_threads w !! i = Some (Do a :: r) ->
  exists new x, act_step a (w_data w) = Ok (new, x) /\
    ok (World x (w_mutex w) (<[i := new ++ r]> (w_threads w))).
Proof.
  intros Hok Hi. pose proof Hok as [Hinv Hcs Hns Hw Hth].
  destruct (Hth i _ Hi) as (hs & Hh & Ho & Hf & Hu & Ht).
  destruct (fits_step D _ hs a Hinv Ho Hf) as (new & x & E & Hinv' & Hnew). exists new, x. split; [done|].
  assert (i < length (w_threads w))%nat as Hlt by (by eapply lookup_lt_Some).
  split; cbn [w_data w_mutex w_threads]; [done|done|done|..].
  - intros k t m Htm. destruct (Hw k t m Htm) as (j & -> & Hj). exists j. split; [done|].
    destruct (decide (i = j)) as [<-|]; [by rewrite list_lookup_insert_eq|by rewrite list_lookup_insert_ne].
  - intros j r' Hj. destruct (decide (i = j)) as [<-|Hne].
    + rewrite list_lookup_insert_eq in Hj by done. injection Hj as <-. exists hs. split; [done|]. split; [done|].
      apply Hnew; [done|]. exact (tidy_frame _ _ _ _ _ _ _ Hinv Ho Hf E Hu Ht).
    + rewrite list_lookup_insert_ne in Hj by done. destruct (Hth j r' Hj) as (hs' & Hh' & Ho' & Ht').
      exists hs'. split; [done|]. split; [done|]. eapply tidy_frame; [exact Hinv|exact Ho|exact Hf|exact E| |exact Ht'].
      intros b k Hb Hk Hg. pose proof (writes_held D _ _ _ _ Hf Hk) as Hin%Hh.
      pose proof (tidy_guarded D _ (guard_held D) _ _ _ _ Ht' Hb Hg) as ([k' m] & [= ->] & Hin')%list_elem_of_fmap.
      apply Hh' in Hin'. by destruct (Hne (exclusion w k' i j m Hok Hin Hin')).
Qed.

(** ** What a discipline gives *)

(** No turn fails, and the state stays right. *)
Lemma world_step_ok w i : ok w -> exists o, step i w = Ok o /\ forall w', o = Some w' -> ok w'.
Proof.
  intros Hok. unfold step, Interleave.step. destruct (w_threads w !! i) as [[|[m k|k|a] r]|] eqn:Hi.
  - by eexists.
  - destruct (lock_ok w i m k r Hok Hi) as [->|(s & -> & Hs)]; res_simpl; eexists; (split; [done|]);
      [done|by intros w' [= <-]].
  - destruct (unlock_ok w i k r Hok Hi) as (s & -> & Hs). res_simpl. eexists. split; [done|]. by intros w' [= <-].
  - destruct (do_ok w i a r Hok Hi) as (new & x & -> & Hx). res_simpl. eexists. split; [done|]. by intros w' [= <-].
  - by eexists.
Qed.

Lemma begin_ok w i r : ok w -> w_threads w !! i = Some [] -> tidy D (w_data w) [] r -> ok (begin i r w).
Proof.
  intros Hok Hi Ht. pose proof Hok as [Hinv Hcs Hns Hw Hth].
  assert (i < length (w_threads w))%nat as Hlt by (by eapply lookup_lt_Some).
  split; cbn [w_data w_mutex w_threads begin]; [done|done|done|..].
  - intros k t m Htm. destruct (Hw k t m Htm) as (j & -> & Hj). exists j. split; [done|].
    destruct (decide (i = j)) as [<-|]; [by rewrite list_lookup_insert_eq|by rewrite list_lookup_insert_ne].
  - intros j r' Hj. destruct (decide (i = j)) as [<-|Hne].
    + rewrite list_lookup_insert_eq in Hj by done. injection Hj as <-. destruct (Hth i [] Hi) as (hs & Hh & _ & ->).
      by exists [].
    + rewrite list_lookup_insert_ne in Hj by done. by apply Hth.
Qed.

Lemma world_reachable_ok (may : X -> code -> Prop) w0 w : ok w0 ->
  (forall x r, inv D x -> may x r -> tidy D x [] r) -> reachable act_step may w0 w -> ok w.
Proof.
  intros H0 Hmay. induction 1 as [|i r w _ IH Hi Hm|w w' _ IH [i E]]; [done|..].
  - apply begin_ok; [done|done|]. apply Hmay; [apply IH|done].
  - destruct (world_step_ok w i IH) as (o & E' & Ho). rewrite E in E'. injection E' as <-. by apply Ho.
Qed.

(** Threads that do nothing, and mutexes nobody holds. *)
Lemma start_ok x (s0 : S) n : inv D x -> held s0 = [] -> ok (World x (fun _ => s0) (replicate n [])).
Proof.
  intros Hi H0. split; cbn [w_data w_mutex w_threads]; [done| | | |].
  - intros _. rewrite H0. left. by intros ? ?%not_elem_of_nil.
  - intros _. rewrite H0. constructor.
  - intros k t m. rewrite H0. by intros ?%not_elem_of_nil.
  - intros i r [-> _]%lookup_replicate. exists []. split; [|done]. intros k m. cbn [w_mutex]. rewrite H0.
    by split; intros ?%not_elem_of_nil.
Qed.

Lemma free_at_rest w : ok w -> (forall i r, w_threads w !! i = Some r -> r = []) ->
  forall k, held (w_mutex w k) = [].
Proof.
  intros Hok Hrest k. destruct (held (w_mutex w k)) as [|[t m] l] eqn:E; [done|exfalso].
  assert ((t, m) ∈ held (w_mutex w k)) as Hin by (rewrite E; by left).
  destruct (ok_who _ Hok k t m Hin) as (i & -> & [r Hr]).
  destruct (ok_thread _ Hok i r Hr) as (hs & Hh & _ & Ht). rewrite (Hrest i r Hr) in Ht. cbn [tidy] in Ht. subst hs.
  apply Hh in Hin. by apply not_elem_of_nil in Hin.
Qed.

(** *** No deadlock *)

Section Progress.
Context `{!LockGrants S held}.

(** An unlock or an act is never waited for. *)
Lemma ready_goes w i c r : ok w -> w_threads w !! i = Some (c :: r) ->
  (exists m k, c = Lock m k) \/ exists w', step i w = Ok (Some w').
Proof.
  intros Hok Hi. destruct c as [m k|k|a]; [left; eauto|right..].
  - destruct (unlock_ok w i k r Hok Hi) as (s & Hr & _). unfold step, Interleave.step. rewrite Hi, Hr. res_simpl. eauto.
  - destruct (do_ok w i a r Hok Hi) as (new & x & E & _). unfold step, Interleave.step. rewrite Hi, E. res_simpl. eauto.
Qed.

(** Who waits, waits for a thread that waits for a smaller lock, or goes on. *)
Lemma lock_goes w (n : nat) : ok w -> forall i m k r, (order D k < n)%nat ->
  w_threads w !! i = Some (Lock m k :: r) -> exists j w', step j w = Ok (Some w').
Proof.
  intros Hok. induction n as [|n IH]; intros i m k r Hn Hi; [lia|].
  destruct (ok_thread _ Hok i _ Hi) as (hs & _ & _ & Hsup & _).
  destruct (lock_ok w i m k r Hok Hi) as [Ha|(s & Ha & _)].
  2: { exists i. unfold step, Interleave.step. rewrite Hi, Ha. res_simpl. eauto. }
  destruct (held (w_mutex w k)) as [|[t m'] l] eqn:E.
  { destruct (acquire_free m (Z.of_nat i) _ Hsup E). congruence. }
  assert ((t, m') ∈ held (w_mutex w k)) as Hin by (rewrite E; by left).
  destruct (ok_who _ Hok k t m' Hin) as (j & -> & [r' Hj]).
  destruct (ok_thread _ Hok j r' Hj) as (hs' & Hh' & Ho' & Ht'). apply Hh' in Hin.
  destruct r' as [|c' r']; [cbn [tidy] in Ht'; subst hs'; by apply not_elem_of_nil in Hin|].
  destruct (ready_goes w j c' r' Hok Hj) as [(m2 & k2 & ->)|?]; [|by eauto].
  apply (IH j m2 k2 r'); [|done]. destruct Ht' as (_ & Hb & _). unfold below in Hb. rewrite Forall_forall in Hb.
  specialize (Hb _ Hin). simpl in Hb. lia.
Qed.

Lemma world_goes w i c r : ok w -> w_threads w !! i = Some (c :: r) -> exists j w', step j w = Ok (Some w').
Proof.
  intros Hok Hi. destruct (ready_goes w i c r Hok Hi) as [(m & k & ->)|?]; [|by eauto].
  eapply lock_goes; [done| |done]. apply Nat.lt_succ_diag_r.
Qed.

(** *** Every run ends *)

Section Ends.
Context (smaller : A -> A -> Prop) (Hsmaller : well_founded smaller).
Hypothesis expands : forall x hs a new x', inv D x -> fits D x hs a -> act_step a x = Ok (new, x') ->
  forall b, Do b ∈ new -> smaller b a.

(** Locks and unlocks are below every act. *)
Definition less (c' c : instr K A) : Prop :=
  match c, c' with
  | Do a, Do b => smaller b a
  | Do _, _ => True
  | _, _ => False
  end.

Lemma less_wf : well_founded less.
Proof.
  intros [m k|k|a]; [by split|by split|]. induction (Hsmaller a) as [a _ IH].
  split. intros [m k|k|b] Hb; [by split|by split|by apply IH].
Qed.

Lemma step_replaces w w' i : ok w -> step i w = Ok (Some w') ->
  replaces less (concat (w_threads w')) (concat (w_threads w)).
Proof.
  intros Hok E. unfold step, Interleave.step in E.
  assert (forall c r new, w_threads w !! i = Some (c :: r) -> w_threads w' = <[i := new ++ r]> (w_threads w) ->
    (forall b, b ∈ new -> less b c) -> replaces less (concat (w_threads w')) (concat (w_threads w))) as Hrep.
  { intros c r new Hi -> Hnew. rewrite insert_take_drop by (by eapply lookup_lt_Some).
    exists (concat (take i (w_threads w))), c, (r ++ concat (drop (Datatypes.S i) (w_threads w))), new.
    rewrite <- (take_drop_middle _ _ _ Hi) at 1. rewrite !concat_app. simpl. by rewrite !app_assoc. }
  destruct (w_threads w !! i) as [[|[m k|k|a] r]|] eqn:Hi; res_simpl; try done.
  - destruct (acquire _ _ _) as [[s|]|]; res_simpl; try done. injection E as <-. by apply (Hrep (Lock m k) r []); [| |intros b ?%not_elem_of_nil].
  - destruct (release _ _); res_simpl; [|done]. injection E as <-.
    by apply (Hrep (Unlock k) r []); [| |intros b ?%not_elem_of_nil].
  - destruct (act_step a _) as [[new x]|] eqn:Ea; res_simpl; [|done]. injection E as <-.
    apply (Hrep (Do a) r new); [done|done|]. destruct (ok_thread _ Hok i _ Hi) as (hs & _ & _ & Hf & _).
    intros [m k|k|b] Hb; [done|done|]. by eapply expands; [apply Hok|..].
Qed.

Lemma runs_end w : ok w -> Acc (fun w' w => turn act_step w w') w.
Proof.
  intros Hok. remember (concat (w_threads w)) as l eqn:El. revert w Hok El.
  induction (replaces_wf less less_wf l) as [l _ IH]. intros w Hok ->. split. intros w' [i E].
  destruct (world_step_ok w i Hok) as (o & E' & Ho). rewrite E in E'. injection E' as <-.
  eapply IH; [by eapply step_replaces|by apply Ho|done].
Qed.

(** *** One thread alone *)

(** While the others have nothing to do, thread [i] runs to its end, as if there
    were no locks. *)
Lemma runs_alone w i r : ok w -> w_threads w !! i = Some r ->
  (forall j r', j <> i -> w_threads w !! j = Some r' -> r' = []) ->
  exists w', rtc (fun w1 w2 => step i w1 = Ok (Some w2)) w w' /\ flat act_step r (w_data w) (w_data w') /\
    w_threads w' = <[i := []]> (w_threads w).
Proof.
  intros Hok. revert r. induction (runs_end w Hok) as [w _ IH]. intros r Hi Hj.
  destruct r as [|c r]; [exists w; split_and!; [done|constructor|by rewrite list_insert_id]|].
  destruct (world_goes w i c r Hok Hi) as (j & w1 & E). assert (j = i) as ->.
  { destruct (decide (j = i)) as [|Hne]; [done|exfalso]. unfold step, Interleave.step in E.
    destruct (w_threads w !! j) as [r'|] eqn:Ej; [|done]. by rewrite (Hj j r' Hne Ej) in E. }
  destruct (world_step_ok w i Hok) as (o & E' & Ho). rewrite E in E'. injection E' as <-.
  assert (exists new, w_threads w1 = <[i := new ++ r]> (w_threads w) /\
    forall x, flat act_step (new ++ r) (w_data w1) x -> flat act_step (c :: r) (w_data w) x) as (new & Ew & Hflat).
  { pose proof E as E0. unfold step, Interleave.step in E0. rewrite Hi in E0. destruct c as [m k|k|a].
    - destruct (acquire _ _ _) as [[s|]|]; res_simpl; try done. injection E0 as <-. exists []. split; [done|]. intros x. by constructor.
    - destruct (release _ _); res_simpl; [|done]. injection E0 as <-. exists []. split; [done|]. intros x. by constructor.
    - destruct (act_step a _) as [[new x1]|] eqn:Ea; res_simpl; [|done]. injection E0 as <-.
      exists new. split; [done|]. intros x. by econstructor. }
  assert (i < length (w_threads w))%nat as Hlt by (by eapply lookup_lt_Some).
  destruct (IH w1 (ex_intro _ i E) (Ho w1 eq_refl) (new ++ r)) as (w' & Hsteps & Hf & Ht).
  - by rewrite Ew, list_lookup_insert_eq.
  - intros j r' Hne. rewrite Ew, list_lookup_insert_ne by done. by apply Hj.
  - exists w'. split; [by eapply rtc_l|]. split; [by apply Hflat|]. by rewrite Ht, Ew, list_insert_insert_eq.
Qed.

(** *** What a discipline gives *)

(** No step fails, a mutex held exclusively is held once, some thread can go on
    while one has something to do, and no mutex is left taken. *)
Lemma all_safe w : ok w ->
  (forall i, exists o, step i w = Ok o) /\
  (forall k i j m, (Z.of_nat i, Exclusive) ∈ held (w_mutex w k) -> (Z.of_nat j, m) ∈ held (w_mutex w k) -> i = j) /\
  (forall i c r, w_threads w !! i = Some (c :: r) -> exists w', turn act_step w w') /\
  ((forall i r, w_threads w !! i = Some r -> r = []) -> forall k, held (w_mutex w k) = []).
Proof.
  intros Hok. split_and!.
  - intros i. destruct (world_step_ok w i Hok) as (o & ? & _). eauto.
  - intros k i j m. by apply exclusion.
  - intros i c r Hi. destruct (world_goes w i c r Hok Hi) as (j & w' & E). exists w', j. exact E.
  - by apply free_at_rest.
Qed.

Lemma world_turns_ok w w' : ok w -> rtc (turn act_step) w w' -> ok w'.
Proof.
  intros Hok Hrun. induction Hrun as [|w1 w2 w3 [j E] _ IH]; [done|]. apply IH.
  destruct (world_step_ok w1 j Hok) as (o & E' & Ho). rewrite E in E'. injection E' as <-. by apply Ho.
Qed.

(** A run that cannot go on has ended. *)
Lemma all_end w : ok w ->
  Acc (fun w2 w1 => turn act_step w1 w2) w /\
  forall w', rtc (turn act_step) w w' -> (forall w2, ~ turn act_step w' w2) ->
    forall i r, w_threads w' !! i = Some r -> r = [].
Proof.
  intros Hok. split; [by apply runs_end|]. intros w' Hrun Hmax i [|c r] Hi; [done|exfalso].
  destruct (world_goes w' i c r (world_turns_ok w w' Hok Hrun) Hi) as (j & w2 & E). by apply (Hmax w2); exists j.
Qed.

(** A call that begins while nobody does anything. *)
Lemma call_alone w i r x' : ok w -> inv D (w_data w) -> tidy D (w_data w) [] r ->
  (forall j r', w_threads w !! j = Some r' -> r' = []) -> w_threads w !! i = Some [] ->
  flat act_step r (w_data w) x' ->
  exists w', rtc (turn act_step) (begin i r w) w' /\ w_data w' = x' /\
    w_threads w' = w_threads w /\ forall k, held (w_mutex w' k) = [].
Proof.
  intros Hok Hinv Ht Hidle Hi Hx. pose proof (begin_ok w i r Hok Hi Ht) as Hok1.
  destruct (runs_alone (begin i r w) i r Hok1) as (w' & Hsteps & Hflat & Ew).
  - cbn. rewrite list_lookup_insert_eq; [done|]. by eapply lookup_lt_Some.
  - intros j r' Hne. cbn. rewrite list_lookup_insert_ne by done. apply Hidle.
  - assert (w_threads w' = w_threads w) as Ht' by (rewrite Ew; cbn; by rewrite list_insert_insert_eq, list_insert_id).
    assert (rtc (turn act_step) (begin i r w) w') as Hrun
      by (eapply rtc_subrel; [|exact Hsteps]; intros w1 w2 Hs; by exists i).
    exists w'. split_and!; [done|by eapply flat_unique|done|].
    apply free_at_rest; [by eapply world_turns_ok|]. intros j r'. rewrite Ht'. apply Hidle.
Qed.
End Ends.
End Progress.
End Theory.

(** ** Ranks and schedules *)

(** Acts ordered by two numbers, the first one first. *)
Section Ranks.
Context {A : Type} (rank : A -> nat * nat).

Definition smaller (y x : A) : Prop :=
  ((rank y).1 < (rank x).1 \/ ((rank y).1 = (rank x).1 /\ (rank y).2 < (rank x).2))%nat.

Lemma smaller_wf : well_founded smaller.
Proof.
  assert (forall n m x, (rank x).1 = n -> (rank x).2 = m -> Acc smaller x) as Hacc; [|by intros x; eapply Hacc].
  induction n as [n IHn] using lt_wf_ind. induction m as [m IHm] using lt_wf_ind. intros x Hn Hm.
  split. intros y [Hlt|[Heq Hlt]]; [eapply IHn; [|done|done]; lia|]. eapply IHm; [|congruence|done]. lia.
Qed.
End Ranks.

(** A schedule: thread [i] begins an operation, or takes turns. *)
Inductive move (Op : Type) : Type := Begins (i : nat) (o : Op) | Goes_on (i n : nat).
Arguments Begins {Op} i o.
Arguments Goes_on {Op} i n.

Section Schedules.
Context {K A X S Op : Type} `{EqDecision K} `{Lockable S}.
Context (act_step : A -> X -> res (list (instr K A) * X)) (code_of : Op -> list (instr K A)) (can : Op -> X -> bool).
Context (may : X -> list (instr K A) -> Prop) (Hmay : forall o x, can o x = true -> may x (code_of o)).
Abbreviation state := (world K A X S).

Fixpoint turns (n i : nat) (w : state) : option state :=
  match n with
  | O => Some w
  | Datatypes.S n => match step act_step i w with Ok (Some w) => turns n i w | _ => None end
  end.

Fixpoint play (ms : list (move Op)) (w : state) : option state :=
  match ms with
  | [] => Some w
  | Goes_on i n :: ms => w ← turns n i w; play ms w
  | Begins i o :: ms =>
      match w_threads w !! i with
      | Some [] => if can o (w_data w) then play ms (begin i (code_of o) w) else None
      | _ => None
      end
  end.

Lemma turns_run n i : forall w w', turns n i w = Some w' -> rtc (turn act_step) w w'.
Proof.
  induction n as [|n IH]; intros w w' E; simpl in E; [by injection E as <-|].
  destruct (step act_step i w) as [[w1|]|] eqn:Es; try done. eapply rtc_l; [by exists i|by apply IH].
Qed.

Lemma run_reached w0 w w' : reachable act_step may w0 w -> rtc (turn act_step) w w' -> reachable act_step may w0 w'.
Proof. intros Hr Hrun. induction Hrun as [|w1 w2 w3 Ht _ IH]; [done|]. apply IH. by eapply In_turn. Qed.

Lemma play_reached w0 ms : forall w w', reachable act_step may w0 w -> play ms w = Some w' ->
  reachable act_step may w0 w'.
Proof.
  induction ms as [|[i o|i n] ms IH]; intros w w' Hr E; simpl in E; [by injection E as <-|..].
  - destruct (w_threads w !! i) as [[|]|] eqn:Hi; try done. destruct (can o _) eqn:Hv; [|done].
    eapply IH; [|exact E]. apply In_begin; [done|done|by apply Hmay].
  - destruct (turns n i w) as [w1|] eqn:Et; [|done]. eapply IH; [|exact E]. eapply run_reached; [done|by eapply turns_run].
Qed.

(** Where a schedule that can be played leads. *)
Definition played (w0 : state) (ms : list (move Op)) : state := default w0 (play ms w0).

Lemma played_reached w0 ms : bool_decide (is_Some (play ms w0)) = true -> reachable act_step may w0 (played w0 ms).
Proof.
  intros [w E]%bool_decide_eq_true. unfold played. rewrite E. eapply play_reached; [apply In_start|exact E].
Qed.
End Schedules.
