(* ===== verification/Singleton.v ===== *)
(** * Singletons (src/sylar/singleton.h)

    [Singleton::GetInstance] and [SingletonPtr::GetInstance] hold the instance in
    a static local: the first call constructs it, calls that come meanwhile wait
    (the C++ standard, [stmt.dcl]), an exception of the constructor leaves the
    static as it was.  The constructor is a parameter, cut where other threads
    can come between; what callers then do with the instance is in the files of
    the classes that have one (LoggerManager, FdManager). *)

From S2P Require Import Prelude.

(** The static: nobody has made it, a thread is making it, or it is there. *)
Inductive phase : Type := Untouched | Making | Made.
#[export] Instance phase_eq_dec : EqDecision phase.
Proof. solve_decision. Defined.

(** Where a thread in [GetInstance] is. *)
Inductive pc (X : Type) : Type :=
| Calls
| Constructs (rest : list (X -> option X))
| Returns
| Has (seen : X)
| Throws.
Arguments Calls {X}.
Arguments Constructs {X} rest.
Arguments Returns {X}.
Arguments Has {X} seen.
Arguments Throws {X}.

(** The memory of the static, the guard, how often a constructor has ended, and
    the threads. *)
Record statics (X : Type) : Type := Statics {
  st_data : X;
  st_phase : phase;
  st_made : nat;
  st_threads : list (pc X) }.
Arguments Statics {X}.
Arguments st_data {X}.
Arguments st_phase {X}.
Arguments st_made {X}.
Arguments st_threads {X}.

Section Singleton.
Context {X : Type} (raw : X) (ctor : list (X -> option X)).
Implicit Types (s : statics X) (p : pc X) (i : nat).

Definition at_pc i p s : statics X := Statics (st_data s) (st_phase s) (st_made s) (<[i := p]> (st_threads s)).
Definition with_static (x : X) (ph : phase) s : statics X := Statics x ph (st_made s) (st_threads s).

(** A turn of thread [i]: [None] while it waits, or has returned. *)
Definition step i s : option (statics X) :=
  match st_threads s !! i with
  | Some Calls =>
      match st_phase s with
      | Untouched => Some (at_pc i (Constructs ctor) (with_static (st_data s) Making s))
      | Making => None
      | Made => Some (at_pc i Returns s)
      end
  | Some (Constructs (f :: rest)) =>
      match f (st_data s) with
      | Some x => Some (at_pc i (Constructs rest) (with_static x Making s))
      | None => Some (at_pc i Throws (with_static raw Untouched s))
      end
  | Some (Constructs []) =>
      Some (at_pc i Returns (Statics (st_data s) Made (S (st_made s)) (st_threads s)))
  | Some Returns => Some (at_pc i (Has (st_data s)) s)
  | _ => None
  end.

(** The call has returned, or thrown. *)
Definition done_with p : Prop := p = Throws \/ exists x, p = Has x.

(** Threads may call [GetInstance] again and again. *)
Inductive reachable (n : nat) : statics X -> Prop :=
| In_start : reachable n (Statics raw Untouched 0 (replicate n Throws))
| In_call i s p : reachable n s -> st_threads s !! i = Some p -> done_with p ->
    reachable n (at_pc i Calls s)
| In_step i s s' : reachable n s -> step i s = Some s' -> reachable n s'.

(** Running the constructor's pieces one after the other. *)
Fixpoint constructed (fs : list (X -> option X)) (x : X) : option X :=
  match fs with [] => Some x | f :: fs => y ← f x; constructed fs y end.

Definition making p : Prop := exists rest, p = Constructs rest.

(** Who makes the static is one thread, and it goes on from what is there. *)
Record fine s : Prop := Fine {
  fine_phase : match st_phase s with
    | Untouched => st_data s = raw /\ st_made s = 0%nat /\ forall i p, st_threads s !! i = Some p -> ~ making p
    | Making => st_made s = 0%nat /\ exists i rest, st_threads s !! i = Some (Constructs rest) /\
        constructed rest (st_data s) = constructed ctor raw /\
        forall j p, st_threads s !! j = Some p -> making p -> j = i
    | Made => constructed ctor raw = Some (st_data s) /\ st_made s = 1%nat /\
        forall i p, st_threads s !! i = Some p -> ~ making p
    end;
  fine_threads : forall i p, st_threads s !! i = Some p ->
    (p = Returns -> st_phase s = Made) /\ (forall x, p = Has x -> st_phase s = Made /\ x = st_data s) }.

(** A thread that moves between two places where it makes nothing. *)
Lemma fine_quiet i p p' s : fine s -> st_threads s !! i = Some p -> ~ making p -> ~ making p' ->
  (p' = Returns -> st_phase s = Made) -> (forall x, p' = Has x -> st_phase s = Made /\ x = st_data s) ->
  fine (at_pc i p' s).
Proof.
  intros [Hp Ht] Hi Hm Hm' Hr Hh.
  assert (forall j q, <[i := p']> (st_threads s) !! j = Some q -> (i = j /\ q = p') \/ (i <> j /\ st_threads s !! j = Some q)) as Hat.
  { intros j q [(-> & -> & _)|[Hne Hj]]%list_lookup_insert_Some; [by left|by right]. }
  split; cbn [at_pc st_phase st_data st_made st_threads].
  - destruct (st_phase s).
    + destruct Hp as (Hd & Hn & Hno). split_and!; [done|done|]. intros j q [[_ ->]|[_ Hj]]%Hat; [done|by eapply Hno].
    + destruct Hp as (Hn & k & rest & Hk & Hc & Hu). split; [done|]. exists k, rest. split_and!; [|done|].
      * rewrite list_lookup_insert_ne; [done|]. intros ->. apply Hm. rewrite Hi in Hk. injection Hk as ->. by eexists.
      * intros j q [[_ ->]|[_ Hj]]%Hat Hq; [done|by eapply Hu].
    + destruct Hp as (Hd & Hn & Hno). split_and!; [done|done|]. intros j q [[_ ->]|[_ Hj]]%Hat; [done|by eapply Hno].
  - intros j q [[_ ->]|[_ Hj]]%Hat; [done|by eapply Ht].
Qed.

(** A thread that begins to make the static, goes on, stops or is done. *)
Lemma fine_maker i p p' x ph k s : fine s -> st_threads s !! i = Some p ->
  (forall j q, j <> i -> st_threads s !! j = Some q -> ~ making q) -> st_phase s <> Made ->
  match ph with
  | Untouched => x = raw /\ k = 0%nat /\ p' = Throws
  | Making => k = 0%nat /\ exists rest, p' = Constructs rest /\ constructed rest x = constructed ctor raw
  | Made => constructed ctor raw = Some x /\ k = 1%nat /\ p' = Returns
  end -> fine (at_pc i p' (Statics x ph k (st_threads s))).
Proof.
  intros [Hp Ht] Hi Hno Hph Hnew.
  assert (i < length (st_threads s))%nat as Hlt by (by eapply lookup_lt_Some).
  assert (forall j q, <[i := p']> (st_threads s) !! j = Some q -> (i = j /\ q = p') \/ (i <> j /\ st_threads s !! j = Some q)) as Hat.
  { intros j q [(-> & -> & _)|[Hne Hj]]%list_lookup_insert_Some; [by left|by right]. }
  split; cbn [at_pc st_phase st_data st_made st_threads].
  - destruct ph.
    + destruct Hnew as (-> & -> & ->). split_and!; [done|done|].
      intros j q [[_ ->]|[Hne Hj]]%Hat; [by intros [rest ?]|by eapply Hno].
    + destruct Hnew as (-> & rest & -> & Hc). split; [done|]. exists i, rest. rewrite list_lookup_insert_eq by done.
      split_and!; [done|done|]. intros j q [[-> _]|[Hne Hj]]%Hat Hq; [done|]. by destruct (Hno j q).
    + destruct Hnew as (Hc & -> & ->). split_and!; [done|done|].
      intros j q [[_ ->]|[Hne Hj]]%Hat; [by intros [rest ?]|by eapply Hno].
  - intros j q [[_ ->]|[Hne Hj]]%Hat.
    + destruct ph; [destruct Hnew as (_ & _ & ->)|destruct Hnew as (_ & rest & -> & _)|destruct Hnew as (_ & _ & ->)]; by split.
    + destruct (Ht j q Hj) as [Hr Hh]. split; [intros E; by destruct (Hph (Hr E))|].
      intros y E. by destruct (Hph (proj1 (Hh y E))).
Qed.

Lemma fine_step i s s' : fine s -> step i s = Some s' -> fine s'.
Proof.
  intros Hf E. pose proof Hf as [Hp Ht]. unfold step in E.
  destruct (st_threads s !! i) as [[|[|f rest]| |x|]|] eqn:Hi; try done.
  - destruct (st_phase s) eqn:Eph; [|done|]; injection E as <-.
    + destruct Hp as (Hd & Hn & Hno). apply (fine_maker i Calls); rewrite ?Eph; try done.
      { intros j q _ Hj. by eapply Hno. }
      split; [done|]. exists ctor. by rewrite Hd.
    + apply (fine_quiet i Calls); rewrite ?Eph; try done; by intros [rest ?].
  - destruct (st_phase s) eqn:Eph; [|destruct Hp as (Hn & k & rest & Hk & Hc & Hu)|].
    1,3: by destruct Hp as (_ & _ & Hno); destruct (Hno _ _ Hi); eexists.
    assert (i = k) as <- by (apply (Hu i (Constructs [])); [done|by eexists]). rewrite Hi in Hk. injection Hk as <-.
    injection E as <-. apply (fine_maker i (Constructs [])); [done|done| |by rewrite Eph|by rewrite Hn, <- Hc].
    intros j q Hne Hj Hq. by apply Hne, (Hu j q).
  - destruct (st_phase s) eqn:Eph; [|destruct Hp as (Hn & k & rest' & Hk & Hc & Hu)|].
    1,3: by destruct Hp as (_ & _ & Hno); destruct (Hno _ _ Hi); eexists.
    assert (i = k) as <- by (apply (Hu i (Constructs (f :: rest))); [done|by eexists]). rewrite Hi in Hk. injection Hk as <-.
    assert (forall j q, j <> i -> st_threads s !! j = Some q -> ~ making q) as Hno
      by (intros j q Hne Hj Hq; by apply Hne, (Hu j q)).
    destruct (f (st_data s)) as [x|] eqn:Ef; injection E as <-;
      apply (fine_maker i (Constructs (f :: rest))); try done; rewrite ?Eph; try done.
    split; [done|]. exists rest. split; [done|]. rewrite <- Hc. simpl. by rewrite Ef.
  - injection E as <-. destruct (Ht i _ Hi) as [Hm _]. apply (fine_quiet i Returns); try done.
    + by intros [rest ?].
    + by intros [rest ?].
    + intros x [= <-]. by split; [apply Hm|].
Qed.

Lemma reachable_fine n s : reachable n s -> fine s.
Proof.
  induction 1 as [|i s p _ IH Hi Hd|i s s' _ IH E].
  - split; [split_and!; [done|done|]|]; intros i p [-> _]%lookup_replicate; [by intros [rest ?]|by split].
  - apply (fine_quiet i p); try done.
    + destruct Hd as [->|[x ->]]; by intros [rest ?].
    + by intros [rest ?].
  - by eapply fine_step.
Qed.

(** *** Runs end *)

Definition pc_weight p : nat :=
  match p with
  | Calls => 3 + length ctor
  | Constructs rest => 2 + length rest
  | Returns => 1
  | _ => 0
  end.
Definition weight s : nat := sum_list_with pc_weight (st_threads s).

Lemma weight_at i p p' l : l !! i = Some p -> (pc_weight p' < pc_weight p)%nat ->
  (sum_list_with pc_weight (<[i := p']> l) < sum_list_with pc_weight l)%nat.
Proof.
  intros Hi Hlt. rewrite insert_take_drop by (by eapply lookup_lt_Some).
  rewrite <- (take_drop_middle _ _ _ Hi) at 3. rewrite !sum_list_with_app. simpl. lia.
Qed.

Lemma step_lighter i s s' : step i s = Some s' -> (weight s' < weight s)%nat.
Proof.
  unfold step, weight. intros E. destruct (st_threads s !! i) as [[|[|f rest]| |x|]|] eqn:Hi; try done.
  - destruct (st_phase s); simplify_eq/=; (eapply weight_at; [exact Hi|simpl; lia]).
  - simplify_eq/=. eapply weight_at; [exact Hi|simpl; lia].
  - destruct (f (st_data s)); simplify_eq/=; (eapply weight_at; [exact Hi|simpl; lia]).
  - simplify_eq/=. eapply weight_at; [exact Hi|simpl; lia].
Qed.

Lemma some_goes s i p : fine s -> st_threads s !! i = Some p -> ~ done_with p -> exists j s', step j s = Some s'.
Proof.
  intros [Hp Ht] Hi Hn.
  assert (forall j rest, st_threads s !! j = Some (Constructs rest) -> exists s', step j s = Some s') as Hmaker.
  { intros j rest Hj. unfold step. rewrite Hj. destruct rest as [|f rest]; [by eexists|]. destruct (f _); by eexists. }
  destruct p as [|rest| |x|].
  - destruct (st_phase s) eqn:Eph; [|destruct Hp as (_ & k & rest & Hk & _); exists k; by eapply Hmaker|];
      exists i; unfold step; rewrite Hi, Eph; by eexists.
  - exists i. by eapply Hmaker.
  - exists i. unfold step. rewrite Hi. by eexists.
  - destruct Hn. right. by eexists.
  - destruct Hn. by left.
Qed.

(** C32.  The singletons are safe with threads: every caller has the object as the
    whole constructor leaves it, one and the same for all; the constructor runs
    in one thread at a time and ends once, after which the object stays; nobody
    waits for ever: every run without new calls ends, and while a call has not
    returned some thread can go on. *)
Theorem instance_shared n s : reachable n s ->
  (forall i x, st_threads s !! i = Some (Has x) -> constructed ctor raw = Some x) /\
  (st_made s <= 1)%nat /\
  (forall i j r1 r2, st_threads s !! i = Some (Constructs r1) -> st_threads s !! j = Some (Constructs r2) -> i = j) /\
  (forall i s', st_phase s = Made -> step i s = Some s' -> st_phase s' = Made /\ st_data s' = st_data s) /\
  Acc (fun s2 s1 => exists i, step i s1 = Some s2) s /\
  (forall i p, st_threads s !! i = Some p -> ~ done_with p -> exists j s', step j s = Some s').
Proof.
  intros Hr. pose proof (reachable_fine n s Hr) as Hf. pose proof Hf as [Hp Ht]. split_and!.
  - intros i x Hi. destruct (proj2 (Ht i _ Hi) x eq_refl) as [Eph ->]. rewrite Eph in Hp. apply Hp.
  - destruct (st_phase s); [destruct Hp as (_ & -> & _)|destruct Hp as [-> _]|destruct Hp as (_ & -> & _)]; lia.
  - intros i j r1 r2 Hi Hj. destruct (st_phase s).
    1,3: by destruct Hp as (_ & _ & Hno); destruct (Hno _ _ Hi); eexists.
    destruct Hp as (_ & k & rest & _ & _ & Hu). transitivity k; [|symmetry]; eapply Hu; try done; by eexists.
  - intros i s' Eph E. rewrite Eph in Hp. destruct Hp as (_ & _ & Hno). unfold step in E.
    destruct (st_threads s !! i) as [[|rest| |x|]|] eqn:Hi; try done; [rewrite Eph in E|by destruct (Hno _ _ Hi); eexists|];
      by injection E as <-.
  - clear. remember (weight s) as k eqn:Ek. revert s Ek. induction k as [k IH] using lt_wf_ind. intros s ->.
    split. intros s' [i E]. eapply IH; [|done]. by eapply step_lighter.
  - intros i p. by apply some_goes.
Qed.
End Singleton.

(** ** Witness *)

(** Two pieces, of which the second throws when it finds 0; thread 0 makes the
    object while thread 1 waits, and both have it. *)
Definition ex_ctor : list (nat -> option nat) := [fun x => Some (x + 1)%nat; fun x => if (x =? 0)%nat then None else Some (x + 1)%nat].

Fixpoint ex_turns (ts : list nat) (s : statics nat) : option (statics nat) :=
  match ts with [] => Some s | i :: ts => s ← step 0%nat ex_ctor i s; ex_turns ts s end.

Lemma ex_turns_reachable ts : forall s s', reachable 0%nat ex_ctor 2 s -> ex_turns ts s = Some s' ->
  reachable 0%nat ex_ctor 2 s'.
Proof.
  induction ts as [|i ts IH]; intros s s' Hr E; cbn [ex_turns] in E; [by injection E as <-|].
  destruct (step 0%nat ex_ctor i s) as [s1|] eqn:Es; [|done]. eapply IH; [by eapply In_step|exact E].
Qed.

Definition ex_start : statics nat := Statics 0%nat Untouched 0 [Throws; Throws].
Definition ex_both : statics nat :=
  default ex_start (ex_turns [0; 0; 0; 0; 0; 1; 1]%nat (at_pc 1 Calls (at_pc 0 Calls ex_start))).

Lemma instance_shared_witness : st_threads ex_both = [Has 2%nat; Has 2%nat] /\ constructed ex_ctor 0%nat = Some 2%nat.
Proof.
  assert (reachable 0%nat ex_ctor 2 ex_both) as Hr.
  { apply (ex_turns_reachable [0; 0; 0; 0; 0; 1; 1]%nat (at_pc 1 Calls (at_pc 0 Calls ex_start))); [|reflexivity].
    eapply In_call; [eapply (In_call _ _ 2 0); [exact (In_start 0%nat ex_ctor 2)|reflexivity|by left]|reflexivity|by left]. }
  split; [reflexivity|].
  destruct (instance_shared 0%nat ex_ctor 2 ex_both Hr) as [Hh _]. apply (Hh 1%nat). reflexivity.
Defined.
