(* ===== verification/LogThreads.v ===== *)
(** * Logging from several threads (src/sylar/log.h, log.cc)

    The operations of Logger.v cut at the scoped locks of the source: the mutex of
    the manager, of each logger and of each appender, taken and left where the
    code does, and between them the accesses one thread makes at once.  A loop
    over [m_appenders] or [m_loggers] looks at the list each round: a list that
    has changed under it is undefined, as for the iterators of the code. *)

From Stdlib Require Import Wellfounded.
From S2P Require Import Prelude StdSet Text LogFormat Logger Yaml Config LogConfig Thread Interleave.

Inductive mutex : Type := MManager | MLogger (l : lptr) | MAppender (a : aptr).
#[export] Instance mutex_eq_dec : EqDecision mutex.
Proof. solve_decision. Defined.

(** What a loop over the appenders does with each: [Logger::log],
    [Logger::setFormatter], [Logger::toYamlString]. *)
Inductive body : Type :=
| BLog (now level : Z) (event : LogEvent)
| BFollow (val : option LogFormatter)
| BYaml.

Inductive act : Type :=
| ALog (now level : Z) (event : LogEvent) (l : lptr)
| ALogBody (now level : Z) (event : LogEvent) (l : lptr)
| AAppender (now level : Z) (event : LogEvent) (a : aptr)
| AFile (now level : Z) (event : LogEvent) (a : aptr)
| AReopen (a : aptr)
| ALastTime (a : aptr) (now : Z)
| AWrite (level : Z) (event : LogEvent) (a : aptr)
| AEach (b : body) (l : lptr) (done rest : list aptr)
| ASetFormatter (l : lptr) (val : option LogFormatter)
| AFollow (val : option LogFormatter) (a : aptr)
| AHasFormatter (l : lptr) (a : aptr)
| AInherit (l : lptr) (a : aptr)
| APush (l : lptr) (a : aptr)
| AErase (l : lptr) (a : aptr)
| AClear (l : lptr)
| ASetLevel (l : lptr) (val : Z)
| AApLevel (a : aptr) (val : Z)
| AApFormatter (a : aptr) (val : option LogFormatter)
| AFormatter (l : lptr)
| APrint (t : text)
| AInvalid (l : lptr)
| AApRead (a : aptr)
| AGetLogger (name : text)
| ANew (k : appender_kind)
| AYamlAll
| AYamlEach (found : gmap text lptr) (rest : list lptr)
| AYamlLogger (l : lptr).

Abbreviation code := (list (instr mutex act)).

Abbreviation locked := (Interleave.locked Exclusive).

(** ** The operations *)

(** [Logger::toYamlString]. *)
Definition logger_toYaml (l : lptr) : code := locked (MLogger l) [Do (AYamlLogger l)].

Inductive op : Type :=
| Call (c : call)
| GetFormatter (l : lptr) | ApGetFormatter (a : aptr)
| ToYaml.

(** A [FileLogAppender] opens its file before anybody else has it. *)
Definition code_of (o : op) : code :=
  match o with
  | Call (GetLogger name) => locked MManager [Do (AGetLogger name)]
  | Call (NewAppender k) => [Do (ANew k)]
  | Call (AddAppender l a) =>
      locked (MLogger l) [Lock Exclusive (MAppender a); Do (AHasFormatter l a)]
  | Call (DelAppender l a) => locked (MLogger l) [Do (AErase l a)]
  | Call (ClearAppenders l) => locked (MLogger l) [Do (AClear l)]
  | Call (SetLevel l val) => [Do (ASetLevel l val)]
  | Call (SetFormatter l val) => locked (MLogger l) [Do (ASetFormatter l (Some val))]
  | Call (SetPattern l val) =>
      let new_val := LogFormatter_new val in
      Do (APrint (LogFormatter_out val)) ::
      if m_error new_val then [Do (AInvalid l)] else locked (MLogger l) [Do (ASetFormatter l (Some new_val))]
  | Call (ApSetLevel a val) => [Do (AApLevel a val)]
  | Call (ApSetFormatter a val) => locked (MAppender a) [Do (AApFormatter a (Some val))]
  | Call (Log now level event l) => [Do (ALog now level event l)]
  | GetFormatter l => locked (MLogger l) [Do (AFormatter l)]
  | ApGetFormatter a => locked (MAppender a) [Do (AApRead a)]
  | ToYaml => locked MManager [Do AYamlAll]
  end.

Definition op_valid (o : op) (w : logs) : Prop :=
  match o with
  | Call c => valid c w
  | GetFormatter l => is_Some (loggers w !! l)
  | ApGetFormatter a => is_Some (appenders w !! a)
  | ToYaml => True
  end.

Section Acts.
Context (strftime : text -> Z -> text) (can_open : text -> bool).
Implicit Types (w : logs) (l : lptr) (a : aptr).

(** One round of a loop. *)
Definition body_code (b : body) a : code :=
  match b with
  | BLog now level event => [Do (AAppender now level event a)]
  | BFollow val => locked (MAppender a) [Do (AFollow val a)]
  | BYaml => locked (MAppender a) [Do (AApRead a)]
  end.

Definition ap_with_last (t : Z) (y : LogAppender) : LogAppender :=
  Appender (ap_kind y) (ap_level y) (ap_hasFormatter y) (ap_formatter y) t (ap_stream y).
Definition ap_append (t : text) (y : LogAppender) : LogAppender :=
  Appender (ap_kind y) (ap_level y) (ap_hasFormatter y) (ap_formatter y) (ap_lastTime y)
    ((fun s => s ++ t) <$> ap_stream y).

(** What an act does, and what follows from it. *)
Definition act_step (x : act) w : res (code * logs) :=
  match x with
  | ALog now level event l =>
      x ← get_logger l w;
      mret (if level <? lg_level x then [] else locked (MLogger l) [Do (ALogBody now level event l)], w)
  | ALogBody now level event l =>
      x ← get_logger l w;
      mret (match lg_appenders x, lg_root x with
            | [], None => []
            | [], Some r => [Do (ALog now level event r)]
            | as_, _ => [Do (AEach (BLog now level event) l [] as_)]
            end, w)
  | AEach b l done rest =>
      x ← get_logger l w;
      if bool_decide (lg_appenders x = done ++ rest) then
        mret (match rest with
              | [] => []
              | a :: rest => body_code b a ++ [Do (AEach b l (done ++ [a]) rest)]
              end, w)
      else Err (FUB "iterator of m_appenders")
  | AAppender now level event a =>
      y ← get_appender a w;
      mret (if level <? ap_level y then []
            else match ap_kind y with
                 | StdoutLogAppender => locked (MAppender a) [Do (AWrite level event a)]
                 | FileLogAppender _ => [Do (AFile now level event a)]
                 end, w)
  | AFile now level event a =>
      y ← get_appender a w;
      mret ((if now =? ap_lastTime y then []
             else locked (MAppender a) [Do (AReopen a)] ++ [Do (ALastTime a now)])
            ++ locked (MAppender a) [Do (AWrite level event a)], w)
  | AReopen a => y ← get_appender a w; mret ([], put_appender a (reopen can_open y).2 w)
  | ALastTime a now => y ← get_appender a w; mret ([], put_appender a (ap_with_last now y) w)
  | AWrite level event a =>
      y ← get_appender a w;
      f ← deref (ap_formatter y) "m_formatter";
      let t := format strftime f level event in
      mret ([], match ap_kind y with
                | StdoutLogAppender => put_out t w
                | FileLogAppender _ =>
                    put_out (match ap_stream y with Some _ => [] | None => write_error end)
                      (put_appender a (ap_append t y) w)
                end)
  | ASetFormatter l val =>
      x ← get_logger l w;
      mret ([Do (AEach (BFollow val) l [] (lg_appenders x))], put_logger l (with_formatter val x) w)
  | AFollow val a =>
      y ← get_appender a w;
      mret ([], if ap_hasFormatter y then w else put_appender a (ap_with_formatter false val y) w)
  | AHasFormatter l a =>
      y ← get_appender a w;
      mret (match ap_formatter y with
            | Some _ => [Unlock (MAppender a); Do (APush l a)]
            | None => [Unlock (MAppender a); Lock Exclusive (MAppender a); Do (AInherit l a)]
            end, w)
  | AInherit l a =>
      x ← get_logger l w;
      y ← get_appender a w;
      mret ([Unlock (MAppender a); Do (APush l a)],
            put_appender a (ap_with_formatter (ap_hasFormatter y) (lg_formatter x) y) w)
  | APush l a => x ← get_logger l w; mret ([], put_logger l (with_appenders (lg_appenders x ++ [a]) x) w)
  | AErase l a => w ← delAppender l a w; mret ([], w)
  | AClear l => w ← clearAppenders l w; mret ([], w)
  | ASetLevel l val => w ← setLevel l val w; mret ([], w)
  | AApLevel a val => w ← ap_setLevel a val w; mret ([], w)
  | AApFormatter a val => w ← ap_setFormatter a val w; mret ([], w)
  | AFormatter l => _ ← get_logger l w; mret ([], w)
  | APrint t => mret ([], put_out t w)
  | AInvalid l => x ← get_logger l w; mret ([], put_out (invalid_formatter (lg_name x)) w)
  | AApRead a => _ ← get_appender a w; mret ([], w)
  | AGetLogger name => mret ([], (getLogger name w).2)
  | ANew k => mret ([], (LogAppender_new can_open k w).2)
  | AYamlAll => mret ([Do (AYamlEach (m_loggers w) (loggers_in_order w).*2)], w)
  | AYamlEach found rest =>
      if bool_decide (m_loggers w = found) then
        mret (match rest with [] => [] | l :: rest => logger_toYaml l ++ [Do (AYamlEach found rest)] end, w)
      else Err (FUB "iterator of m_loggers")
  | AYamlLogger l =>
      x ← get_logger l w; mret ([Do (AEach BYaml l [] (lg_appenders x))], w)
  end.
End Acts.

(** ** The discipline *)

Section Discipline.
Context (strftime : text -> Z -> text) (can_open : text -> bool) (root : lptr).
Implicit Types (w : logs) (l : lptr) (a : aptr) (hs : taken mutex).

(** The manager's mutex is taken before a logger's, a logger's before the
    root logger's, and those before an appender's. *)
Definition mutex_order (k : mutex) : nat :=
  match k with MManager => 3 | MLogger l => if (l =? root)%nat then 1 else 2 | MAppender _ => 0 end.

Definition has_logger w l : Prop := is_Some (loggers w !! l).
Definition has_appender w a : Prop := is_Some (appenders w !! a).
Definition formatted w a : Prop := exists y, appenders w !! a = Some y /\ is_Some (ap_formatter y).
Definition top k hs : Prop := exists hs', hs = (k, Exclusive) :: hs'.
Definition under k hs : Prop := Forall (fun h => mutex_order k < mutex_order h.1)%nat hs.

Definition body_fits (b : body) : Prop := match b with BFollow val => is_Some val | _ => True end.

Definition act_fits w hs (x : act) : Prop :=
  match x with
  | ALog _ _ _ l => under (MLogger l) hs /\ has_logger w l
  | ALogBody _ _ _ l | AYamlLogger l | AErase l _ | AClear l => top (MLogger l) hs /\ has_logger w l
  | AAppender _ _ _ a | AFile _ _ _ a => under (MAppender a) hs /\ formatted w a
  | AReopen a => top (MAppender a) hs /\ has_appender w a
  | AWrite _ _ a => top (MAppender a) hs /\ formatted w a
  | AEach b l d r => top (MLogger l) hs /\ body_fits b /\
      exists x, loggers w !! l = Some x /\ lg_appenders x = d ++ r
  | ASetFormatter l val => top (MLogger l) hs /\ has_logger w l /\ is_Some val
  | AFollow val a | AApFormatter a val => top (MAppender a) hs /\ has_appender w a /\ is_Some val
  | AHasFormatter l a | AInherit l a => has_logger w l /\ has_appender w a /\
      exists hs', hs = (MAppender a, Exclusive) :: (MLogger l, Exclusive) :: hs'
  | APush l a => top (MLogger l) hs /\ has_logger w l /\ formatted w a
  | ASetLevel l _ | AFormatter l | AInvalid l => has_logger w l
  | AApLevel a _ | AApRead a | ALastTime a _ => has_appender w a
  | AGetLogger _ | AYamlAll => top MManager hs
  | AYamlEach found rest => top MManager hs /\ m_loggers w = found /\ Forall (has_logger w) rest
  | ANew _ | APrint _ => True
  end.

Definition logging : discipline mutex act logs := {|
  inv w := wf w /\ m_root w = root;
  order := mutex_order;
  fits := act_fits;
  leaves x := match x with AHasFormatter _ _ | AInherit _ _ => 1%nat | _ => 0%nat end;
  guard x := match x with AEach _ l _ _ => Some (MLogger l) | AYamlEach _ _ => Some MManager | _ => None end;
  writes x := match x with
              | AHasFormatter l _ | AInherit l _ | APush l _ | AErase l _ | AClear l => Some (MLogger l)
              | AGetLogger _ => Some MManager
              | _ => None
              end |}.

(** What every step leaves alone, but for what [o] protects. *)
Record grows (o : option mutex) w w' : Prop := Grows {
  gr_inv : inv logging w';
  gr_logger l x : loggers w !! l = Some x -> exists x', loggers w' !! l = Some x' /\
    (o <> Some (MLogger l) -> lg_appenders x' = lg_appenders x);
  gr_appender a y : appenders w !! a = Some y -> exists y', appenders w' !! a = Some y' /\
    (is_Some (ap_formatter y) -> is_Some (ap_formatter y'));
  gr_names : o <> Some MManager -> m_loggers w' = m_loggers w }.

Lemma grows_same o w : inv logging w -> grows o w w.
Proof. intros Hi. split; [done|eauto|eauto|done]. Qed.

Lemma grows_logger o l x x' w : inv logging w -> loggers w !! l = Some x ->
  lg_name x' = lg_name x -> lg_root x' = lg_root x -> is_Some (lg_formatter x') ->
  (lg_appenders x' = lg_appenders x \/ o = Some (MLogger l)) ->
  (forall a, a ∈ lg_appenders x' -> a ∈ lg_appenders x \/ formatted w a) -> grows o w (put_logger l x' w).
Proof.
  intros [Hw Hr] Hx En Er Hf Ho Ha. split; cbn [loggers appenders m_loggers put_logger]; [|intros k y Hy|eauto|done].
  - split; [|done]. apply (wf_put_logger l x); try done. intros a Hin.
    destruct (Ha a Hin) as [Hin'|(y & ? & ?)]; [by eapply wf_appenders|eauto].
  - destruct (decide (l = k)) as [<-|Hne]; [|rewrite lookup_insert_ne by done; eauto].
    rewrite lookup_insert_eq. simplify_eq. eexists. split; [done|]. intros ?. by destruct Ho.
Qed.

Lemma grows_appender o a y y' w : inv logging w -> appenders w !! a = Some y ->
  (is_Some (ap_formatter y) -> is_Some (ap_formatter y')) ->
  (ap_hasFormatter y' = true -> is_Some (ap_formatter y')) -> grows o w (put_appender a y' w).
Proof.
  intros [Hw Hr] Hy Hf Ho. split; cbn [loggers appenders m_loggers put_appender]; [|eauto|intros b z Hz|done].
  - split; [|done]. by apply (wf_put_appender a y).
  - destruct (decide (a = b)) as [<-|Hne]; [|rewrite lookup_insert_ne by done; eauto].
    rewrite lookup_insert_eq. simplify_eq. eauto.
Qed.

Lemma grows_getLogger name w : inv logging w -> grows (Some MManager) w (getLogger name w).2.
Proof.
  intros [Hw Hr]. pose proof (wf_getLogger name w Hw) as Hg. unfold getLogger in *.
  destruct (m_loggers w !! name) as [l|] eqn:E; [split; [done|eauto|eauto|done]|].
  pose proof (wf_new_logger name (Some (m_root w)) w Hw ltac:(congruence)) as Hnew.
  destruct (Logger_new name (Some (m_root w)) w) as [l w1].
  destruct Hnew as (_ & Hnone & _ & Hother & _ & Hroot & Ha & _). destruct Hg as (Hw' & _).
  split; cbn [loggers appenders m_loggers m_root snd]; [split; [done|]| | |done].
  - cbn [m_root]. congruence.
  - intros k x Hx. rewrite Hother; [eauto|]. intros ->. congruence.
  - rewrite Ha. eauto.
Qed.

Lemma grows_new k w : inv logging w -> grows None w (LogAppender_new can_open k w).2.
Proof.
  intros [Hw Hr]. pose proof (wf_new_appender can_open k w Hw) as Hnew.
  destruct (LogAppender_new can_open k w) as [a w'] eqn:E.
  destruct Hnew as (Hw' & Hnone & Hl & Hm & Hr' & _ & Hother). cbn [snd].
  split; [split; [done|congruence]|rewrite Hl; eauto| |by rewrite Hm].
  intros b y Hy. rewrite Hother; [eauto|]. intros ->. congruence.
Qed.

Abbreviation step_of := (act_step strftime can_open).

Lemma grows_put_appender a y y' w : inv logging w -> appenders w !! a = Some y ->
  ap_formatter y' = ap_formatter y -> ap_hasFormatter y' = ap_hasFormatter y -> grows None w (put_appender a y' w).
Proof.
  intros Hi Hy Ef Eh. apply (grows_appender _ a y); [done|done|by rewrite Ef|].
  rewrite Ef, Eh. eapply wf_own; [apply Hi|done].
Qed.

Lemma grows_then_out o t w w' : grows o w w' -> grows o w (put_out t w').
Proof. intros [[Hw Hr] Hl Ha Hn]. split; [split; [by apply wf_put_out|done]|done|done|done]. Qed.

Lemma grows_out o t w : inv logging w -> grows o w (put_out t w).
Proof. intros Hi. by apply grows_then_out, grows_same. Qed.

(** A change of a logger that keeps its name, its root and its appenders. *)
Lemma grows_put_logger l x x' w : inv logging w -> loggers w !! l = Some x ->
  lg_name x' = lg_name x -> lg_root x' = lg_root x -> is_Some (lg_formatter x') ->
  lg_appenders x' = lg_appenders x -> grows None w (put_logger l x' w).
Proof.
  intros Hi Hx En Er Hf Ea. apply (grows_logger _ l x); [done|done|done|done|done|by left|].
  intros a. rewrite Ea. by left.
Qed.

(** No act fails, whatever is logged by others. *)
Lemma act_ok x w hs : inv logging w -> act_fits w hs x ->
  exists new w', step_of x w = Ok (new, w') /\ grows (writes logging x) w w'.
Proof.
  intros Hi Hf. pose proof Hi as [Hw Hr].
  destruct x; cbn [act_fits] in Hf; cbn [act_step writes logging]; unfold has_logger, has_appender, formatted in Hf;
    repeat match goal with
    | H : _ /\ _ |- _ => destruct H
    | H : exists _, _ |- _ => destruct H
    | H : is_Some (loggers w !! ?l) |- _ => destruct H as [v Hv]
    | H : is_Some (appenders w !! ?a) |- _ => destruct H as [y Hy]
    end;
    unfold delAppender, clearAppenders, setLevel, ap_setLevel, ap_setFormatter, get_logger, get_appender;
    repeat match goal with H : ?e = Some _ |- context [?e] => rewrite H end; cbn [deref]; res_simpl.
  all: try (do 2 eexists; split; [reflexivity|by apply grows_same]).
  - do 2 eexists. split; [done|]. apply (grows_put_appender a y); [done|done|by unfold reopen; destruct (ap_kind y)..].
  - do 2 eexists. split; [done|]. by apply (grows_put_appender a y).
  - destruct H1 as [f Hf]. rewrite Hf. cbn [deref]. res_simpl. do 2 eexists. split; [done|].
    destruct (ap_kind x); [by apply grows_out|by apply grows_then_out, (grows_put_appender a x)].
  - rewrite bool_decide_true by done. do 2 eexists. split; [done|]. by apply grows_same.
  - do 2 eexists. split; [done|]. by apply (grows_put_logger l v).
  - do 2 eexists. split; [done|]. destruct (ap_hasFormatter y) eqn:Eh; [by apply grows_same|].
    apply (grows_appender _ a y); [done|done|by simpl..].
  - do 2 eexists. split; [done|]. pose proof (wf_formatter _ Hw _ _ Hv) as Hvf. apply (grows_appender _ a y); [done|done|by simpl..].
  - do 2 eexists. split; [done|]. eapply (grows_logger _ l); [done|exact Hv|done|done|exact (wf_formatter _ Hw _ _ Hv)|by right|].
    cbn [lg_appenders with_appenders]. intros b [?|Hb%list_elem_of_singleton]%elem_of_app; [by left|right; subst b; by eexists].
  - do 2 eexists. split; [done|]. eapply (grows_logger _ l); [done|exact Hv|done|done|exact (wf_formatter _ Hw _ _ Hv)|by right|].
    intros b Hb%erase_first_elem. by left.
  - do 2 eexists. split; [done|]. eapply (grows_logger _ l); [done|exact Hv|done|done|exact (wf_formatter _ Hw _ _ Hv)|by right|].
    by intros b Hb%not_elem_of_nil.
  - do 2 eexists. split; [done|]. apply (grows_put_logger l v); try done. exact (wf_formatter _ Hw _ _ Hv).
  - do 2 eexists. split; [done|]. by apply (grows_put_appender a y).
  - do 2 eexists. split; [done|]. apply (grows_appender _ a y); [done|done|by simpl..].
  - do 2 eexists. split; [done|]. by apply grows_out.
  - do 2 eexists. split; [done|]. by apply grows_out.
  - do 2 eexists. split; [done|]. by apply grows_getLogger.
  - do 2 eexists. split; [done|]. by apply grows_new.
  - rewrite bool_decide_true by done. do 2 eexists. split; [done|]. by apply grows_same.
Qed.

(** What another thread still has to do keeps fitting. *)
Lemma fits_grows o w w' hs x : grows o w w' -> act_fits w hs x ->
  (forall k, o = Some k -> guard logging x <> Some k) -> act_fits w' hs x.
Proof.
  intros [Hi Hl Ha Hn] Hf Hg.
  assert (forall l, has_logger w l -> has_logger w' l) as Hlog
    by (intros l [v Hv]; destruct (Hl l v Hv) as (v' & ? & _); by eexists).
  assert (forall a, has_appender w a -> has_appender w' a) as Happ
    by (intros a [y Hy]; destruct (Ha a y Hy) as (y' & ? & _); by eexists).
  assert (forall a, formatted w a -> formatted w' a) as Hfor
    by (intros a (y & Hy & Hyf); destruct (Ha a y Hy) as (y' & ? & ?); eexists; eauto).
  destruct x; cbn [act_fits] in *; try (destruct_and? Hf; split_and?; by auto).
  - destruct Hf as (Ht & Hb & v & Hv & E). split_and!; [done|done|]. destruct (Hl l v Hv) as (v' & Hv' & E').
    exists v'. split; [done|]. rewrite E'; [done|]. intros ->. by apply (Hg _ eq_refl).
  - destruct Hf as (Ht & E & Hr). split_and!; [done| |].
    + rewrite Hn; [done|]. intros ->. by apply (Hg _ eq_refl).
    + eapply Forall_impl; [exact Hr|]. exact Hlog.
Qed.

(** *** The laws *)

Section Laws.
Context {S : Type} `{Lockable S} (Hexclusive : supports (S := S) Exclusive = true).
Abbreviation right := (tidy (S := S) logging).

Lemma logging_guards w hs x k : act_fits w hs x -> guard logging x = Some k -> k ∈ hs.*1.
Proof.
  destruct x; cbn; try done.
  - intros ((hs' & ->) & _) [= <-]. by left.
  - intros ((hs' & ->) & _) [= <-]. by left.
Qed.

Lemma under_top k k' hs : ordered logging hs -> top k hs -> (mutex_order k' < mutex_order k)%nat -> under k' hs.
Proof.
  intros Ho (hs' & ->) Hk. destruct Ho as [Hb _]. constructor; [done|]. eapply Forall_impl; [exact Hb|].
  intros h Hh. simpl in Hh. lia.
Qed.

Lemma locked_right k x r w hs : under k hs -> act_fits w ((k, Exclusive) :: hs) x ->
  guard logging x = None -> (forall k', writes logging x = Some k' -> k' = k) -> leaves logging x = 0%nat ->
  right w hs r -> right w hs (locked k [Do x] ++ r).
Proof. intros. by apply (tidy_locked logging Exclusive k x r w hs logging_guards). Qed.

(** One act, in front of what is right without what it changes. *)
Lemma do_right x r w hs : act_fits w hs x -> writes logging x = None -> leaves logging x = 0%nat ->
  right w hs r -> right w hs (Do x :: r).
Proof. intros Hf Hw Hl Hr. cbn [tidy]. rewrite Hw, Hl. by split_and!. Qed.

Lemma body_right b a r w hs : under (MAppender a) hs -> formatted w a -> body_fits b -> right w hs r ->
  right w hs (body_code b a ++ r).
Proof.
  intros Hu Hf Hb Hr. assert (has_appender w a) as Ha by (destruct Hf as (y & ? & _); by eexists).
  destruct b; cbn [body_code].
  - by apply do_right.
  - apply locked_right; try done. cbn. split; [by eexists|done].
  - by apply locked_right.
Qed.

Lemma each_formatted b l d a r w hs : inv logging w -> act_fits w hs (AEach b l d (a :: r)) -> formatted w a.
Proof.
  intros [Hw _] (_ & _ & v & Hv & E). eapply (wf_appenders _ Hw l v); [done|]. rewrite E, elem_of_app. right. by left.
Qed.

Lemma mutex_order_appender a l : (mutex_order (MAppender a) < mutex_order (MLogger l))%nat.
Proof. simpl. destruct (l =? root)%nat; lia. Qed.

Lemma push_right l a r w hs : act_fits w ((MLogger l, Exclusive) :: hs) (APush l a) ->
  unguarded logging (Some (MLogger l)) r -> right w ((MLogger l, Exclusive) :: hs) r ->
  right w ((MAppender a, Exclusive) :: (MLogger l, Exclusive) :: hs) (Unlock (MAppender a) :: Do (APush l a) :: r).
Proof. intros Hf Hu Hr. cbn [tidy]. do 2 eexists. split; [done|]. by split_and!. Qed.

(** The recursion of [Logger::log]: only the root logger can follow. *)
Lemma root_fits now level event l v q w hs : inv logging w -> ordered logging hs -> top (MLogger l) hs ->
  loggers w !! l = Some v -> lg_root v = Some q -> act_fits w hs (ALog now level event q).
Proof.
  intros [Hw Hr] Ho Ht Hv Hq. rewrite (wf_chain _ Hw l v q Hv Hq). destruct (wf_root _ Hw) as (x & Hx & Hn & _).
  rewrite Hr in *.
  split; [|by eexists]. apply (under_top (MLogger l)); [done|done|]. simpl. rewrite Nat.eqb_refl.
  destruct (Nat.eqb_spec l root) as [->|]; [congruence|lia].
Qed.

(** [addAppender] after it has looked for a formatter. *)
Lemma inherit_right l a y r w hs : ordered logging ((MAppender a, Exclusive) :: (MLogger l, Exclusive) :: hs) ->
  has_logger w l -> appenders w !! a = Some y -> unguarded logging (Some (MLogger l)) r ->
  right w ((MLogger l, Exclusive) :: hs) r ->
  right w ((MAppender a, Exclusive) :: (MLogger l, Exclusive) :: hs)
    (match ap_formatter y with
     | Some _ => [Unlock (MAppender a); Do (APush l a)]
     | None => [Unlock (MAppender a); Lock Exclusive (MAppender a); Do (AInherit l a)]
     end ++ r).
Proof.
  intros Ho Hl Hy Hu Hr. destruct (ap_formatter y) as [f|] eqn:Ef.
  - apply push_right; [|done|done]. split_and!; [by eexists|done|]. exists y. by rewrite Ef.
  - cbn [tidy app]. do 2 eexists. split; [done|]. split_and!; [done|apply Ho|by intros [] k' _ [= <-]| |done|done].
    split_and!; [done|by eexists|by eexists].
Qed.

(** [FileLogAppender::log] after the test of the level. *)
Lemma file_right level event now a (b : bool) r w hs : under (MAppender a) hs /\ formatted w a -> right w hs r ->
  right w hs (((if b then [] else locked (MAppender a) [Do (AReopen a)] ++ [Do (ALastTime a now)])
    ++ locked (MAppender a) [Do (AWrite level event a)]) ++ r).
Proof.
  intros [Hb Hl] Hr. assert (has_appender w a) as Ha by (destruct Hl as (y & ? & _); by eexists).
  assert (right w hs (locked (MAppender a) [Do (AWrite level event a)] ++ r)) as Hwrite
    by (apply locked_right; try done; by split; [eexists|]).
  rewrite <- app_assoc. destruct b; [done|].
  apply (locked_right (MAppender a) (AReopen a) (Do (ALastTime a now) :: locked _ _ ++ r)); try done.
  by split; [eexists|].
Qed.

Lemma found_loggers w : inv logging w -> Forall (has_logger w) (loggers_in_order w).*2.
Proof.
  intros [Hw _]. apply Forall_forall. intros l ([n l'] & -> & Hin)%list_elem_of_fmap.
  apply loggers_in_order_spec in Hin. destruct (wf_names _ Hw _ _ Hin) as (x & ? & _). by eexists.
Qed.

Lemma act_new x w hs new w' : inv logging w -> ordered logging hs -> act_fits w hs x ->
  step_of x w = Ok (new, w') -> grows (writes logging x) w w' ->
  forall r, unguarded logging (writes logging x) r -> right w' (drop (leaves logging x) hs) r ->
    right w' hs (new ++ r).
Proof.
  intros Hi Ho Hf E Hg r Hu Hr.
  destruct x; cbn [act_step] in E; unfold delAppender, clearAppenders, setLevel, ap_setLevel, ap_setFormatter,
    get_logger, get_appender in E;
    repeat match type of E with context [deref ?o _] => destruct o eqn:?; cbn [deref] in E; res_simpl; [|done] end;
    try (injection E as <- <-; exact Hr); cbn [act_fits] in Hf.
  - injection E as <- <-. destruct Hf as [Hb Hl]. destruct (level <? _); [done|].
    apply locked_right; try done. by split; [eexists|].
  - injection E as <- <-. destruct Hf as [Ht Hl]. destruct (lg_appenders l0) as [|a as_] eqn:Ea.
    + destruct (lg_root l0) as [q|] eqn:Eq; [|done]. apply do_right; try done. by eapply root_fits.
    + assert (right w hs (Do (AEach (BLog now level event) l [] (a :: as_)) :: r)) as Hgoal
        by (apply do_right; [split_and!; [done|done|by eexists]|done..]). by destruct (lg_root l0).
  - injection E as <- <-. destruct Hf as [Hb Hl]. destruct (level <? _); [done|]. destruct (ap_kind _).
    + apply locked_right; try done. by split; [eexists|].
    + by apply do_right.
  - injection E as <- <-. by apply file_right.
  - case_bool_decide as Ed; [|done]. injection E as <- <-. destruct rest as [|a rest]; [done|].
    destruct Hf as (Ht & Hb & Hv). rewrite <- app_assoc. apply body_right; [|by eapply each_formatted|done|].
    + eapply under_top; [done|done|apply mutex_order_appender].
    + apply do_right; [|done..]. split_and!; [done|done|]. eexists. split; [done|]. by rewrite <- app_assoc.
  - injection E as <- <-. destruct Hf as (Ht & _ & Hval). apply do_right; [|done..]. split_and!; [done|done|].
    eexists. cbn [loggers put_logger]. by rewrite lookup_insert_eq.
  - injection E as <- <-. destruct Hf as (Hl & Ha & hs' & ->). by eapply inherit_right.
  - injection E as <- <-. destruct Hf as (Hl & Ha & hs' & ->). cbn [leaves logging drop] in Hr.
    assert (formatted (put_appender a (ap_with_formatter (ap_hasFormatter l1) (lg_formatter l0) l1) w) a) as Hfor.
    { eexists. cbn [appenders put_appender]. rewrite lookup_insert_eq. split; [done|]. by eapply (wf_formatter w), Heqo; apply Hi. }
    apply push_right; [|done|done]. split_and!; [by eexists|done|done].
  - injection E as <- <-. apply do_right; [|done..]. split_and!; [done|done|]. by apply found_loggers.
  - case_bool_decide as Ed; [|done]. injection E as <- <-. destruct rest as [|l rest]; [done|].
    destruct Hf as (Ht & _ & [Hl Hrest]%Forall_cons). 
    apply (locked_right (MLogger l) (AYamlLogger l) (Do (AYamlEach found rest) :: r)); try done.
    { apply (under_top MManager); [done|done|]. simpl. destruct (l =? root)%nat; lia. }
    by split; [eexists|].
  - injection E as <- <-. destruct Hf as (Ht & _). apply do_right; [|done..]. split_and!; [done|done|]. by eexists.
Qed.

#[local] Instance logging_laws : DisciplineLaws (S := S) logging step_of.
Proof.
  split.
  - apply logging_guards.
  - intros w hs x k Hf. destruct x; cbn in *; try done; intros [= <-].
    4: destruct Hf as [(hs' & ->) _]; by left.
    all: try (destruct Hf as (_ & _ & hs' & ->); right; by left).
    all: destruct Hf as [(hs' & ->) _] || destruct Hf as (hs' & ->); by left.
  - intros w hs x new w' hs' y Hi _ Hf E Hy Hg. destruct (act_ok x w hs Hi Hf) as (new1 & w1 & E1 & Hgr).
    rewrite E in E1. injection E1 as <- <-. by eapply fits_grows.
  - intros w hs x Hi Ho Hf. destruct (act_ok x w hs Hi Hf) as (new & w' & E & Hg). exists new, w'.
    split; [done|]. split; [apply Hg|]. by eapply act_new.
Qed.

(** *** Acts expand to smaller ones *)

Definition rank (x : act) : nat * nat :=
  match x with
  | AYamlAll => (13, 0)
  | AYamlEach _ rest => (12, length rest)
  | AYamlLogger _ => (11, 0)
  | ALog _ _ _ l => (if (l =? root)%nat then 8 else 10, 0)
  | ALogBody _ _ _ l => (if (l =? root)%nat then 7 else 9, 0)
  | ASetFormatter _ _ => (7, 0)
  | AEach _ _ _ rest => (6, length rest)
  | AAppender _ _ _ _ => (5, 0)
  | AFile _ _ _ _ => (4, 0)
  | AHasFormatter _ _ => (3, 0)
  | AInherit _ _ => (2, 0)
  | _ => (0, 0)
  end%nat.

Ltac ranks :=
  repeat (constructor; [first [done|unfold smaller; simpl; repeat case_match; simpl; lia]|]); constructor.

Lemma act_expands w hs x new w' : inv logging w -> act_fits w hs x -> step_of x w = Ok (new, w') ->
  forall y, Do y ∈ new -> smaller rank y x.
Proof.
  intros [Hw Hr] Hf E.
  assert (Forall (fun c => match c with Do y => smaller rank y x | _ => True end) new) as Hall;
    [|intros y Hy; rewrite Forall_forall in Hall; by apply (Hall (Do y))].
  destruct x; cbn [act_step] in E; unfold delAppender, clearAppenders, setLevel, ap_setLevel, ap_setFormatter,
    get_logger, get_appender in E;
    repeat match type of E with context [deref ?o _] => destruct o eqn:?; cbn [deref] in E; res_simpl; [|done] end;
    try (injection E as <- _; by constructor).
  - injection E as <- _. destruct (_ <? _); [constructor|]. ranks.
  - injection E as <- _. destruct (lg_appenders l0) as [|a as_] eqn:Ea; destruct (lg_root l0) as [q|] eqn:Eq; [|constructor|ranks..].
    destruct (wf_root _ Hw) as (v & Hv & Hn & _). rewrite (wf_chain _ Hw _ _ _ Heqo Eq), Hr. rewrite Hr in Hv.
    constructor; [|constructor]. left. simpl. rewrite Nat.eqb_refl.
    destruct (Nat.eqb_spec l root) as [->|]; [congruence|simpl; lia].
  - injection E as <- _. destruct (_ <? _); [constructor|]. destruct (ap_kind _); ranks.
  - injection E as <- _. destruct (_ =? _); ranks.
  - case_bool_decide; [|done]. injection E as <- _. destruct rest; [constructor|]. destruct b; ranks.
  - injection E as <- _. ranks.
  - injection E as <- _. destruct (ap_formatter _); ranks.
  - injection E as <- _. ranks.
  - injection E as <- _. ranks.
  - case_bool_decide; [|done]. injection E as <- _. destruct rest; [constructor|ranks].
  - injection E as <- _. ranks.
Qed.

Lemma unguarded_none k (c : code) : Forall (fun i => match i with Do y => guard logging y = None | _ => True end) c ->
  unguarded logging k c.
Proof. intros Hc y k' Hy _. rewrite Forall_forall in Hc. apply Hc in Hy. congruence. Qed.

(** A thread that holds nothing makes one change under a lock. *)
Lemma change_right k x w : act_fits w [(k, Exclusive)] x -> guard logging x = None ->
  (forall k', writes logging x = Some k' -> k' = k) -> leaves logging x = 0%nat -> right w [] (locked k [Do x]).
Proof. intros. rewrite <- (app_nil_r (locked _ _)). apply locked_right; try done. constructor. Qed.

Lemma add_right l a w : has_logger w l -> has_appender w a ->
  right w [] (locked (MLogger l) [Lock Exclusive (MAppender a); Do (AHasFormatter l a)]).
Proof.
  intros Hl Ha. unfold Interleave.locked. cbn [tidy app]. split_and!; [done|constructor| |done| | | | |by do 2 eexists].
  all: try by apply unguarded_none; repeat constructor.
  - repeat constructor. apply mutex_order_appender.
  - split_and!; [done|done|by eexists].
Qed.

Lemma code_right o w : op_valid o w -> right w [] (code_of o).
Proof.
  destruct o as [[name|k|l a|l a|l|l v|l f|l v|a v|a f|now lv ev l]|l|a|]; cbn [op_valid valid code_of]; intros Hv.
  - apply change_right; [by eexists|naive_solver..].
  - by apply do_right.
  - by apply add_right; apply Hv.
  - apply change_right; [split; [by eexists|apply Hv]|naive_solver..].
  - apply change_right; [split; [by eexists|done]|naive_solver..].
  - by apply do_right.
  - apply change_right; [split_and!; [by eexists|done|by eexists]|naive_solver..].
  - assert (forall c, right w [] c -> right w [] (Do (APrint (LogFormatter_out v)) :: c)) as Hprint
      by (intros c Hc; apply (do_right (APrint _)); done).
    apply Hprint. destruct (m_error _); [by apply do_right|].
    apply change_right; [split_and!; [by eexists|done|by eexists]|naive_solver..].
  - by apply do_right.
  - apply change_right; [split_and!; [by eexists|done|by eexists]|naive_solver..].
  - apply do_right; [split; [constructor|done]|naive_solver..].
  - apply change_right; naive_solver.
  - apply change_right; naive_solver.
  - apply change_right; [by eexists|naive_solver..].
Qed.
End Laws.
End Discipline.

(** ** Without interruption the operations are those of Logger.v *)

Section Alone.
Context (strftime : text -> Z -> text) (can_open : text -> bool).
Abbreviation step_of := (act_step strftime can_open).
Abbreviation runs := (flat step_of).
Implicit Types (w : logs) (l : lptr) (a : aptr).

Lemma put_appender_twice a y1 y2 w : put_appender a y2 (put_appender a y1 w) = put_appender a y2 w.
Proof. unfold put_appender. cbn. by rewrite insert_insert_eq. Qed.

(** Writing under the appender's lock. *)
Lemma write_flat level event a y f w : appenders w !! a = Some y -> ap_formatter y = Some f ->
  runs (locked (MAppender a) [Do (AWrite level event a)]) w
    (let t := format strftime f level event in
     match ap_kind y with
     | StdoutLogAppender => put_out t w
     | FileLogAppender _ =>
         put_out (match ap_stream y with Some _ => [] | None => write_error end) (put_appender a (ap_append t y) w)
     end).
Proof.
  intros Hy Hf. apply flat_locked, flat_act. cbn [act_step]. unfold get_appender. rewrite Hy. cbn [deref]. res_simpl.
  by rewrite Hf.
Qed.

Lemma file_log_flat now level event a y w w' fn : appenders w !! a = Some y -> ap_kind y = FileLogAppender fn ->
  ap_level y <= level -> file_log strftime can_open now level event a y w = Ok w' ->
  runs [Do (AFile now level event a)] w w'.
Proof.
  intros Hy Hk Hlv. unfold file_log. rewrite (proj2 (Z.ltb_ge _ _) Hlv).
  assert (forall c, step_of (AFile now level event a) w = Ok (c, w) -> runs c w w' ->
    runs [Do (AFile now level event a)] w w') as Hthen by (intros c; apply flat_then).
  cbn [act_step] in Hthen. unfold get_appender in Hthen. rewrite Hy in Hthen. cbn [deref] in Hthen. res_simpl.
  destruct y as [k lv has fo lt st]. simpl in *. subst k.
  intros E. eapply Hthen; [reflexivity|]. destruct (now =? lt) eqn:En; cbn [negb] in E.
  - simpl in E. destruct fo as [f|]; [|done]. injection E as <-. by apply (write_flat level event a _ f w Hy).
  - simpl in E. destruct fo as [f|]; [|done]. injection E as <-.
    set (y1 := Appender (FileLogAppender fn) lv has (Some f) lt (if can_open fn then Some [] else None)).
    apply (flat_app _ _ _ w (put_appender a (ap_with_last now y1) w)).
    + apply (flat_app _ (locked (MAppender a) [Do (AReopen a)]) [Do (ALastTime a now)] w (put_appender a y1 w)); [apply flat_locked, flat_act|apply flat_act]; cbn [act_step];
        unfold get_appender; [by rewrite Hy|]. cbn [appenders put_appender]. rewrite lookup_insert_eq. cbn [deref].
      res_simpl. by rewrite put_appender_twice.
    + pose proof (write_flat level event a (ap_with_last now y1) f (put_appender a (ap_with_last now y1) w)) as Hw.
      cbn [appenders put_appender] in Hw. rewrite lookup_insert_eq in Hw. specialize (Hw eq_refl eq_refl).
      simpl in Hw. by rewrite put_appender_twice in Hw.
Qed.

Lemma appender_log_flat now level event a w w' :
  appender_log strftime can_open now level event a w = Ok w' ->
  runs [Do (AAppender now level event a)] w w' /\ loggers w' = loggers w.
Proof.
  unfold appender_log, get_appender. destruct (appenders w !! a) as [y|] eqn:Hy; cbn [deref]; res_simpl; [|done].
  assert (forall c, step_of (AAppender now level event a) w = Ok (c, w) -> runs c w w' ->
    runs [Do (AAppender now level event a)] w w') as Hthen by (intros c; apply flat_then).
  cbn [act_step] in Hthen. unfold get_appender in Hthen. rewrite Hy in Hthen. cbn [deref] in Hthen. res_simpl.
  unfold stdout_log. destruct (ap_kind y) as [|fn] eqn:Ek.
  - destruct (level <? ap_level y); [intros [= <-]|destruct (ap_formatter y) as [f|] eqn:Ef; [|done]; intros [= <-]];
      (split; [|done]); (eapply Hthen; [reflexivity|]); [constructor|].
    pose proof (write_flat level event a y f w Hy Ef) as Hw. by rewrite Ek in Hw.
  - intros E. destruct (level <? ap_level y) eqn:El.
    + unfold file_log in E. rewrite El in E. injection E as <-. split; [|done]. eapply Hthen; [reflexivity|constructor].
    + split.
      * eapply Hthen; [reflexivity|]. eapply file_log_flat; [done|done|by apply Z.ltb_ge|done].
      * unfold file_log in E. rewrite El in E. revert E.
        destruct (negb _); destruct (ap_formatter _); try done; by intros [= <-].
Qed.

(** A round of a loop over the appenders. *)
Lemma each_flat b l x d a rest w w1 w' : loggers w !! l = Some x -> lg_appenders x = d ++ a :: rest ->
  runs (body_code b a) w w1 -> runs [Do (AEach b l (d ++ [a]) rest)] w1 w' ->
  runs [Do (AEach b l d (a :: rest))] w w'.
Proof.
  intros Hx Ed H1 H2. eapply flat_then; [|eapply flat_app; [exact H1|exact H2]].
  cbn [act_step]. unfold get_logger. rewrite Hx. cbn [deref]. res_simpl. by rewrite bool_decide_true.
Qed.

Lemma each_done b l x d w : loggers w !! l = Some x -> lg_appenders x = d -> runs [Do (AEach b l d [])] w w.
Proof.
  intros Hx Ed. apply flat_act. cbn [act_step]. unfold get_logger. rewrite Hx. cbn [deref]. res_simpl.
  by rewrite app_nil_r, bool_decide_true.
Qed.

Lemma appenders_log_flat now level event l x as_ : forall d w w', loggers w !! l = Some x ->
  lg_appenders x = d ++ as_ -> appenders_log strftime can_open now level event as_ w = Ok w' ->
  runs [Do (AEach (BLog now level event) l d as_)] w w'.
Proof.
  induction as_ as [|a as_ IH]; intros d w w' Hx Ed E; cbn [appenders_log] in E.
  - injection E as <-. apply (each_done _ l x); [done|]. by rewrite Ed, app_nil_r.
  - destruct (appender_log _ _ _ _ _ a w) as [w1|] eqn:E1; res_simpl; [|done].
    apply appender_log_flat in E1 as [H1 Hl]. apply (each_flat _ l x d a as_ w w1); [done|done|exact H1|].
    apply IH; [by rewrite Hl|by rewrite Ed, <- app_assoc|done].
Qed.

Lemma set_formatters_flat val l x as_ : forall d w w', loggers w !! l = Some x ->
  lg_appenders x = d ++ as_ -> set_formatters val as_ w = Ok w' ->
  runs [Do (AEach (BFollow val) l d as_)] w w'.
Proof.
  induction as_ as [|a as_ IH]; intros d w w' Hx Ed E; cbn [set_formatters] in E.
  - injection E as <-. apply (each_done _ l x); [done|]. by rewrite Ed, app_nil_r.
  - unfold get_appender in E. destruct (appenders w !! a) as [y|] eqn:Hy; cbn [deref] in E; res_simpl; [|done].
    eapply (each_flat _ l x d a as_ w); [done|done| |].
    + apply flat_locked, flat_act. cbn [act_step]. unfold get_appender. rewrite Hy. cbn [deref]. by res_simpl.
    + apply IH; [by destruct (ap_hasFormatter y)|by rewrite Ed, <- app_assoc|done].
Qed.

Lemma log_chain_flat now level event depth : forall l w w',
  log_chain strftime can_open depth now level event l w = Ok w' -> runs [Do (ALog now level event l)] w w'.
Proof.
  induction depth as [|depth IH]; intros l w w' E; cbn [log_chain] in E; unfold get_logger in E;
    destruct (loggers w !! l) as [x|] eqn:Hx; cbn [deref] in E; res_simpl; try done.
  all: assert (forall c, (if level <? lg_level x then c = [] else c = locked (MLogger l) [Do (ALogBody now level event l)]) ->
      runs c w w' -> runs [Do (ALog now level event l)] w w') as Hlog
    by (intros c Hc; apply flat_then; cbn [act_step]; unfold get_logger; rewrite Hx; cbn [deref]; res_simpl;
        by destruct (level <? lg_level x); rewrite Hc).
  all: destruct (level <? lg_level x); [injection E as <-; by apply (Hlog []); [|constructor]|];
    eapply Hlog; [reflexivity|]; apply flat_locked.
  all: destruct (lg_appenders x) as [|a as_] eqn:Ea; [destruct (lg_root x) as [r|] eqn:Er|].
  all: try done.
  all: try (injection E as <-; apply flat_act; cbn [act_step]; unfold get_logger; rewrite Hx; cbn [deref]; res_simpl;
    by rewrite Ea, Er).
  all: try (apply (appenders_log_flat _ _ _ l x _ []) in E; [|done|done];
    eapply flat_then; [|exact E]; cbn [act_step]; unfold get_logger; rewrite Hx; cbn [deref]; res_simpl;
    rewrite Ea; by destruct (lg_root x)).
  apply IH in E. eapply flat_then; [|exact E]. cbn [act_step]. unfold get_logger. rewrite Hx. cbn [deref]. res_simpl.
  by rewrite Ea, Er.
Qed.

Lemma setFormatter_flat l val w w' : setFormatter l val w = Ok w' ->
  runs (locked (MLogger l) [Do (ASetFormatter l val)]) w w'.
Proof.
  unfold setFormatter, get_logger. destruct (loggers w !! l) as [x|] eqn:Hx; cbn [deref]; res_simpl; [|done].
  intros E. apply flat_locked. eapply flat_then; [cbn [act_step]; unfold get_logger; rewrite Hx; cbn [deref]; res_simpl; reflexivity|].
  apply (set_formatters_flat val l (with_formatter val x)); [cbn; by rewrite lookup_insert_eq|done|done].
Qed.

Lemma addAppender_flat l a w w' : addAppender l a w = Ok w' -> runs (code_of (Call (AddAppender l a))) w w'.
Proof.
  unfold addAppender, get_logger, get_appender.
  destruct (loggers w !! l) as [x|] eqn:Hx; cbn [deref]; res_simpl; [|done].
  destruct (appenders w !! a) as [y|] eqn:Hy; cbn [deref]; res_simpl; [|done].
  intros [= <-]. cbn [code_of]. apply flat_locked. constructor. eapply flat_then.
  { cbn [act_step]. unfold get_appender. rewrite Hy. cbn [deref]. by res_simpl. }
  destruct (ap_formatter y) as [f|]; repeat constructor.
  - apply flat_act. cbn [act_step]. unfold get_logger. rewrite Hx. cbn [deref]. by res_simpl.
  - eapply flat_then.
    { cbn [act_step]. unfold get_logger, get_appender. rewrite Hx, Hy. cbn [deref]. by res_simpl. }
    constructor. apply flat_act. cbn [act_step]. unfold get_logger. cbn [loggers put_appender]. rewrite Hx. cbn [deref].
    by res_simpl.
Qed.

Lemma exec_flat c w w' : exec strftime can_open c w = Ok w' -> runs (code_of (Call c)) w w'.
Proof.
  assert (forall x (r : res logs), step_of x w = (w ← r; mret ([], w)) -> r = Ok w' -> runs [Do x] w w') as Hact
    by (intros x r Hx ->; by apply flat_act).
  destruct c as [name|k|l a|l a|l|l v|l f|l v|a v|a f|now lv ev l]; cbn [exec code_of]; intros E.
  - injection E as <-. by apply flat_locked, flat_act.
  - injection E as <-. by apply flat_act.
  - by apply addAppender_flat.
  - apply flat_locked. by eapply Hact.
  - apply flat_locked. by eapply Hact.
  - by eapply Hact.
  - by apply setFormatter_flat.
  - unfold setFormatter_pattern in E. eapply F_do; [reflexivity|]. cbn [app].
    destruct (m_error _); [|by apply setFormatter_flat]. apply flat_act. cbn [act_step].
    destruct (get_logger l _); [|done]. by injection E as <-.
  - by eapply Hact.
  - apply flat_locked. by eapply Hact.
  - by eapply log_chain_flat.
Qed.
End Alone.

(** ** Properties *)

Section Properties.
Context (strftime : text -> Z -> text) (can_open : text -> bool).
Context {S : Type} `{Lockable S} (held : S -> list (Z * mode)) `{!LockLaws S held, !LockGrants S held}.
Context (free : S) (threads : nat).
Abbreviation state := (world mutex act logs S).
Abbreviation step_of := (act_step strftime can_open).
Implicit Types (w : state) (i j : nat).

(** The manager as it is made, its threads and mutexes. *)
Definition logging_start : state := World manager0 (fun _ => free) (replicate threads []).
Definition may_log (x : logs) (c : code) : Prop := exists o, op_valid o x /\ c = code_of o.
Abbreviation reached := (reachable step_of may_log logging_start).

Lemma logging_ok w : supports (S := S) Exclusive = true -> held free = [] -> reachable step_of may_log logging_start w ->
  ok held (logging 0) w.
Proof.
  intros Hex Hfree. pose proof (logging_laws strftime can_open 0 Hex).
  apply (world_reachable_ok held step_of (logging 0)).
  - apply start_ok; [split; [apply wf_manager|done]|done].
  - intros x c _ (o & Hv & ->). by apply code_right.
Qed.

(** C10.  Logging from several threads is safe: whatever loggers, appenders,
    formatters and the dump do at the same time, nobody is given a formatter
    that is null or an object that is gone, no list of appenders or loggers
    changes under a thread that goes through it, mutexes are only left by who
    has taken them, by one thread at a time; and there is no deadlock: while a
    thread has something left to do, some thread can go on, and when none has,
    all mutexes are free. *)
Theorem logging_threads_safe w :
  supports (S := S) Exclusive = true -> held free = [] -> reachable step_of may_log logging_start w ->
  wf (w_data w) /\
  (forall i, exists o, step step_of i w = Ok o) /\
  (forall k i j m, (Z.of_nat i, Exclusive) ∈ held (w_mutex w k) -> (Z.of_nat j, m) ∈ held (w_mutex w k) -> i = j) /\
  (forall i c r, w_threads w !! i = Some (c :: r) -> exists w', turn step_of w w') /\
  ((forall i r, w_threads w !! i = Some r -> r = []) -> forall k, held (w_mutex w k) = []).
Proof.
  intros Hex Hfree Hr. pose proof (logging_laws strftime can_open 0 Hex). pose proof (logging_ok w Hex Hfree Hr) as Hok.
  split; [apply Hok|]. by apply (all_safe held step_of (logging 0)).
Qed.

(** C12.  Every call of the loggers ends: from any state the threads can get
    into, there is no infinite run without new calls, and every run that goes
    on for as long as it can ends with all calls returned. *)
Theorem logging_calls_end w :
  supports (S := S) Exclusive = true -> held free = [] -> reachable step_of may_log logging_start w ->
  Acc (fun w2 w1 => turn step_of w1 w2) w /\
  forall w', rtc (turn step_of) w w' -> (forall w2, ~ turn step_of w' w2) ->
    forall i r, w_threads w' !! i = Some r -> r = [].
Proof.
  intros Hex Hfree Hr. pose proof (logging_laws strftime can_open 0 Hex).
  apply (all_end held step_of (logging 0) (smaller (rank 0)) (smaller_wf _)); [apply act_expands|by apply logging_ok].
Qed.

(** C14.  The pieces are the operations: a call that a thread makes while the
    others make none goes through, and leaves the loggers as the operation of
    Logger does. *)
Theorem logging_alone w i (c : call) x' :
  supports (S := S) Exclusive = true -> held free = [] -> reachable step_of may_log logging_start w ->
  (forall j r, w_threads w !! j = Some r -> r = []) -> w_threads w !! i = Some [] ->
  valid c (w_data w) -> exec strftime can_open c (w_data w) = Ok x' ->
  exists w', rtc (turn step_of) (begin i (code_of (Call c)) w) w' /\ w_data w' = x' /\
    w_threads w' = w_threads w /\ forall k, held (w_mutex w' k) = [].
Proof.
  intros Hex Hfree Hr Hidle Hi Hv E. pose proof (logging_laws strftime can_open 0 Hex).
  pose proof (logging_ok w Hex Hfree Hr) as Hok.
  apply (call_alone held step_of (logging 0) (smaller (rank 0)) (smaller_wf _)); [apply act_expands|done|apply Hok| |done|done|].
  - by apply (code_right strftime can_open 0 Hex (Call c)).
  - by apply exec_flat.
Qed.
End Properties.

(** ** Witnesses *)

#[local] Existing Instance CASlock_lockable.
#[local] Existing Instance caslock_laws.

#[local] Instance caslock_grants : LockGrants CASlock CASlock_held.
Proof. intros m t [[] o] _; [done|]. intros _. by exists (CAS true t). Qed.

Abbreviation ex_step := (act_step ex_strftime ex_open).
Abbreviation ex_state := (world mutex act logs CASlock).
Abbreviation ex_start := (logging_start CASlock_new 2).
Abbreviation ex_reached := (reachable ex_step may_log ex_start).

Definition op_validb (o : op) (x : logs) : bool :=
  match o with
  | Call (GetLogger _) | Call (NewAppender _) | ToYaml => true
  | Call (AddAppender l a) => bool_decide (is_Some (loggers x !! l)) && bool_decide (is_Some (appenders x !! a))
  | Call (Log _ _ _ l) => bool_decide (is_Some (loggers x !! l))
  | _ => false
  end.

Lemma op_validb_may o x : op_validb o x = true -> may_log x (code_of o).
Proof. intros Hb. exists o. split; [|done]. destruct o as [[]| | |]; simpl in *; try done; bdestr; done. Qed.

(** A file, an appender of the root logger and of "system", and an event for
    each logger, of the same second. *)
Definition ex_setup : list (move op) :=
  [Begins 0 (Call (NewAppender (FileLogAppender (lit "a.log")))); Goes_on 0 1;
   Begins 0 (Call (AddAppender 0 2)); Goes_on 0 9;
   Begins 0 (Call (GetLogger (lit "system"))); Goes_on 0 3;
   Begins 0 (Call (AddAppender 3 2)); Goes_on 0 6].


(** Thread 1 has found that the second has changed when thread 0 logs. *)
Definition ex_race : list (move op) :=
  ex_setup ++ [Begins 0 (Call (Log 5 INFO ex_event 0)); Begins 1 (Call (Log 5 INFO ex_event 3));
    Goes_on 1 6; Goes_on 0 20].

Definition ex_played (ms : list (move op)) : ex_state := played ex_step code_of op_validb ex_start ms.

Lemma ex_played_reached ms : bool_decide (is_Some (play ex_step code_of op_validb ms ex_start)) = true ->
  ex_reached (ex_played ms).
Proof. by apply played_reached, op_validb_may. Qed.

Definition ex_line : text := format ex_strftime (LogFormatter_new default_pattern) INFO ex_event.
Definition ex_written (w : ex_state) : option text := y ← appenders (w_data w) !! 2%nat; ap_stream y.

(** A line of a file is lost within its second: [m_lastTime] is read and
    written without the appender's mutex, so a second thread that has read it
    before the first has stored the new second opens the file again, and opening
    empties it. *)
Example lines_lost :
  exists w1 w2, ex_reached w1 /\ rtc (turn ex_step) w1 w2 /\ ex_reached w2 /\
    ex_written w1 = Some ex_line /\ ex_written w2 = Some ex_line /\
    w_threads w1 !! 0%nat = Some [] /\ w_threads w2 = [[]; []].
Proof.
  assert (ex_reached (ex_played ex_race)) as H1 by (apply ex_played_reached; vm_compute; reflexivity).
  assert (exists w2, turns ex_step 9 1 (ex_played ex_race) = Some w2 /\ ex_written w2 = Some ex_line /\ w_threads w2 = [[]; []])
    as (w2 & E & Hw & Ht).
  { destruct (turns ex_step 9 1 (ex_played ex_race)) as [w2|] eqn:E; [|exfalso; revert E; by vm_compute].
    assert ((fun w => (ex_written w, w_threads w)) <$> turns ex_step 9 1 (ex_played ex_race) = Some (Some ex_line, [[]; []]))
      as Hf by (vm_compute; reflexivity).
    rewrite E in Hf. cbn [fmap option_fmap option_map] in Hf. exists w2. split; [reflexivity|]. clear E.
    injection Hf as H2 H3. split; [exact H2|exact H3]. }
  pose proof (turns_run _ _ _ _ _ E) as Hrun.
  exists (ex_played ex_race), w2. split; [exact H1|]. split; [exact Hrun|]. split; [eapply run_reached; [exact H1|exact Hrun]|].
  split; [vm_compute; reflexivity|]. split; [exact Hw|]. split; [vm_compute; reflexivity|exact Ht].
Qed.

Lemma logging_threads_safe_witness :
  wf (w_data (ex_played ex_race)) /\ exists w', turn ex_step (ex_played ex_race) w'.
Proof.
  destruct (logging_threads_safe ex_strftime ex_open CASlock_held CASlock_new 2 (ex_played ex_race))
    as (Hw & _ & _ & Hgo & _); [reflexivity|reflexivity|apply ex_played_reached; vm_compute; reflexivity|].
  split; [exact Hw|]. apply (Hgo 1%nat (Lock Exclusive (MAppender 2))
    (match w_threads (ex_played ex_race) !! 1%nat with Some (_ :: r) => r | _ => [] end)). vm_compute. reflexivity.
Defined.

Lemma logging_calls_end_witness : Acc (fun w2 w1 => turn ex_step w1 w2) (ex_played ex_race).
Proof.
  destruct (logging_calls_end ex_strftime ex_open CASlock_held CASlock_new 2 (ex_played ex_race))
    as [H _]; [reflexivity|reflexivity|apply ex_played_reached; vm_compute; reflexivity|exact H].
Defined.

Lemma logging_alone_witness :
  exists w', rtc (turn ex_step) (begin 1 [Do (ALog 5 INFO ex_event 0)] ex_start) w' /\
    std_out (w_data w') = ex_line.
Proof.
  destruct (logging_alone ex_strftime ex_open CASlock_held CASlock_new 2 ex_start 1
    (Log 5 INFO ex_event 0) (put_out ex_line manager0)) as (w' & Hr & Hd & _).
  - reflexivity.
  - reflexivity.
  - apply In_start.
  - intros [|[|j]] r; [by intros [= <-]..|done].
  - reflexivity.
  - by eexists.
  - vm_compute. reflexivity.
  - exists w'. split; [exact Hr|]. rewrite Hd. reflexivity.
Defined.
