(* ===== verification/ConfigThreads.v ===== *)
(** * Configuration from several threads (src/sylar/config.h, config.cc)

    The operations of Config.v cut at the scoped locks of the source: the
    read-write lock of the registry and of each variable.  A variable is compared
    and its listeners run under the read lock, and only then is the write lock
    taken for the assignment.  A listener acts on the environment in one turn and
    may go on to call other variables.  What the code logs is not kept. *)

From Stdlib Require Eqdep_dec.
From stdpp Require Import functions.
From S2P Require Import Prelude Text Yaml Config Thread Interleave.

Inductive mutex : Type := MConfig | MVar (p : nat).
#[export] Instance mutex_eq_dec : EqDecision mutex.
Proof. solve_decision. Defined.

Section Model.
Context {ty : Type} `{!EqDecision ty} {interp : ty -> Type}.
Context `{!forall t, EqDecision (interp t)} `{!forall t, LexicalCast (interp t)}.
Context `{Yaml} {E : Type}.
Abbreviation any := (any_var (interp := interp) (E := E)).
Abbreviation registry := (Config (interp := interp) (E := E)).
Abbreviation listener t := (on_change_cb E (interp t)).

(** What a listener, or the callback of [Visit], calls. *)
Inductive call : Type :=
| SetValue (t : ty) (p : nat) (x : interp t)
| GetValue (p : nat) | ToString (p : nat) | GetListener (p : nat) (key : Z)
| FromString (p : nat) (val : text)
| DelListener (p : nat) (key : Z).

(** The variables and the table, what the listeners act on, the [s_dun_id] of
    each type, what the listener of a variable under a key calls after it has
    acted, and the keys [addListener] has returned. *)
Record configs : Type := Configs {
  conf : registry;
  env : E;
  dun_id : ty -> Z;
  follows : gmap (nat * Z) (E -> list call);
  returned : list (nat * Z) }.
Implicit Types (x : configs) (c : registry) (a : any) (p : nat).

Inductive op : Type :=
| OnVar (c : call)
| AddListener (t : ty) (p : nat) (cb : listener t) (calls : E -> list call)
| ClearListener (p : nat)
| LookupNew (t : ty) (name : text) (default_value : interp t) (description : text)
| LookupOld (name : text)
| VisitAll (cb : nat -> list call)
| LoadDocument (root : node).

Inductive act : Type :=
| ACompare (t : ty) (p : nat) (v : interp t)
| ANotify (t : ty) (p : nat) (v : interp t) (done : list Z) (rest : list (Z * listener t))
| AAssign (t : ty) (p : nat) (v : interp t)
| ARead (p : nat)
| AFromString (p : nat) (val : text)
| AIncr (t : ty)
| AStore (t : ty) (p : nat) (cb : listener t) (calls : E -> list call)
| AReturn (t : ty) (p : nat)
| ADel (p : nat) (key : Z)
| AClear (p : nat)
| ALookup (t : ty) (name : text) (default_value : interp t) (description : text)
| AFind (name : text)
| AMember (key : text) (val : text)
| AVisit (cb : nat -> list call)
| AVisitEach (cb : nat -> list call) (found : gmap text nat) (rest : list nat).

Abbreviation code := (list (instr mutex act)).


(** [ACompare] leaves the read lock itself: the block of [setValue] that holds
    it ends in three places. *)
Definition set_code (t : ty) p (v : interp t) : code := [Lock Shared (MVar p); Do (ACompare t p v)].

Definition call_code (o : call) : code :=
  match o with
  | SetValue t p v => set_code t p v
  | GetValue p | ToString p | GetListener p _ => locked Shared (MVar p) [Do (ARead p)]
  | FromString p val => [Do (AFromString p val)]
  | DelListener p key => locked Exclusive (MVar p) [Do (ADel p key)]
  end.

Definition calls_code (l : list call) : code := concat (map call_code l).

(** One round of [LoadFromYaml]; [LookupBase] returns, then [fromString] is
    called. *)
Definition member_code (kn : text * node) : code :=
  match kn.1 with
  | [] => []
  | _ => [Lock Shared MConfig; Do (AMember (map tolower kn.1) (node_text kn.2))]
  end.

Definition code_of (o : op) : code :=
  match o with
  | OnVar c => call_code c
  | AddListener t p cb calls =>
      locked Exclusive (MVar p) [Do (AIncr t); Do (AStore t p cb calls); Do (AReturn t p)]
  | ClearListener p => [Do (AClear p)]
  | LookupNew t name d descr => locked Exclusive MConfig [Do (ALookup t name d descr)]
  | LookupOld name => locked Shared MConfig [Do (AFind name)]
  | VisitAll cb => locked Shared MConfig [Do (AVisit cb)]
  | LoadDocument root => concat (map member_code (ListAllMember [] root))
  end.

(** A variable as one of type [t]. *)
Definition as_type (t : ty) a : option (ConfigVar E (interp t)) :=
  match decide (projT1 a = t) with
  | left e => Some (eq_rect _ (fun t => ConfigVar E (interp t)) (projT2 a) _ e)
  | right _ => None
  end.

Definition get_any p x : res any := deref (vars (conf x) !! p) "ConfigVarBase".
Definition get_var (t : ty) p x : res (ConfigVar E (interp t)) :=
  a ← get_any p x; deref (as_type t a) "ConfigVar".
Definition put_any p a c : registry := Conf (<[p := a]> (vars c)) (datas c) (fresh_var c).
Definition put_var (t : ty) p (v : ConfigVar E (interp t)) : registry -> registry := put_any p (existT t v).
Definition with_conf c x : configs := Configs c (env x) (dun_id x) (follows x) (returned x).
Definition with_env (e : E) x : configs := Configs (conf x) e (dun_id x) (follows x) (returned x).

Definition calls_after p (k : Z) x : list call :=
  match follows x !! (p, k) with Some f => f (env x) | None => [] end.

(** [fromString] after the cast. *)
Definition parsed_code p (val : text) a : code :=
  match from_str val with Some v => set_code (projT1 a) p v | None => [] end.
Definition any_del (key : Z) a : any := existT (projT1 a) (delListener key (projT2 a)).
Definition any_clear a : any := existT (projT1 a) (clearListener (projT2 a)).

(** One round of the loop over [m_cbs]. *)
Definition notify (t : ty) p (v : interp t) (dn : list Z) (rest : list (Z * listener t))
    (y : ConfigVar E (interp t)) x : res (code * configs) :=
  if bool_decide (map fst (m_cbs y) = dn ++ map fst rest) then
    match rest with
    | [] => mret ([Unlock (MVar p); Lock Exclusive (MVar p); Do (AAssign t p v); Unlock (MVar p)], x)
    | (k, cb) :: rest =>
        let '(e, throws) := cb (m_val y) v (env x) in
        let x := with_env e x in
        mret (if throws : bool then [Unlock (MVar p)]
              else calls_code (calls_after p k x) ++ [Do (ANotify t p v (dn ++ [k]) rest)], x)
    end
  else Err (FUB "iterator of m_cbs").

(** The order in which the table is walked. *)
Context (walk : gmap text nat -> list (text * nat)).

Definition act_step (o : act) x : res (code * configs) :=
  match o with
  | ACompare t p v =>
      y ← get_var t p x;
      mret (if decide (v = m_val y) then [Unlock (MVar p)] else [Do (ANotify t p v [] (m_cbs y))], x)
  | ANotify t p v dn rest =>
      y ← get_var t p x; notify t p v dn rest y x
  | AAssign t p v =>
      y ← get_var t p x;
      mret ([], with_conf (put_var t p (with_val v y) (conf x)) x)
  | ARead p => _ ← get_any p x; mret ([], x)
  | AFromString p val =>
      a ← get_any p x; mret (parsed_code p val a, x)
  | AIncr t =>
      mret ([], Configs (conf x) (env x) (<[t := u64 (dun_id x t + 1)]> (dun_id x)) (follows x) (returned x))
  | AStore t p cb calls =>
      y ← get_var t p x;
      let y := Var (Config.m_name y) (m_description y) (m_val y) (put_cb (dun_id x t) cb (m_cbs y)) in
      mret ([], Configs (put_var t p y (conf x)) (env x) (dun_id x)
                  (<[(p, dun_id x t) := calls]> (follows x)) (returned x))
  | AReturn t p =>
      mret ([], Configs (conf x) (env x) (dun_id x) (follows x) ((p, dun_id x t) :: returned x))
  | ADel p key =>
      a ← get_any p x; mret ([], with_conf (put_any p (any_del key a) (conf x)) x)
  | AClear p =>
      a ← get_any p x; mret ([], with_conf (put_any p (any_clear a) (conf x)) x)
  | ALookup t name d descr =>
      match Lookup t name d descr (conf x), datas (conf x) !! name with
      | Err f, _ => match f with FThrow _ => mret ([], x) | _ => Err f end
      | Ok (Some _, c), _ => mret ([], with_conf c x)
      | Ok (None, c), Some p => mret (locked Shared (MVar p) [Do (ARead p)], with_conf c x)
      | Ok (None, c), None => mret ([], with_conf c x)
      end
  | AFind name => mret ([], x)
  | AMember key val =>
      mret (Unlock MConfig :: match LookupBase key (conf x) with
                              | Some p => [Do (AFromString p val)]
                              | None => []
                              end, x)
  | AVisit cb => mret ([Do (AVisitEach cb (datas (conf x)) (walk (datas (conf x))).*2)], x)
  | AVisitEach cb found rest =>
      if bool_decide (datas (conf x) = found) then
        mret (match rest with
              | [] => []
              | p :: rest => calls_code (cb p) ++ [Do (AVisitEach cb found rest)]
              end, x)
      else Err (FUB "iterator of s_datas")
  end.
End Model.

(** ** The discipline *)

Section Discipline.
Context {ty : Type} `{!EqDecision ty} {interp : ty -> Type}.
Context `{!forall t, EqDecision (interp t)} `{!forall t, LexicalCast (interp t)}.
Context `{Yaml} {E : Type}.
Context (walk : gmap text nat -> list (text * nat)) (Hwalk : forall m, walk m ≡ₚ map_to_list m).
(** Listeners only call variables of a smaller level than their own. *)
Context (level : nat -> nat) (top : nat) (Hlevel : forall p, (level p < top)%nat).
Abbreviation any := (any_var (interp := interp) (E := E)).
Abbreviation registry := (Config (interp := interp) (E := E)).
Abbreviation state := (configs (interp := interp) (E := E)).
Abbreviation act_ := (act (interp := interp) (E := E)).
Abbreviation call_ := (call (interp := interp)).
Abbreviation op_ := (op (interp := interp) (E := E)).
Implicit Types (x : state) (c : registry) (a : any) (p : nat) (hs : taken mutex).

Definition mutex_order (k : mutex) : nat := match k with MConfig => top | MVar p => level p end.

Definition has_var x p : Prop := is_Some (vars (conf x) !! p).
Definition var_is x p (t : ty) (y : ConfigVar E (interp t)) : Prop := vars (conf x) !! p = Some (existT t y : any).
Definition typed x p (t : ty) : Prop := exists y, var_is x p t y.

Definition call_var (k : call_) : nat :=
  match k with
  | SetValue _ p _ | GetValue p | ToString p | GetListener p _ | FromString p _ | DelListener p _ => p
  end.
Definition call_fits x (k : call_) : Prop :=
  match k with SetValue t p _ => typed x p t | _ => has_var x (call_var k) end.

(** What listeners of [p] may call, and the callback of [Visit] for [p]. *)
Definition calls_below x p (l : list call_) : Prop :=
  Forall (fun k => call_fits x k /\ (level (call_var k) < level p)%nat) l.
Definition visits x p (l : list call_) : Prop :=
  Forall (fun k => call_fits x k \/ (call_var k = p /\ forall t v, k <> SetValue t p v)) l.

Definition holding (m : mode) (k : mutex) hs : Prop := exists hs', hs = (k, m) :: hs'.
Definition under (k : mutex) hs : Prop := Forall (fun h => mutex_order k < mutex_order h.1)%nat hs.

Definition act_fits x hs (o : act_) : Prop :=
  match o with
  | ACompare t p _ => holding Shared (MVar p) hs /\ typed x p t
  | ANotify t p _ dn rest => holding Shared (MVar p) hs /\
      exists y, var_is x p t y /\ map fst (m_cbs y) = dn ++ map fst rest
  | AAssign t p _ => holding Exclusive (MVar p) hs /\ typed x p t
  | ARead p => has_var x p /\ exists m, holding m (MVar p) hs
  | AFromString p _ => under (MVar p) hs /\ has_var x p
  | AStore t p _ calls => holding Exclusive (MVar p) hs /\ typed x p t /\ forall e, calls_below x p (calls e)
  | ADel p _ => holding Exclusive (MVar p) hs /\ has_var x p
  | AClear _ => False
  | ALookup _ _ _ _ => holding Exclusive MConfig hs
  | AFind _ | AMember _ _ => holding Shared MConfig hs
  | AVisit cb => holding Shared MConfig hs /\ forall p, visits x p (cb p)
  | AVisitEach cb found rest => holding Shared MConfig hs /\ (forall p, visits x p (cb p)) /\
      datas (conf x) = found /\ Forall (has_var x) rest
  | AIncr _ | AReturn _ _ => True
  end.

Definition sound x : Prop :=
  registered (conf x) /\
  forall p k f, follows x !! (p, k) = Some f -> forall e, calls_below x p (f e).

Definition configuring : discipline mutex act_ state := {|
  inv := sound;
  order := mutex_order;
  fits := act_fits;
  leaves o := match o with ACompare _ _ _ | ANotify _ _ _ _ _ | AMember _ _ => 1%nat | _ => 0%nat end;
  guard o := match o with ANotify _ p _ _ _ => Some (MVar p) | AVisitEach _ _ _ => Some MConfig | _ => None end;
  writes o := match o with
              | AAssign _ p _ | AStore _ p _ _ | ADel p _ | AClear p => Some (MVar p)
              | ALookup _ _ _ _ => Some MConfig
              | _ => None
              end |}.

(** What every step leaves alone, but for what [o] protects. *)
Record keeps (o : option mutex) x x' : Prop := Keeps {
  kp_sound : sound x';
  kp_var p t y : var_is x p t y -> exists y', var_is x' p t y' /\
    (o <> Some (MVar p) -> m_cbs y' = m_cbs y);
  kp_names : o <> Some MConfig -> datas (conf x') = datas (conf x) }.

Lemma keeps_fits (o : option mutex) x x' :
  (forall p t y, var_is x p t y -> exists y', var_is x' p t y' /\
    (o <> Some (MVar p) -> m_cbs y' = m_cbs y)) ->
  (forall p, has_var x p -> has_var x' p) /\ (forall p t, typed x p t -> typed x' p t) /\
  (forall k, call_fits x k -> call_fits x' k).
Proof.
  intros Hv. assert (forall p, has_var x p -> has_var x' p) as Hhas.
  { intros p [[t y] Hy]. destruct (Hv p t y Hy) as (y' & ? & _). by eexists. }
  assert (forall p t, typed x p t -> typed x' p t) as Htyp
    by (intros p t [y Hy]; destruct (Hv p t y Hy) as (y' & ? & _); by eexists).
  split_and!; [done|done|]. intros []; simpl; auto.
Qed.

Lemma calls_below_keeps x x' p l : (forall k, call_fits x k -> call_fits x' k) ->
  calls_below x p l -> calls_below x' p l.
Proof. intros Hk Hl. eapply Forall_impl; [exact Hl|]. intros k [? ?]. auto. Qed.

Lemma visits_keeps x x' p l : (forall k, call_fits x k -> call_fits x' k) -> visits x p l -> visits x' p l.
Proof. intros Hk Hl. eapply Forall_impl; [exact Hl|]. intros k [?|?]; auto. Qed.

Lemma as_type_same (t : ty) (y : ConfigVar E (interp t)) : as_type t (existT t y) = Some y.
Proof. unfold as_type. simpl. destruct (decide (t = t)) as [e|]; [|done]. by rewrite (proof_irrel e eq_refl). Qed.

Lemma get_var_ok t p x y : var_is x p t y -> get_var t p x = Ok y.
Proof. unfold var_is. intros Hy. unfold get_var, get_any. rewrite Hy. cbn [deref]. res_simpl. by rewrite as_type_same. Qed.

(** A change of a variable that keeps its name and type. *)
Lemma keeps_put o t p y y' f r x : sound x -> var_is x p t y ->
  Config.m_name y' = Config.m_name y -> (m_cbs y' = m_cbs y \/ o = Some (MVar p)) ->
  (forall q k g, f !! (q, k) = Some g -> follows x !! (q, k) = Some g \/ (forall e, calls_below x q (g e))) ->
  keeps o x (Configs (put_var t p y' (conf x)) (env x) (dun_id x) f r).
Proof.
  intros [Hr Hf] Hy En Ho Hg. set (x' := Configs _ _ _ _ _).
  assert (forall q t' z, var_is x q t' z ->
    exists z', var_is x' q t' z' /\ (o <> Some (MVar q) -> m_cbs z' = m_cbs z)) as Hv.
  { unfold var_is in *. intros q t' z Hz. cbn. destruct (decide (p = q)) as [<-|Hne]; [|rewrite lookup_insert_ne by done; eauto].
    rewrite lookup_insert_eq. rewrite Hy in Hz. injection Hz as <- Hz.
    apply (Eqdep_dec.inj_pair2_eq_dec _ (fun t1 t2 => decide (t1 = t2))) in Hz. subst z. eexists. split; [done|].
    intros ?. by destruct Ho. }
  destruct (keeps_fits o x x' Hv) as (_ & _ & Hcalls).
  split; [split|exact Hv|done].
  - destruct Hr as [R1 R2 R3]. split; cbn [conf x' put_var put_any vars datas fresh_var]; [|intros q a [[<- _]|[_ Hq]]%lookup_insert_Some; eauto|done].
    intros n q Hq. destruct (R1 n q Hq) as (a & Ha & Hn). destruct (decide (p = q)) as [<-|Hne].
    + rewrite lookup_insert_eq. eexists. split; [done|]. cbn. rewrite Hy in Ha. injection Ha as <-. by rewrite En.
    + rewrite lookup_insert_ne by done. eauto.
  - intros q k g Hgk e. eapply calls_below_keeps; [exact Hcalls|].
    destruct (Hg q k g Hgk) as [Hold|Hnew]; [by eapply Hf|apply Hnew].
Qed.

Lemma keeps_same o x x' : sound x -> conf x' = conf x -> follows x' = follows x -> keeps o x x'.
Proof.
  intros [Hr Hf] Ec Ef. assert (forall q t z, var_is x q t z ->
    exists z', var_is x' q t z' /\ (o <> Some (MVar q) -> m_cbs z' = m_cbs z)) as Hv
    by (unfold var_is; rewrite Ec; eauto).
  split; [split; [by rewrite Ec|]|exact Hv|by rewrite Ec]. rewrite Ef. intros q k g Hg e.
  eapply calls_below_keeps; [|by eapply Hf]. by apply (keeps_fits o).
Qed.

(** *** The laws *)

Section Laws.
Context {S : Type} `{Lockable S} (Hsupports : forall m, supports (S := S) m = true).
Abbreviation step_of := (act_step walk).
Abbreviation right := (tidy (S := S) configuring).
Abbreviation code_ := (list (instr mutex act_)).
Implicit Types (r : code_).

Lemma configuring_guards x hs o k : act_fits x hs o -> guard configuring o = Some k -> k ∈ hs.*1.
Proof.
  destruct o; cbn; try done.
  - intros ((hs' & ->) & _) [= <-]. by left.
  - intros ((hs' & ->) & _) [= <-]. by left.
Qed.

Lemma right_unguarded k x hs r : right x hs r -> under k hs -> unguarded configuring (Some k) r.
Proof.
  intros Hr Hu o k' Hin [= <-] Hg. apply (below_not_held configuring k hs Hu).
  eapply (tidy_guarded configuring r configuring_guards); [exact Hr|exact Hin|exact Hg].
Qed.

Lemma config_locked_right m k o r x hs : under k hs -> act_fits x ((k, m) :: hs) o ->
  guard configuring o = None -> (forall k', writes configuring o = Some k' -> k' = k) -> leaves configuring o = 0%nat ->
  right x hs r -> right x hs (locked m k [Do o] ++ r).
Proof. intros. by apply (tidy_locked configuring m k o r x hs configuring_guards). Qed.

(** One act, in front of what is right without what it changes. *)
Lemma act_right o r x hs : act_fits x hs o -> writes configuring o = None -> leaves configuring o = 0%nat ->
  right x hs r -> right x hs (Do o :: r).
Proof. intros Hf Hw Hl Hr. cbn [tidy]. rewrite Hw, Hl. by split_and!. Qed.

Lemma set_right t p v r x hs : under (MVar p) hs -> typed x p t -> right x hs r -> right x hs (set_code t p v ++ r).
Proof.
  intros Hu Ht Hr. cbn [set_code app tidy]. split_and!; [done|done| |split; [by exists hs|done]| |done].
  - intros o k Hin [= <-]. apply elem_of_cons in Hin as [[= ->]|Hin]; [done|exact (right_unguarded _ x hs r Hr Hu o _ Hin eq_refl)].
  - intros o k Hin [=].
Qed.

Lemma call_right (k : call_) r x hs : under (MVar (call_var k)) hs -> call_fits x k -> right x hs r ->
  right x hs (call_code k ++ r).
Proof.
  destruct k; cbn [call_code call_var call_fits]; intros Hu Hf Hr; [by apply set_right|..].
  5: by apply config_locked_right; try (split; [by eexists|]); naive_solver.
  4: by apply act_right.
  all: apply config_locked_right; try done; split; [done|]; do 2 eexists; done.
Qed.

Lemma calls_right (l : list call_) r x hs :
  Forall (fun k => call_fits x k /\ under (MVar (call_var k)) hs) l -> right x hs r ->
  right x hs (calls_code l ++ r).
Proof.
  induction 1 as [|k l [Hf Hu] _ IH]; intros Hr; [done|]. unfold calls_code. cbn [map concat]. rewrite <- app_assoc.
  apply call_right; [done|done|]. by apply IH.
Qed.

(** The step of an act: it does not fail, and what follows is right. *)
Definition goes o x hs : Prop := exists new x', step_of o x = Ok (new, x') /\ keeps (writes configuring o) x x' /\
  forall r, unguarded configuring (writes configuring o) r -> right x' (drop (leaves configuring o) hs) r ->
    right x' hs (new ++ r).

Lemma compare_goes t p v x hs : sound x -> act_fits x hs (ACompare t p v) -> goes (ACompare t p v) x hs.
Proof.
  intros Hs [(hs' & ->) [y Hy]]. do 2 eexists. cbn [act_step]. rewrite (get_var_ok _ _ _ _ Hy). res_simpl.
  split; [done|]. split; [by apply keeps_same|]. intros r Hu Hr. destruct (decide (v = m_val y)).
  - cbn [app tidy]. by do 2 eexists.
  - cbn [app tidy]. split; [|done]. split; [by eexists|]. by exists y.
Qed.

Lemma below_under p k x l hs : ordered configuring ((MVar p, k) :: hs) -> calls_below x p l ->
  Forall (fun k => call_fits x k /\ under (MVar (call_var k)) ((MVar p, Shared) :: hs)) l.
Proof.
  intros [Hb _] Hl. eapply Forall_impl; [exact Hl|]. intros q [Hf Hlt]. split; [done|]. constructor; [done|].
  eapply Forall_impl; [exact Hb|]. intros h Hh. simpl in *. lia.
Qed.

(** The end of [setValue]: from the read lock to the write lock. *)
Lemma assign_right t p v r x hs : under (MVar p) hs -> typed x p t -> right x hs r ->
  right x ((MVar p, Shared) :: hs) ([Unlock (MVar p); Lock Exclusive (MVar p); Do (AAssign t p v); Unlock (MVar p)] ++ r).
Proof.
  intros Hu Ht Hr. apply (config_locked_right Exclusive (MVar p) (AAssign t p v) r x hs) in Hu; try done.
  - cbn [app tidy]. do 2 eexists. split; [done|]. exact Hu.
  - split; [by eexists|done].
  - by intros k' [= <-].
Qed.

Lemma notify_goes t p v dn rest x hs : sound x -> ordered configuring hs -> act_fits x hs (ANotify t p v dn rest) ->
  goes (ANotify t p v dn rest) x hs.
Proof.
  intros Hs Ho [(hs' & ->) (y & Hy & Hk)]. unfold goes. cbn [act_step]. rewrite (get_var_ok _ _ _ _ Hy). res_simpl.
  unfold notify. rewrite bool_decide_true by done.
  assert (typed x p t) as Ht by (by exists y). destruct rest as [|[k cb] rest].
  - do 2 eexists. split; [done|]. split; [by apply keeps_same|]. intros r _ Hr. apply assign_right; [apply Ho|done|done].
  - destruct (cb (m_val y) v (env x)) as [e throws]. do 2 eexists. split; [done|].
    split; [by apply keeps_same|]. intros r _ Hr. destruct throws; [by cbn [app tidy]; do 2 eexists|].
    rewrite <- app_assoc. apply calls_right.
    + eapply below_under; [done|]. unfold calls_after. cbn [follows with_env env].
      destruct (follows x !! (p, k)) as [f|] eqn:Ef; [|constructor]. by eapply Hs.
    + cbn [app tidy]. split; [|done]. split; [by eexists|]. exists y. split; [done|].
      rewrite Hk. cbn [map fst]. by rewrite <- app_assoc.
Qed.

Lemma under_config m p hs : ordered configuring hs -> holding m MConfig hs -> under (MVar p) hs.
Proof.
  intros Ho (hs' & ->). destruct Ho as [Hb _].
  constructor; [apply Hlevel|]. eapply Forall_impl; [exact Hb|]. intros h Hh. simpl in *. pose proof (Hlevel p). lia.
Qed.

Lemma keeps_new name a x : sound x -> valid_name name = true -> Config.m_name (projT2 a) = name ->
  keeps (Some MConfig) x (with_conf (Conf (<[fresh_var (conf x) := a]> (vars (conf x)))
    (<[name := fresh_var (conf x)]> (datas (conf x))) (Datatypes.S (fresh_var (conf x)))) x).
Proof.
  intros [Hr Hf] Hv Hn. set (x' := with_conf _ x). pose proof (fresh_unused _ Hr) as Hnone.
  assert (forall q t z, var_is x q t z ->
    exists z', var_is x' q t z' /\ (Some MConfig <> Some (MVar q) -> m_cbs z' = m_cbs z)) as Hkeep.
  { unfold var_is. intros q t z Hz. exists z. split; [|done]. cbn. rewrite lookup_insert_ne; [done|]. congruence. }
  destruct (keeps_fits _ _ _ Hkeep) as (_ & _ & Hcalls).
  split; [split|exact Hkeep|done]; [by apply registered_insert|]. intros q k g Hg e.
  eapply calls_below_keeps; [exact Hcalls|by eapply Hf].
Qed.

Lemma lookup_goes t name d descr x hs : sound x -> ordered configuring hs -> act_fits x hs (ALookup t name d descr) ->
  goes (ALookup t name d descr) x hs.
Proof.
  intros Hs Ho Hh. unfold goes. cbn [act_step]. unfold Lookup. destruct (datas (conf x) !! name) as [p|] eqn:Ed.
  - destruct (reg_vars _ (proj1 Hs) _ _ Ed) as (a & Ha & _). rewrite Ha. cbn [deref]. res_simpl.
    destruct (is_of t a); do 2 eexists; (split; [done|]); (split; [by apply keeps_same|]); intros r _ Hr; [done|].
    apply config_locked_right; try done; [by eapply under_config|]. split; [by eexists|]. by do 2 eexists.
  - destruct (valid_name name) eqn:Hv; cbn [negb]; do 2 eexists; (split; [done|]).
    + split; [|done]. apply keeps_new; [done|done|]. cbn. by rewrite tolower_valid.
    + split; [by apply keeps_same|done].
Qed.

Lemma parsed_right p val a r x hs : under (MVar p) hs -> vars (conf x) !! p = Some a -> right x hs r ->
  right x hs (parsed_code p val a ++ r).
Proof.
  intros Hu Ha Hr. unfold parsed_code. destruct (from_str val) as [v|]; [|done]. apply set_right; [done| |done].
  destruct a as [t y]. by exists y.
Qed.

Lemma member_goes key val x hs : sound x -> ordered configuring hs -> act_fits x hs (AMember key val) ->
  goes (AMember key val) x hs.
Proof.
  intros Hs Ho Hh. do 2 eexists. cbn [act_step]. split; [done|]. split; [by apply keeps_same|].
  destruct Hh as (hs' & ->). intros r _ Hr. cbn [app tidy]. do 2 eexists. split; [done|].
  unfold LookupBase. destruct (datas (conf x) !! key) as [p|] eqn:Ed; [|done].
  destruct (reg_vars _ (proj1 Hs) _ _ Ed) as (a & Ha & _). apply act_right; [|done..]. split; [|by eexists].
  apply (under_config Shared p) in Ho; [|by eexists]. by apply Forall_cons in Ho as [_ ?].
Qed.

Lemma visit_goes cb found rest x hs : sound x -> ordered configuring hs -> act_fits x hs (AVisitEach cb found rest) ->
  goes (AVisitEach cb found rest) x hs.
Proof.
  intros Hs Ho (Hh & Hcb & Ef & Hrest). unfold goes. cbn [act_step]. rewrite bool_decide_true by done.
  do 2 eexists. split; [done|]. split; [by apply keeps_same|]. intros r _ Hr.
  destruct rest as [|p rest]; [done|]. apply Forall_cons in Hrest as [Hp Hrest].
  rewrite <- app_assoc. apply calls_right; [|by apply act_right].
  eapply Forall_impl; [apply Hcb|]. intros k Hk. split; [|by eapply under_config].
  destruct Hk as [Hk|[<- Hk]]; [exact Hk|]. destruct k as [t q v|q|q|q key|q val|q key]; try by (simpl; simpl in Hp). by destruct (Hk t v).
Qed.

Lemma act_goes o x hs : sound x -> ordered configuring hs -> act_fits x hs o -> goes o x hs.
Proof.
  intros Hs Ho Hf. destruct o; [by apply compare_goes|by apply notify_goes| | | | | | | |done|by apply lookup_goes|
    |by apply member_goes| |by apply visit_goes]; unfold goes; cbn [act_step writes configuring].
  - destruct Hf as [Hh [y Hy]]. rewrite (get_var_ok _ _ _ _ Hy). res_simpl. do 2 eexists. split; [done|].
    split; [|done]. eapply keeps_put; [done|exact Hy|done|by right|naive_solver].
  - destruct Hf as [[a Ha] _]. unfold get_any. rewrite Ha. cbn [deref]. res_simpl. do 2 eexists.
    split; [done|]. split; [by apply keeps_same|done].
  - destruct Hf as [Hu [a Ha]]. unfold get_any. rewrite Ha. cbn [deref]. res_simpl. do 2 eexists.
    split; [done|]. split; [by apply keeps_same|]. intros r _ Hr. by apply parsed_right.
  - do 2 eexists. split; [done|]. split; [by apply keeps_same|done].
  - destruct Hf as (Hh & [y Hy] & Hc). rewrite (get_var_ok _ _ _ _ Hy). res_simpl. do 2 eexists. split; [done|].
    split; [|done]. eapply keeps_put; [done|exact Hy|done|by right|].
    intros q k g [[[= <- <-] <-]|[_ Hg]]%lookup_insert_Some; [by right|by left].
  - do 2 eexists. split; [done|]. split; [by apply keeps_same|done].
  - destruct Hf as [Hh [[t y] Ha]]. unfold get_any. rewrite Ha. cbn [deref]. res_simpl. do 2 eexists. split; [done|].
    split; [|done]. eapply (keeps_put _ t); [done|exact Ha|done|by right|naive_solver].
  - do 2 eexists. split; [done|]. split; [by apply keeps_same|done].
  - do 2 eexists. split; [done|]. split; [by apply keeps_same|]. intros r _ Hr. apply act_right; [|done..].
    destruct Hf as [Hh Hcb]. split_and!; [done|done|done|]. apply Forall_forall.
    intros p ([n q] & -> & Hin)%list_elem_of_fmap. rewrite Hwalk, elem_of_map_to_list in Hin.
    destruct (reg_vars _ (proj1 Hs) _ _ Hin) as (a & ? & _). by eexists.
Qed.

Lemma keeps_act_fits w x x' hs o : keeps w x x' -> act_fits x hs o ->
  (forall k, w = Some k -> guard configuring o <> Some k) -> act_fits x' hs o.
Proof.
  intros [Hs Hv Hn] Hf Hg. destruct (keeps_fits w x x' Hv) as (Hhas & Htyp & Hcalls).
  assert (forall p l, calls_below x p l -> calls_below x' p l) as Hbelow
    by (intros p l; by apply calls_below_keeps).
  assert (forall p l, visits x p l -> visits x' p l) as Hvis by (intros p l; by apply visits_keeps).
  destruct o; cbn [act_fits] in *; try (destruct_and? Hf; split_and?; by auto).
  - destruct Hf as (Hh & y & Hy & Hk). split; [done|]. destruct (Hv _ _ _ Hy) as (y' & Hy' & Ey). exists y'.
    split; [done|]. rewrite Ey; [done|]. intros ->. by apply (Hg _ eq_refl).
  - destruct Hf as (Hh & Hcb & Ed & Hr). split_and!; [done|by auto| |].
    + rewrite Hn; [done|]. intros ->. by apply (Hg _ eq_refl).
    + eapply Forall_impl; [exact Hr|]. exact Hhas.
Qed.

#[local] Instance configuring_laws : DisciplineLaws (S := S) configuring step_of.
Proof.
  split.
  - apply configuring_guards.
  - intros x hs o k Hf. destruct o; cbn in *; try done; intros [= <-].
    4: destruct Hf as (hs' & ->); by left.
    all: destruct Hf as [(hs' & ->) _]; by left.
  - intros x hs o new x' hs' b Hi Ho Hf En Hb Hg. destruct (act_goes o x hs Hi Ho Hf) as (new1 & x1 & E1 & Hk & _).
    rewrite En in E1. injection E1 as <- <-. by eapply keeps_act_fits.
  - intros x hs o Hi Ho Hf. destruct (act_goes o x hs Hi Ho Hf) as (new & x' & En & Hk & Hr). exists new, x'.
    split; [done|]. split; [apply Hk|exact Hr].
Qed.

(** *** Operations begin right *)

Definition op_valid (o : op_) x : Prop :=
  match o with
  | OnVar k => call_fits x k
  | AddListener t p _ calls => typed x p t /\ forall e, calls_below x p (calls e)
  | ClearListener _ => False
  | VisitAll cb => forall p, visits x p (cb p)
  | LookupNew _ _ _ _ | LookupOld _ | LoadDocument _ => True
  end.

Lemma add_listener_right t p cb calls x : typed x p t -> (forall e, calls_below x p (calls e)) ->
  right x [] (code_of (AddListener t p cb calls)).
Proof.
  intros Ht Hc. cbn [code_of locked app tidy drop leaves configuring].
  assert (forall (k : option mutex) (c : code_), Forall (fun i => match i with Do o => guard configuring o = None | _ => True end) c ->
    unguarded configuring k c) as Hun.
  { intros k c HF o k' Ho _. rewrite Forall_forall in HF. apply HF in Ho. congruence. }
  split_and!; try done; try (apply Hun; repeat constructor); [constructor| |by do 2 eexists].
  split; [by eexists|done].
Qed.

Lemma members_right (l : list (text * node)) x : right x [] (concat (map member_code l)).
Proof.
  induction l as [|[[|ch key] n] l IH]; [done|exact IH|]. cbn [map concat member_code fst snd app tidy].
  split_and!; [done|constructor| |by eexists|by intros o k _ [=]|exact IH].
  intros o k Hin [= <-]. apply elem_of_cons in Hin as [[= ->]|Hin]; [done|].
  exact (right_unguarded MConfig x [] _ IH ltac:(constructor) o _ Hin eq_refl).
Qed.

Lemma op_right (o : op_) x : op_valid o x -> right x [] (code_of o).
Proof.
  assert (forall m k o, act_fits x [(k, m)] o -> guard configuring o = None ->
    (forall k', writes configuring o = Some k' -> k' = k) -> leaves configuring o = 0%nat ->
    right x [] (locked m k [Do o])) as Hone.
  { intros m k o'. intros. rewrite <- (app_nil_r (locked _ _ _)). apply config_locked_right; try done. constructor. }
  destruct o as [k|t p cb calls|p|t name d descr|name|cb|root]; cbn [op_valid]; intros Hv.
  - cbn [code_of]. rewrite <- (app_nil_r (call_code k)). apply call_right; [constructor|done|done].
  - by apply add_listener_right; apply Hv.
  - done.
  - apply Hone; [by eexists|done|by intros k' [= <-]|done].
  - apply Hone; [by eexists|done|done|done].
  - apply Hone; [split; [by eexists|done]|done|done|done].
  - apply members_right.
Qed.

(** *** Acts expand to smaller ones *)

Definition rank (o : act_) : nat * nat :=
  match o with
  | AMember _ _ => (4 * top + 3, 0)
  | AVisit _ => (4 * top + 2, 0)
  | AVisitEach _ _ rest => (4 * top + 1, length rest)
  | AFromString p _ => (4 * level p + 3, 0)
  | ACompare _ p _ => (4 * level p + 2, 0)
  | ANotify _ p _ _ rest => (4 * level p + 1, 1 + length rest)
  | ALookup _ _ _ _ => (1, 0)
  | _ => (0, 0)
  end%nat.

Lemma calls_rank (l : list call_) (o : act_) : Do o ∈ calls_code l ->
  exists k, k ∈ l /\ ((rank o).1 <= 4 * level (call_var k) + 3)%nat.
Proof.
  unfold calls_code. induction l as [|k l IH]; cbn [map concat]; [by intros ?%not_elem_of_nil|].
  intros [Hin|Hin]%elem_of_app.
  - exists k. split; [by left|].
    destruct k; unfold call_code, set_code, locked in Hin; cbn [app] in Hin; rewrite ?elem_of_cons in Hin; destruct_or? Hin; try done;
      try (injection Hin as ->; simpl; lia); by apply not_elem_of_nil in Hin.
  - destruct (IH Hin) as (k' & ? & ?). exists k'. split; [by right|done].
Qed.

Lemma notify_expands t p v dn rest y new x x' : sound x -> notify t p v dn rest y x = Ok (new, x') ->
  forall o, Do o ∈ new -> smaller rank o (ANotify t p v dn rest).
Proof.
  intros Hs En o Ho. unfold notify in En. case_bool_decide; [|done]. unfold smaller. destruct rest as [|[k cb] rest].
  - injection En as <- _. rewrite !elem_of_cons in Ho. destruct Ho as [?|[?|[[= ->]|[?|?%not_elem_of_nil]]]]; try done.
    simpl. lia.
  - destruct (cb (m_val y) v (env x)) as [e throws]. injection En as <- _. destruct throws.
    { by apply list_elem_of_singleton in Ho. }
    apply elem_of_app in Ho as [Ho|[= ->]%list_elem_of_singleton]; [|right; simpl; lia].
    left. destruct (calls_rank _ _ Ho) as (c & Hc & Hr). unfold calls_after in Hc. cbn [follows with_env env] in Hc.
    destruct (follows x !! (p, k)) as [f|] eqn:Ef; [|by apply not_elem_of_nil in Hc].
    pose proof (proj2 Hs p k f Ef e) as Hb. unfold calls_below in Hb. rewrite Forall_forall in Hb.
    apply Hb in Hc as [_ Hlt]. simpl in *. lia.
Qed.

Lemma config_expands x hs o new x' : sound x -> act_fits x hs o -> step_of o x = Ok (new, x') ->
  forall b, Do b ∈ new -> smaller rank b o.
Proof.
  intros Hs _ En b Hb.
  destruct o; cbn [act_step] in En.
  2: { destruct (get_var t p x) as [y|] eqn:Ey; res_simpl; [|done]. by eapply notify_expands. }
  all: try (destruct (get_var _ _ _) as [y|] eqn:Ey; res_simpl; [|done]);
    try (destruct (get_any _ _) as [a|] eqn:Ea; res_simpl; [|done]);
    try (injection En as <- _); try (by apply not_elem_of_nil in Hb); unfold smaller.
  - destruct (decide _).
    + by apply list_elem_of_singleton in Hb.
    + apply list_elem_of_singleton in Hb as [= ->]. left. simpl. lia.
  - unfold parsed_code in Hb. destruct (from_str val); [|by apply not_elem_of_nil in Hb].
    unfold set_code in Hb. rewrite !elem_of_cons in Hb. destruct Hb as [?|[[= ->]|?%not_elem_of_nil]]; try done. left. simpl. lia.
  - destruct (Lookup _ _ _ _ _) as [[[q|] c']|f]; [|destruct (datas (conf x) !! name)|destruct f]; res_simpl; try done;
      injection En as <- _; try (by apply not_elem_of_nil in Hb).
    unfold locked in Hb. cbn [app] in Hb. rewrite !elem_of_cons in Hb. destruct Hb as [?|[[= ->]|[?|?%not_elem_of_nil]]]; try done. simpl. lia.
  - apply elem_of_cons in Hb as [?|Hb]; [done|]. destruct (LookupBase _ _) as [p|]; [|by apply not_elem_of_nil in Hb].
    apply list_elem_of_singleton in Hb as [= ->]. pose proof (Hlevel p). left. simpl. lia.
  - apply list_elem_of_singleton in Hb as [= ->]. left. simpl. lia.
  - case_bool_decide; [|done]. injection En as <- _. destruct rest as [|p rest]; [by apply not_elem_of_nil in Hb|].
    apply elem_of_app in Hb as [Hb|[= ->]%list_elem_of_singleton]; [|right; simpl; lia].
    left. destruct (calls_rank _ _ Hb) as (c & _ & Hr). pose proof (Hlevel (call_var c)). simpl in *. lia.
Qed.
End Laws.
End Discipline.

(** ** Without interruption the operations are those of Config.v *)

Section Alone.
Context {ty : Type} `{!EqDecision ty} {interp : ty -> Type}.
Context `{!forall t, EqDecision (interp t)} `{!forall t, LexicalCast (interp t)}.
Context `{Yaml} {E : Type}.
Context (walk : gmap text nat -> list (text * nat)).
Abbreviation any := (any_var (interp := interp) (E := E)).
Abbreviation registry := (Config (interp := interp) (E := E)).
Abbreviation state := (configs (interp := interp) (E := E)).
Abbreviation call_ := (call (interp := interp)).
Abbreviation op_ := (op (interp := interp) (E := E)).
Abbreviation step_of := (act_step walk).
Abbreviation runs := (flat step_of).
Implicit Types (x : state) (c : registry) (a : any) (p : nat).

Definition with_both (c : registry) (e : E) x : state := with_env e (with_conf c x).

Definition call_exec (k : call_) x : res state :=
  match k with
  | SetValue t p v =>
      y ← get_var t p x;
      let '(y, e, _) := setValue v y (env x) in mret (with_both (put_var t p y (conf x)) e x)
  | GetValue p | ToString p | GetListener p _ => _ ← get_any p x; mret x
  | FromString p val =>
      a ← get_any p x;
      let '(a, e) := any_fromString val a (env x) in mret (with_both (put_any p a (conf x)) e x)
  | DelListener p key =>
      a ← get_any p x; mret (with_conf (put_any p (any_del key a) (conf x)) x)
  end.

Fixpoint calls_exec (l : list call_) x : res state :=
  match l with [] => mret x | k :: l => x ← call_exec k x; calls_exec l x end.

Fixpoint visit_exec (cb : nat -> list call_) (ps : list nat) x : res state :=
  match ps with [] => mret x | p :: ps => x ← calls_exec (cb p) x; visit_exec cb ps x end.

(** The operations of Config.v on the shared variables. *)
Definition exec (o : op_) x : res state :=
  match o with
  | OnVar k => call_exec k x
  | AddListener t p cb calls =>
      y ← get_var t p x;
      let '(id, y) := addListener cb (dun_id x t) y in
      mret (Configs (put_var t p y (conf x)) (env x) (<[t := id]> (dun_id x)) (<[(p, id) := calls]> (follows x))
              ((p, id) :: returned x))
  | ClearListener p => a ← get_any p x; mret (with_conf (put_any p (any_clear a) (conf x)) x)
  | LookupNew t name d descr =>
      match Lookup t name d descr (conf x) with
      | Ok (_, c) => mret (with_conf c x)
      | Err f => match f with FThrow _ => mret x | _ => Err f end
      end
  | LookupOld _ => mret x
  | VisitAll cb => visit_exec cb (walk (datas (conf x))).*2 x
  | LoadDocument root => let '(c, e) := LoadFromYaml root (conf x) (env x) in mret (with_both c e x)
  end.

(** No listener calls anything. *)
Definition plain x : Prop := forall p k e, match follows x !! (p, k) with Some f => f e = [] | None => True end.

Lemma calls_after_plain p k x : plain x -> calls_after p k x = [].
Proof. intros Hp. unfold calls_after. specialize (Hp p k (env x)). by destruct (follows x !! (p, k)). Qed.

Lemma put_same t p (y : ConfigVar E (interp t)) x : vars (conf x) !! p = Some (existT t y : any) ->
  put_var t p y (conf x) = conf x.
Proof. intros Hy. unfold put_var, put_any. rewrite insert_id by done. by destruct (conf x). Qed.

Lemma notify_flat t p v y : forall rest dn x e throws, plain x ->
  vars (conf x) !! p = Some (existT t y : any) -> map fst (m_cbs y) = dn ++ map fst rest ->
  run_cbs rest (m_val y) v (env x) = (e, throws) ->
  runs [Do (ANotify t p v dn rest)] x
    (with_both (put_var t p (if throws : bool then y else with_val v y) (conf x)) e x).
Proof.
  induction rest as [|[k cb] rest IH]; intros dn x e throws Hp Hy Hk En.
  - injection En as <- <-. eapply flat_then.
    { cbn [act_step]. rewrite (get_var_ok _ _ _ _ Hy). res_simpl. unfold notify. by rewrite bool_decide_true. }
    repeat constructor. eapply F_do; [cbn [act_step]; rewrite (get_var_ok _ _ _ _ Hy); res_simpl; reflexivity|].
    destruct x. repeat constructor.
  - cbn [run_cbs] in En. destruct (cb (m_val y) v (env x)) as [e1 th] eqn:Ecb. eapply flat_then.
    { cbn [act_step]. rewrite (get_var_ok _ _ _ _ Hy). res_simpl. unfold notify. rewrite bool_decide_true by done.
      rewrite Ecb. reflexivity. }
    destruct th.
    + injection En as <- <-. rewrite put_same by done. repeat constructor.
    + rewrite calls_after_plain by done. cbn [calls_code map concat app].
      apply (IH (dn ++ [k]) (with_env e1 x) e throws); [done|done| |done].
      rewrite Hk. cbn [map fst]. by rewrite <- app_assoc.
Qed.

Lemma set_flat t p v x y e th y' : plain x -> vars (conf x) !! p = Some (existT t y : any) ->
  setValue v y (env x) = (y', e, th) ->
  runs (set_code t p v) x (with_both (put_var t p y' (conf x)) e x).
Proof.
  intros Hp Hy En. unfold set_code, setValue in *. constructor. eapply flat_then.
  { cbn [act_step]. by rewrite (get_var_ok _ _ _ _ Hy). }
  destruct (decide (v = m_val y)).
  - injection En as <- <- <-. rewrite put_same by done. destruct x. repeat constructor.
  - destruct (run_cbs _ _ _ _) as [e1 th1] eqn:Er. apply (notify_flat t p v y _ []) in Er; [|done..].
    destruct th1; injection En as <- <- <-; exact Er.
Qed.

Lemma parse_flat p val a x a' e : plain x -> vars (conf x) !! p = Some a ->
  any_fromString val a (env x) = (a', e) -> runs [Do (AFromString p val)] x (with_both (put_any p a' (conf x)) e x).
Proof.
  destruct a as [t y]. intros Hp Hy En. unfold any_fromString, fromString in En. cbn [projT1 projT2] in En.
  eapply flat_then; [cbn [act_step]; unfold get_any; rewrite Hy; cbn [deref]; res_simpl; reflexivity|].
  unfold parsed_code. cbn [projT1]. destruct (from_str val) as [v|].
  - destruct (setValue v y (env x)) as [[y' e1] th] eqn:Es. injection En as <- <-. by eapply set_flat.
  - injection En as <- <-. change (runs [] x (with_both (put_var t p y (conf x)) (env x) x)).
    rewrite put_same by done. destruct x. constructor.
Qed.

Lemma read_flat p x x' : (_ ← get_any p x; mret x) = Ok x' ->
  runs (locked Shared (MVar p) [Do (ARead p)]) x x' /\ follows x' = follows x.
Proof.
  destruct (get_any p x) as [a|] eqn:Ea; res_simpl; [|done]. intros [= <-]. split; [|done].
  apply flat_locked, flat_act. cbn [act_step]. by rewrite Ea.
Qed.

Lemma call_flat (k : call_) x x' : plain x -> call_exec k x = Ok x' ->
  runs (call_code k) x x' /\ follows x' = follows x.
Proof.
  intros Hp. destruct k as [t p v|p|p|p key|p val|p key]; cbn [call_exec call_code].
  - unfold get_var, get_any. destruct (vars (conf x) !! p) as [[t' y]|] eqn:Hy; cbn [deref]; res_simpl; [|done].
    unfold as_type. cbn [projT1 projT2]. destruct (decide (t' = t)) as [<-|]; cbn [deref eq_rect]; res_simpl; [|done].
    destruct (setValue v y (env x)) as [[y' e] th] eqn:Es. intros [= <-]. split; [|done]. by eapply set_flat.
  - by apply read_flat.
  - by apply read_flat.
  - by apply read_flat.
  - unfold get_any. destruct (vars (conf x) !! p) as [a|] eqn:Ha; cbn [deref]; res_simpl; [|done].
    destruct (any_fromString val a (env x)) as [a' e] eqn:Ef. intros [= <-]. split; [|done]. by eapply parse_flat.
  - destruct (get_any p x) as [a|] eqn:Ea; res_simpl; [|done]. intros [= <-]. split; [|done].
    apply flat_locked, flat_act. cbn [act_step]. by rewrite Ea.
Qed.

Lemma plain_follows x x' : follows x' = follows x -> plain x -> plain x'.
Proof. unfold plain. by intros ->. Qed.

Lemma calls_flat (l : list call_) : forall x x', plain x -> calls_exec l x = Ok x' ->
  runs (calls_code l) x x' /\ follows x' = follows x.
Proof.
  induction l as [|k l IH]; intros x x' Hp En; cbn [calls_exec] in En.
  - injection En as <-. split; [constructor|done].
  - destruct (call_exec k x) as [x1|] eqn:E1; res_simpl; [|done]. destruct (call_flat k x x1 Hp E1) as [Hr1 F1].
    destruct (IH x1 x' (plain_follows _ _ F1 Hp) En) as [Hr2 F2]. split; [by eapply flat_app|congruence].
Qed.

Lemma call_datas (k : call_) x x' : call_exec k x = Ok x' -> datas (conf x') = datas (conf x).
Proof.
  destruct k; cbn [call_exec]; intros En; try destruct (get_var _ _ _); try destruct (get_any _ _); res_simpl; try done;
    repeat case_match; by injection En as <-.
Qed.

Lemma calls_datas (l : list call_) : forall x x', calls_exec l x = Ok x' -> datas (conf x') = datas (conf x).
Proof.
  induction l as [|k l IH]; intros x x' En; cbn [calls_exec] in En; [by injection En as <-|].
  destruct (call_exec k x) as [x1|] eqn:E1; res_simpl; [|done]. rewrite (IH _ _ En). by apply (call_datas k).
Qed.

Lemma visit_flat (cb : nat -> list call_) (found : gmap text nat) (ps : list nat) : forall x x', plain x ->
  datas (conf x) = found -> visit_exec cb ps x = Ok x' -> runs [Do (AVisitEach cb found ps)] x x'.
Proof.
  induction ps as [|p ps IH]; intros x x' Hp Hd En; cbn [visit_exec] in En.
  - injection En as <-. apply flat_act. cbn [act_step]. by rewrite bool_decide_true.
  - destruct (calls_exec (cb p) x) as [x1|] eqn:E1; res_simpl; [|done].
    destruct (calls_flat _ _ _ Hp E1) as [Hr1 F1]. eapply flat_then.
    { cbn [act_step]. by rewrite bool_decide_true. }
    eapply flat_app; [exact Hr1|]. apply IH; [by eapply plain_follows| |done]. by rewrite (calls_datas _ _ _ E1).
Qed.

Lemma load_flat (l : list (text * node)) : forall x c' e', plain x ->
  (forall n p, datas (conf x) !! n = Some p -> is_Some (vars (conf x) !! p)) ->
  foldl load_member (conf x, env x) l = (c', e') ->
  runs (concat (map member_code l)) x (with_both c' e' x).
Proof.
  induction l as [|[[|ch key] n] l IH]; intros x c' e' Hp Hv En; cbn [foldl load_member fst snd] in En.
  - injection En as <- <-. destruct x. constructor.
  - by apply IH.
  - change (concat (map member_code ((ch :: key, n) :: l)))
      with (member_code (E := E) (interp := interp) (ch :: key, n) ++ concat (map member_code l)).
    cbn [member_code fst snd app]. apply F_lock.
    remember (map tolower (ch :: key)) as nm eqn:Enm. clear Enm.
    destruct (LookupBase nm (conf x)) as [p|] eqn:Eb.
    + destruct (Hv _ _ Eb) as [a Ha]. rewrite Ha in En.
      destruct (any_fromString (node_text n) a (env x)) as [a' e] eqn:Ef.
      eapply F_do; [cbn [act_step]; by rewrite Eb|]. apply F_unlock. apply (flat_app _ [Do (AFromString p (node_text n))]
        _ _ (with_both (put_any p a' (conf x)) e x)); [by eapply parse_flat|].
      apply (IH (with_both (put_any p a' (conf x)) e x) c' e'); [done| |done].
      intros n' q Hq. cbn. destruct (decide (p = q)) as [<-|Hne]; [by rewrite lookup_insert_eq; eexists|].
      rewrite lookup_insert_ne by done. by eapply Hv.
    + eapply F_do; [cbn [act_step]; by rewrite Eb|]. apply F_unlock. by apply IH.
Qed.

Lemma lookup_flat t name (d : interp t) descr x x' :
  (forall n p, datas (conf x) !! n = Some p -> is_Some (vars (conf x) !! p)) ->
  exec (LookupNew t name d descr) x = Ok x' -> runs (code_of (LookupNew t name d descr)) x x'.
Proof.
  intros Hv En. cbn [exec] in En. apply flat_locked.
  destruct (Lookup t name d descr (conf x)) as [[[q|] c]|f] eqn:El.
  - injection En as <-. apply flat_act. cbn [act_step]. by rewrite El.
  - injection En as <-. destruct (datas (conf x) !! name) as [p|] eqn:Ed.
    + destruct (Hv _ _ Ed) as [a Ha]. eapply flat_then; [cbn [act_step]; by rewrite El, Ed|].
      apply flat_locked, flat_act. unfold Lookup in El. rewrite Ed, Ha in El. cbn [deref] in El. res_simpl.
      injection El as _ <-. cbn [act_step get_any with_conf conf]. unfold get_any. cbn [with_conf conf]. by rewrite Ha.
    + apply flat_act. cbn [act_step]. by rewrite El, Ed.
  - apply flat_act. cbn [act_step]. rewrite El. destruct f; try done. by injection En as <-.
Qed.

Lemma config_exec_flat (o : op_) x x' : plain x ->
  (forall n p, datas (conf x) !! n = Some p -> is_Some (vars (conf x) !! p)) ->
  exec o x = Ok x' -> runs (code_of o) x x'.
Proof.
  intros Hp Hv. destruct o as [k|t p cb calls|p|t name d descr|name|cb|root]; cbn [exec code_of]; intros En.
  - by apply call_flat.
  - apply flat_locked. destruct (get_var t p x) as [y|] eqn:Ey; res_simpl; [|done]. unfold addListener in En.
    injection En as <-. eapply F_do; [reflexivity|]. eapply F_do.
    { cbn [act_step]. change (get_var t p _) with (get_var t p x). rewrite Ey. res_simpl. reflexivity. }
    apply flat_act. cbn [act_step dun_id conf env follows returned]. by rewrite fn_lookup_insert.
  - apply flat_act. cbn [act_step]. destruct (get_any p x); res_simpl; [|done]. by injection En as <-.
  - by apply lookup_flat.
  - injection En as <-. by apply flat_locked, flat_act.
  - apply flat_locked. eapply flat_then; [reflexivity|]. by apply visit_flat.
  - destruct (LoadFromYaml root (conf x) (env x)) as [c e] eqn:El. injection En as <-. by apply load_flat.
Qed.
End Alone.

(** ** Properties *)

Section Properties.
Context {ty : Type} `{!EqDecision ty} {interp : ty -> Type}.
Context `{!forall t, EqDecision (interp t)} `{!forall t, LexicalCast (interp t)}.
Context `{Yaml} {E : Type}.
Context (walk : gmap text nat -> list (text * nat)) (level : nat -> nat) (top : nat).
Context {S : Type} `{Lockable S} (held : S -> list (Z * mode)) `{!LockLaws S held, !LockGrants S held}.
Context (free : S) (threads : nat) (x0 : configs (interp := interp) (E := E)).
Abbreviation data := (configs (interp := interp) (E := E)).
Abbreviation act_ := (act (interp := interp) (E := E)).
Abbreviation state := (world mutex act_ data S).
Abbreviation step_of := (act_step walk).
Implicit Types (w : state) (i : nat) (x : data).

(** Threads that do nothing yet, and locks nobody holds. *)
Definition config_start : state := World x0 (fun _ => free) (replicate threads []).
Definition may_config x (c : list (instr mutex act_)) : Prop := exists o, op_valid level o x /\ c = code_of o.
Abbreviation reached := (reachable step_of may_config config_start).

(** What the lock class, the table and the listeners are supposed to do. *)
Record config_assumed : Prop := Assumed {
  as_locks : forall m, supports (S := S) m = true;
  as_free : held free = [];
  as_walk : forall m, walk m ≡ₚ map_to_list m;
  as_level : forall p, (level p < top)%nat;
  as_sound : sound level x0 }.

Lemma config_ok w : config_assumed -> reached w -> ok held (configuring level top) w.
Proof.
  intros [Hl Hf Hw Hv Hx] Hr. pose proof (configuring_laws (interp := interp) (E := E) walk Hw level top Hv Hl) as Hlaws.
  apply (world_reachable_ok held step_of (configuring level top) may_config config_start); [|intros x c _ (o & Ho & ->)|done].
  - by apply start_ok.
  - by apply (op_right level top Hl).
Qed.

(** C9.  The configuration can be used from several threads, if listeners only
    call variables of a smaller level than the one they listen to
    ([config_assumed]; one that goes back to its own variable can wait for
    itself: listener_deadlock): whatever [setValue], [fromString], [toString],
    [addListener], [delListener], [Lookup], [Visit] and [LoadFromYaml] do at the
    same time, the table stays right, no step fails: no variable that is used is
    gone or of another type, and neither the listeners nor the table change
    under a thread that goes through them; a lock that is held exclusively is
    held once; there is no deadlock, and when no thread has anything left to do
    all locks are free. *)
Theorem config_threads_safe w : config_assumed -> reached w ->
  sound level (w_data w) /\
  (forall i, exists o, step step_of i w = Ok o) /\
  (forall k i j m, (Z.of_nat i, Exclusive) ∈ held (w_mutex w k) -> (Z.of_nat j, m) ∈ held (w_mutex w k) -> i = j) /\
  (forall i c r, w_threads w !! i = Some (c :: r) -> exists w', turn step_of w w') /\
  ((forall i r, w_threads w !! i = Some r -> r = []) -> forall k, held (w_mutex w k) = []).
Proof.
  intros Has Hr. pose proof Has as [Hl Hf Hw Hv Hx]. pose proof (configuring_laws (interp := interp) (E := E) walk Hw level top Hv Hl).
  pose proof (config_ok w Has Hr) as Hok. split; [apply Hok|].
  by apply (all_safe held step_of (configuring level top)).
Qed.

(** C11.  If listeners only call variables of a smaller level than the one they
    listen to ([config_assumed]), every call of the configuration returns, with
    the calls its listeners make: from any state the threads can get into by
    such calls there is no infinite run without new calls, and a run that goes
    on for as long as it can ends with all calls returned.  Without the
    assumption it does not hold: a listener that goes back to its own variable
    can wait for itself forever (listener_deadlock). *)
Theorem config_calls_end w : config_assumed -> reached w ->
  Acc (fun w2 w1 => turn step_of w1 w2) w /\
  forall w', rtc (turn step_of) w w' -> (forall w2, ~ turn step_of w' w2) ->
    forall i r, w_threads w' !! i = Some r -> r = [].
Proof.
  intros Has Hr. pose proof Has as [Hl Hf Hw Hv Hx]. pose proof (configuring_laws (interp := interp) (E := E) walk Hw level top Hv Hl).
  apply (all_end held step_of (configuring level top) (smaller (rank level top)) (smaller_wf _)); [|by apply config_ok].
  by apply config_expands.
Qed.

(** C13.  The pieces are the operations: a call a thread makes while the others
    make none goes through, and leaves variables, table and environment as the
    operation of Config does ([setValue], [fromString], [addListener],
    [delListener], [Lookup], [LoadFromYaml]).  (Listeners that call nothing.) *)
Theorem config_alone w i o x' : config_assumed -> reached w ->
  (forall j r, w_threads w !! j = Some r -> r = []) -> w_threads w !! i = Some [] ->
  op_valid level o (w_data w) -> plain (w_data w) -> exec walk o (w_data w) = Ok x' ->
  exists w', rtc (turn step_of) (begin i (code_of o) w) w' /\ w_data w' = x' /\
    w_threads w' = w_threads w /\ forall k, held (w_mutex w' k) = [].
Proof.
  intros Has Hr Hidle Hi Ho Hp En. pose proof Has as [Hl Hf Hw Hv Hx].
  pose proof (configuring_laws (interp := interp) (E := E) walk Hw level top Hv Hl). pose proof (config_ok w Has Hr) as Hok.
  assert (sound level (w_data w)) as Hs by apply Hok.
  apply (call_alone held step_of (configuring level top) (smaller (rank level top)) (smaller_wf _));
    [by apply config_expands|done|done|by apply (op_right level top Hl)|done|done|].
  apply config_exec_flat; [done| |done]. intros n p Hn. destruct (reg_vars _ (proj1 Hs) _ _ Hn) as (a & ? & _). by eexists.
Qed.
End Properties.

(** ** Witnesses and what is not promised

    Two numbers, "port" and "timeout"; the listeners of the first write down
    what they are told.  Read-write locks as POSIX has them. *)

#[local] Existing Instances ex_yaml ex_interp_eq ex_interp_cast.
#[local] Existing Instances ex_pthread ex_pthread_laws ex_read_locks.
#[local] Instance ex_rwlock : Lockable ex_rw := RWMutex.
#[local] Instance ex_rwlock_laws : LockLaws ex_rw ex_rw_held := rwlock_laws.
#[local] Instance ex_rwlock_grants : LockGrants ex_rw ex_rw_held.
Proof. intros m t [[|u l]|o] _; [|done|done]. intros _. destruct m; by eexists. Qed.

Abbreviation ex_act := (act (interp := ex_interp) (E := list Z)).
Abbreviation ex_configs := (configs (interp := ex_interp) (E := list Z)).
Abbreviation ex_call := (call (interp := ex_interp)).
Abbreviation ex_op := (op (interp := ex_interp) (E := list Z)).
Abbreviation ex_state := (world mutex ex_act ex_configs ex_rw).
Abbreviation ex_step := (act_step (interp := ex_interp) (E := list Z) map_to_list).

Definition ex_told : on_change_cb (list Z) Z := fun _ new e => (e ++ [new], false).
Definition ex_port : ConfigVar (list Z) Z := Var (lit "port") [] 0 [(1, ex_told); (2, ex_told)].
Definition ex_timeout : ConfigVar (list Z) Z := Var (lit "timeout") [] 100 [].

(** What the first listener of "port" calls. *)
Definition ex_data (f : list Z -> list ex_call) : ex_configs :=
  Configs (Conf {[0%nat := existT true ex_port; 1%nat := existT true ex_timeout]}
             {[lit "port" := 0%nat; lit "timeout" := 1%nat]} 2)
    [] (fun t => if t : bool then 2 else 0) {[(0%nat, 1) := f]} [].

Definition ex_sets (e : list Z) : list ex_call := [SetValue (interp := ex_interp) true 1 (default 0 (last e))].
Definition ex_level (p : nat) : nat := match p with O => 1 | _ => 0 end.

Abbreviation ex_start f := (config_start (Readers [] : ex_rw) 2 (ex_data f)).
Abbreviation ex_reached f := (reachable ex_step (may_config ex_level) (ex_start f)).

Lemma ex_ports_registered f : registered (conf (ex_data f)).
Proof.
  split; cbn [conf ex_data vars datas fresh_var].
  - intros n p [[<- <-]|[_ [<- <-]%lookup_singleton_Some]]%lookup_insert_Some; by eexists.
  - intros p a [[<- _]|[_ [<- _]%lookup_singleton_Some]]%lookup_insert_Some; lia.
  - intros n p [[<- _]|[_ [<- _]%lookup_singleton_Some]]%lookup_insert_Some; vm_compute; reflexivity.
Qed.

Lemma ex_assumed f : (forall e, calls_below ex_level (ex_data f) 0 (f e)) ->
  config_assumed map_to_list ex_level 2 ex_rw_held (Readers [] : ex_rw) (ex_data f).
Proof.
  intros Hf. split; [done|done|done|intros [|]; simpl; lia|]. split; [apply ex_ports_registered|].
  cbn [follows ex_data]. intros p k g [[= <- <-] <-]%lookup_singleton_Some. exact Hf.
Qed.

Lemma ex_assumed_sets : config_assumed map_to_list ex_level 2 ex_rw_held (Readers [] : ex_rw) (ex_data ex_sets).
Proof. apply ex_assumed. intros e. repeat constructor. by eexists. Qed.

(** [setValue] of "port" by two threads. *)
Definition ex_set (v : Z) : ex_op := OnVar (SetValue (interp := ex_interp) true 0 v).
Definition ex_can (o : ex_op) (x : ex_configs) : bool :=
  match o with
  | OnVar (SetValue true 0 _) => match vars (conf x) !! 0%nat with Some a => is_of true a | None => false end
  | _ => false
  end.

Lemma ex_can_may o x : ex_can o x = true -> may_config ex_level x (code_of o).
Proof.
  intros Hc. exists o. split; [|done]. destruct o as [[[] [|] v| | | | |]| | | | | |]; try done. simpl in *.
  destruct (vars (conf x) !! 0%nat) as [[[] y]|] eqn:Ey; try done. by exists y.
Qed.

(** Anything may be called. *)
Definition may_any (x : ex_configs) (c : list (instr mutex ex_act)) : Prop := exists o : ex_op, c = code_of o.

Definition ex_played f (can : ex_op -> ex_configs -> bool) (ms : list (move ex_op)) : ex_state :=
  played ex_step code_of can (ex_start f) ms.
Abbreviation ex_any f := (reachable ex_step may_any (ex_start f)).
Abbreviation any_op := (fun (_ : ex_op) (_ : ex_configs) => true).

Lemma ex_config_reached f ms : bool_decide (is_Some (play ex_step code_of ex_can ms (ex_start f))) = true ->
  ex_reached f (ex_played f ex_can ms).
Proof. by apply played_reached, ex_can_may. Qed.

Lemma ex_played_any f ms : bool_decide (is_Some (play ex_step code_of any_op ms (ex_start f))) = true ->
  ex_any f (ex_played f any_op ms).
Proof. apply played_reached. intros o x _. by exists o. Qed.

(** A listener's last word: both threads tell the listeners before either
    stores its value, which the read lock allows, and they store in the other
    order, so that the variable keeps a value that is not the one its listeners
    were told last. *)
Definition ex_stale : list (move ex_op) :=
  [Begins 0 (ex_set 1); Goes_on 0 6; Begins 1 (ex_set 2); Goes_on 1 9; Goes_on 0 3].

Example stale_listener : exists w, ex_reached (fun _ => []) w /\ w_threads w = [[]; []] /\
  env (w_data w) = [1; 1; 2; 2] /\ m_val <$> get_var true 0 (w_data w) = Ok 1.
Proof.
  exists (ex_played (fun _ => []) ex_can ex_stale).
  split; [apply ex_config_reached; vm_compute; reflexivity|].
  split; [vm_compute; reflexivity|]. split; vm_compute; reflexivity.
Qed.

(** A listener that removes itself waits for the write lock while its own
    thread has the read lock: nobody goes on. *)
Definition ex_once : list (move ex_op) := [Begins 0 (ex_set 1); Goes_on 0 3].

Example listener_deadlock : exists w c r, ex_any (fun _ => [DelListener 0 1]) w /\
  w_threads w !! 0%nat = Some (c :: r) /\ forall i, step ex_step i w = Ok None.
Proof.
  set (w := ex_played (fun _ => [DelListener 0 1]) any_op ex_once).
  assert (w_threads w !! 0%nat = Some (match w_threads w !! 0%nat with Some (c :: r) => c :: r | _ => [] end)) as Hc
    by (vm_compute; reflexivity).
  exists w. do 2 eexists. split; [apply ex_played_any; vm_compute; reflexivity|].
  split; [rewrite Hc; vm_compute; reflexivity|].
  intros [|[|i]]; [vm_compute; reflexivity|vm_compute; reflexivity|].
  unfold step. replace (w_threads w !! Datatypes.S (Datatypes.S i)) with (@None (list (instr mutex ex_act))); [done|].
  symmetry. apply lookup_ge_None_2. assert (length (w_threads w) = 2%nat) as -> by (vm_compute; reflexivity). lia.
Qed.

(** [clearListener] takes no lock: it empties the map that a thread in
    [setValue] goes through. *)
Definition ex_clears : list (move ex_op) :=
  [Begins 0 (ex_set 1); Goes_on 0 3; Begins 1 (ClearListener 0); Goes_on 1 1].

Example clear_while_notifying : exists w, ex_any (fun _ => []) w /\
  step ex_step 0 w = Err (FUB "iterator of m_cbs").
Proof.
  exists (ex_played (fun _ => []) any_op ex_clears).
  split; [apply ex_played_any; vm_compute; reflexivity|vm_compute; reflexivity].
Qed.

(** [s_dun_id] is shared by the variables of a type, each of which has a lock of
    its own: [addListener] can return a key under which no listener was put. *)
Definition ex_adds : list (move ex_op) :=
  [Begins 0 (AddListener (interp := ex_interp) true 0 ex_told (fun _ => [])); Goes_on 0 3;
   Begins 1 (AddListener (interp := ex_interp) true 1 ex_told (fun _ => [])); Goes_on 1 2;
   Goes_on 0 2; Goes_on 1 3].

Example wrong_key : exists w, ex_any (fun _ => []) w /\ w_threads w = [[]; []] /\
  returned (w_data w) = [(1%nat, 4); (0%nat, 4)] /\
  (fun y => map fst (m_cbs y)) <$> get_var true 0 (w_data w) = Ok [1; 2; 3].
Proof.
  exists (ex_played (fun _ => []) any_op ex_adds).
  split; [apply ex_played_any; vm_compute; reflexivity|].
  split; [vm_compute; reflexivity|]. split; vm_compute; reflexivity.
Qed.

(** Thread 1 has set "port", and thread 0 is telling the listeners, the first of
    which is setting "timeout". *)
Definition ex_busy : list (move ex_op) := [Begins 1 (ex_set 2); Goes_on 1 16; Begins 0 (ex_set 1); Goes_on 0 4].

Lemma config_threads_safe_witness :
  sound ex_level (w_data (ex_played ex_sets ex_can ex_busy)) /\
  exists w', turn ex_step (ex_played ex_sets ex_can ex_busy) w'.
Proof.
  destruct (config_threads_safe map_to_list ex_level 2 ex_rw_held (Readers [] : ex_rw) 2 (ex_data ex_sets)
    (ex_played ex_sets ex_can ex_busy)) as (Hs & _ & _ & Hgo & _);
    [exact ex_assumed_sets|apply ex_config_reached; vm_compute; reflexivity|].
  split; [exact Hs|]. apply (Hgo 0%nat (Do (ACompare true 1 1))
    (match w_threads (ex_played ex_sets ex_can ex_busy) !! 0%nat with Some (_ :: r) => r | _ => [] end)).
  vm_compute. reflexivity.
Defined.

Lemma config_calls_end_witness : Acc (fun w2 w1 => turn ex_step w1 w2) (ex_played ex_sets ex_can ex_busy).
Proof.
  destruct (config_calls_end map_to_list ex_level 2 ex_rw_held (Readers [] : ex_rw) 2 (ex_data ex_sets)
    (ex_played ex_sets ex_can ex_busy)) as [Ha _];
    [exact ex_assumed_sets|apply ex_config_reached; vm_compute; reflexivity|exact Ha].
Defined.

Lemma config_alone_witness : exists w', rtc (turn ex_step) (begin 1 (code_of (ex_set 8)) (ex_start (fun _ => []))) w' /\
  m_val <$> get_var true 0 (w_data w') = Ok 8 /\ env (w_data w') = [8; 8].
Proof.
  destruct (config_alone map_to_list ex_level 2 ex_rw_held (Readers [] : ex_rw) 2 (ex_data (fun _ => []))
    (ex_start (fun _ => [])) 1 (ex_set 8)
    (with_both (put_var true 0 (with_val 8 ex_port) (conf (ex_data (fun _ => [])))) [8; 8] (ex_data (fun _ => []))))
    as (w' & Hr & Hd & _).
  - apply ex_assumed. intros e. constructor.
  - apply In_start.
  - intros [|[|j]] r; [by intros [= <-]..|done].
  - reflexivity.
  - by exists ex_port.
  - intros p k e. destruct (follows _ !! (p, k)) as [g|] eqn:Eg; [|done].
    change (({[(0%nat, 1) := fun _ => []]} : gmap (nat * Z) (list Z -> list ex_call)) !! (p, k) = Some g) in Eg.
    by apply lookup_singleton_Some in Eg as [_ <-].
  - vm_compute. reflexivity.
  - exists w'. split; [exact Hr|]. rewrite Hd. split; vm_compute; reflexivity.
Defined.
