(* ===== verification/Alarms.v ===== *)
(** * The callbacks of timers are neither lost nor doubled

    Counts the armed timers whose callback satisfies a predicate, and shows what
    each operation of Timer.v does to the count: expiry hands a callback of a
    one-shot timer out exactly when it disarms the timer.  Needs no invariant of
    the manager. *)

From S2P Require Import Prelude StdSet Timer.

Section Count.
Context {F W : Type} (P : callback F W -> bool).
Implicit Types (t : manager F W) (x : timer F W).

Definition counted (o : option (callback F W)) : nat :=
  match o with Some c => if P c then 1 else 0 | None => 0 end.

(** The armed timers with such a callback, and how many of them a list of
    callbacks holds. *)
Definition armed t : nat := map_sum (fun x => counted (m_cb x)) (m_heap t).
Definition handed (cbs : list (option (callback F W))) : nat := sum_list_with counted cbs.

Definition one_shot t : Prop :=
  forall p x, m_heap t !! p = Some x -> counted (m_cb x) <> 0%nat -> m_recurring x = false.

(** The timer at [p] is there, and not one of them. *)
Definition harmless t (p : loc) : Prop :=
  exists x, m_heap t !! p = Some x /\ counted (m_cb x) = 0%nat.

(** From [t] to [t'] with [n] callbacks handed out. *)
Record hands_out (n : nat) t t' : Prop := HandsOut {
  ho_armed : (armed t' + n = armed t)%nat;
  ho_one_shot : one_shot t';
  ho_harmless : forall p, harmless t p -> harmless t' p }.

Lemma hands_out_heap t t' : m_heap t' = m_heap t -> one_shot t -> hands_out 0 t t'.
Proof. intros E Ho. unfold armed, one_shot, harmless in *. split; unfold armed, one_shot, harmless; rewrite E; auto. Qed.

Lemma hands_out_trans a b t1 t2 t3 :
  hands_out a t1 t2 -> hands_out b t2 t3 -> hands_out (a + b) t1 t3.
Proof. intros [] []. split; [lia|done|auto]. Qed.

Lemma handed_app l1 l2 : handed (l1 ++ l2) = (handed l1 + handed l2)%nat.
Proof. unfold handed. by rewrite sum_list_with_app. Qed.

(** A new timer is added to the count. *)
Lemma addTimer_armed now p ms cb rec t b t' :
  m_heap t !! p = None -> addTimer now p ms cb rec t = (b, t') ->
  armed t' = (armed t + counted cb)%nat /\
  (one_shot t -> counted cb = 0%nat \/ rec = false -> one_shot t') /\
  (forall q, harmless t q -> harmless t' q) /\ (counted cb = 0%nat -> harmless t' p).
Proof.
  intros Hp Ha. assert (m_heap t' = <[p := new_timer now ms cb rec]> (m_heap t)) as E.
  { unfold addTimer, addTimer_locked in Ha. destruct (set_insert _ _ p) as [[it ok] ts].
    injection Ha as _ <-. by destruct (_ && _). }
  unfold armed, one_shot, harmless. rewrite E. split_and!.
  - rewrite map_sum_insert_new by done. simpl. lia.
  - intros Ho Hrec q x [[<- <-]|[_ Hq]]%lookup_insert_Some Hc; [|eauto].
    destruct Hrec as [Hz|Hrec]; [by simpl in Hc|done].
  - intros q (x & Hq & Hz). exists x. rewrite lookup_insert_ne; [done|]. intros <-. congruence.
  - intros Hz. exists (new_timer now ms cb rec). by rewrite lookup_insert_eq.
Qed.

Lemma cancel_armed p t b t' :
  harmless t p -> one_shot t -> Timer.cancel p t = Ok (b, t') -> hands_out 0 t t'.
Proof.
  intros (x & Hx & Hz) Ho. unfold Timer.cancel. rewrite Hx. cbn [deref]. res_simpl.
  destruct (m_cb x) as [c|] eqn:Ec; [|intros [= _ <-]; by apply hands_out_heap].
  destruct (set_erase _ _) as [ts|]; res_simpl; [|done]. intros [= _ <-]. split; unfold armed, one_shot, harmless; simpl.
  - pose proof (map_sum_insert (fun x => counted (m_cb x)) (m_heap t) p x (set_cb None x) Hx) as Hs.
    simpl in Hs. rewrite Ec, Hz in Hs. lia.
  - intros q y [[<- <-]|[_ Hq]]%lookup_insert_Some Hc; [done|eauto].
  - intros q (y & Hq & Hy). destruct (decide (p = q)) as [<-|Hne].
    + exists (set_cb None x). by rewrite lookup_insert_eq.
    + exists y. by rewrite lookup_insert_ne.
Qed.

Lemma getNextTimer_heap now t n t' : Timer.getNextTimer now t = Ok (n, t') -> m_heap t' = m_heap t.
Proof.
  unfold Timer.getNextTimer. destruct (m_timers t) as [|p ?]; [by intros [= _ <-]|].
  destruct (m_heap t !! p); cbn [deref]; res_simpl; [|done]. by intros [= _ <-].
Qed.

Lemma fire_one_armed now p x t :
  m_heap t !! p = Some x -> one_shot t -> hands_out (counted (m_cb x)) t (fire_one now p x t).
Proof.
  intros Hx Ho. unfold fire_one.
  assert (forall y, (m_recurring x = true /\ m_cb y = m_cb x /\ m_recurring y = m_recurring x) \/
      (m_cb y = None) ->
    (m_recurring x = true -> m_cb y = m_cb x) ->
    (armed (with_store (<[p := y]> (m_heap t)) (m_timers t) t) + counted (m_cb x)
       = armed t + counted (m_cb y))%nat /\
    forall s, one_shot (with_store (<[p := y]> (m_heap t)) s t) /\
    forall q, harmless t q -> harmless (with_store (<[p := y]> (m_heap t)) s t) q) as Hins.
  { intros y Hy _. split; [by apply (map_sum_insert (fun x => counted (m_cb x)))|].
    intros s. unfold one_shot, harmless. simpl. split.
    - intros q z [[<- <-]|[_ Hq]]%lookup_insert_Some Hc; [|eauto].
      destruct Hy as [(_ & Ec & Er)|E]; [|by rewrite E in Hc]. rewrite Er. rewrite Ec in Hc. eauto.
    - intros q (z & Hq & Hz). destruct (decide (p = q)) as [<-|Hne].
      + exists y. rewrite lookup_insert_eq. split; [done|].
        destruct Hy as [(_ & -> & _)| ->]; [|done]. congruence.
      + exists z. by rewrite lookup_insert_ne. }
  destruct (m_recurring x) eqn:Er.
  - destruct (Hins (set_next (u64 (now + m_ms x)) x)) as [Hs Hk]; [left; simpl; by rewrite Er|done|].
    assert (counted (m_cb x) = 0%nat) as Hz.
    { destruct (decide (counted (m_cb x) = 0%nat)) as [|Hc]; [done|]. specialize (Ho p x Hx Hc). congruence. }
    split; [unfold armed in *; simpl in *; lia|apply Hk|apply Hk].
  - destruct (Hins (set_cb None x)) as [Hs Hk]; [by right|done|].
    split; [unfold armed in *; simpl in *; lia|apply Hk|apply Hk].
Qed.

Lemma fire_expired_armed now l : forall cbs t cbs' t',
  one_shot t -> fire_expired now l cbs t = Ok (cbs', t') ->
  exists out, cbs' = cbs ++ out /\ hands_out (handed out) t t'.
Proof.
  induction l as [|p l IH]; intros cbs t cbs' t' Ho; cbn [fire_expired].
  - intros [= <- <-]. exists []. rewrite app_nil_r. split; [done|by apply hands_out_heap].
  - destruct (m_heap t !! p) as [x|] eqn:Hx; cbn [deref]; res_simpl; [|done]. intros E.
    pose proof (fire_one_armed now p x t Hx Ho) as H1.
    destruct (IH _ _ _ _ (ho_one_shot _ _ _ H1) E) as (out & -> & H2).
    exists (m_cb x :: out). rewrite <- app_assoc. split; [done|]. by eapply hands_out_trans.
Qed.

(** [listExpiredCb] hands out what it disarms, in its write-locked section. *)
Lemma listExpired_locked_armed now probe t cbs t' :
  one_shot t -> listExpired_locked now probe [] t = Ok (cbs, t') -> hands_out (handed cbs) t t'.
Proof.
  intros Ho. unfold listExpired_locked. destruct (detectClockRollover now t) as [ro t1] eqn:Ero.
  assert (m_heap t1 = m_heap t) as E1 by (by injection Ero as _ <-).
  match goal with |- context [mbind _ ?e] => destruct e as [early|] end; res_simpl; [|done].
  destruct early; [intros [= <- <-]; by apply hands_out_heap|].
  intros (out & -> & H2)%fire_expired_armed.
  - eapply (hands_out_trans 0); [|exact H2]. by apply hands_out_heap.
  - unfold one_shot. simpl. by rewrite E1.
Qed.

Lemma listExpiredCb_armed now probe t cbs t' :
  one_shot t -> Timer.listExpiredCb now probe [] t = Ok (cbs, t') -> hands_out (handed cbs) t t'.
Proof.
  intros Ho. unfold Timer.listExpiredCb. destruct (hasTimer t);
    [by apply listExpired_locked_armed|intros [= <- <-]; by apply hands_out_heap].
Qed.
End Count.

(** ** One timer is due *)

Section Single.
Context {F W : Type}.
Implicit Types (t : manager F W).

(** The only due timer is the first of the set. *)
Lemma due_first t now p x :
  wf t -> pending t !! p = Some x -> m_next x < now ->
  (forall q y, pending t !! q = Some y -> q <> p -> now < m_next y) ->
  exists ps, m_timers t = p :: ps /\ m_heap t !! p = Some x.
Proof.
  intros Hw Hp Hx Hq. apply pending_Some in Hp as [Hh Hin].
  destruct (m_timers t) as [|p0 ps] eqn:E; [by apply not_elem_of_nil in Hin|].
  exists ps. destruct (decide (p0 = p)) as [->|Hne]; [done|]. exfalso.
  pose proof (wf_alive _ Hw) as Ha. rewrite E in Ha. apply Forall_cons in Ha as [[y Hy] _].
  assert (now < m_next y) as Hlate.
  { apply (Hq p0); [|done]. apply pending_Some. split; [done|]. rewrite E. by left. }
  apply elem_of_cons in Hin as [->|Hin]; [done|].
  pose proof (wf_sorted _ Hw) as Hs. rewrite E in Hs. inversion Hs as [|? ? Hs' Hf]; subst.
  rewrite Forall_forall in Hf. apply Hf in Hin. rewrite (timer_lt_iff _ _ _ y x) in Hin by done. lia.
Qed.

Lemma single_expiry t now probe p x t0 :
  wf t -> m_heap t !! probe = None -> detectClockRollover now t = (false, t0) ->
  pending t !! p = Some x -> m_recurring x = false -> m_next x < now ->
  (forall q y, pending t !! q = Some y -> q <> p -> now < m_next y) ->
  exists t', Timer.listExpiredCb now probe [] t = Ok ([m_cb x], t') /\
    pending t' = delete p (pending t).
Proof.
  intros Hw Hpr Hro Hp Hrec Hx Hq. destruct (due_first t now p x Hw Hp Hx Hq) as (ps & E & Hh).
  destruct (listExpiredCb_refines t now probe [] false t0 p x Hw Hpr Hro)
    as (ex & t' & El & Hw' & Hpe & Hs & Hex); [by rewrite E|done|right; lia|].
  assert (forall q, q ∈ ex <-> q = p) as Hin.
  { intros q. rewrite Hex. unfold due. split.
    - intros (y & Hy & Hd). destruct (decide (q = p)) as [|Hne]; [done|].
      specialize (Hq q y Hy Hne). simpl in Hd. apply Z.leb_le in Hd. lia.
    - intros ->. exists x. split; [done|]. apply Z.leb_le. lia. }
  assert (ex = [p]) as ->.
  { assert (Forall (fun q => is_Some (m_heap t !! q)) ex) as Ha
      by (apply Forall_forall; intros q ->%Hin; eauto).
    pose proof (sorted_NoDup _ _ _ (timer_lt_total (m_heap t)) Ha Hs) as Hnd.
    destruct ex as [|a [|b ex]].
    - exfalso. destruct (Hin p) as [_ Hx']. specialize (Hx' eq_refl). by apply not_elem_of_nil in Hx'.
    - f_equal. apply Hin. by left.
    - exfalso. assert (a = p) as -> by (apply Hin; by left).
      assert (b = p) as -> by (apply Hin; right; by left).
      apply NoDup_cons in Hnd as [Hn _]. apply Hn. by left. }
  exists t'. rewrite El. split; [simpl; unfold cb_at; by rewrite Hh|].
  rewrite Hpe. unfold expire_spec. apply map_eq. intros q. rewrite lookup_omap.
  destruct (decide (q = p)) as [->|Hne].
  - rewrite Hp, lookup_delete_eq. simpl. unfold due, rearm. rewrite Hrec.
    assert ((m_next x <=? now) = true) as -> by (apply Z.leb_le; lia). done.
  - rewrite lookup_delete_ne by done. destruct (pending t !! q) as [y|] eqn:Ey; [|done]. simpl.
    unfold due. specialize (Hq q y Ey Hne). assert ((m_next y <=? now) = false) as -> by (apply Z.leb_gt; lia).
    done.
Qed.
End Single.
