(* ===== verification/Blocking.v ===== *)
(** * Blocked calls: the hooks, the IO manager, the timers and the queue together

    The fibers of an IO manager that make hooked calls (Hook.v), with the events
    they wait for (IOManager.v), the timers that end their waits (Timer.v) and
    the queue they are resumed from (Scheduler.v).  A step is a call of a running
    fiber up to its return or yield, the resumption of a fiber the scheduler
    takes from its queue, the run of a timer's callback from the queue, a round
    of [idle] or one of its events, or something a client does that touches
    neither.  The theorems
    say that no wake-up is lost and none is given twice. *)

From S2P Require Import Prelude StdSet Timer Fiber Scheduler IOManager FdManager Hook Alarms.

(** Where a fiber is: in the queue for its first run, running, or waiting in a
    hooked call. *)
Inductive status (A : Type) : Type := Ready | Running | Blocked (fr : frame A).
Arguments Ready {A}.
Arguments Running {A}.
Arguments Blocked {A} fr.

Record hosting (V K Q A : Type) : Type := Hosting {
  ho_hooks : hooks V K Q;
  ho_fibers : gmap fid (status A) }.
Arguments Hosting {V K Q A}.
Arguments ho_hooks {V K Q A}.
Arguments ho_fibers {V K Q A}.

Section Theory.
Context {V K Q A : Type} `{EpollLaws K} `{HQ : FdKernel Q} `{!Kernel Q A}.
Abbreviation hk := (hooks V K Q).
Abbreviation iomgr := (iomanager (task V) K nat).
Abbreviation entry := (FiberAndThread (task V)).
Abbreviation timers := (Timer.manager (task V) nat).
Implicit Types (h : hk) (c : io_call A) (m : iomgr) (f g : fid) (s : gmap fid (status A)) (t : timers).

(** ** Steps *)

Definition status_of (o : outcome A) : status A :=
  match o with Returned _ => Running | Yields fr => Blocked fr end.

(** The state the scheduler sees. *)
Definition fiber_state s (f : fid) : option State :=
  (fun x => match x with Ready => INIT | Running => EXEC | Blocked _ => HOLD end) <$> s !! f.

(** Thread [self] takes an entry from the queue. *)
Definition takes (self : Z) s (it : entry) m m' : Prop :=
  exists q b, pick self (fiber_state s) [] (m_fibers (io_sched m)) false = Ok (Some it, q, b) /\
    m' = set_sched (set_fibers q (io_sched m)) m.

(** A timer's callback as a task of the queue; [OnTimer]'s test of [weak_cond]
    is the one [on_timeout] makes. *)
Definition task_of (cb : option (Timer.callback (task V) nat)) : target (code (task V)) :=
  ToCb (match cb with
        | Some (CbFun k) | Some (CbOnTimer _ (Some k)) => Some (User k)
        | _ => None
        end).

(** Callbacks that resume fiber [f]. *)
Definition wakes_fiber f (cb : Timer.callback (task V) nat) : bool :=
  match cb with
  | CbFun (WakeFiber g) | CbOnTimer _ (Some (WakeFiber g)) => bool_decide (g = f)
  | _ => false
  end.
Definition client_cb (cb : option (Timer.callback (task V) nat)) : Prop :=
  forall f, counted (wakes_fiber f) cb = 0%nat.

(** The object a call allocates is new. *)
Definition unallocated (addr : loc) h : Prop :=
  forall m, iom h = Some m -> m_heap (io_timers m) !! addr = None.

(** No client refers to a timer of a sleeping fiber. *)
Definition quiet_timer m (p : loc) : Prop := forall f, harmless (wakes_fiber f) (io_timers m) p.

Inductive step : hosting V K Q A -> hosting V K Q A -> Prop :=
| St_spawn h s f m : iom h = Some m -> s !! f = None ->
    step (Hosting h s)
      (Hosting (set_iom (io_schedule (ToFiber (Some f)) (-1) m) h) (<[f := Ready]> s))
| St_start h s f it m m' self : iom h = Some m -> s !! f = Some Ready ->
    takes self s it m m' -> ft_fiber it = Some f ->
    step (Hosting h s) (Hosting (set_iom m' h) (<[f := Running]> s))
| St_resume h s f it m m' self fr fuel now addr epoll_errno o h' :
    iom h = Some m -> s !! f = Some (Blocked fr) -> takes self s it m m' -> ft_fiber it = Some f ->
    unallocated addr h ->
    resume_frame f now addr epoll_errno fuel fr (set_iom m' h) = Ok (Some (o, h')) ->
    step (Hosting h s) (Hosting h' (<[f := status_of o]> s))
| St_io h s f fuel now addr epoll_errno c o h' : s !! f = Some Running -> unallocated addr h ->
    io f now addr epoll_errno fuel c h = Ok (Some (o, h')) ->
    step (Hosting h s) (Hosting h' (<[f := status_of o]> s))
| St_connect h s f now addr fd args o h' : s !! f = Some Running -> unallocated addr h ->
    connect f now addr fd args h = Ok (o, h') ->
    step (Hosting h s) (Hosting h' (<[f := status_of o]> s))
| St_sleep h s f now addr ms args o h' : s !! f = Some Running -> unallocated addr h ->
    sleep_for f now addr ms args h = Ok (o, h') ->
    step (Hosting h s) (Hosting h' (<[f := status_of o]> s))
| St_close h s fd n h' : close fd h = Ok (n, h') -> step (Hosting h s) (Hosting h' s)
| St_idle h s m now now2 probe epoll_wait b m' : iom h = Some m ->
    (forall n ev p, ev ∈ epoll_wait n -> ev_data ev = Context p -> is_Some (contexts m !! p)) ->
    idle_round now now2 probe task_of epoll_wait m = Ok (b, m') ->
    step (Hosting h s) (Hosting (set_iom m' h) s)
| St_event h s m ev m' : iom h = Some m ->
    (forall p, ev_data ev = Context p -> is_Some (contexts m !! p)) -> handle_event ev m = Ok m' ->
    step (Hosting h s) (Hosting (set_iom m' h) s)
| St_callback h s it m m' self k h' : iom h = Some m -> takes self s it m m' ->
    ft_fiber it = None -> ft_cb it = Some (User k) -> run_task k (set_iom m' h) = Ok h' ->
    step (Hosting h s) (Hosting h' s)
| St_add_timer h s m now addr ms cb rec : iom h = Some m -> unallocated addr h -> client_cb cb ->
    step (Hosting h s) (Hosting (set_iom
      (let '(front, t) := Timer.addTimer now addr ms cb rec (io_timers m) in
       if front then onTimerInsertedAtfront (set_timers t m) else set_timers t m) h) s)
| St_cancel_timer h s m p b t : iom h = Some m -> quiet_timer m p ->
    Timer.cancel p (io_timers m) = Ok (b, t) ->
    step (Hosting h s) (Hosting (set_iom (set_timers t m) h) s)
| St_add_event h s m fd e v f r m' : iom h = Some m -> is_event e ->
    addEvent fd e (Some (User (Client v))) true (f, EXEC) m = Ok (r, m') ->
    step (Hosting h s) (Hosting (set_iom m' h) s)
| St_other h s h' : iom h' = iom h -> step (Hosting h s) (Hosting h' s).

(** Nobody waits, no timer is there and nothing is in the queue. *)
Definition idle_manager m : Prop :=
  (forall fd e, abs m fd e = None) /\ m_heap (io_timers m) = ∅ /\ m_fibers (io_sched m) = [].

Inductive reachable : hosting V K Q A -> Prop :=
| Re_start h m : iom h = Some m -> inv m -> idle_manager m -> reachable (Hosting h ∅)
| Re_step w w' : reachable w -> step w w' -> reachable w'.

(** ** Who wakes a fiber *)

Definition waits_at m (f : fid) (fd e : Z) : Prop :=
  0 <= fd /\ is_event e /\ abs m fd e = Some (ToFiber (Some f)).
Definition nowhere m (f : fid) : Prop := forall fd e, ~ waits_at m f fd e.
Definition only_at m (f : fid) (fd e : Z) : Prop :=
  waits_at m f fd e /\ forall fd' e', waits_at m f fd' e' -> fd' = fd /\ e' = e.

(** Entries of the queue that run [f], and those that will enter it. *)
Definition runs_fiber f (it : entry) : nat := if decide (ft_fiber it = Some f) then 1 else 0.
Definition code_wakes f (o : option (code (task V))) : nat :=
  match o with Some (User (WakeFiber g)) => if decide (g = f) then 1 else 0 | _ => 0 end.
Definition enters_fiber f (it : entry) : nat :=
  match ft_fiber it with None => code_wakes f (ft_cb it) | Some _ => 0 end.

Definition queued m f : nat := sum_list_with (runs_fiber f) (m_fibers (io_sched m)).
(** Armed timers, and their callbacks in the queue. *)
Definition alarms m f : nat :=
  (armed (wakes_fiber f) (io_timers m) + sum_list_with (enters_fiber f) (m_fibers (io_sched m)))%nat.

Definition awaits (fr : frame A) : option (Z * Z) :=
  match fr with
  | InDoIo c _ _ _ => Some (c_fd c, event_of (c_name c))
  | InConnect fd _ _ => Some (fd, WRITE)
  | InSleep => None
  end.
Definition frame_timer (fr : frame A) : option loc :=
  match fr with InDoIo _ _ _ timer | InConnect _ _ timer => timer | InSleep => None end.
Definition quiet_frame m (fr : frame A) : Prop :=
  forall p, frame_timer fr = Some p -> quiet_timer m p.

(** A blocked fiber is the waiter of its call's event, or in the queue - once,
    and never both; a sleeping one has one alarm, or is in the queue. *)
Definition blocked_ok m f (fr : frame A) : Prop :=
  match awaits fr with
  | Some (fd, e) =>
      alarms m f = 0%nat /\
      ((only_at m f fd e /\ queued m f = 0%nat) \/ (nowhere m f /\ queued m f = 1%nat))
  | None => nowhere m f /\ (queued m f + alarms m f = 1)%nat
  end.
Definition fiber_ok m f (o : option (status A)) : Prop :=
  match o with
  | None | Some Running => nowhere m f /\ queued m f = 0%nat /\ alarms m f = 0%nat
  | Some Ready => nowhere m f /\ queued m f = 1%nat /\ alarms m f = 0%nat
  | Some (Blocked fr) => quiet_frame m fr /\ blocked_ok m f fr
  end.

(** The manager's own invariant; sleeping fibers use one-shot timers and do not
    wait for events by callback. *)
Record good m : Prop := Good {
  go_inv : inv m;
  go_one_shot : forall f, one_shot (wakes_fiber f) (io_timers m);
  go_waiters : forall fd e o f, 0 <= fd -> is_event e -> abs m fd e = Some (ToCb o) ->
    code_wakes f o = 0%nat }.

Definition world_ok (w : hosting V K Q A) : Prop :=
  exists m, iom (ho_hooks w) = Some m /\ good m /\ forall f, fiber_ok m f (ho_fibers w !! f).

(** *** Changes of the IO manager *)

(** Nothing a fiber waits for is touched. *)
Record calm m m' : Prop := Calm {
  ca_good : good m';
  ca_timers : forall p, quiet_timer m p -> quiet_timer m' p;
  ca_abs : abs_same m m';
  ca_queue : m_fibers (io_sched m') = m_fibers (io_sched m);
  ca_armed : forall f, armed (wakes_fiber f) (io_timers m') = armed (wakes_fiber f) (io_timers m) }.

(** Fibers are woken, perhaps. *)
Record evolves m m' : Prop := Evolves {
  ev_good : good m';
  ev_timers : forall p, quiet_timer m p -> quiet_timer m' p;
  ev_waits : forall f fd e, waits_at m' f fd e -> waits_at m f fd e;
  ev_nowhere : forall f, nowhere m f ->
    (queued m' f + alarms m' f = queued m f + alarms m f)%nat /\ (queued m f <= queued m' f)%nat;
  ev_only : forall f fd e, only_at m f fd e -> alarms m f = 0%nat ->
    alarms m' f = 0%nat /\
    ((waits_at m' f fd e /\ queued m' f = queued m f) \/
     (nowhere m' f /\ queued m' f = S (queued m f))) }.

Lemma evolves_ok m m' f o : evolves m m' -> fiber_ok m f o -> fiber_ok m' f o.
Proof.
  intros [_ Ht Hw Hn Ho].
  assert (nowhere m f -> nowhere m' f) as Hnn by (intros Hx fd e Hy%Hw; by eapply Hx).
  destruct o as [[| |fr]|]; simpl; try (intros (Hx & Hq & Ha); specialize (Hn f Hx); split; [auto|lia]).
  intros [Hq Hb]. split; [intros p Hp; auto|]. unfold blocked_ok in *.
  destruct (awaits fr) as [[fd e]|].
  - destruct Hb as [Ha [[Hat Hq0]|[Hx Hq1]]].
    + destruct (Ho f fd e Hat Ha) as [Ha' [[Hat' Hq']|[Hx' Hq']]]; (split; [done|]); [left|right].
      * split; [split; [done|intros fd' e' Hy%Hw; by apply Hat]|congruence].
      * split; [done|lia].
    + specialize (Hn f Hx). split; [lia|]. right. split; [auto|lia].
  - destruct Hb as [Hx Hs]. specialize (Hn f Hx). split; [auto|lia].
Qed.

Lemma evolves_trans m1 m2 m3 : evolves m1 m2 -> evolves m2 m3 -> evolves m1 m3.
Proof.
  intros [_ Ht1 Hw1 Hn1 Ho1] [Hg Ht2 Hw2 Hn2 Ho2]. split; [done|auto|auto|..].
  - intros f Hx. destruct (Hn1 f Hx). assert (nowhere m2 f) as Hx2 by (intros fd e Hy%Hw1; by eapply Hx).
    destruct (Hn2 f Hx2). lia.
  - intros f fd e Hat Ha. destruct (Ho1 f fd e Hat Ha) as [Ha2 [[Hat2 Hq2]|[Hx2 Hq2]]].
    + assert (only_at m2 f fd e) as Hat2' by (split; [done|intros fd' e' Hy%Hw1; by apply Hat]).
      destruct (Ho2 f fd e Hat2' Ha2) as [Ha3 [[? ?]|[? ?]]]; (split; [done|]); [left|right];
        (split; [done|lia]).
    + destruct (Hn2 f Hx2). split; [lia|]. right. split; [|lia]. intros fd' e' Hy%Hw2. by eapply Hx2.
Qed.

Lemma calm_queued m m' f : calm m m' -> queued m' f = queued m f.
Proof. intros []. unfold queued. congruence. Qed.
Lemma calm_alarms m m' f : calm m m' -> alarms m' f = alarms m f.
Proof. intros [_ _ _ Hq Ha]. unfold alarms. by rewrite Hq, Ha. Qed.
Lemma calm_waits m m' f fd e : calm m m' -> waits_at m' f fd e <-> waits_at m f fd e.
Proof. intros [_ _ Ha _ _]. unfold waits_at. split; intros (? & ? & ?); split_and!; try done; by rewrite Ha in * by done. Qed.

Lemma calm_evolves m m' : calm m m' -> evolves m m'.
Proof.
  intros Hc. split; [apply Hc|apply Hc|..].
  - intros f fd e Hw. by apply (calm_waits _ _ _ _ _ Hc).
  - intros f _. rewrite (calm_queued _ _ _ Hc), (calm_alarms _ _ _ Hc). lia.
  - intros f fd e [Hat _] Ha. rewrite (calm_queued _ _ _ Hc), (calm_alarms _ _ _ Hc).
    split; [done|]. left. split; [by apply (calm_waits _ _ _ _ _ Hc)|done].
Qed.

Lemma calm_refl m : good m -> calm m m.
Proof. done. Qed.
Lemma calm_trans m1 m2 m3 : calm m1 m2 -> calm m2 m3 -> calm m1 m3.
Proof.
  intros [_ Ht1 Ha1 Hq1 Hr1] [Hg Ht2 Ha2 Hq2 Hr2]. split; [done|auto| |congruence|congruence].
  intros fd e ? ?. by rewrite Ha2, Ha1.
Qed.

(** The timers change, quietly. *)
Lemma calm_set_timers m t n : good m ->
  (forall f, hands_out (wakes_fiber f) 0 (io_timers m) t) -> calm m (set_pipe n (set_timers t m)).
Proof.
  intros [Hi Ho Hw] Ht. split; [split| | |done|]; simpl.
  - by apply inv_timers.
  - intros f. apply (Ht f).
  - exact Hw.
  - intros p Hp f. apply (Ht f), Hp.
  - by intros fd e _ _.
  - intros f. pose proof (ho_armed _ _ _ _ (Ht f)). lia.
Qed.

(** The kernel forgets a descriptor nobody waits for. *)
Lemma calm_closed fd m : good m -> 0 <= fd -> (forall e, is_event e -> abs m fd e = None) ->
  calm m (set_epfd (epoll_closed (m_epfd m) fd) m).
Proof.
  intros [Hi Ho Hw] Hfd Hn. split; [split|done| |done|done]; [by apply inv_closed|exact Ho|exact Hw|].
  by intros g e _ _.
Qed.

(** Only fiber [f] is concerned. *)
Record apart f m m' : Prop := Apart {
  ap_good : good m';
  ap_timers : forall p, quiet_timer m p -> quiet_timer m' p;
  ap_waits : forall g fd e, g <> f -> waits_at m' g fd e <-> waits_at m g fd e;
  ap_queued : forall g, g <> f -> queued m' g = queued m g;
  ap_alarms : forall g, g <> f -> alarms m' g = alarms m g }.

Lemma apart_ok f m m' g o : apart f m m' -> g <> f -> fiber_ok m g o -> fiber_ok m' g o.
Proof.
  intros [_ Ht Hw Hq Ha] Hne. pose proof (fun fd e => Hw g fd e Hne) as Hwg.
  unfold fiber_ok, blocked_ok, only_at, nowhere. rewrite Hq, Ha by done.
  destruct o as [[| |fr]|]; try (setoid_rewrite Hwg; done).
  intros [Hqf Hs]. split; [intros p Hp; by apply Ht, Hqf|].
  destruct (awaits fr) as [[fd e]|]; setoid_rewrite Hwg; done.
Qed.

(** *** Events *)

(** The events [b] of descriptor [fd] are triggered. *)
Definition ent (b : bool) (o : option (target (code (task V)))) : list entry :=
  match o with Some w => if b then entry_of w (-1) else [] | None => [] end.

Record triggers fd (b : Z -> bool) m m' : Prop := Triggers {
  tr_inv : inv m';
  tr_fd : 0 <= fd;
  tr_abs : forall fd' e, 0 <= fd' -> is_event e ->
    abs m' fd' e = if decide (fd' = fd /\ b e = true) then None else abs m fd' e;
  tr_queue : m_fibers (io_sched m') = m_fibers (io_sched m) ++
    ent (b READ) (abs m fd READ) ++ ent (b WRITE) (abs m fd WRITE);
  tr_timers : io_timers m' = io_timers m }.

Lemma runs_ent f b o :
  (b = true /\ o = Some (ToFiber (Some f)) -> sum_list_with (runs_fiber f) (ent b o) = 1%nat) /\
  (~ (b = true /\ o = Some (ToFiber (Some f))) -> sum_list_with (runs_fiber f) (ent b o) = 0%nat).
Proof.
  unfold ent, runs_fiber. split.
  - intros [-> ->]. simpl. by rewrite decide_True.
  - intros Hn. destruct o as [[[g|]|[k|]]|], b; try done. simpl.
    rewrite decide_False; [done|]. intros [= ->]. by destruct Hn.
Qed.

Lemma enters_ent f b o :
  (forall k, o = Some (ToCb k) -> code_wakes f k = 0%nat) ->
  sum_list_with (enters_fiber f) (ent b o) = 0%nat.
Proof.
  intros Hk. unfold ent, enters_fiber. destruct o as [[[g|]|[k|]]|], b; try done. simpl.
  rewrite Nat.add_0_r. exact (Hk (Some k) eq_refl).
Qed.

Lemma triggers_waits fd b m m' f fd' e : triggers fd b m m' ->
  waits_at m' f fd' e <-> waits_at m f fd' e /\ ~ (fd' = fd /\ b e = true).
Proof.
  intros Ht. unfold waits_at. split.
  - intros (? & ? & E). rewrite (tr_abs _ _ _ _ Ht) in E by done. case_decide; [done|tauto].
  - intros [(? & ? & E) Hn]. split_and!; try done. rewrite (tr_abs _ _ _ _ Ht) by done. by rewrite decide_False.
Qed.

(** The entries of fiber [f] among those of the triggered events. *)
Lemma triggers_entries fd b m m' f : triggers fd b m m' ->
  (nowhere m f -> queued m' f = queued m f) /\
  (forall fd' e, only_at m f fd' e ->
     (fd' = fd /\ b e = true -> queued m' f = S (queued m f)) /\
     (~ (fd' = fd /\ b e = true) -> queued m' f = queued m f)).
Proof.
  intros Ht. pose proof (tr_fd _ _ _ _ Ht) as Hfd.
  assert (forall e, is_event e -> (abs m fd e = Some (ToFiber (Some f)) <-> waits_at m f fd e)) as Hat
    by (unfold waits_at; tauto).
  unfold queued. rewrite (tr_queue _ _ _ _ Ht), !sum_list_with_app.
  destruct (runs_ent f (b READ) (abs m fd READ)) as [HR1 HR0].
  destruct (runs_ent f (b WRITE) (abs m fd WRITE)) as [HW1 HW0].
  pose proof (Hat READ is_READ) as HR. pose proof (Hat WRITE is_WRITE) as HW. split.
  - intros Hn. rewrite HR0, HW0; [lia|intros [_ E%HW]; by eapply Hn|intros [_ E%HR]; by eapply Hn].
  - intros fd' e [Hwe Hu].
    assert (forall a, is_event a -> (b a = true /\ abs m fd a = Some (ToFiber (Some f))) <->
      (a = e /\ fd' = fd /\ b e = true)) as Hone.
    { intros a Hae. rewrite (Hat a Hae). split.
      - intros [? Hwa]. destruct (Hu _ _ Hwa) as [-> ->]. done.
      - intros (-> & -> & ?). done. }
    pose proof (Hone READ is_READ) as H1. pose proof (Hone WRITE is_WRITE) as H2.
    destruct (proj1 (proj2 Hwe)) as [-> | ->]; (split; intros Hd).
    + rewrite HR1, HW0 by (rewrite ?H1, ?H2; first [tauto|intros [? _]; done]). lia.
    + rewrite HR0, HW0 by (rewrite ?H1, ?H2; first [tauto|intros [? _]; done]). lia.
    + rewrite HR0, HW1 by (rewrite ?H1, ?H2; first [tauto|intros [? _]; done]). lia.
    + rewrite HR0, HW0 by (rewrite ?H1, ?H2; first [tauto|intros [? _]; done]). lia.
Qed.

Lemma triggers_evolves fd b m m' : good m -> triggers fd b m m' -> evolves m m'.
Proof.
  intros [_ Ho Hg] Ht. pose proof (tr_timers _ _ _ _ Ht) as Et.
  assert (forall f, alarms m' f = alarms m f) as Ha.
  { intros f. unfold alarms. rewrite Et, (tr_queue _ _ _ _ Ht), !sum_list_with_app.
    rewrite !enters_ent; [lia|intros k E; by eapply Hg, E; [apply Ht|apply is_WRITE]
                            |intros k E; by eapply Hg, E; [apply Ht|apply is_READ]]. }
  assert (forall f fd e, waits_at m' f fd e -> waits_at m f fd e) as Hw
    by (intros f fd' e; rewrite (triggers_waits _ _ _ _ _ _ _ Ht); tauto).
  split.
  - split; [apply Ht|by rewrite Et|]. intros fd' e o f Hfd' He. rewrite (tr_abs _ _ _ _ Ht) by done.
    case_decide; [done|]. by apply Hg.
  - intros p. unfold quiet_timer. by rewrite Et.
  - exact Hw.
  - intros f Hx. rewrite Ha. rewrite (proj1 (triggers_entries _ _ _ _ f Ht) Hx). lia.
  - intros f fd' e Hat Ha0. rewrite Ha. split; [done|].
    destruct (triggers_entries _ _ _ _ f Ht) as [_ Hq]. destruct (Hq fd' e Hat) as [H1 H2].
    destruct (decide (fd' = fd /\ b e = true)) as [Hc|Hc]; [right|left]; (split; [|auto]).
    + intros fd2 e2 [Hw2 Hnc]%(triggers_waits _ _ _ _ _ _ _ Ht).
      destruct (proj2 Hat _ _ Hw2) as [-> ->]. done.
    + apply (triggers_waits _ _ _ _ _ _ _ Ht). split; [apply Hat|done].
Qed.

Lemma cancelEvent_triggers fd e m r m' : inv m -> is_event e -> cancelEvent fd e m = Ok (r, m') ->
  triggers fd (fun a => a =? e) m m'.
Proof.
  intros Hi He Hc. assert (0 <= fd) as Hfd.
  { unfold cancelEvent, find_context in Hc.
    destruct (Z.leb_spec (Z.of_nat (length (m_FdContexts m))) fd); [lia|].
    destruct (at_fd fd m) as [p|] eqn:E; [|done]. unfold at_fd in E. by destruct (Z.ltb_spec fd 0). }
  pose proof (cancelEvent_timers _ _ _ _ _ Hc) as Ht.
  destruct (cancelEvent_ok fd e m Hi Hfd He) as (m1 & E & Hi1 & Ha & Hq).
  rewrite Hc in E. injection E as _ <-. split; [done|done| | |done].
  - intros fd' a Hfd' Hae. rewrite Ha by done.
    destruct (Z.eqb_spec a e); repeat case_decide; naive_solver.
  - rewrite Hq. unfold ent. f_equal.
    destruct He as [-> | ->]; [change (READ =? READ) with true; change (WRITE =? READ) with false
                              |change (READ =? WRITE) with false; change (WRITE =? WRITE) with true];
      destruct (abs m fd READ), (abs m fd WRITE); by rewrite ?app_nil_r.
Qed.

Lemma cancelAll_triggers fd m r m' : inv m -> cancelAll fd m = Ok (r, m') ->
  triggers fd (fun _ => true) m m'.
Proof.
  intros Hi Hc. assert (0 <= fd) as Hfd.
  { unfold cancelAll, find_context in Hc.
    destruct (Z.leb_spec (Z.of_nat (length (m_FdContexts m))) fd); [lia|].
    destruct (at_fd fd m) as [p|] eqn:E; [|done]. unfold at_fd in E. by destruct (Z.ltb_spec fd 0). }
  pose proof (cancelAll_timers _ _ _ _ Hc) as Ht.
  destruct (cancelAll_ok fd m Hi Hfd) as (m1 & E & Hi1 & Ha & Hq).
  rewrite Hc in E. injection E as _ <-. split; [done|done| |exact Hq|done].
  intros fd' a Hfd' Hae. rewrite Ha by done. repeat case_decide; naive_solver.
Qed.

Lemma event_triggers p x events m : inv m -> contexts m !! p = Some x -> handled x events ->
  exists m', handle_event (EpollEvent events (Context p)) m = Ok m' /\
    triggers (fc_fd x) (reported events) m m'.
Proof.
  intros Hi Hp Hh. destruct (handle_event_ok p x events m Hi Hp Hh) as (m' & E & Hi' & Ha & Hq).
  destruct (inv_back _ Hi p x Hp) as [Hfd Hv]. pose proof (handle_event_timers _ _ _ E) as Ht.
  exists m'. split; [done|]. split; try done.
  rewrite Hq, !(abs_at (fc_fd x) m p x) by done. unfold ent, waits_for, wake.
  by destruct (has (fc_events x) READ), (has (fc_events x) WRITE).
Qed.

Lemma calm_pipe n m : good m -> calm m (set_pipe n m).
Proof.
  intros Hg. replace (set_pipe n m) with (set_pipe n (set_timers (io_timers m) m)) by (by destruct m).
  apply calm_set_timers; [done|]. intros f. apply hands_out_heap; [done|apply Hg].
Qed.

Lemma handle_event_evolves ev m m' : good m ->
  (forall p, ev_data ev = Context p -> is_Some (contexts m !! p)) -> handle_event ev m = Ok m' ->
  evolves m m'.
Proof.
  intros Hg Hev E. pose proof (go_inv _ Hg) as Hi. destruct ev as [events [|p]].
  - injection E as <-. by apply calm_evolves, calm_pipe.
  - destruct (Hev p eq_refl) as [x Hp].
    destruct (decide ((has (fc_events x) READ && reported events READ = false /\
       has (fc_events x) WRITE && reported events WRITE = false) \/
      ((reported events READ = true -> has (fc_events x) READ = true) /\
       (reported events WRITE = true -> has (fc_events x) WRITE = true)))) as [Hh|Hh].
    + destruct (event_triggers p x events m Hi Hp Hh) as (m1 & E1 & Hw).
      rewrite E in E1. injection E1 as <-. by eapply triggers_evolves.
    + destruct (handle_event_aborts p x events m Hi Hp Hh). congruence.
Qed.

Lemma io_schedule_contexts fc thr m : contexts (io_schedule fc thr m) = contexts m.
Proof. by destruct (io_schedule_frame fc thr m) as [n ->]. Qed.

Lemma triggerEvent_known e p m m' q : triggerEvent e p m = Ok m' ->
  is_Some (contexts m !! q) -> is_Some (contexts m' !! q).
Proof.
  unfold triggerEvent. intros Ht Hq. res_inv. destruct (ec_scheduler _); res_inv.
  destruct (ec_cb _); simplify_eq/=; rewrite io_schedule_contexts, lookup_insert_is_Some'; by right.
Qed.

Lemma trigger_if_known b e p m m' q : trigger_if b e p m = Ok m' ->
  is_Some (contexts m !! q) -> is_Some (contexts m' !! q).
Proof.
  unfold trigger_if. destruct b; [|by intros [= <-]].
  destruct (triggerEvent e p m) as [m1|] eqn:E; res_simpl; [|done]. intros [= <-].
  by apply (triggerEvent_known _ _ _ _ q E).
Qed.

Lemma handle_event_known ev m m' q : handle_event ev m = Ok m' ->
  is_Some (contexts m !! q) -> is_Some (contexts m' !! q).
Proof.
  unfold handle_event. destruct (ev_data ev) as [|p]; [by intros [= <-]|].
  destruct (get_ctx p m) as [x|]; res_simpl; [|done]. cbv zeta.
  destruct (_ =? NONE); [by intros [= <-]|].
  destruct (epoll_ctl _ _ _ _) as [ok k]. destruct ok; cbn [negb]; [|by intros [= <-]].
  destruct (trigger_if _ READ p _) as [m1|] eqn:E1; res_simpl; [|done]. intros E2 Hq.
  apply (trigger_if_known _ _ _ _ _ q E2), (trigger_if_known _ _ _ _ _ q E1), Hq.
Qed.

Lemma evolves_refl m : good m -> evolves m m.
Proof. intros Hg. by apply calm_evolves, calm_refl. Qed.

Lemma handle_events_evolve l : forall m m', good m ->
  (forall ev p, ev ∈ l -> ev_data ev = Context p -> is_Some (contexts m !! p)) ->
  handle_events l m = Ok m' -> evolves m m'.
Proof.
  induction l as [|ev l IH]; intros m m' Hg Hl; cbn [handle_events];
    [intros [= <-]; by apply evolves_refl|].
  destruct (handle_event ev m) as [m1|] eqn:E; res_simpl; [|done]. intros E2.
  assert (evolves m m1) as H1 by (eapply handle_event_evolves; [done| |exact E]; intros p; by apply Hl; left).
  eapply evolves_trans; [exact H1|]. apply IH; [apply H1| |exact E2].
  intros ev' p Hev Hp. eapply handle_event_known; [exact E|]. apply (Hl ev'); [by right|done].
Qed.

(** *** The queue *)

(** Alarms may become entries of the queue. *)
Lemma moves_evolve m m' : good m' -> (forall p, quiet_timer m p -> quiet_timer m' p) ->
  (forall fd e, abs m' fd e = abs m fd e) ->
  (forall f, (queued m' f + alarms m' f = queued m f + alarms m f)%nat /\ (queued m f <= queued m' f)%nat) ->
  evolves m m'.
Proof.
  intros Hg Ht Ha Hs. assert (forall f fd e, waits_at m' f fd e <-> waits_at m f fd e) as Hw
    by (intros f fd e; unfold waits_at; by rewrite Ha).
  split; [done|done|by intros f fd e ?%Hw|by intros f _|].
  intros f fd e [Hat _] Hz. destruct (Hs f). split; [lia|]. left. split; [by apply Hw|lia].
Qed.

Lemma pick_splits self st (q : list entry) : forall sk b it r b',
  pick self st sk q b = Ok (Some it, r, b') ->
  exists q1 q2, q = q1 ++ it :: q2 /\ r = sk ++ q1 ++ q2.
Proof.
  induction q as [|x q IH]; intros sk b it r b'; cbn [pick]; [done|].
  assert (forall b0, pick self st (sk ++ [x]) q b0 = Ok (Some it, r, b') ->
    exists q1 q2, x :: q = q1 ++ it :: q2 /\ r = sk ++ q1 ++ q2) as Hskip.
  { intros b0 (q1 & q2 & -> & ->)%IH. exists (x :: q1), q2. by rewrite <- app_assoc. }
  assert (forall b1, Ok (Some x, sk ++ q, b1) = Ok (Some it, r, b') ->
    exists q1 q2, x :: q = q1 ++ it :: q2 /\ r = sk ++ q1 ++ q2) as Htake
    by (intros b1 [= <- <- _]; by exists [], q).
  destruct (_ && _); [apply Hskip|].
  destruct (ft_fiber x) as [g|]; [|destruct (ft_cb x); [apply Htake|done]].
  destruct (deref _ _) as [y|]; res_simpl; [|done].
  destruct (decide (y = EXEC)); [apply Hskip|apply Htake].
Qed.

Lemma good_queue q n m : good m -> good (set_pipe n (set_sched (set_fibers q (io_sched m)) m)).
Proof.
  intros [Hi Ho Hw]. split; [by apply (inv_other _ (io_timers m) n)|exact Ho|exact Hw].
Qed.

Lemma takes_good self s it m m' : takes self s it m m' -> good m -> good m' /\
  io_timers m' = io_timers m /\ (forall fd e, abs m' fd e = abs m fd e) /\
  forall F, sum_list_with F (m_fibers (io_sched m))
    = (F it + sum_list_with F (m_fibers (io_sched m')))%nat.
Proof.
  intros (q & b & Hp & ->) Hg. split_and!; [by apply (good_queue q (tickle_pipe m))|done|done|].
  intros F. destruct (pick_splits _ _ _ _ _ _ _ _ Hp) as (q1 & q2 & -> & ->).
  simpl. rewrite !sum_list_with_app. simpl. lia.
Qed.

(** Fiber [f] leaves the queue. *)
Lemma takes_apart self s it f m m' : takes self s it m m' -> ft_fiber it = Some f -> good m ->
  apart f m m' /\ (forall fd e, waits_at m' f fd e <-> waits_at m f fd e) /\
  queued m f = S (queued m' f) /\ alarms m' f = alarms m f.
Proof.
  intros Ht Hf Hg. destruct (takes_good _ _ _ _ _ Ht Hg) as (Hg' & Et & Ea & Hsum).
  assert (forall g fd e, waits_at m' g fd e <-> waits_at m g fd e) as Hw
    by (intros; unfold waits_at; by rewrite Ea).
  assert (forall g, alarms m' g = alarms m g) as Hal.
  { intros g. unfold alarms. rewrite Et, (Hsum (enters_fiber g)).
    unfold enters_fiber at 2. rewrite Hf. lia. }
  assert (forall g, queued m g = ((if decide (f = g) then 1 else 0) + queued m' g)%nat) as Hq.
  { intros g. unfold queued. rewrite (Hsum (runs_fiber g)). unfold runs_fiber at 1. rewrite Hf.
    f_equal. repeat case_decide; congruence. }
  split_and!; [|done|by rewrite Hq, decide_True|done].
  split; [done|intros p; unfold quiet_timer; by rewrite Et|done| |done].
  intros g Hne. rewrite (Hq g). rewrite decide_False by congruence. done.
Qed.

Lemma takes_ok self s it f m m' : takes self s it m m' -> ft_fiber it = Some f -> good m ->
  (forall g, fiber_ok m g (s !! g)) ->
  good m' /\ fiber_ok m' f (Some Running) /\ (forall g, g <> f -> fiber_ok m' g (s !! g)) /\
  (forall fr, s !! f = Some (Blocked fr) -> quiet_frame m' fr).
Proof.
  intros Ht Hf Hg Hs. destruct (takes_apart _ _ _ _ _ _ Ht Hf Hg) as (Hap & Hw & Hq & Hal).
  split_and!; [apply Hap| |intros g Hne; by apply (apart_ok f m)|].
  - specialize (Hs f). unfold fiber_ok, blocked_ok, nowhere in *. rewrite Hal. setoid_rewrite Hw.
    destruct (s !! f) as [[| |fr]|]; try (destruct Hs as (? & ? & ?); split_and!; [done|lia|done]).
    destruct Hs as [_ Hs]. destruct (awaits fr) as [[fd e]|].
    + destruct Hs as [? [[_ ?]|[? ?]]]; [lia|]. split_and!; [done|lia|done].
    + destruct Hs as [? ?]. split_and!; [done|lia|lia].
  - intros fr Hfr. specialize (Hs f). rewrite Hfr in Hs. intros p Hp. by apply (ap_timers _ _ _ Hap), Hs.
Qed.

(** Running a callback from the queue. *)
Lemma takes_callback self s it m m' k : takes self s it m m' -> good m ->
  ft_fiber it = None -> ft_cb it = Some (User k) ->
  (forall f, code_wakes f (Some (User k)) = 0%nat) -> evolves m m'.
Proof.
  intros Ht Hg Hf Hc Hk. destruct (takes_good _ _ _ _ _ Ht Hg) as (Hg' & Et & Ea & Hsum).
  apply moves_evolve; [done|intros p; unfold quiet_timer; by rewrite Et|done|].
  intros f. unfold queued, alarms. rewrite Et, (Hsum (runs_fiber f)), (Hsum (enters_fiber f)).
  assert (runs_fiber f it = 0%nat) as -> by (unfold runs_fiber; by rewrite Hf).
  assert (enters_fiber f it = 0%nat) as -> by (unfold enters_fiber; rewrite Hf, Hc; apply Hk). lia.
Qed.

Lemma takes_wake self s it m m' g : takes self s it m m' -> good m ->
  ft_fiber it = None -> ft_cb it = Some (User (WakeFiber g)) ->
  evolves m (io_schedule (ToFiber (Some g)) (-1) m').
Proof.
  intros Ht Hg Hf Hc. destruct (takes_good _ _ _ _ _ Ht Hg) as (Hg' & Et & Ea & Hsum).
  destruct (io_schedule_frame (ToFiber (Some g)) (-1) m') as [n ->]. simpl.
  apply moves_evolve.
  - by apply (good_queue _ n).
  - intros p. unfold quiet_timer. simpl. by rewrite Et.
  - done.
  - intros f. unfold queued, alarms. simpl. rewrite !sum_list_with_app, Et.
    rewrite (Hsum (runs_fiber f)), (Hsum (enters_fiber f)).
    assert (runs_fiber f it = 0%nat) as -> by (unfold runs_fiber; by rewrite Hf).
    assert (enters_fiber f it = if decide (g = f) then 1%nat else 0%nat) as ->
      by (unfold enters_fiber; by rewrite Hf, Hc).
    unfold runs_fiber at 2, enters_fiber at 2, ft_new. simpl.
    repeat case_decide; simplify_eq; lia.
Qed.

Lemma schedule_loop_fibers l : forall b (x : scheduler (task V)),
  exists tk y, schedule_loop l b x = (tk, set_fibers (m_fibers x ++ (l ≫= fun fc => entry_of fc (-1))) y) /\
    y = x.
Proof.
  induction l as [|fc l IH]; intros b x; cbn [schedule_loop].
  - eexists _, _. split; [|done]. simpl. rewrite app_nil_r. by destruct x.
  - destruct (scheduleNoLock fc (-1) x) as [b' x'] eqn:E.
    assert (x' = set_fibers (m_fibers x ++ entry_of fc (-1)) x) as ->.
    { unfold scheduleNoLock in E. injection E as _ <-.
      destruct fc as [[f|]|[k|]]; simpl; rewrite ?app_nil_r; by destruct x. }
    destruct (IH (b' || b) (set_fibers (m_fibers x ++ entry_of fc (-1)) x)) as (tk & y & -> & ->).
    eexists _, _. split; [|done]. simpl. by rewrite <- app_assoc.
Qed.

Lemma io_schedule_range_frame l m :
  exists n, io_schedule_range l m
    = set_pipe n (set_sched (set_fibers (m_fibers (io_sched m) ++ (l ≫= fun fc => entry_of fc (-1))) (io_sched m)) m).
Proof.
  unfold io_schedule_range. destruct (schedule_loop_fibers l false (io_sched m)) as (tk & y & -> & ->).
  unfold IOManager.tickle. destruct tk; [|exists (tickle_pipe m); by destruct m].
  destruct (hasIdleThreads _); eexists; [done|]. instantiate (1 := tickle_pipe m). by destruct m.
Qed.

Lemma callbacks_entries f cbs :
  sum_list_with (runs_fiber f) (map task_of cbs ≫= fun fc => entry_of fc (-1)) = 0%nat /\
  sum_list_with (enters_fiber f) (map task_of cbs ≫= fun fc => entry_of fc (-1))
    = handed (wakes_fiber f) cbs.
Proof.
  induction cbs as [|cb cbs [IH1 IH2]]; [done|]. cbn [map]. rewrite bind_cons, !sum_list_with_app, IH1, IH2.
  split; [destruct cb as [[k|? [k|]]|]; done|]. unfold handed. simpl. f_equal.
  destruct cb as [[k|? [k|]]|]; try done; destruct k as [v|? ? ?|g]; try done; unfold enters_fiber; simpl;
    rewrite Nat.add_0_r; case_decide; by case_bool_decide.
Qed.

Lemma expire_evolves now probe cbs t m : good m ->
  Timer.listExpiredCb now probe [] (io_timers m) = Ok (cbs, t) ->
  evolves m (io_schedule_range (map task_of cbs) (set_timers t m)).
Proof.
  intros Hg E. pose proof (fun f => listExpiredCb_armed _ _ _ _ _ _ (go_one_shot _ Hg f) E) as Ht.
  destruct (io_schedule_range_frame (map task_of cbs) (set_timers t m)) as [n ->].
  apply moves_evolve.
  - destruct Hg as [Hi _ Hw]. split; [|intros f; apply (Ht f)|exact Hw].
    by apply (inv_other (set_fibers (m_fibers (io_sched m) ++ (map task_of cbs ≫= fun fc => entry_of fc (-1)))
      (io_sched m)) t n).
  - intros p Hp f. apply (Ht f), Hp.
  - done.
  - intros f. unfold queued, alarms. simpl. rewrite !sum_list_with_app.
    destruct (callbacks_entries f cbs) as [-> ->]. pose proof (ho_armed _ _ _ _ (Ht f)). lia.
Qed.

Lemma idle_round_evolves now now2 probe epoll_wait m b m' : good m ->
  (forall n ev p, ev ∈ epoll_wait n -> ev_data ev = Context p -> is_Some (contexts m !! p)) ->
  idle_round now now2 probe task_of epoll_wait m = Ok (b, m') -> evolves m m'.
Proof.
  intros Hg Hev. unfold idle_round, stopping_timeout.
  assert (forall n t m1, good m1 -> Timer.getNextTimer now (io_timers m1) = Ok (n, t) ->
    calm m1 (set_timers t m1)) as Hnext.
  { intros n t m1 Hg1 E. apply (calm_set_timers m1 t (tickle_pipe m1)); [done|].
    intros f. apply hands_out_heap; [by eapply getNextTimer_heap|apply Hg1]. }
  destruct (Timer.getNextTimer now (io_timers m)) as [[next t]|] eqn:En; res_simpl; [|done].
  pose proof (Hnext _ _ _ Hg En) as Hc. pose proof (ca_good _ _ Hc) as Hg1.
  set (m1 := set_timers t m) in *. destruct (_ && _ && _).
  - destruct (Timer.getNextTimer now (io_timers m1)) as [[n2 t2]|] eqn:E2; res_simpl; [|done].
    intros [= _ <-]. apply calm_evolves. eapply calm_trans; [exact Hc|]. by eapply Hnext.
  - destruct (Timer.listExpiredCb now2 probe [] (io_timers m1)) as [[cbs t2]|] eqn:E2; res_simpl; [|done].
    assert (evolves m1 (match cbs with [] => set_timers t2 m1
                        | _ => io_schedule_range (map task_of cbs) (set_timers t2 m1) end)) as H2.
    { pose proof (expire_evolves _ _ _ _ _ Hg1 E2) as Hx. destruct cbs; [|exact Hx].
      destruct m1; exact Hx. }
    assert (contexts (match cbs with [] => set_timers t2 m1
                        | _ => io_schedule_range (map task_of cbs) (set_timers t2 m1) end) = contexts m) as Hctx.
    { destruct cbs; [done|]. by destruct (io_schedule_range_frame (map task_of (o :: cbs)) (set_timers t2 m1)) as [n ->]. }
    set (m2 := match cbs with [] => _ | _ => _ end) in *.
    destruct (handle_events _ m2) as [m3|] eqn:E3; res_simpl; [|done]. intros [= _ <-].
    eapply evolves_trans; [by apply calm_evolves|]. eapply evolves_trans; [exact H2|].
    eapply handle_events_evolve; [apply H2| |exact E3]. intros ev p Hin Hp. rewrite Hctx. by eapply Hev.
Qed.

(** *** The hooked calls *)

(** The fiber becomes a waiter; it goes to sleep. *)
Record enlists f fd e m m' : Prop := Enlists {
  en_good : good m';
  en_timers : forall p, quiet_timer m p -> quiet_timer m' p;
  en_fd : 0 <= fd;
  en_event : is_event e;
  en_free : abs m fd e = None;
  en_abs : abs_set fd e (Some (ToFiber (Some f))) m m';
  en_queue : m_fibers (io_sched m') = m_fibers (io_sched m);
  en_armed : forall g, armed (wakes_fiber g) (io_timers m') = armed (wakes_fiber g) (io_timers m) }.

Record rings f m m' : Prop := Rings {
  ri_good : good m';
  ri_timers : forall p, quiet_timer m p -> quiet_timer m' p;
  ri_abs : abs_same m m';
  ri_queue : m_fibers (io_sched m') = m_fibers (io_sched m);
  ri_armed : forall g, armed (wakes_fiber g) (io_timers m')
    = (armed (wakes_fiber g) (io_timers m) + if decide (g = f) then 1 else 0)%nat }.

(** What a piece of a call does to the IO manager. *)
Definition effect f m (o : outcome A) h' : Prop :=
  exists m', iom h' = Some m' /\
    match o with
    | Returned _ => calm m m'
    | Yields fr =>
        quiet_frame m' fr /\
        match awaits fr with
        | Some (fd, e) => enlists f fd e m m'
        | None => rings f m m'
        end
    end.

Lemma effect_trans f m1 m2 o h' : calm m1 m2 -> effect f m2 o h' -> effect f m1 o h'.
Proof.
  intros Hc (m3 & Hm & He). exists m3. split; [done|]. pose proof Hc as [_ Ht Ha Hq Hr].
  destruct o as [n|fr]; [by eapply calm_trans|]. destruct He as [Hf He]. split; [done|].
  destruct (awaits fr) as [[fd e]|].
  - destruct He as [Hg Ht' Hfd Hev Hn Hs Hq' Hr']. split; [done|auto|done|done| | |congruence|congruence].
    + by rewrite <- Ha.
    + intros fd' e' ? ?. rewrite Hs by done. case_decide; [done|by apply Ha].
  - destruct He as [Hg Ht' Ha' Hq' Hr']. split; [done|auto| |congruence|].
    + intros fd e ? ?. by rewrite Ha', Ha.
    + intros g. by rewrite Hr', Hr.
Qed.

Lemma effect_returned f m (n : Z) h' : good m -> iom h' = Some m -> effect f m (Returned n) h'.
Proof. intros Hg Hm. exists m. split; [done|]. by apply calm_refl. Qed.

Lemma enlists_apart f fd e m m' : enlists f fd e m m' ->
  apart f m m' /\ (nowhere m f -> only_at m' f fd e) /\ queued m' f = queued m f /\ alarms m' f = alarms m f.
Proof.
  intros He. assert (forall g fd' e', waits_at m' g fd' e' <-> (waits_at m g fd' e' \/ (g = f /\ fd' = fd /\ e' = e))) as Hw.
  { intros g fd' e'. destruct He as [_ _ Hfd Hev Hnone Hset _ _]. unfold waits_at. split.
    - intros (? & ? & E). rewrite Hset in E by done. case_decide; naive_solver.
    - intros [(? & ? & E)|(-> & -> & ->)].
      + split_and!; try done. rewrite Hset by done. rewrite decide_False; [done|]. intros [-> ->]. congruence.
      + split_and!; try done. rewrite Hset by done. by rewrite decide_True. }
  assert (forall g, queued m' g = queued m g /\ alarms m' g = alarms m g) as Hqa
    by (intros g; unfold queued, alarms; by rewrite (en_queue _ _ _ _ _ He), (en_armed _ _ _ _ _ He)).
  split_and!; [|intros Hn|apply Hqa|apply Hqa].
  - split; [apply He|apply He| |intros g _; apply Hqa|intros g _; apply Hqa].
    intros g fd' e' Hg. rewrite Hw. tauto.
  - split; [apply Hw; by right|]. intros fd' e' [Hx|?]%Hw; [by apply Hn in Hx|tauto].
Qed.

Lemma rings_apart f m m' : rings f m m' ->
  apart f m m' /\ (nowhere m f -> nowhere m' f) /\ queued m' f = queued m f /\ alarms m' f = S (alarms m f).
Proof.
  intros [Hg Ht Ha Hq Hr].
  assert (forall g fd e, waits_at m' g fd e <-> waits_at m g fd e) as Hw.
  { intros g fd e. unfold waits_at. split; intros (? & ? & ?); split_and!; try done; by rewrite Ha in * by done. }
  assert (forall g, queued m' g = queued m g /\
    alarms m' g = (alarms m g + if decide (g = f) then 1 else 0)%nat) as Hqa
    by (intros g; unfold queued, alarms; rewrite Hq, Hr; split; [done|lia]).
  destruct (Hqa f) as [Hqf Haf]. rewrite decide_True in Haf by done. split_and!; [|intros Hn fd e ?%Hw; by eapply Hn|done|lia].
  split; [done|done|by intros|intros g _; apply Hqa|].
  intros g Hne. destruct (Hqa g) as [_ ->]. rewrite decide_False by done. lia.
Qed.

(** What an effect does to the fiber itself, and to the others. *)
Lemma effect_apart f m o h' : effect f m o h' -> fiber_ok m f (Some Running) ->
  exists m', iom h' = Some m' /\ apart f m m' /\ fiber_ok m' f (Some (status_of o)).
Proof.
  intros (m' & Hm & He) Hf. exists m'. split; [done|]. destruct o as [n|fr].
  { split; [|apply (evolves_ok m m'); [by apply calm_evolves|done]].
    split; [apply He|apply He|intros g fd e _; by apply calm_waits
      |intros g _; by apply calm_queued|intros g _; by apply calm_alarms]. }
  destruct He as [Hqf He], Hf as (Hn & Hq0 & Ha0). cbn [status_of fiber_ok]. unfold blocked_ok.
  destruct (awaits fr) as [[fd e]|].
  - destruct (enlists_apart _ _ _ _ _ He) as (Hap & Hat & Hq & Ha).
    split; [done|]. split; [done|]. split; [congruence|]. left. split; [auto|congruence].
  - destruct (rings_apart _ _ _ He) as (Hap & Hat & Hq & Ha).
    split; [done|]. split; [done|]. split; [auto|lia].
Qed.

Lemma effect_ok f m o h' s : effect f m o h' -> fiber_ok m f (Some Running) ->
  (forall g, g <> f -> fiber_ok m g (s !! g)) ->
  world_ok (Hosting h' (<[f := status_of o]> s)).
Proof.
  intros He Hf Hs. destruct (effect_apart f m o h' He Hf) as (m' & Hm & Hap & Hf').
  exists m'. split; [done|]. split; [apply Hap|]. cbn [ho_fibers]. intros g.
  destruct (decide (g = f)) as [->|Hg]; [by rewrite lookup_insert_eq|].
  rewrite lookup_insert_ne by done. apply (apart_ok f m); auto.
Qed.

Lemma sys_iom (r : sysret * Q) h : iom (sys r h).2 = iom h.
Proof. apply (sys_called r h). Qed.

Lemma hk_get_iom fd b h o h' : hk_get fd b h = Ok (o, h') -> iom h' = iom h.
Proof.
  unfold hk_get. destruct (FdManager.get fd b (fdmgr h) (kern h)) as [[[? ?] ?]|]; res_simpl; [|done].
  by intros [= _ <-].
Qed.

Lemma call_eintr_iom fuel c : forall h n h', call_eintr fuel c h = Some (n, h') -> iom h' = iom h.
Proof.
  induction fuel as [|fuel IH]; intros h n h'; cbn [call_eintr];
    pose proof (sys_iom (io_f (kern h) c) h) as Hs;
    destruct (sys (io_f (kern h) c) h) as [r h1]; simpl in Hs;
    destruct ((r =? -1) && (errno h1 =? EINTR)); try done; try (intros [= _ <-]; done).
  intros E%IH. congruence.
Qed.

(** A timer of a client or of a waiting call. *)
Lemma add_timer_calm now addr ms cb rec m : good m -> m_heap (io_timers m) !! addr = None -> client_cb cb ->
  let m' := let '(front, t) := Timer.addTimer now addr ms cb rec (io_timers m) in
            if front then onTimerInsertedAtfront (set_timers t m) else set_timers t m in
  calm m m' /\ quiet_timer m' addr.
Proof.
  intros Hg Haddr Hcb. destruct (Timer.addTimer _ _ _ _ _ _) as [front t] eqn:Ea.
  destruct (front_frame front t m) as [n ->]. cbv zeta.
  pose proof (fun f => addTimer_armed (wakes_fiber f) _ _ _ _ _ _ _ _ Haddr Ea) as Ht. split.
  - apply calm_set_timers; [done|]. intros f. destruct (Ht f) as (H1 & H2 & H3 & _). specialize (Hcb f).
    split; [lia|apply H2; [apply Hg|by left]|done].
  - intros f. destruct (Ht f) as (_ & _ & _ & H4). by apply H4.
Qed.

Lemma io_addConditionTimer_calm now addr ms tinfo fd e m :
  good m -> m_heap (io_timers m) !! addr = None ->
  let m' := io_addConditionTimer now addr ms (OnTimeout tinfo fd e) tinfo m in
  calm m m' /\ quiet_timer m' addr.
Proof.
  intros Hg Ha. unfold io_addConditionTimer, Timer.addConditionTimer.
  by apply (add_timer_calm now addr ms (Some (CbOnTimer tinfo (Some (OnTimeout tinfo fd e)))) false).
Qed.

Lemma cancel_timer_calm timer m m' : good m -> (forall p, timer = Some p -> quiet_timer m p) ->
  cancel_timer timer m = Ok m' ->
  calm m m' /\ forall q, m_heap (io_timers m) !! q = None -> m_heap (io_timers m') !! q = None.
Proof.
  intros Hg Hp. unfold cancel_timer. destruct timer as [p|]; [|by intros [= <-]].
  specialize (Hp p eq_refl). destruct (Timer.cancel p (io_timers m)) as [[b t]|] eqn:Ec; res_simpl; [|done].
  intros [= <-]. split.
  - apply (calm_set_timers m t (tickle_pipe m)); [done|]. intros f.
    eapply cancel_armed; [apply Hp|apply Hg|exact Ec].
  - intros q Hq. unfold Timer.cancel in Ec. destruct (m_heap (io_timers m) !! p) as [x|] eqn:Ex; [|done].
    cbn [deref] in Ec. res_simpl. destruct (Timer.m_cb x); [|by injection Ec as _ <-].
    destruct (set_erase _ _); res_simpl; [|done]. injection Ec as _ <-. simpl.
    rewrite lookup_insert_ne; [done|]. intros ->. congruence.
Qed.

Lemma at_fd_nonneg fd m p : at_fd fd m = Ok p -> 0 <= fd.
Proof. unfold at_fd. by destruct (Z.ltb_spec fd 0). Qed.

Lemma addEvent_effect fd e cb f m r m' : good m -> is_event e -> (forall g, code_wakes g cb = 0%nat) ->
  addEvent fd e cb true (f, EXEC) m = Ok (r, m') ->
  (forall p, quiet_timer m p -> quiet_timer m' p) /\ good m' /\
  ((r = -1 /\ calm m m') \/
   (r = 0 /\ match cb with None => enlists f fd e m m' | Some _ => evolves m m' end)).
Proof.
  intros Hg He Hcb Hadd. pose proof (go_inv _ Hg) as Hi. assert (0 <= fd) as Hfd.
  { unfold addEvent, addEvent_context in Hadd. set (m0 := if _ : bool then _ else m) in Hadd.
    destruct (at_fd fd m0) as [p|] eqn:E; [|done]. by apply at_fd_nonneg in E. }
  pose proof (addEvent_timers _ _ _ _ _ _ _ _ Hadd) as Et.
  pose proof (addEvent_ok fd e cb f m Hi Hfd He) as Hok.
  destruct (abs m fd e) eqn:Ea; [destruct Hok; congruence|].
  destruct Hok as (r' & m'' & E & Hi' & Hq & Hr). rewrite Hadd in E. injection E as <- <-.
  assert (forall p, quiet_timer m p -> quiet_timer m' p) as Hqt by (intros p; unfold quiet_timer; by rewrite Et).
  assert (good m') as Hg'.
  { split; [done|rewrite Et; apply Hg|]. intros fd' e' o g Hfd' He' E.
    destruct Hr as [[_ Hs]|[_ Hs]]; rewrite Hs in E by done; [|by eapply (go_waiters _ Hg)].
    case_decide; [|by eapply (go_waiters _ Hg)]. destruct cb as [k|]; simpl in E; simplify_eq. apply Hcb. }
  split; [done|]. split; [done|]. destruct Hr as [[-> Hs]|[-> Hs]].
  - right. split; [done|]. destruct cb as [k|]; [|split; try done; by rewrite Et].
    assert (forall g fd e, waits_at m' g fd e <-> waits_at m g fd e) as Hw.
    { intros g fd' e'. unfold waits_at. split; intros (? & ? & E); split_and!; try done.
      - rewrite Hs in E by done. by case_decide.
      - rewrite Hs by done. rewrite decide_False; [done|]. intros [-> ->]. congruence. }
    assert (forall g, queued m' g = queued m g /\ alarms m' g = alarms m g) as Hqa
      by (intros g; unfold queued, alarms; by rewrite Hq, Et).
    split; [done|done|by intros g ? ? ?%Hw|intros g _; destruct (Hqa g); lia|].
    intros g fd' e' [Hat _] Hz. destruct (Hqa g) as [-> ->]. split; [done|]. left. split; [by apply Hw|done].
  - left. split; [done|]. split; try done. by rewrite Et.
Qed.

Section Calls.
Variables (f : fid) (now : Z) (addr : loc) (epoll_errno : Z).

(** The wait of [do_io] and of [connect]: a timer unless there is no limit,
    then the event. *)
Lemma wait_effect fd e to tinfo m timer m1 : good m -> m_heap (io_timers m) !! addr = None ->
  (if to =? U64_MAX then (None, m)
   else (Some addr, io_addConditionTimer now addr to (OnTimeout tinfo fd e) tinfo m)) = (timer, m1) ->
  calm m m1 /\ forall p, timer = Some p -> quiet_timer m1 p.
Proof.
  intros Hg Ha. destruct (to =? U64_MAX); intros [= <- <-]; [by split|].
  destruct (io_addConditionTimer_calm now addr to tinfo fd e m Hg Ha) as [Hc Hq].
  split; [done|]. intros p [= <-]. exact Hq.
Qed.

Lemma do_io_wait_effect c to tinfo h m o h' : iom h = Some m -> good m ->
  m_heap (io_timers m) !! addr = None ->
  do_io_wait f now addr epoll_errno c to tinfo h = Ok (o, h') -> effect f m o h'.
Proof.
  intros Hm Hg Ha. unfold do_io_wait. rewrite Hm. cbn [deref]. res_simpl.
  destruct (if to =? U64_MAX then _ else _) as [timer m1] eqn:Ew.
  destruct (wait_effect _ _ _ _ _ _ _ Hg Ha Ew) as [Hc Hq]. pose proof (ca_good _ _ Hc) as Hg1.
  destruct (addEvent _ _ _ _ _ m1) as [[rt m2]|] eqn:Ea; res_simpl; [|done].
  destruct (addEvent_effect _ _ None _ _ _ _ Hg1 (event_of_ok c) (fun _ => eq_refl) Ea) as (Hqt & Hg2 & Hr).
  destruct Hr as [[-> He]|[-> He]].
  - change (negb (-1 =? 0)) with true. cbn iota.
    destruct (cancel_timer timer m2) as [m3|] eqn:Ec; res_simpl; [|done]. intros [= <- <-].
    apply (effect_trans f m m1); [done|]. exists m3. split; [done|]. eapply calm_trans; [done|].
    eapply cancel_timer_calm; [done| |exact Ec]. intros p Hp. by apply Hqt, Hq.
  - cbn [Z.eqb negb]. intros [= <- <-]. apply (effect_trans f m m1); [done|].
    exists m2. split; [done|]. split; [|done]. intros p Hp. by apply Hqt, Hq.
Qed.

Lemma do_io_retry_effect fuel c to tinfo h m o h' : iom h = Some m -> good m ->
  m_heap (io_timers m) !! addr = None ->
  do_io_retry f now addr epoll_errno fuel c to tinfo h = Ok (Some (o, h')) -> effect f m o h'.
Proof.
  intros Hm Hg Ha. unfold do_io_retry. destruct (call_eintr fuel c h) as [[n h1]|] eqn:Ec; [|done].
  apply call_eintr_iom in Ec. destruct ((n =? -1) && _).
  - destruct (do_io_wait _ _ _ _ _ _ _ h1) as [[o' h2]|] eqn:Ew; res_simpl; [|done].
    intros [= <- <-]. eapply do_io_wait_effect; [|done|done|exact Ew]. congruence.
  - intros [= <- <-]. apply effect_returned; [done|]. simpl. congruence.
Qed.

Lemma do_io_effect fuel c h m o h' : iom h = Some m -> good m ->
  m_heap (io_timers m) !! addr = None ->
  do_io f now addr epoll_errno fuel c h = Ok (Some (o, h')) -> effect f m o h'.
Proof.
  intros Hm Hg Ha. unfold do_io.
  assert (forall h0, iom h0 = iom h ->
    (let '(n, h1) := sys (io_f (kern h0) c) h0 in mret (Some (Returned n, h1))) = Ok (Some (o, h')) ->
    effect f m o h') as Hdirect.
  { intros h0 E. pose proof (sys_iom (io_f (kern h0) c) h0) as Hs. destruct (sys _ h0) as [n h1].
    intros [= <- <-]. apply effect_returned; [done|]. simpl in Hs. congruence. }
  destruct (negb (t_hook_enable h)); [by apply Hdirect|].
  destruct (hk_get (c_fd c) false h) as [[[p|] h1]|] eqn:Eg; res_simpl; [| |done];
    apply hk_get_iom in Eg; [|by apply Hdirect].
  destruct (ctx_at p (fdmgr h1)) as [x|]; res_simpl; [|done].
  destruct (m_isClosed x); [intros [= <- <-]; apply effect_returned; [done|simpl; congruence]|].
  destruct (negb (m_isSocket x) || m_userNonblock x); [by apply Hdirect|].
  apply do_io_retry_effect; [simpl; congruence|done|done].
Qed.

Lemma finish_io_effect c r m o h' :
  (forall o h1, r = Some (o, h1) -> effect f m o h1) ->
  finish_io c r = Ok (Some (o, h')) -> effect f m o h'.
Proof.
  intros Hr. unfold finish_io. destruct r as [[[n|fr] h1]|]; [|by intros [= <- <-]; auto|done].
  specialize (Hr _ _ eq_refl). destruct Hr as (m' & Hm' & Hs).
  assert (forall n0 h0, iom h0 = iom h1 -> effect f m (Returned n0) h0) as Hret
    by (intros n0 h0 E; exists m'; split; [congruence|done]).
  unfold after_io. destruct (c_name c); try (intros [= <- <-]; by apply Hret).
  destruct (0 <=? s32 n); res_simpl; [|intros [= <- <-]; by apply Hret].
  destruct (hk_get (s32 n) true h1) as [[? h2]|] eqn:Eg; res_simpl; [|done].
  apply hk_get_iom in Eg. intros [= <- <-]. by apply Hret.
Qed.

Lemma io_effect fuel c h m o h' : iom h = Some m -> good m ->
  m_heap (io_timers m) !! addr = None ->
  io f now addr epoll_errno fuel c h = Ok (Some (o, h')) -> effect f m o h'.
Proof.
  intros Hm Hg Ha. unfold io. destruct (do_io _ _ _ _ _ _ h) as [r|] eqn:Ed; res_simpl; [|done].
  apply finish_io_effect. intros o' h1 ->. by eapply do_io_effect.
Qed.

Lemma connect_result_iom fd h : iom (connect_result fd h).2 = iom h.
Proof.
  unfold connect_result. destruct (getsockopt_f _ _ _ _) as [[r er] k].
  pose proof (sys_iom (r, k) h) as Hs. destruct (sys (r, k) h) as [n h1].
  destruct (n =? -1); [done|]. by destruct (er =? 0).
Qed.

Lemma connect_effect fd args h m o h' : iom h = Some m -> good m ->
  m_heap (io_timers m) !! addr = None ->
  connect f now addr fd args h = Ok (o, h') -> effect f m o h'.
Proof.
  intros Hm Hg Ha. unfold connect, connect_with_timeout.
  assert (forall h0, iom h0 = iom h ->
    (let '(n, h1) := sys (connect_f (kern h0) fd args) h0 in mret (Returned n, h1)) = Ok (o, h') ->
    effect f m o h') as Hdirect.
  { intros h0 E. pose proof (sys_iom (connect_f (kern h0) fd args) h0) as Hs. destruct (sys _ h0) as [n h1].
    intros [= <- <-]. apply effect_returned; [done|]. simpl in Hs. congruence. }
  destruct (negb (t_hook_enable h)); [by apply Hdirect|].
  destruct (hk_get fd false h) as [[[p|] h1]|] eqn:Eg; res_simpl; [| |done];
    apply hk_get_iom in Eg; [|by apply Hdirect].
  destruct (ctx_at p (fdmgr h1)) as [x|]; res_simpl; [|done].
  destruct (m_isClosed x || negb (m_isSocket x)); [by apply Hdirect|].
  destruct (m_userNonblock x); [by apply Hdirect|].
  pose proof (sys_iom (connect_f (kern h1) fd args) h1) as Hs. destruct (sys _ h1) as [n h2]. simpl in Hs.
  assert (iom h2 = Some m) as Hm2 by congruence.
  destruct (n =? 0); [intros [= <- <-]; by apply effect_returned|].
  destruct (negb (n =? -1) || _); [intros [= <- <-]; by apply effect_returned|].
  rewrite Hm2. cbn [deref new_info]. res_simpl.
  destruct (if s_connct_timeout h =? U64_MAX then _ else _) as [timer m1] eqn:Ew.
  destruct (wait_effect _ _ _ _ _ _ _ Hg Ha Ew) as [Hc Hq]. pose proof (ca_good _ _ Hc) as Hg1.
  destruct (addEvent _ _ _ _ _ m1) as [[rt m2]|] eqn:Ea; res_simpl; [|done].
  destruct (addEvent_effect _ _ None _ _ _ _ Hg1 is_WRITE (fun _ => eq_refl) Ea) as (Hqt & Hg2 & Hr).
  destruct Hr as [[-> He]|[-> He]].
  - change (-1 =? 0) with false. cbn iota.
    destruct (cancel_timer timer m2) as [m3|] eqn:Ec; res_simpl; [|done].
    match goal with |- context [connect_result fd ?h0] =>
      pose proof (connect_result_iom fd h0) as Hcr; destruct (connect_result fd h0) as [n2 h4] end.
    intros [= <- <-]. apply (effect_trans f m m1); [done|]. exists m3. split; [done|].
    eapply calm_trans; [done|]. eapply cancel_timer_calm; [done| |exact Ec]. intros p0 Hp0. by apply Hqt, Hq.
  - cbn [Z.eqb]. intros [= <- <-]. apply (effect_trans f m m1); [done|].
    exists m2. split; [done|]. split; [|done]. intros p0 Hp0. by apply Hqt, Hq.
Qed.

Lemma sleep_for_effect ms args h m o h' : iom h = Some m -> good m ->
  m_heap (io_timers m) !! addr = None ->
  sleep_for f now addr ms args h = Ok (o, h') -> effect f m o h'.
Proof.
  intros Hm Hg Ha. unfold sleep_for. destruct (negb (t_hook_enable h)).
  { pose proof (sys_iom (sleep_f (kern h) args) h) as Hs. destruct (sys _ h) as [n h1].
    intros [= <- <-]. apply effect_returned; [done|]. simpl in Hs. congruence. }
  rewrite Hm. cbn [deref]. res_simpl. intros [= <- <-]. unfold io_addTimer.
  destruct (Timer.addTimer _ _ _ _ _ _) as [front t] eqn:Et.
  destruct (front_frame front t m) as [n ->].
  pose proof (fun g => addTimer_armed (wakes_fiber g) _ _ _ _ _ _ _ _ Ha Et) as Ht.
  eexists. split; [done|]. split; [done|]. cbn [awaits].
  split; [split; [by apply inv_timers, Hg| |apply Hg]| |done|done|].
  - intros g. destruct (Ht g) as (_ & H2 & _). apply H2; [apply Hg|by right].
  - intros p Hp g. destruct (Ht g) as (_ & _ & H3 & _). by apply H3.
  - intros g. destruct (Ht g) as (Hn & _). cbn [io_timers set_pipe set_timers]. rewrite Hn.
    unfold counted, wakes_fiber. f_equal. repeat case_decide; case_bool_decide; congruence.
Qed.

Lemma resume_effect fuel fr h m o h' : iom h = Some m -> good m -> quiet_frame m fr ->
  m_heap (io_timers m) !! addr = None ->
  resume_frame f now addr epoll_errno fuel fr h = Ok (Some (o, h')) -> effect f m o h'.
Proof.
  intros Hm Hg Hqf Ha. destruct fr as [c to tinfo timer|fd tinfo timer|]; unfold resume_frame.
  3: by intros [= <- <-]; apply effect_returned.
  all: rewrite Hm; cbn [deref]; res_simpl;
    destruct (cancel_timer timer m) as [m1|] eqn:Ec; res_simpl; [|done];
    destruct (cancel_timer_calm _ _ _ Hg Hqf Ec) as [Hs Hfr]; pose proof (ca_good _ _ Hs) as Hg1;
    destruct (deref _ "tinfo") as [can|]; res_simpl; [|done].
  - destruct (negb (can =? 0)); res_simpl; intros E; apply (effect_trans f m m1 _ _ Hs).
    + eapply finish_io_effect; [|exact E]. intros ? ? [= <- <-]. by apply effect_returned.
    + destruct (do_io_retry _ _ _ _ _ _ _ _ _) as [r|] eqn:Er; res_simpl; [|done].
      eapply finish_io_effect; [|exact E]. intros o1 h1 ->.
      eapply do_io_retry_effect; [| | |exact Er]; [done|done|by apply Hfr].
  - intros E. apply (effect_trans f m m1 _ _ Hs). destruct (negb (can =? 0)); res_simpl.
    + injection E as <- <-. by apply effect_returned.
    + match type of E with context [connect_result fd ?h0] =>
        pose proof (connect_result_iom fd h0) as Hc; destruct (connect_result fd h0) as [n2 h4] end.
      injection E as <- <-. by apply effect_returned.
Qed.
End Calls.

(** *** The steps *)

Lemma evolves_world m m' h' s : evolves m m' -> iom h' = Some m' ->
  (forall f, fiber_ok m f (s !! f)) -> world_ok (Hosting h' s).
Proof.
  intros He Hm Hs. exists m'. split; [done|]. split; [apply He|]. intros f. by eapply evolves_ok.
Qed.

Lemma close_world fd h n h' s : close fd h = Ok (n, h') -> world_ok (Hosting h s) ->
  world_ok (Hosting h' s).
Proof.
  intros Hc (m & Hm & Hg & Hs). cbn [ho_hooks ho_fibers] in *. unfold close in Hc.
  assert (forall h2, iom h2 = Some m -> Ok (sys (close_f (kern h2) fd) h2) = Ok (n, h') ->
    world_ok (Hosting h' s)) as Hend.
  { intros h2 Hm' [= E]. pose proof (sys_iom (close_f (kern h2) fd) h2) as Hy.
    rewrite E in Hy. simpl in Hy. eapply evolves_world; [by apply (evolves_refl m)|congruence|done]. }
  destruct (negb (t_hook_enable h)); [by apply (Hend h)|].
  destruct (hk_get fd false h) as [[o h1]|] eqn:Eg; res_simpl; [|done]. apply hk_get_iom in Eg.
  destruct o as [p|]; [|apply (Hend h1); [congruence|exact Hc]].
  rewrite Eg, Hm in Hc. destruct (cancelAll fd m) as [[r m1]|] eqn:Ec; res_simpl; [|done].
  destruct (FdManager.del fd _) as [d|]; res_simpl; [|done].
  pose proof (cancelAll_triggers _ _ _ _ (go_inv _ Hg) Ec) as Ht. pose proof (triggers_evolves _ _ _ _ Hg Ht) as He.
  injection Hc as Hc. unfold close_known in Hc.
  match type of Hc with context [sys ?r ?h2] => pose proof (sys_iom r h2) as Hy; destruct (sys r h2) as [n2 h3] end.
  cbn [snd iom set_fdmgr set_iom] in Hy. rewrite Hy in Hc. injection Hc as _ <-.
  destruct (n2 =? 0); [|by eapply evolves_world].
  eapply evolves_world; [|done|done]. eapply evolves_trans; [exact He|]. apply calm_evolves, calm_closed;
    [apply He|apply Ht|]. intros e Hev. rewrite (tr_abs _ _ _ _ Ht) by (done || apply Ht). by rewrite decide_True.
Qed.

(** [cancelEvent] with any event that does not trip an assertion. *)
Lemma cancelEvent_evolves fd e m r m' : good m -> cancelEvent fd e m = Ok (r, m') -> evolves m m'.
Proof.
  intros Hg Hc. destruct (decide (e = READ \/ e = WRITE)) as [He|Hn].
  { eapply triggers_evolves; [done|]. by eapply cancelEvent_triggers; [apply Hg|exact He|exact Hc]. }
  assert (m' = m) as ->; [|by apply evolves_refl]. unfold cancelEvent in Hc.
  destruct (find_context fd m) as [[p|]|]; res_simpl; [|by injection Hc as _ <-|done].
  destruct (get_ctx p m) as [x|] eqn:Ex; res_simpl; [|done].
  destruct (Z.land (fc_events x) e =? 0); [by injection Hc as _ <-|].
  unfold unregister in Hc. destruct (epoll_ctl _ _ _ _) as [ok k] eqn:Ek. destruct ok; cbn [negb] in Hc.
  - destruct (triggerEvent e p (set_epfd k m)) as [m1|] eqn:Et; res_simpl; [|done].
    unfold triggerEvent in Et. change (get_ctx p (set_epfd k m)) with (get_ctx p m) in Et. rewrite Ex in Et.
    res_simpl. destruct (sylar_assert _ _); res_simpl; [|done]. unfold getContext in Et.
    destruct (Z.eqb_spec e READ); [by destruct Hn; left|]. by destruct (Z.eqb_spec e WRITE); [destruct Hn; right|].
  - injection Hc as _ <-. apply ctl_fail in Ek as ->. by destruct m.
Qed.

Lemma callback_world self s it m m' k h h' : takes self s it m m' -> good m ->
  ft_fiber it = None -> ft_cb it = Some (User k) -> run_task k (set_iom m' h) = Ok h' ->
  (forall f, fiber_ok m f (s !! f)) -> world_ok (Hosting h' s).
Proof.
  intros Ht Hg Hf Hc Hr Hs. destruct k as [v|tinfo fd e|g].
  - injection Hr as <-. eapply evolves_world; [|done|done].
    by eapply takes_callback.
  - assert (evolves m m') as He by (by eapply takes_callback).
    simpl in Hr. unfold on_timeout in Hr. cbn [infos set_iom] in Hr.
    destruct (infos h !! tinfo) as [z|]; [|injection Hr as <-; by eapply evolves_world].
    destruct (negb (z =? 0)); [injection Hr as <-; by eapply evolves_world|].
    cbn [iom set_infos set_iom deref] in Hr. res_simpl.
    destruct (cancelEvent fd e m') as [[r m1]|] eqn:Ec; res_simpl; [|done]. injection Hr as <-.
    eapply evolves_world; [|done|done]. eapply evolves_trans; [exact He|].
    eapply cancelEvent_evolves; [apply He|exact Ec].
  - cbn [run_task iom set_iom deref] in Hr. res_simpl. injection Hr as <-.
    eapply evolves_world; [|done|done]. by eapply takes_wake.
Qed.

Lemma spawn_evolves f m g o : good m -> fiber_ok m f None -> fiber_ok m g o ->
  good (io_schedule (ToFiber (Some f)) (-1) m) /\
  fiber_ok (io_schedule (ToFiber (Some f)) (-1) m) g (if decide (g = f) then Some Ready else o).
Proof.
  intros Hg (Hn & Hq & Ha) Hgo. destruct (io_schedule_frame (ToFiber (Some f)) (-1) m) as [n ->].
  set (m' := set_pipe n _).
  assert (m_fibers (io_sched m') = m_fibers (io_sched m) ++ [FT (Some f) None (-1)]) as Eq
    by exact (scheduleNoLock_fibers (ToFiber (Some f)) (-1) (io_sched m)).
  assert (queued m' g = queued m g + if decide (g = f) then 1 else 0)%nat as Hq'.
  { unfold queued. rewrite Eq, sum_list_with_app. f_equal. unfold runs_fiber. simpl.
    repeat case_decide; simplify_eq; done. }
  assert (alarms m' g = alarms m g) as Ha'.
  { unfold alarms. rewrite Eq, sum_list_with_app. change (io_timers m') with (io_timers m).
    unfold enters_fiber. simpl. lia. }
  split; [by apply (good_queue _ n)|]. case_decide as Hgf.
  - subst g. split; [exact Hn|]. rewrite Ha'. lia.
  - rewrite Nat.add_0_r in Hq'. unfold fiber_ok, blocked_ok. rewrite Hq', Ha'. exact Hgo.
Qed.

Lemma step_ok w w' : step w w' -> world_ok w -> world_ok w'.
Proof.
  intros Hstep Hw. destruct Hstep as [h s f m Hm Hf|h s f it m m' self Hm Hf Ht Hit
    |h s f it m m' self fr fuel now addr ee o h' Hm Hf Ht Hit Hua Hr
    |h s f fuel now addr ee c o h' Hf Hua Hc|h s f now addr fd args o h' Hf Hua Hc
    |h s f now addr ms args o h' Hf Hua Hc|h s fd n h' Hc|h s m now now2 probe ew b m' Hm Hev Hr
    |h s m ev m' Hm Hev Hr|h s it m m' self k h' Hm Ht Hit Hk Hr|h s m now addr ms cb rec Hm Hua Hcb
    |h s m p b t Hm Hp Hc|h s m fd e v f r m' Hm He Hadd|h s h' Hm].
  7: by eapply close_world.
  all: destruct Hw as (m0 & Hm0 & Hg & Hs); cbn [ho_hooks ho_fibers] in *.
  all: try (rewrite Hm in Hm0; injection Hm0 as <-).
  all: try (pose proof (Hua m0 Hm0) as Hun).
  - pose proof (Hs f) as Hf'. rewrite Hf in Hf'. eexists. split; [done|].
    split; [by apply (spawn_evolves f m f None)|]. intros g. cbn [ho_fibers].
    destruct (spawn_evolves f m g (s !! g) Hg Hf' (Hs g)) as [_ Hgo].
    destruct (decide (g = f)) as [->|?]; [by rewrite lookup_insert_eq|by rewrite lookup_insert_ne].
  - destruct (takes_ok _ _ _ _ _ _ Ht Hit Hg Hs) as (Hg' & Hf' & Hgs & _).
    apply (effect_ok f m' (Returned 0)); [by apply effect_returned|done|done].
  - destruct (takes_ok _ _ _ _ _ _ Ht Hit Hg Hs) as (Hg' & Hf' & Hgs & Hqf).
    apply (effect_ok f m' o); [|done|done]. apply (resume_effect f now addr ee fuel fr (set_iom m' h) m'); [done|done|exact (Hqf fr Hf)| |exact Hr].
    destruct Ht as (? & ? & _ & ->). exact (Hua m Hm).
  - apply (effect_ok f m0 o); [by eapply io_effect; [..|exact Hc]|rewrite <- Hf; apply Hs|auto].
  - apply (effect_ok f m0 o); [by eapply connect_effect; [..|exact Hc]|rewrite <- Hf; apply Hs|auto].
  - apply (effect_ok f m0 o); [by eapply sleep_for_effect; [..|exact Hc]|rewrite <- Hf; apply Hs|auto].
  - eapply evolves_world; [by eapply idle_round_evolves; [..|exact Hr]|done|done].
  - eapply evolves_world; [by eapply handle_event_evolves; [..|exact Hr]|done|done].
  - by eapply callback_world.
  - destruct (add_timer_calm now addr ms cb rec m Hg (Hua m Hm) Hcb) as [Hc _].
    eapply evolves_world; [by apply calm_evolves|done|done].
  - eapply evolves_world; [apply calm_evolves, (calm_set_timers m t (tickle_pipe m)); [done|]|done|done].
    intros f. eapply cancel_armed; [apply Hp|apply Hg|exact Hc].
  - destruct (addEvent_effect fd e (Some (User (Client v))) f m r m' Hg He (fun _ => eq_refl) Hadd)
      as (_ & _ & [[_ Hc]|[_ Hc]]); eapply evolves_world; [by apply calm_evolves|done|done|exact Hc|done|done].
  - exists m0. split; [cbn; congruence|]. done.
Qed.

Lemma reachable_ok w : reachable w -> world_ok w.
Proof.
  induction 1 as [h m Hm Hi (Ha & Ht & Hq)|w w' _ IH Hs]; [|by eapply step_ok].
  exists m. split; [done|]. split.
  - split; [done| |].
    + intros f p x. by rewrite Ht.
    + intros fd e o f _ _ E. by rewrite Ha in E.
  - intros f. cbn [ho_fibers]. rewrite lookup_empty. split_and!.
    + intros fd e (_ & _ & E). by rewrite Ha in E.
    + unfold queued. by rewrite Hq.
    + unfold alarms, armed. by rewrite Hq, Ht.
Qed.

(** What the kernel reports when a descriptor is ready for [e] only. *)
Definition ready_mask (e : Z) : Z := if e =? READ then EPOLLIN else EPOLLOUT.

Lemma ready_reported e a : is_event e -> is_event a -> reported (ready_mask e) a = (a =? e).
Proof. intros [-> | ->] [-> | ->]; vm_compute; done. Qed.

Lemma waiter_context m f fd e : inv m -> waits_at m f fd e ->
  exists p x, contexts m !! p = Some x /\ fc_fd x = fd /\ handled x (ready_mask e).
Proof.
  intros Hi (Hfd & He & Ha). unfold abs in Ha.
  destruct (m_FdContexts m !! Z.to_nat fd) as [[p|]|] eqn:Ev; try done.
  destruct (inv_vector _ Hi _ _ Ev) as (q & x & [= <-] & Hp & Hx).
  exists p, x. split_and!; [done|lia|]. right.
  rewrite !ready_reported by first [done|apply is_READ|apply is_WRITE].
  rewrite Hp in Ha. cbn [mbind option_bind] in Ha. unfold waits_for in Ha.
  destruct (has (fc_events x) e) eqn:Eh; [|done].
  split; intros <-%Z.eqb_eq; done.
Qed.

(** The event of a waiting fiber wakes it. *)
Lemma ready_wakes m f fd e : inv m -> waits_at m f fd e ->
  exists p x m', contexts m !! p = Some x /\ fc_fd x = fd /\
    handle_event (EpollEvent (ready_mask e) (Context p)) m = Ok m' /\ inv m' /\
    abs_set fd e None m m' /\ io_timers m' = io_timers m /\
    m_fibers (io_sched m') = m_fibers (io_sched m) ++ entry_of (ToFiber (Some f)) (-1).
Proof.
  intros Hi Hw. destruct (waiter_context m f fd e Hi Hw) as (p & x & Hp & Hx & Hh).
  destruct (event_triggers p x (ready_mask e) m Hi Hp Hh) as (m' & E & [Hi' Hfd Ha Hq Ht]).
  rewrite Hx in *. destruct Hw as (_ & He & Hab). exists p, x, m'.
  rewrite !ready_reported in Hq by first [done|apply is_READ|apply is_WRITE].
  split_and!; try done.
  - intros fd' a ? Hae. rewrite Ha, ready_reported by done.
    destruct (Z.eqb_spec a e); repeat case_decide; naive_solver.
  - rewrite Hq. f_equal. destruct He as [-> | ->]; rewrite Hab; cbn;
      [by destruct (abs m fd WRITE)|by destruct (abs m fd READ)].
Qed.

(** A queue of one unpinned entry. *)
Lemma takes_only self s it m :
  m_fibers (io_sched m) = [it] -> ft_thread it = -1 ->
  match ft_fiber it with
  | Some f => exists x, s !! f = Some x /\ x <> Running
  | None => is_Some (ft_cb it)
  end -> takes self s it m (set_sched (set_fibers [] (io_sched m)) m).
Proof.
  intros Hq Ht Hf. exists [], true. split; [|done]. rewrite Hq. cbn [pick]. rewrite Ht.
  change (-1 =? -1) with true. cbn [negb andb].
  destruct (ft_fiber it) as [f|].
  - destruct Hf as (x & Hx & Hr). unfold fiber_state. rewrite Hx. cbn [fmap option_fmap option_map deref].
    res_simpl. rewrite decide_False by (by destruct x). done.
  - destruct Hf as [k ->]. done.
Qed.

(** A fiber with an armed alarm sleeps. *)
Lemma alarm_sleeps h s m f p x : reachable (Hosting h s) -> iom h = Some m ->
  m_heap (io_timers m) !! p = Some x -> Timer.m_cb x = Some (CbFun (WakeFiber f)) ->
  s !! f = Some (Blocked InSleep) /\ m_recurring x = false.
Proof.
  intros (m0 & Hm0 & Hg & Hs)%reachable_ok Hm Hp Hcb. cbn [ho_hooks ho_fibers] in *.
  rewrite Hm in Hm0. injection Hm0 as <-.
  assert (counted (wakes_fiber f) (Timer.m_cb x) = 1%nat) as Hc
    by (rewrite Hcb; simpl; by rewrite bool_decide_true).
  split; [|apply (go_one_shot _ Hg f p x Hp); by rewrite Hc].
  assert (alarms m f <> 0%nat) as Hal.
  { intros Hz. assert (armed (wakes_fiber f) (io_timers m) = 0%nat) as Ha by (unfold alarms in Hz; lia).
    pose proof (map_sum_zero _ _ _ _ Ha Hp) as Hzero. simpl in Hzero. rewrite Hc in Hzero. done. }
  specialize (Hs f). destruct (s !! f) as [[| |fr]|]; simpl in Hs; try (destruct Hs as (_ & _ & ?); done).
  destruct Hs as [_ Hs]. unfold blocked_ok in Hs. destruct fr; simpl in Hs; [by destruct Hs..|done].
Qed.

(** A round of [idle] when one timer is due and the kernel reports nothing. *)
Lemma idle_expires m now0 now probe p x t0 cb :
  Timer.wf (io_timers m) -> m_heap (io_timers m) !! probe = None ->
  detectClockRollover now (io_timers m) = (false, t0) ->
  pending (io_timers m) !! p = Some x -> m_recurring x = false -> m_next x < now ->
  (forall q y, pending (io_timers m) !! q = Some y -> q <> p -> now < m_next y) ->
  Timer.m_cb x = Some (CbFun cb) -> m_next x - now0 < U64_MAX ->
  exists m1, idle_round now0 now probe task_of (fun _ => []) m = Ok (false, m1) /\
    m_fibers (io_sched m1) = m_fibers (io_sched m) ++ [FT None (Some (User cb)) (-1)] /\
    pending (io_timers m1) = delete p (pending (io_timers m)).
Proof.
  intros Hw Hpr Hro Hp Hrec Hx Hq Hcb Hlt. destruct (due_first _ _ _ _ Hw Hp Hx Hq) as (ps & E & Hh).
  set (t := with_tickled false (io_timers m)).
  assert (Timer.wf t) as Hw' by (by destruct Hw; split).
  assert (exists t1, detectClockRollover now t = (false, t1)) as [t1 Hro']
    by (unfold detectClockRollover in *; simpl; injection Hro as -> _; by eexists).
  destruct (single_expiry t now probe p x t1 Hw' Hpr Hro' Hp Hrec Hx Hq) as (t2 & El & Hpe).
  unfold idle_round, stopping_timeout, Timer.getNextTimer. rewrite E. cbn [deref]. rewrite Hh. cbn [deref]. res_simpl.
  assert (((if m_next x <=? now0 then 0 else m_next x - now0) =? U64_MAX) = false) as ->
    by (apply Z.eqb_neq; unfold U64_MAX in *; destruct (m_next x <=? now0); lia). cbn [andb]. fold t.
  change (io_timers (set_timers t m)) with t. rewrite El. res_simpl. rewrite Hcb. cbn [map task_of handle_events].
  match goal with |- context [io_schedule_range ?l ?m0] =>
    destruct (io_schedule_range_frame l m0) as [n Hn]; rewrite Hn end.
  res_simpl. eexists. split; [done|]. split; [done|]. exact Hpe.
Qed.

(** What [accept] does after the real call touches neither manager nor marks. *)
Lemma finish_frame c n h o h' : finish_io c (Some (Returned n, h)) = Ok (Some (o, h')) ->
  iom h' = iom h /\ infos h' = infos h /\ exists r, o = Returned r.
Proof.
  unfold finish_io, after_io. destruct (c_name c); try (intros [= <- <-]; by eauto).
  destruct (0 <=? s32 n); [|intros [= <- <-]; by eauto]. unfold hk_get.
  destruct (FdManager.get _ _ _ _) as [[[o' d] k]|]; [|done]. intros [= <- <-]. by eauto.
Qed.

(** The resumed call when the real call has a result. *)
Lemma resumed_returns `{!KernelLaws Q A} f now addr epoll_errno fuel c to tinfo timer h m n :
  iom h = Some m -> Timer.wf (io_timers m) -> timer_alive timer m ->
  infos h !! tinfo = Some 0 -> (io_f (kern h) c).1 = Ret n ->
  exists h2 t, resume_frame f now addr epoll_errno fuel (InDoIo c to tinfo timer) h
      = finish_io c (Some (Returned n, h2)) /\ iom h2 = Some (set_timers t m) /\
    timer_gone timer (io_timers m) t /\ infos h2 = delete tinfo (infos h) /\
    on_timeout tinfo (c_fd c) (event_of (c_name c)) h2 = Ok h2 /\ kern h2 = (io_f (kern h) c).2.
Proof.
  intros Hm Hw Ha Hinfo Hret. destruct (cancel_timer_ok timer m Hw Ha) as (t & Hct & _ & Hg).
  unfold resume_frame. rewrite Hm. cbn [deref]. res_simpl. rewrite Hct. res_simpl.
  cbn [infos set_iom]. rewrite Hinfo. cbn [deref Z.eqb negb]. res_simpl. unfold do_io_retry.
  set (h1 := set_iom (set_timers t m) h).
  destruct (call_eintr_ok 0 fuel c h1) as (h2 & -> & [_ _ Hk Hio Hin _ _]);
    [lia|intros j Hj; lia|unfold interrupted, kern_after; simpl; rewrite Hret; done|].
  unfold kern_after in *. simpl in *. rewrite Hret. cbn [value].
  pose proof (io_nonneg _ _ _ Hret). destruct (Z.eqb_spec n (-1)); [lia|]. cbn [andb]. res_simpl.
  exists (drop_info tinfo h2), t. split_and!; [done|done|done|by simpl; rewrite Hin| |done].
  apply on_timeout_dropped. cbn. apply lookup_delete_eq.
Qed.

(** ** Properties *)

(** C3.  No wake-up is lost and none is doubled.  Whatever the calls, sleeps,
    events, timeouts, timer callbacks and closes before, a fiber blocked in a
    hooked call is either the waiter of exactly the event its call waits for and
    not in the queue, or nobody's waiter and in the queue exactly once; a
    sleeping fiber has exactly one alarm - an armed timer or its callback in the
    queue - or is in the queue, once; a running fiber has none of these; no
    fiber is in the queue twice. *)
Theorem wakeups_exact h s :
  reachable (Hosting h s) ->
  exists m, iom h = Some m /\ inv m /\
    (forall f fr fd e, s !! f = Some (Blocked fr) -> awaits fr = Some (fd, e) ->
       alarms m f = 0%nat /\
       ((only_at m f fd e /\ queued m f = 0%nat) \/ (nowhere m f /\ queued m f = 1%nat))) /\
    (forall f, s !! f = Some (Blocked InSleep) ->
       nowhere m f /\ (queued m f + alarms m f = 1)%nat) /\
    (forall f, s !! f = Some Running -> nowhere m f /\ queued m f = 0%nat /\ alarms m f = 0%nat) /\
    (forall f, (queued m f <= 1)%nat).
Proof.
  intros (m & Hm & Hg & Hs)%reachable_ok. cbn [ho_hooks ho_fibers] in *. exists m.
  split_and!; [done|apply Hg|..].
  - intros f fr fd e Hf Ha. specialize (Hs f). rewrite Hf in Hs. destruct Hs as [_ Hs].
    unfold blocked_ok in Hs. by rewrite Ha in Hs.
  - intros f Hf. specialize (Hs f). rewrite Hf in Hs. apply Hs.
  - intros f Hf. specialize (Hs f). by rewrite Hf in Hs.
  - intros f. specialize (Hs f). destruct (s !! f) as [[| |fr]|]; simpl in Hs; [lia|lia| |lia].
    destruct Hs as [_ Hs]. unfold blocked_ok in Hs. destruct (awaits fr) as [[fd e]|]; lia.
Qed.

(** C4.  A blocked call completes when its descriptor is ready.  Let a fiber
    wait in a hooked call, the queue be empty and the call's timer not have gone
    off.  The kernel's report of the event puts exactly this fiber into the
    queue, the scheduler takes it whichever thread looks, and the resumed call
    cancels its timer - which is pending no more -, frees the timer's mark, so
    that a callback still on its way does nothing, makes the real call again and
    returns its result; [accept] registers the new descriptor before it does.
    Nobody is left waiting for the event. *)
Theorem blocked_call_completes `{!KernelLaws Q A} h s f c to tinfo timer m
    (fuel : nat) (now : Z) (addr : loc) (epoll_errno self n : Z) :
  reachable (Hosting h s) -> s !! f = Some (Blocked (InDoIo c to tinfo timer)) ->
  iom h = Some m -> m_fibers (io_sched m) = [] -> unallocated addr h ->
  infos h !! tinfo = Some 0 -> Timer.wf (io_timers m) -> (io_f (kern h) c).1 = Ret n ->
  let event := event_of (c_name c) in
  exists p x m1 m2 h2 t,
    contexts m !! p = Some x /\ fc_fd x = c_fd c /\
    handle_event (EpollEvent (ready_mask event) (Context p)) m = Ok m1 /\
    m_fibers (io_sched m1) = entry_of (ToFiber (Some f)) (-1) /\
    takes self s (FT (Some f) None (-1)) m1 m2 /\
    let call := resume_frame f now addr epoll_errno fuel (InDoIo c to tinfo timer) (set_iom m2 h) in
    call = finish_io c (Some (Returned n, h2)) /\
    (c_name c <> Accept -> call = Ok (Some (Returned n, h2))) /\
    iom h2 = Some (set_timers t m2) /\ timer_gone timer (io_timers m) t /\
    abs_set (c_fd c) event None m (set_timers t m2) /\
    infos h2 = delete tinfo (infos h) /\ on_timeout tinfo (c_fd c) event h2 = Ok h2 /\
    kern h2 = (io_f (kern h) c).2 /\
    forall o h3, call = Ok (Some (o, h3)) ->
      iom h3 = iom h2 /\ infos h3 = infos h2 /\ (exists r, o = Returned r) /\
      reachable (Hosting h3 (<[f := Running]> s)).
Proof.
  intros Hr Hf Hm Hq Hua Hinfo Hw Hret event. destruct (reachable_ok _ Hr) as (m0 & Hm0 & [Hi _ _] & Hs).
  cbn [ho_hooks ho_fibers] in *. rewrite Hm in Hm0. injection Hm0 as <-.
  pose proof (Hs f) as Hok. rewrite Hf in Hok. destruct Hok as [Hqf Hok]. cbn in Hok.
  destruct Hok as [_ [[[Hat _] _]|[_ Hq1]]]; [|unfold queued in Hq1; by rewrite Hq in Hq1].
  destruct (ready_wakes m f _ _ Hi Hat) as (p & x & m1 & Hp & Hx & He & Hi1 & Ha1 & Ht1 & Hq1).
  rewrite Hq in Hq1. set (m2 := set_sched (set_fibers [] (io_sched m1)) m1).
  assert (takes self s (FT (Some f) None (-1)) m1 m2) as Htk
    by (apply takes_only; [exact Hq1|done|by eexists]).
  destruct (resumed_returns f now addr epoll_errno fuel c to tinfo timer (set_iom m2 h) m2 n)
    as (h2 & t & Hres & Hio & Hg & Hin & Hot & Hk); try done; [by rewrite <- Ht1 in Hw| |].
  { intros q ->. destruct (Hqf q eq_refl f) as (y & Hy & _). exists y. by rewrite <- Ht1 in Hy. }
  exists p, x, m1, m2, h2, t. split_and!; try done.
  - intros Hna. rewrite Hres. unfold finish_io, after_io. by destruct (c_name c).
  - change (io_timers m2) with (io_timers m1) in Hg. by rewrite Ht1 in Hg.
  - intros o h3 Hc. pose proof Hc as Hc'. rewrite Hres in Hc'.
    destruct (finish_frame _ _ _ _ _ Hc') as (? & ? & [r ->]). split_and!; [done|done|by exists r|].
    eapply Re_step; [eapply Re_step; [exact Hr|]|].
    + eapply St_event; [exact Hm| |exact He]. intros ? [= <-]. eauto.
    + eapply (St_resume (set_iom m1 h) s f _ m1 m2 self _ fuel now addr epoll_errno (Returned r));
        [done|exact Hf|exact Htk|done| |exact Hc].
      intros m' [= <-]. rewrite Ht1. exact (Hua m Hm).
Qed.

(** C5.  A sleeping fiber gets up: when its timer is the only one due - by at
    least a millisecond - when [epoll_wait] returns, a round of [idle], begun at
    any earlier time, puts the timer's callback into the
    queue, the callback puts the fiber there, and the resumed call returns 0.
    The timer is the fiber's own, so nobody else is woken. *)
Theorem sleeper_wakes h s f m p x (fuel : nat) (now0 now : Z) (probe addr : loc) (epoll_errno self : Z) t0 :
  reachable (Hosting h s) -> iom h = Some m -> m_fibers (io_sched m) = [] ->
  Timer.wf (io_timers m) -> m_heap (io_timers m) !! probe = None ->
  detectClockRollover now (io_timers m) = (false, t0) ->
  pending (io_timers m) !! p = Some x -> Timer.m_cb x = Some (CbFun (WakeFiber f)) ->
  m_next x < now -> m_next x - now0 < U64_MAX ->
  (forall q y, pending (io_timers m) !! q = Some y -> q <> p -> now < m_next y) ->
  exists m1 m2 h3 m3 m4,
    idle_round now0 now probe task_of (fun _ => []) m = Ok (false, m1) /\
    takes self s (FT None (Some (User (WakeFiber f))) (-1)) m1 m2 /\
    run_task (WakeFiber f) (set_iom m2 h) = Ok h3 /\ iom h3 = Some m3 /\
    m_fibers (io_sched m3) = entry_of (ToFiber (Some f)) (-1) /\
    s !! f = Some (Blocked InSleep) /\
    takes self s (FT (Some f) None (-1)) m3 m4 /\
    resume_frame f now addr epoll_errno fuel (InSleep (A:=A)) (set_iom m4 h3)
      = Ok (Some (Returned 0, set_iom m4 h3)) /\
    pending (io_timers m4) = delete p (pending (io_timers m)) /\
    reachable (Hosting (set_iom m4 h3) (<[f := Running]> s)).
Proof.
  intros Hr Hm Hq Hw Hpr Hro Hp Hcb Hx Hlt Hlate.
  pose proof Hp as [Hh _]%pending_Some. destruct (alarm_sleeps h s m f p x Hr Hm Hh Hcb) as [Hf Hrec].
  destruct (idle_expires m now0 now probe p x t0 (WakeFiber f)) as (m1 & Ei & Hq1 & Hp1); try done.
  rewrite Hq in Hq1. set (m2 := set_sched (set_fibers [] (io_sched m1)) m1).
  assert (takes self s (FT None (Some (User (WakeFiber f))) (-1)) m1 m2) as Ht1
    by (apply takes_only; [exact Hq1|done|by eexists]).
  set (m3 := io_schedule (ToFiber (Some f)) (-1) m2).
  assert (m_fibers (io_sched m3) = entry_of (ToFiber (Some f)) (-1) /\ io_timers m3 = io_timers m1) as [Hq3 Ht3]
    by (subst m3; destruct (io_schedule_frame (ToFiber (Some f)) (-1) m2) as [n' ->]; done).
  set (m4 := set_sched (set_fibers [] (io_sched m3)) m3).
  assert (takes self s (FT (Some f) None (-1)) m3 m4) as Ht4
    by (apply takes_only; [exact Hq3|done|by exists (Blocked InSleep)]).
  set (h3 := set_iom m3 (set_iom m2 h)).
  exists m1, m2, h3, m3, m4. split_and!; try done.
  { change (pending (io_timers m3) = delete p (pending (io_timers m))). by rewrite Ht3. }
  change Running with (status_of (Returned (A:=A) 0)).
  assert (reachable (Hosting h3 s)) as Hr3.
  { eapply Re_step; [eapply Re_step; [exact Hr|]|].
    - eapply St_idle; [exact Hm| |exact Ei]. intros n' ev q Hin. by apply not_elem_of_nil in Hin.
    - by eapply (St_callback (set_iom m1 h) s _ m1 m2); [done|exact Ht1|..]. }
  eapply Re_step; [exact Hr3|].
  destruct (exist_fresh (dom (m_heap (io_timers m3)))) as [addr' Hfresh].
  eapply (St_resume h3 s f _ m3 m4 self InSleep fuel now addr' epoll_errno); [done|exact Hf|exact Ht4|done| |done].
  intros m' [= <-]. by apply not_elem_of_dom.
Qed.
End Theory.

(** ** Witnesses *)

(** A kernel whose data is what its table has for descriptor -1. *)
#[export] Instance ex_data_kernel : Kernel (gmap Z Z) unit := {
  io_f k c := (match k !! (-1) with Some n => Ret (Z.abs n) | None => Fail EAGAIN end, k);
  socket_f k a := (Fail EAGAIN, k);
  connect_f k fd a := (Fail EINPROGRESS, k);
  close_f k fd := (Ret 0, delete fd k);
  ioctl_f k fd r a := (Ret 0, k);
  getsockopt_f k fd l o := (Ret 0, 0, k);
  setsockopt_f k fd l o a := (Ret 0, k);
  sleep_f k a := (Ret 0, k) }.

#[export] Instance ex_data_laws : KernelLaws (gmap Z Z) unit.
Proof.
  split; intros k c; [intros n; simpl; destruct (k !! (-1)); [|done]|intros l o n; simpl]; intros [= <-]; lia.
Qed.

Definition ex_read : io_call unit := Call Read 7 tt.

Lemma ex_idle : idle_manager ex_hiom.
Proof.
  split; [|by vm_compute].
  assert (map_Forall (fun _ x => fc_events x = 0) (contexts ex_hiom)) as Hall
    by (apply (bool_decide_unpack _); vm_compute; exact I).
  intros fd e. unfold abs. destruct (m_FdContexts ex_hiom !! Z.to_nat fd) as [[p|]|]; try done.
  destruct (contexts ex_hiom !! p) as [x|] eqn:E; [|done]. cbn [mbind option_bind].
  unfold waits_for, has. by rewrite (Hall p x E), Z.land_0_l.
Qed.

(** Fiber 1 is spawned and started. *)
Definition ex_spawned : iomanager (task unit) (gmap Z epoll_event) nat :=
  io_schedule (ToFiber (Some 1%nat)) (-1) ex_hiom.
Definition ex_started : iomanager (task unit) (gmap Z epoll_event) nat :=
  set_sched (set_fibers [] (io_sched ex_spawned)) ex_spawned.

Lemma ex_started_reachable :
  reachable (Hosting (set_iom ex_started ex_hook) (<[1%nat := Running (A:=unit)]> (<[1%nat := Ready]> ∅))).
Proof.
  eapply Re_step; [|eapply (St_start (set_iom ex_spawned ex_hook) _ 1%nat (FT (Some 1%nat) None (-1))
    ex_spawned ex_started 0); [done|vm_compute; reflexivity| |done]].
  - eapply Re_step; [|by apply (St_spawn ex_hook ∅ 1%nat ex_hiom)].
    by apply (Re_start ex_hook ex_hiom eq_refl ex_hiom_inv), ex_idle.
  - apply takes_only; [vm_compute; reflexivity|done|]. exists Ready. split; [by vm_compute|done].
Qed.

(** It reads the socket 7, which has no data; then 12 bytes arrive. *)
Definition ex_reading : ex_hooks :=
  match io 1%nat 0 9 0 0 ex_read (set_iom ex_started ex_hook) with
  | Ok (Some (_, h)) => h
  | _ => ex_hook
  end.
Definition ex_frame : frame unit := InDoIo ex_read U64_MAX 0 None.
Definition ex_arrived : ex_hooks := set_kern (<[-1 := 12]> (kern ex_reading)) ex_reading.
Definition ex_blocked (fr : frame unit) : gmap fid (status unit) :=
  <[1%nat := Blocked fr]> (<[1%nat := Running]> (<[1%nat := Ready]> ∅)).
Definition ex_iom_of (h : ex_hooks) : iomanager (task unit) (gmap Z epoll_event) nat :=
  match iom h with Some m => m | None => ex_hiom end.

Lemma ex_unallocated (addr : loc) : unallocated addr (set_iom ex_started ex_hook).
Proof. intros m [= <-]. assert (m_heap (io_timers ex_started) = ∅) as -> by (by vm_compute). done. Qed.

Lemma ex_arrived_reachable : reachable (Hosting ex_arrived (ex_blocked ex_frame)).
Proof.
  eapply Re_step; [|by apply (St_other ex_reading)].
  eapply Re_step; [exact ex_started_reachable|].
  unfold ex_blocked. change (Blocked ex_frame) with (status_of (Yields ex_frame)).
  eapply (St_io (set_iom ex_started ex_hook) _ 1%nat 0%nat 0 9 0 ex_read);
    [by vm_compute|apply ex_unallocated|vm_compute; reflexivity].
Qed.

(** Or it sleeps for two seconds. *)
Definition ex_sleeping : ex_hooks :=
  match sleep_for 1%nat 0 9 2000 tt (set_iom ex_started ex_hook) with
  | Ok (_, h) => h
  | _ => ex_hook
  end.

Lemma ex_sleeping_reachable : reachable (Hosting ex_sleeping (ex_blocked InSleep)).
Proof.
  eapply Re_step; [exact ex_started_reachable|].
  unfold ex_blocked. change (Blocked InSleep) with (status_of (Yields (InSleep (A:=unit)))).
  eapply (St_sleep (set_iom ex_started ex_hook) _ 1%nat 0 9 2000 tt);
    [by vm_compute|apply ex_unallocated|vm_compute; reflexivity].
Qed.

Lemma wakeups_exact_witness :
  exists m, iom ex_arrived = Some m /\ (queued m 1%nat <= 1)%nat /\ alarms m 1%nat = 0%nat /\
    ((only_at m 1%nat 7 READ /\ queued m 1%nat = 0%nat) \/
     (nowhere m 1%nat /\ queued m 1%nat = 1%nat)).
Proof.
  destruct (wakeups_exact ex_arrived (ex_blocked ex_frame) ex_arrived_reachable) as (m & Hm & _ & Hb & _ & _ & Hq).
  exists m. split; [exact Hm|]. split; [exact (Hq 1%nat)|].
  apply (Hb 1%nat ex_frame 7 READ); reflexivity.
Defined.

(** With a receive timeout, the timer is armed while it waits. *)
Definition ex_timed : ex_hooks :=
  match setsockopt 7 SOL_SOCKET SO_RCVTIMEO 20 0 tt (set_iom ex_started ex_hook) with
  | Ok (_, h) => h
  | _ => ex_hook
  end.
Definition ex_timed_reading : ex_hooks :=
  match io 1%nat 0 9 0 0 ex_read ex_timed with
  | Ok (Some (_, h)) => h
  | _ => ex_hook
  end.
Definition ex_timed_frame : frame unit := InDoIo ex_read 2000 0 (Some 9).
Definition ex_timed_arrived : ex_hooks := set_kern (<[-1 := 12]> (kern ex_timed_reading)) ex_timed_reading.

Lemma ex_timed_reachable : reachable (Hosting ex_timed_arrived (ex_blocked ex_timed_frame)).
Proof.
  eapply Re_step; [|by apply (St_other ex_timed_reading)].
  assert (iom ex_timed = Some ex_started) as Hm by (vm_compute; reflexivity).
  eapply (Re_step (Hosting ex_timed _)); [eapply Re_step; [exact ex_started_reachable|by apply St_other]|].
  unfold ex_blocked. change (Blocked ex_timed_frame) with (status_of (Yields ex_timed_frame)).
  eapply (St_io ex_timed _ 1%nat 0%nat 0 9 0 ex_read); [by vm_compute| |vm_compute; reflexivity].
  intros m E. rewrite Hm in E. injection E as <-. by apply (ex_unallocated 9).
Qed.

Lemma ex_timed_timers : Timer.wf (io_timers (ex_iom_of ex_timed_reading)).
Proof.
  set (t := (Timer.addTimer (F:=task unit) 0 9 2000 (Some (CbOnTimer 0%nat (Some (OnTimeout 0%nat 7 READ)))) false
    (Timer.init_manager 0))).
  assert (io_timers (ex_iom_of ex_timed_reading) = t.2) as -> by (vm_compute; reflexivity).
  destruct (addTimer_ok (Timer.init_manager 0) 0 9 2000 (Some (CbOnTimer 0%nat (Some (OnTimeout 0%nat 7 READ)))) false t.1 t.2
    (Timer.init_wf 0)) as (Hw & _); [done|unfold is_u64; vm_compute; split; done|apply surjective_pairing|exact Hw].
Qed.

Lemma blocked_call_completes_witness :
  exists m1 m2 h2 t, takes 5 (ex_blocked ex_timed_frame) (FT (Some 1%nat) None (-1)) m1 m2 /\
    resume_frame 1%nat 0 10 0 0 ex_timed_frame (set_iom m2 ex_timed_arrived) = Ok (Some (Returned 12, h2)) /\
    timer_gone (Some 9) (io_timers (ex_iom_of ex_timed_reading)) t /\ infos h2 = ∅.
Proof.
  destruct (blocked_call_completes ex_timed_arrived (ex_blocked ex_timed_frame) 1%nat ex_read 2000 0%nat (Some 9)
    (ex_iom_of ex_timed_reading) 0%nat 0 10 0 5 12 ex_timed_reachable) as
    (p & x & m1 & m2 & h2 & t & _ & _ & _ & _ & Ht & _ & Hr & _ & Hg & _ & Hi & _).
  - reflexivity.
  - vm_compute; reflexivity.
  - vm_compute; reflexivity.
  - intros m Hm. assert (m = ex_iom_of ex_timed_reading) as -> by (vm_compute in Hm |- *; congruence).
    vm_compute; reflexivity.
  - vm_compute; reflexivity.
  - exact ex_timed_timers.
  - vm_compute; reflexivity.
  - exists m1, m2, h2, t. split; [exact Ht|]. split; [apply Hr; discriminate|]. split; [exact Hg|].
    rewrite Hi. vm_compute. reflexivity.
Defined.

Lemma ex_sleeping_timers : Timer.wf (io_timers (ex_iom_of ex_sleeping)).
Proof.
  set (t := (Timer.addTimer (F:=task unit) (W:=nat) 0 9 2000 (Some (CbFun (WakeFiber 1%nat))) false
    (Timer.init_manager 0))).
  assert (io_timers (ex_iom_of ex_sleeping) = t.2) as -> by (vm_compute; reflexivity).
  destruct (addTimer_ok (Timer.init_manager 0) 0 9 2000 (Some (CbFun (WakeFiber 1%nat))) false t.1 t.2
    (Timer.init_wf 0)) as (Hw & _); [done|unfold is_u64; vm_compute; split; done|apply surjective_pairing|exact Hw].
Qed.

Lemma sleeper_wakes_witness :
  exists m1 m4 (h3 : ex_hooks), idle_round 12 2001 77 task_of (fun _ => []) (ex_iom_of ex_sleeping) = Ok (false, m1) /\
    resume_frame 1%nat 2001 9 0 0 (InSleep (A:=unit)) (set_iom m4 h3) = Ok (Some (Returned 0, set_iom m4 h3)) /\
    pending (io_timers m4) = ∅.
Proof.
  destruct (sleeper_wakes ex_sleeping (ex_blocked InSleep) 1%nat (ex_iom_of ex_sleeping) 9
    (new_timer 0 2000 (Some (CbFun (WakeFiber 1%nat))) false) 0%nat 12 2001 77 9 0 5
    (detectClockRollover 2001 (io_timers (ex_iom_of ex_sleeping))).2 ex_sleeping_reachable)
    as (m1 & m2 & h3 & m3 & m4 & H1 & _ & _ & _ & _ & _ & _ & H2 & H3 & _).
  - vm_compute; reflexivity.
  - vm_compute; reflexivity.
  - exact ex_sleeping_timers.
  - vm_compute; reflexivity.
  - vm_compute; reflexivity.
  - vm_compute; reflexivity.
  - reflexivity.
  - vm_compute; reflexivity.
  - vm_compute; reflexivity.
  - intros q y Hq Hne. exfalso. apply Hne.
    assert (pending (io_timers (ex_iom_of ex_sleeping))
      = {[9 := new_timer 0 2000 (Some (CbFun (WakeFiber 1%nat))) false]}) as E by (vm_compute; reflexivity).
    rewrite E in Hq. by apply lookup_singleton_Some in Hq as [? _].
  - exists m1, m4, h3. split; [exact H1|]. split; [exact H2|]. rewrite H3. vm_compute. reflexivity.
Defined.
