(* ===== verification/Pieces.v ===== *)
(** * The hooked calls of several threads, piece by piece

    Blocking.v takes a hooked call as one step.  Here a call is the pieces of
    hook.cc that other threads can come between: the look at the descriptor's
    context, each real call, the arming of the timer, the sections of [addEvent]
    - lookup, resize, registration -, the HOLD of [YieldToHold] and its switch,
    and after it the cancelling of the timer and the look at [timer_info].  So is a round of [idle]: the callbacks of
    expired timers are in the hands of a thread before they are in the queue,
    and again when they have been taken from it.

    [errno] and the flag of the hooks belong to the thread; a piece reads
    [errno] only after its own call. *)

From S2P Require Import Prelude StdSet Timer Fiber Scheduler IOManager FdManager Hook Alarms Blocking.

(** Where a fiber is. *)
Inductive pc (A : Type) : Type :=
| InQueue
| InUser (ret : Z)
| Enter (c : io_call A)
| Try (c : io_call A) (to : Z) (tinfo : nat)
| Arm (c : io_call A) (to : Z) (tinfo : nat)
| Return_ (c : io_call A) (n : Z)
| ConnEnter (fd : Z) (args : A)
| ConnTry (fd : Z) (args : A) (to : Z)
| ConnArm (fd to : Z) (tinfo : nat)
| ConnResult (fd : Z) (tinfo : nat)
| SleepEnter (ms : Z) (args : A)
| Register (fr : frame A)
| Resize (fr : frame A)
| RegisterAt (fr : frame A) (q : ptr)
| Unarm (fr : frame A)
| Leave (fr : frame A)
| Held (fr : frame A)
| Away (fr : frame A)
| Back (fr : frame A)
| Look (fr : frame A).
Arguments InQueue {A}.
Arguments InUser {A} ret.
Arguments Enter {A} c.
Arguments Try {A} c to tinfo.
Arguments Arm {A} c to tinfo.
Arguments Return_ {A} c n.
Arguments ConnEnter {A} fd args.
Arguments ConnTry {A} fd args to.
Arguments ConnArm {A} fd to tinfo.
Arguments ConnResult {A} fd tinfo.
Arguments SleepEnter {A} ms args.
Arguments Register {A} fr.
Arguments Resize {A} fr.
Arguments RegisterAt {A} fr q.
Arguments Unarm {A} fr.
Arguments Leave {A} fr.
Arguments Held {A} fr.
Arguments Away {A} fr.
Arguments Back {A} fr.
Arguments Look {A} fr.

Section Calls.
Context {V K Q A : Type} `{EpollLaws K} `{HQ : FdKernel Q} `{!Kernel Q A}.
Abbreviation hk := (hooks V K Q).
Abbreviation iomgr := (iomanager (task V) K nat).
Abbreviation running := (Some (Running (A:=A))).
Implicit Types (h : hk) (c : io_call A) (m : iomgr) (f g : fid) (p : pc A).

Section Piece.
(** As for the calls of Hook.v. *)
Variables (cur : fid) (now : Z) (addr : loc) (epoll_errno : Z).

(** [do_io]. *)
Definition direct c h : res (pc A * hk) :=
  let '(n, h) := sys (io_f (kern h) c) h in mret (Return_ c n, h).

Definition enter c h : res (pc A * hk) :=
  if negb (t_hook_enable h) then direct c h
  else
    '(o, h) ← hk_get (c_fd c) false h;
    match o with
    | None => direct c h
    | Some q =>
        ctx ← ctx_at q (fdmgr h);
        if m_isClosed ctx then mret (Return_ c (-1), set_errno EBADF h)
        else if negb (m_isSocket ctx) || m_userNonblock ctx then direct c h
        else
          let to := getTimeout (timeout_of (c_name c)) ctx in
          let '(tinfo, h) := new_info h in
          mret (Try c to tinfo, h)
    end.

Definition try_call c (to : Z) (tinfo : nat) h : res (pc A * hk) :=
  let '(n, h) := sys (io_f (kern h) c) h in
  mret (if (n =? -1) && (errno h =? EINTR) then (Try c to tinfo, h)
        else if (n =? -1) && (errno h =? EAGAIN) then (Arm c to tinfo, h)
        else (Return_ c n, drop_info tinfo h)).

(** The condition timer, unless there is no timeout. *)
Definition arm (fd event to : Z) (tinfo : nat) m : option loc * iomgr :=
  if to =? U64_MAX then (None, m)
  else (Some addr, io_addConditionTimer now addr to (OnTimeout tinfo fd event) tinfo m).

(** [connect_with_timeout]. *)
Definition conn_direct (fd : Z) (args : A) h : res (pc A * hk) :=
  let '(n, h) := sys (connect_f (kern h) fd args) h in mret (InUser n, h).

Definition conn_enter (fd : Z) (args : A) h : res (pc A * hk) :=
  let timeout_ms := s_connct_timeout h in
  if negb (t_hook_enable h) then conn_direct fd args h
  else
    '(o, h) ← hk_get fd false h;
    match o with
    | None => conn_direct fd args h
    | Some q =>
        ctx ← ctx_at q (fdmgr h);
        if m_isClosed ctx || negb (m_isSocket ctx) then conn_direct fd args h
        else if m_userNonblock ctx then conn_direct fd args h
        else mret (ConnTry fd args timeout_ms, h)
    end.

Definition conn_try (fd : Z) (args : A) (to : Z) h : res (pc A * hk) :=
  let '(n, h) := sys (connect_f (kern h) fd args) h in
  if n =? 0 then mret (InUser 0, h)
  else if negb (n =? -1) || negb (errno h =? EINPROGRESS) then mret (InUser n, h)
  else let '(tinfo, h) := new_info h in mret (ConnArm fd to tinfo, h).

(** [if(tinfo->cancelled)] after the yield. *)
Definition look (fr : frame A) h : res (pc A * hk) :=
  match fr with
  | InDoIo c to tinfo _ =>
      cancelled ← deref (infos h !! tinfo) "tinfo";
      mret (if negb (cancelled =? 0) then (Return_ c (-1), drop_info tinfo (set_errno cancelled h))
            else (Try c to tinfo, h))
  | InConnect fd tinfo _ =>
      cancelled ← deref (infos h !! tinfo) "tinfo";
      mret (if negb (cancelled =? 0) then (InUser (-1), drop_info tinfo (set_errno cancelled h))
            else (ConnResult fd tinfo, h))
  | InSleep => mret (InUser 0, h)
  end.

(** What a change of the IO manager makes of the state. *)
Definition with_iom (k : iomgr -> res (pc A * iomgr)) h : res (pc A * hk) :=
  m ← deref (iom h) "iom"; '(p, m) ← k m; mret (p, set_iom m h).

(** [addEvent] in its locked sections: the look into the vector under the read
    lock, the resize under the write lock, the registration under the lock of
    the context.  No frame of a sleep gets here. *)
Definition register (fr : frame A) h : res (pc A * hk) :=
  match awaits fr with
  | None => mret (Register fr, h)
  | Some (fd, _) =>
      with_iom (fun m => if needs_resize fd m then mret (Resize fr, m)
                         else q ← at_fd fd m; mret (RegisterAt fr q, m)) h
  end.

Definition resize (fr : frame A) h : res (pc A * hk) :=
  match awaits fr with
  | None => mret (Resize fr, h)
  | Some (fd, _) => with_iom (fun m => '(q, m) ← addEvent_context true fd m; mret (RegisterAt fr q, m)) h
  end.

(** [errno] is looked at after a failed [do_io] only. *)
Definition refused (fr : frame A) h : hk :=
  match fr with InDoIo _ _ _ _ => set_errno epoll_errno h | _ => h end.

Definition register_at (fr : frame A) (q : ptr) h : res (pc A * hk) :=
  match awaits fr with
  | None => mret (RegisterAt fr q, h)
  | Some (fd, event) =>
      m ← deref (iom h) "iom";
      '(rt, m) ← addEvent_register fd event None true (cur, EXEC) q m;
      mret (if negb (rt =? 0) then (Unarm fr, refused fr (set_iom m h)) else (Leave fr, set_iom m h))
  end.

(** [addEvent] has failed: the timer is cancelled. *)
Definition unarm (fr : frame A) h : res (pc A * hk) :=
  match fr with
  | InDoIo c _ tinfo timer =>
      '(p, h) ← with_iom (fun m => m ← cancel_timer timer m; mret (Return_ c (-1), m)) h;
      mret (p, drop_info tinfo h)
  | InConnect fd tinfo timer => with_iom (fun m => m ← cancel_timer timer m; mret (ConnResult fd tinfo, m)) h
  | InSleep => mret (Unarm fr, h)
  end.

(** The next piece of a running fiber. *)
Definition piece p h : res (pc A * hk) :=
  match p with
  | Enter c => enter c h
  | Try c to tinfo => try_call c to tinfo h
  | Arm c to tinfo =>
      with_iom (fun m => let '(timer, m) := arm (c_fd c) (event_of (c_name c)) to tinfo m in
                         mret (Register (InDoIo c to tinfo timer), m)) h
  | Return_ c n =>
      '(o, h) ← after_io c n h;
      mret (match o with Returned n => InUser n | Yields fr => Leave fr end, h)
  | ConnEnter fd args => conn_enter fd args h
  | ConnTry fd args to => conn_try fd args to h
  | ConnArm fd to tinfo =>
      with_iom (fun m => let '(timer, m) := arm fd WRITE to tinfo m in
                         mret (Register (InConnect fd tinfo timer), m)) h
  | ConnResult fd tinfo =>
      let '(n, h) := connect_result fd h in mret (InUser n, drop_info tinfo h)
  | SleepEnter ms args =>
      '(o, h) ← sleep_for cur now addr ms args h;
      mret (match o with Returned n => InUser n | Yields fr => Leave fr end, h)
  | Register fr => register fr h
  | Resize fr => resize fr h
  | RegisterAt fr q => register_at fr q h
  | Unarm fr => unarm fr h
  | Leave fr => mret (Held fr, h)
  | Held fr => mret (Away fr, h)
  | Back fr =>
      match fr with
      | InSleep => mret (Look InSleep, h)
      | _ => with_iom (fun m => m ← cancel_timer (frame_timer fr) m; mret (Look fr, m)) h
      end
  | Look fr => look fr h
  | InQueue | InUser _ | Away _ => mret (p, h)
  end.

(** ** Pieces in a row are the call *)

Fixpoint pieces (k : nat) p h : res (pc A * hk) :=
  match k with
  | O => mret (p, h)
  | S k => '(p, h) ← piece p h; pieces k p h
  end.

Definition leads p h p' h' : Prop := exists k, pieces k p h = Ok (p', h').

(** Where a call is after what Hook.v takes as one step. *)
Definition stop_of (o : outcome A) : pc A :=
  match o with Returned n => InUser n | Yields fr => Leave fr end.

Lemma leads_refl p h : leads p h p h.
Proof. by exists 0%nat. Qed.

Lemma leads_step p h p1 h1 p' h' : piece p h = Ok (p1, h1) -> leads p1 h1 p' h' -> leads p h p' h'.
Proof. intros E [k Hk]. exists (S k). simpl. rewrite E. res_simpl. exact Hk. Qed.

Lemma leads_trans p h p1 h1 p' h' : leads p h p1 h1 -> leads p1 h1 p' h' -> leads p h p' h'.
Proof.
  intros [k Hk] H1. revert p h Hk. induction k as [|k IH]; intros p h Hk; simpl in Hk; [by injection Hk as -> ->|].
  destruct (piece p h) as [[p2 h2]|] eqn:E; res_simpl; [|done]. eapply leads_step; [exact E|]. by apply IH.
Qed.

(** One piece, which is [E] to compute. *)
Ltac one := eapply leads_step; [unfold piece, with_iom|].

(** The sections of [addEvent] in a row. *)
Lemma register_leads fr fd e h m rt m1 p' h' :
  awaits fr = Some (fd, e) -> iom h = Some m -> addEvent fd e None true (cur, EXEC) m = Ok (rt, m1) ->
  leads (if negb (rt =? 0) then Unarm fr else Leave fr)
    (if negb (rt =? 0) then refused fr (set_iom m1 h) else set_iom m1 h) p' h' ->
  leads (Register fr) h p' h'.
Proof.
  intros Haw Hm Hadd Hl. unfold addEvent in Hadd.
  destruct (addEvent_context _ fd m) as [[q m0]|] eqn:Ec; res_simpl; [|done].
  assert (leads (RegisterAt fr q) (set_iom m0 h) p' h') as Hat.
  { eapply leads_step; [|exact Hl]. cbn [piece]. unfold register_at. rewrite Haw. cbn [iom set_iom deref]. res_simpl.
    rewrite Hadd. res_simpl. by destruct (negb (rt =? 0)). }
  destruct (needs_resize fd m) eqn:En.
  - eapply leads_step; [cbn [piece]; unfold register, with_iom; rewrite Haw, Hm; cbn [deref]; res_simpl;
      rewrite En; res_simpl; reflexivity|].
    eapply leads_step; [|exact Hat]. cbn [piece]. unfold resize, with_iom. rewrite Haw.
    cbn [iom set_iom deref]. res_simpl. by rewrite Ec.
  - unfold addEvent_context in Ec. destruct (at_fd fd m) as [q'|] eqn:Ea; res_simpl; [|done]. injection Ec as -> ->.
    eapply leads_step; [|exact Hat]. cbn [piece]. unfold register, with_iom. rewrite Haw, Hm. cbn [deref]. res_simpl.
    rewrite En, Ea. by res_simpl.
Qed.

Definition waiting_of c (o : outcome A) : pc A :=
  match o with Returned n => Return_ c n | Yields fr => Leave fr end.

Lemma do_io_wait_leads c to tinfo h o h' :
  do_io_wait cur now addr epoll_errno c to tinfo h = Ok (o, h') ->
  leads (Arm c to tinfo) h (waiting_of c o) h'.
Proof.
  unfold do_io_wait. destruct (iom h) as [m|] eqn:Em; cbn [deref]; res_simpl; [|done].
  fold (arm (c_fd c) (event_of (c_name c)) to tinfo m).
  destruct (arm (c_fd c) (event_of (c_name c)) to tinfo m) as [timer m1] eqn:Ew.
  destruct (addEvent _ _ _ _ _ m1) as [[rt m2]|] eqn:Ea; res_simpl; [|done]. intros E.
  one; [rewrite Em; cbn [deref]; res_simpl; by rewrite Ew|].
  destruct (rt =? 0) eqn:Er; cbn [negb] in E.
  - injection E as <- <-. eapply register_leads; [done|done|exact Ea|]. rewrite Er. apply leads_refl.
  - destruct (cancel_timer timer m2) as [m3|] eqn:Ec; res_simpl; [|done]. injection E as <- <-.
    eapply register_leads; [done|done|exact Ea|]. rewrite Er. cbn [negb].
    one; [|apply leads_refl]. unfold unarm, with_iom. cbn [iom refused set_iom set_errno deref]. res_simpl.
    rewrite Ec. by res_simpl.
Qed.

Lemma do_io_retry_leads fuel c to tinfo : forall h o h',
  do_io_retry cur now addr epoll_errno fuel c to tinfo h = Ok (Some (o, h')) ->
  leads (Try c to tinfo) h (waiting_of c o) h'.
Proof.
  unfold do_io_retry. induction fuel as [|fuel IH]; intros h o h'; cbn [call_eintr];
    destruct (sys (io_f (kern h) c) h) as [n h1] eqn:Es; destruct ((n =? -1) && (errno h1 =? EINTR)) eqn:Ei.
  1: done.
  2: { intros E. eapply leads_step; [unfold piece, try_call; rewrite Es, Ei; reflexivity|]. by apply IH. }
  all: destruct ((n =? -1) && (errno h1 =? EAGAIN)) eqn:Eg.
  1, 3: destruct (do_io_wait _ _ _ _ _ _ _ h1) as [[o1 h2]|] eqn:Ew; res_simpl; [|done]; intros [= <- <-];
    eapply leads_step; [unfold piece, try_call; rewrite Es, Ei, Eg; reflexivity|]; by apply do_io_wait_leads.
  all: intros [= <- <-]; eapply leads_step; [unfold piece, try_call; rewrite Es, Ei, Eg; reflexivity|];
    apply leads_refl.
Qed.

Lemma finish_leads c (o : outcome A) h1 r h' :
  finish_io c (Some (o, h1)) = Ok (Some (r, h')) -> leads (waiting_of c o) h1 (stop_of r) h'.
Proof.
  destruct o as [n|fr]; simpl; [|intros [= <- <-]; apply leads_refl].
  destruct (after_io c n h1) as [[o h2]|] eqn:Ea; res_simpl; [|done]. intros [= <- <-].
  eapply leads_step; [unfold piece; rewrite Ea; reflexivity|]. apply leads_refl.
Qed.

Lemma io_leads fuel c h o h' :
  io cur now addr epoll_errno fuel c h = Ok (Some (o, h')) -> leads (Enter c) h (stop_of o) h'.
Proof.
  unfold io. destruct (do_io _ _ _ _ fuel c h) as [[[o1 h1]|]|] eqn:Ed; res_simpl; [|done..].
  intros Hf. eapply leads_trans; [|by apply finish_leads]. clear Hf. revert Ed. unfold do_io.
  assert (forall h0, (let '(n, h2) := sys (io_f (kern h0) c) h0 in mret (Some (Returned n, h2))) = Ok (Some (o1, h1)) ->
    direct c h0 = Ok (waiting_of c o1, h1)) as Hdirect.
  { intros h0. unfold direct. destruct (sys _ h0) as [n h2]. by intros [= <- <-]. }
  destruct (t_hook_enable h) eqn:Ee; cbn [negb];
    [|intros Ed; eapply leads_step; [unfold piece, enter; rewrite Ee; by apply Hdirect|apply leads_refl]].
  destruct (hk_get (c_fd c) false h) as [[[q|] h2]|] eqn:Eg; res_simpl; [| |done].
  2: intros Ed; eapply leads_step; [unfold piece, enter; rewrite Ee, Eg; res_simpl; by apply Hdirect|apply leads_refl].
  destruct (ctx_at q (fdmgr h2)) as [x|] eqn:Ex; res_simpl; [|done].
  destruct (m_isClosed x) eqn:Ec.
  { intros [= <- <-]. eapply leads_step; [|apply leads_refl]. unfold piece, enter.
    rewrite Ee, Eg. res_simpl. rewrite Ex. res_simpl. by rewrite Ec. }
  destruct (negb (m_isSocket x) || m_userNonblock x) eqn:Ed0; intros Ed.
  - eapply leads_step; [|apply leads_refl]. unfold piece, enter. rewrite Ee, Eg. res_simpl. rewrite Ex. res_simpl.
    rewrite Ec, Ed0. by apply Hdirect.
  - destruct (new_info h2) as [tinfo h3] eqn:En. eapply leads_step; [|by eapply do_io_retry_leads].
    unfold piece, enter. rewrite Ee, Eg. res_simpl. rewrite Ex. res_simpl. by rewrite Ec, Ed0, En.
Qed.

Lemma resume_leads fuel fr h o h' :
  resume_frame cur now addr epoll_errno fuel fr h = Ok (Some (o, h')) -> leads (Back fr) h (stop_of o) h'.
Proof.
  destruct fr as [c to tinfo timer|fd tinfo timer|]; unfold resume_frame.
  3: { intros [= <- <-]. eapply leads_step; [done|]. eapply leads_step; [done|]. apply leads_refl. }
  all: destruct (iom h) as [m|] eqn:Em; cbn [deref]; res_simpl; [|done];
    destruct (cancel_timer timer m) as [m1|] eqn:Ec; res_simpl; [|done];
    change (infos (set_iom m1 h)) with (infos h);
    destruct (infos h !! tinfo) as [can|] eqn:Ei; cbn [deref]; res_simpl; [|done]; intros E;
    (eapply leads_step; [unfold piece, with_iom; rewrite Em; cbn [deref frame_timer]; res_simpl; rewrite Ec;
       res_simpl; reflexivity|]).
  - destruct (negb (can =? 0)) eqn:En; res_simpl.
    + eapply leads_step; [unfold piece, look; change (infos (set_iom m1 h)) with (infos h); rewrite Ei;
        cbn [deref]; res_simpl; rewrite En; reflexivity|]. by eapply (finish_leads c (Returned (-1))).
    + destruct (do_io_retry _ _ _ _ fuel c to tinfo _) as [[[o1 h1]|]|] eqn:Er; res_simpl; [|done..].
      eapply leads_step; [unfold piece, look; change (infos (set_iom m1 h)) with (infos h); rewrite Ei;
        cbn [deref]; res_simpl; rewrite En; reflexivity|].
      eapply leads_trans; [by eapply do_io_retry_leads|by apply finish_leads].
  - destruct (negb (can =? 0)) eqn:En.
    + injection E as <- <-. eapply leads_step; [unfold piece, look; change (infos (set_iom m1 h)) with (infos h);
        rewrite Ei; cbn [deref]; res_simpl; rewrite En; reflexivity|]. apply leads_refl.
    + eapply leads_step; [unfold piece, look; change (infos (set_iom m1 h)) with (infos h); rewrite Ei;
        cbn [deref]; res_simpl; rewrite En; reflexivity|].
      eapply leads_step; [|apply leads_refl]. unfold piece.
      destruct (connect_result fd (set_iom m1 h)) as [n h2]. by injection E as <- <-.
Qed.

Lemma connect_leads fd args h o h' :
  connect cur now addr fd args h = Ok (o, h') -> leads (ConnEnter fd args) h (stop_of o) h'.
Proof.
  unfold connect, connect_with_timeout.
  assert (forall h0, (let '(n, h2) := sys (connect_f (kern h0) fd args) h0 in mret (Returned n, h2)) = Ok (o, h') ->
    conn_direct fd args h0 = Ok (stop_of o, h')) as Hdirect.
  { intros h0. unfold conn_direct. destruct (sys _ h0) as [n h2]. by intros [= <- <-]. }
  destruct (t_hook_enable h) eqn:Ee; cbn [negb];
    [|intros Ed; eapply leads_step; [unfold piece, conn_enter; rewrite Ee; by apply Hdirect|apply leads_refl]].
  destruct (hk_get fd false h) as [[[q|] h2]|] eqn:Eg; res_simpl; [| |done].
  2: intros Ed; eapply leads_step; [unfold piece, conn_enter; rewrite Ee, Eg; res_simpl; by apply Hdirect|apply leads_refl].
  destruct (ctx_at q (fdmgr h2)) as [x|] eqn:Ex; res_simpl; [|done].
  destruct (m_isClosed x || negb (m_isSocket x)) eqn:Ec; [|destruct (m_userNonblock x) eqn:Eu].
  1, 2: intros Ed; (eapply leads_step; [|apply leads_refl]); unfold piece, conn_enter; rewrite Ee, Eg; res_simpl;
    rewrite Ex; res_simpl; rewrite Ec, ?Eu; by apply Hdirect.
  assert (conn_enter fd args h = Ok (ConnTry fd args (s_connct_timeout h), h2)) as Henter
    by (unfold conn_enter; rewrite Ee, Eg; res_simpl; rewrite Ex; res_simpl; by rewrite Ec, Eu).
  destruct (sys (connect_f (kern h2) fd args) h2) as [n h3] eqn:Es. intros E.
  eapply (leads_step (ConnEnter fd args) h); [exact Henter|]. clear Henter Hdirect Eg Ex.
  destruct (n =? 0) eqn:E0.
  { injection E as <- <-. eapply leads_step; [|apply leads_refl]. unfold piece, conn_try. by rewrite Es, E0. }
  destruct (negb (n =? -1) || negb (errno h3 =? EINPROGRESS)) eqn:Ep.
  { injection E as <- <-. eapply leads_step; [|apply leads_refl]. unfold piece, conn_try. by rewrite Es, E0, Ep. }
  destruct (iom h3) as [m|] eqn:Em; cbn [deref] in E; res_simpl; [|done].
  destruct (new_info h3) as [tinfo h4] eqn:En.
  assert (iom h4 = Some m) as Em4 by (by injection En as _ <-).
  eapply leads_step; [unfold piece, conn_try; rewrite Es, E0, Ep, En; reflexivity|].
  fold (arm fd WRITE (s_connct_timeout h) tinfo m) in E.
  destruct (arm fd WRITE (s_connct_timeout h) tinfo m) as [timer m1] eqn:Ew.
  destruct (addEvent _ _ _ _ _ m1) as [[rt m2]|] eqn:Ea; res_simpl; [|done].
  eapply leads_step; [unfold piece, with_iom; rewrite Em4; cbn [deref]; res_simpl; rewrite Ew; reflexivity|].
  eapply register_leads; [done|done|exact Ea|].
  destruct (rt =? 0); cbn [negb]; [injection E as <- <-; apply leads_refl|].
  destruct (cancel_timer timer m2) as [m3|] eqn:Ec3; res_simpl; [|done].
  eapply leads_step; [unfold piece, unarm, with_iom; cbn [iom refused set_iom deref]; res_simpl; rewrite Ec3; reflexivity|].
  eapply leads_step; [|apply leads_refl]. unfold piece. cbn [set_iom] in *.
  change (set_iom m3 (set_iom m2 (set_iom m1 h4))) with (set_iom m3 h4).
  destruct (connect_result fd (set_iom m3 h4)) as [n2 h5]. by injection E as <- <-.
Qed.

Lemma sleep_leads ms args h o h' :
  sleep_for cur now addr ms args h = Ok (o, h') -> leads (SleepEnter ms args) h (stop_of o) h'.
Proof.
  intros E. eapply leads_step; [|apply leads_refl]. unfold piece. rewrite E. res_simpl. by destruct o.
Qed.
End Piece.

(** ** The threads together *)

(** What a thread has taken from the queue: a callback to run, and the
    [cancelEvent] of a timeout whose [timer_info] is marked. *)
Inductive job : Type := Job (k : task V) | CancelWait (fd event : Z).

Record threads : Type := Threads {
  th_hooks : hk;
  th_fibers : gmap fid (pc A);
  th_expired : list (option (Timer.callback (task V) nat));
  th_jobs : list job }.

Definition run_job (j : job) h : res (list job * hk) :=
  match j with
  | Job (Client _) => mret ([], h)
  | Job (OnTimeout winfo fd event) =>
      mret match infos h !! winfo with
           | None => ([], h)
           | Some cancelled =>
               if negb (cancelled =? 0) then ([], h)
               else ([CancelWait fd event], set_infos (<[winfo := ETIMEDOUT]> (infos h)) (next_info h) h)
           end
  | Job (WakeFiber f) =>
      m ← deref (iom h) "wake: iom"; mret ([], set_iom (io_schedule (ToFiber (Some f)) (-1) m) h)
  | CancelWait fd event =>
      m ← deref (iom h) "timeout: iom"; '(_, m) ← cancelEvent fd event m; mret ([], set_iom m h)
  end.

(** A callback without interruption. *)
Definition whole_job (k : task V) h : res hk :=
  '(js, h) ← run_job (Job k) h;
  match js with [] => mret h | j :: _ => '(_, h) ← run_job j h; mret h end.

(** What the scheduler sees of a fiber: it is in state EXEC until [YieldToHold]
    has written HOLD; from then on it looks like one that has left, though it
    still runs ([Held]) until [swapcontext] has saved its context and the loop
    that ran it has written its own HOLD. *)
Definition at_rest p : status A :=
  match p with InQueue => Ready | Held fr | Away fr => Blocked fr | _ => Running end.

(** The resize of [addEvent] does not look at the size again: it may shrink a
    vector that has grown since. *)
Definition shrinks (size : nat) m : Prop := (size < length (m_FdContexts m))%nat.
Definition resize_spares p h : Prop :=
  forall fr fd e m, p = Resize fr -> awaits fr = Some (fd, e) -> iom h = Some m ->
    ~ shrinks (Z.to_nat (fd * 3 / 2)) m.

Definition is_call p : Prop :=
  match p with Enter _ | ConnEnter _ _ | SleepEnter _ _ => True | _ => False end.

(** The turns the threads take, short of those after which the program's state
    is broken: a resize that shrinks the vector (IOManager.resize_race), the
    resumption of a [Held] fiber (SchedulerMT.early_wakeup_races; [held_taken]
    below), [listExpiredCb] on a set emptied between its two sections
    (Timer.listExpiredCb_race), and a close of a descriptor somebody began to
    wait for after its [cancelAll]. *)
Inductive turn : threads -> threads -> Prop :=
| Tu_spawn h s ex js f m : iom h = Some m -> s !! f = None ->
    turn (Threads h s ex js)
      (Threads (set_iom (io_schedule (ToFiber (Some f)) (-1) m) h) (<[f := InQueue]> s) ex js)
| Tu_start h s ex js f it m m' self : iom h = Some m -> s !! f = Some InQueue ->
    takes self (at_rest <$> s) it m m' -> ft_fiber it = Some f ->
    turn (Threads h s ex js) (Threads (set_iom m' h) (<[f := InUser 0]> s) ex js)
| Tu_resume h s ex js f it m m' self fr : iom h = Some m -> s !! f = Some (Away fr) ->
    takes self (at_rest <$> s) it m m' -> ft_fiber it = Some f ->
    turn (Threads h s ex js) (Threads (set_iom m' h) (<[f := Back fr]> s) ex js)
| Tu_call h s ex js f n p : s !! f = Some (InUser n) -> is_call p ->
    turn (Threads h s ex js) (Threads h (<[f := p]> s) ex js)
| Tu_piece h s ex js f p now addr epoll_errno p' h' : s !! f = Some p -> unallocated addr h -> resize_spares p h ->
    piece f now addr epoll_errno p h = Ok (p', h') ->
    turn (Threads h s ex js) (Threads h' (<[f := p']> s) ex js)
| Tu_next h s ex js m now n t : iom h = Some m -> Timer.getNextTimer now (io_timers m) = Ok (n, t) ->
    turn (Threads h s ex js) (Threads (set_iom (set_timers t m) h) s ex js)
| Tu_expire h s ex js m now probe cbs t : iom h = Some m ->
    listExpired_locked now probe [] (io_timers m) = Ok (cbs, t) ->
    turn (Threads h s ex js) (Threads (set_iom (set_timers t m) h) s (ex ++ cbs) js)
| Tu_schedule h s ex1 cbs ex2 js m : iom h = Some m ->
    turn (Threads h s (ex1 ++ cbs ++ ex2) js)
      (Threads (set_iom (io_schedule_range (map task_of cbs) m) h) s (ex1 ++ ex2) js)
| Tu_event h s ex js m ev m' : iom h = Some m ->
    (forall q, ev_data ev = Context q -> is_Some (contexts m !! q)) -> handle_event ev m = Ok m' ->
    turn (Threads h s ex js) (Threads (set_iom m' h) s ex js)
| Tu_take h s ex js it m m' self k : iom h = Some m -> takes self (at_rest <$> s) it m m' ->
    ft_fiber it = None -> ft_cb it = Some (User k) ->
    turn (Threads h s ex js) (Threads (set_iom m' h) s ex (js ++ [Job k]))
| Tu_job h s ex js1 j js2 js h' : run_job j h = Ok (js, h') ->
    turn (Threads h s ex (js1 ++ j :: js2)) (Threads h' s ex (js1 ++ js ++ js2))
| Tu_cancel_all h s ex js m fd r m' : iom h = Some m -> cancelAll fd m = Ok (r, m') ->
    turn (Threads h s ex js) (Threads (set_iom m' h) s ex js)
| Tu_cancel_event h s ex js m fd e r m' : iom h = Some m -> cancelEvent fd e m = Ok (r, m') ->
    turn (Threads h s ex js) (Threads (set_iom m' h) s ex js)
| Tu_resize h s ex js m size : iom h = Some m -> ~ shrinks size m ->
    turn (Threads h s ex js) (Threads (set_iom (contextResize size m) h) s ex js)
| Tu_add_event h s ex js m fd e v f q r m' : iom h = Some m -> is_event e -> at_fd fd m = Ok q ->
    addEvent_register fd e (Some (User (Client v))) true (f, EXEC) q m = Ok (r, m') ->
    turn (Threads h s ex js) (Threads (set_iom m' h) s ex js)
| Tu_closed h s ex js m fd : iom h = Some m -> 0 <= fd -> (forall e, is_event e -> abs m fd e = None) ->
    turn (Threads h s ex js) (Threads (set_iom (set_epfd (epoll_closed (m_epfd m) fd) m) h) s ex js)
| Tu_add_timer h s ex js m now addr ms cb rec : iom h = Some m -> unallocated addr h -> client_cb cb ->
    turn (Threads h s ex js) (Threads (set_iom
      (let '(front, t) := Timer.addTimer now addr ms cb rec (io_timers m) in
       if front then onTimerInsertedAtfront (set_timers t m) else set_timers t m) h) s ex js)
| Tu_cancel_timer h s ex js m q b t : iom h = Some m -> quiet_timer m q ->
    Timer.cancel q (io_timers m) = Ok (b, t) ->
    turn (Threads h s ex js) (Threads (set_iom (set_timers t m) h) s ex js)
| Tu_other h s ex js h' : iom h' = iom h -> turn (Threads h s ex js) (Threads h' s ex js).

Inductive turns : threads -> Prop :=
| Ts_start h m : iom h = Some m -> inv m -> idle_manager m -> turns (Threads h ∅ [] [])
| Ts_turn x y : turns x -> turn x y -> turns y.

(** ** The invariant *)

(** Alarms in the hands of threads. *)
Definition job_wakes f (j : job) : nat :=
  match j with Job k => code_wakes f (Some (User k)) | CancelWait _ _ => 0 end.
Definition inhand (ex : list (option (Timer.callback (task V) nat))) (js : list job) f : nat :=
  (handed (wakes_fiber f) ex + sum_list_with (job_wakes f) js)%nat.

(** The timer a fiber will still cancel. *)
Definition timer_of p : option loc :=
  match p with
  | Register fr | Resize fr | RegisterAt fr _ | Unarm fr | Back fr => frame_timer fr
  | _ => None
  end.

(** A fiber as Blocking.v sees it: it waits as soon as it is registered. *)
Definition view p : status A :=
  match p with InQueue => Ready | Leave fr | Held fr | Away fr => Blocked fr | _ => Running end.
Definition asleep p : bool :=
  match p with Leave InSleep | Held InSleep | Away InSleep => true | _ => false end.

(** [k] alarms of the fiber are in hand. *)
Definition pc_ok m (k : nat) f (o : option (pc A)) : Prop :=
  (forall p q, o = Some p -> timer_of p = Some q -> quiet_timer m q) /\
  (if from_option asleep false o then nowhere m f /\ (queued m f + alarms m f + k = 1)%nat
   else k = 0%nat /\ fiber_ok m f (view <$> o)).

Definition threads_ok (x : threads) : Prop :=
  exists m, iom (th_hooks x) = Some m /\ good m /\
    forall f, pc_ok m (inhand (th_expired x) (th_jobs x) f) f (th_fibers x !! f).

Lemma pc_apart f m m' g k o : apart f m m' -> g <> f -> pc_ok m k g o -> pc_ok m' k g o.
Proof.
  intros Ha Hne [Ht Hs]. split; [intros p q Ep Eq; by eapply (ap_timers _ _ _ Ha), Ht|].
  destruct (from_option asleep false o).
  - rewrite (ap_queued _ _ _ Ha), (ap_alarms _ _ _ Ha) by done. split; [|apply Hs].
    intros fd e Hw%(ap_waits _ _ _ Ha); [|done]. by eapply Hs.
  - split; [apply Hs|]. by eapply apart_ok, Hs.
Qed.

Lemma pc_evolves m m' g k o : evolves m m' -> pc_ok m k g o -> pc_ok m' k g o.
Proof.
  intros He [Ht Hs]. split; [intros p q Ep Eq; by eapply (ev_timers _ _ He), Ht|].
  destruct (from_option asleep false o).
  - destruct Hs as [Hn Hs]. destruct (ev_nowhere _ _ He g Hn). split; [|lia].
    intros fd e Hw%(ev_waits _ _ He). by eapply Hn.
  - split; [apply Hs|]. by eapply evolves_ok, Hs.
Qed.

(** Alarms pass between the timers, the hands and the queue. *)
Lemma pc_moves m m' g k k' o :
  (forall q, quiet_timer m q -> quiet_timer m' q) -> (forall fd e, abs m' fd e = abs m fd e) ->
  (queued m' g + alarms m' g + k' = queued m g + alarms m g + k)%nat ->
  (queued m g <= queued m' g)%nat -> pc_ok m k g o -> pc_ok m' k' g o.
Proof.
  intros Hq Ha Hsum Hle [Ht Hs]. assert (forall fd e, waits_at m' g fd e <-> waits_at m g fd e) as Hw
    by (intros; unfold waits_at; by rewrite Ha).
  split; [intros p q Ep Eq; by eapply Hq, Ht|]. destruct (from_option asleep false o) eqn:Es.
  - destruct Hs as [Hn Hs]. split; [|lia]. intros fd e ?%Hw. by eapply Hn.
  - destruct Hs as [-> Hs]. unfold fiber_ok, blocked_ok, only_at, nowhere in *.
    destruct o as [p|]; simpl in *.
    2: { destruct Hs as (? & ? & ?). setoid_rewrite Hw. split_and!; [lia|done|lia|lia]. }
    destruct (view p) as [| |fr] eqn:Ev.
    1, 2: destruct Hs as (? & ? & ?); setoid_rewrite Hw; split_and!; [lia|done|lia|lia].
    destruct Hs as [Hqf Hs]. destruct (awaits fr) as [[fd e]|] eqn:Ew.
    + destruct Hs as [Ha0 Hs]. setoid_rewrite Hw. destruct Hs as [[Hat Hq0]|[Hn Hq1]].
      * split; [lia|]. split; [intros q Eq; by apply Hq, Hqf|]. split; [lia|]. left. split; [done|lia].
      * split; [lia|]. split; [intros q Eq; by apply Hq, Hqf|]. split; [lia|]. right. split; [done|lia].
    + exfalso. destruct fr; try done. by destruct p; simplify_eq/=.
Qed.

Lemma pc_insert m m' (kf : fid -> nat) f p (s : gmap fid (pc A)) :
  apart f m m' -> pc_ok m' (kf f) f (Some p) -> (forall g, pc_ok m (kf g) g (s !! g)) ->
  forall g, pc_ok m' (kf g) g (<[f := p]> s !! g).
Proof.
  intros Ha Hf Hs g. destruct (decide (g = f)) as [->|Hne]; [by rewrite lookup_insert_eq|].
  rewrite lookup_insert_ne by done. by eapply pc_apart.
Qed.

(** A fiber that neither waits nor is woken. *)
Lemma pc_running m k f p :
  view p = Running -> pc_ok m k f (Some p) <->
    (forall q, timer_of p = Some q -> quiet_timer m q) /\ k = 0%nat /\ fiber_ok m f running.
Proof.
  intros Hv. unfold pc_ok. assert (asleep p = false) as Ha by (by destruct p).
  cbn [from_option]. rewrite Ha. simpl. rewrite Hv. split.
  - intros [Ht Hs]. split; [intros q; by apply Ht|exact Hs].
  - intros [Ht Hs]. split; [|exact Hs]. intros p' q [= <-]. apply Ht.
Qed.

Lemma pc_stop m f o : fiber_ok m f (Some (status_of o)) -> pc_ok m 0 f (Some (stop_of o)).
Proof.
  destruct o as [n|fr]; [intros Hs; by apply pc_running|]. intros [Hq Hs]. split; [by intros p q [= <-]|].
  cbn [from_option stop_of asleep]. unfold blocked_ok in Hs. destruct fr; simpl in *; try done.
  destruct Hs. split; [done|lia].
Qed.

(** ** The pieces preserve it *)

Lemma calm_apart f m m' : calm m m' -> apart f m m'.
Proof.
  intros Hc. split; [apply Hc|apply Hc|intros g fd e _; by apply calm_waits
    |intros g _; by apply calm_queued|intros g _; by apply calm_alarms].
Qed.

(** The context a fiber has looked up is the descriptor's. *)
Definition found m (p : pc A) : Prop :=
  forall fr q fd e, p = RegisterAt fr q -> awaits fr = Some (fd, e) -> at_fd fd m = Ok q.

(** The vector of the contexts only grows. *)

Definition grown m m' : Prop := forall i o, m_FdContexts m !! i = Some o -> m_FdContexts m' !! i = Some o.

Lemma grown_eq m m' : m_FdContexts m' = m_FdContexts m -> grown m m'.
Proof. intros E i o. by rewrite E. Qed.

Lemma grown_found m m' p : grown m m' -> found m p -> found m' p.
Proof.
  intros Hgr Hf fr q fd e Hp Haw. specialize (Hf fr q fd e Hp Haw). unfold at_fd in *.
  destruct (fd <? 0); [done|]. destruct (m_FdContexts m !! Z.to_nat fd) as [o|] eqn:E; [|done].
  by rewrite (Hgr _ _ E).
Qed.

Lemma grown_resize size m : inv m -> ~ shrinks size m -> grown m (contextResize size m).
Proof.
  intros Hi Hns i o Ho. unfold shrinks in Hns.
  destruct (contextResize_grow size m Hi ltac:(lia)) as (_ & _ & Hlow & _).
  rewrite Hlow; [done|by eapply lookup_lt_Some].
Qed.

(** What a piece of fiber [f] does to it and to the others. *)
Definition advances f m (p' : pc A) h' : Prop :=
  exists m', iom h' = Some m' /\ apart f m m' /\ pc_ok m' 0 f (Some p') /\ grown m m' /\ found m' p'.

Definition not_found_yet p : Prop := forall fr q, p <> RegisterAt fr q.
Lemma found_trivially m p : not_found_yet p -> found m p.
Proof. intros Hn fr q fd e ->. by destruct (Hn fr q). Qed.

Lemma advances_calm f m m' p' h' :
  calm m m' -> iom h' = Some m' -> fiber_ok m f running -> view p' = Running ->
  (forall q, timer_of p' = Some q -> quiet_timer m' q) -> grown m m' -> found m' p' -> advances f m p' h'.
Proof.
  intros Hc Hm Hf Hv Ht Hgr Hfo. exists m'. split; [done|]. split; [by apply calm_apart|]. split; [|done].
  apply pc_running; [done|]. split; [done|]. split; [done|]. eapply evolves_ok; [by apply calm_evolves|done].
Qed.

Lemma advances_same f m p' h' :
  good m -> iom h' = Some m -> fiber_ok m f running -> view p' = Running ->
  (forall q, timer_of p' = Some q -> quiet_timer m q) -> found m p' -> advances f m p' h'.
Proof. intros Hg Hm Hf Hv Ht Hfo. by eapply advances_calm; [apply calm_refl|..|apply grown_eq|]. Qed.

Lemma advances_effect f m o h' : effect f m o h' -> fiber_ok m f running ->
  (forall m', iom h' = Some m' -> grown m m') -> advances f m (stop_of o) h'.
Proof.
  intros He Hf Hgr. destruct (effect_apart f m o h' He Hf) as (m' & Hm & Ha & Hf').
  exists m'. split; [done|]. split; [done|]. split; [by apply pc_stop|]. split; [by apply Hgr|].
  apply found_trivially. by destruct o.
Qed.

Lemma awaits_event fr fd e : awaits (A:=A) fr = Some (fd, e) -> is_event e.
Proof. destruct fr; intros [= <- <-]; [apply event_of_ok|apply is_WRITE]. Qed.

Lemma addConditionTimer_vector now addr to t fd e m :
  m_FdContexts (io_addConditionTimer now addr to (OnTimeout t fd e) t m) = m_FdContexts m.
Proof.
  unfold io_addConditionTimer. destruct (Timer.addConditionTimer _ _ _ _ _ _ _) as [[|] u]; [|done].
  unfold onTimerInsertedAtfront, IOManager.tickle. by destruct (hasIdleThreads _).
Qed.

Lemma cancel_timer_vector timer m m' : cancel_timer timer m = Ok m' -> m_FdContexts m' = m_FdContexts m.
Proof.
  unfold cancel_timer. destruct timer as [l|]; [|by intros [= <-]].
  destruct (Timer.cancel l (io_timers m)) as [[b t]|]; res_simpl; [|done]. by intros [= <-].
Qed.

Lemma sleep_for_vector f now addr ms args h o h' m m' : iom h = Some m -> iom h' = Some m' ->
  sleep_for f now addr ms args h = Ok (o, h') -> m_FdContexts m' = m_FdContexts m.
Proof.
  intros Hm Hm'. unfold sleep_for. destruct (negb (t_hook_enable h)).
  - pose proof (sys_iom (sleep_f (kern h) args) h) as Hs. destruct (sys _ h) as [n h1]. intros [= <- <-].
    simpl in Hs. congruence.
  - rewrite Hm. cbn [deref]. res_simpl. intros [= <- <-]. cbn in Hm'. injection Hm' as <-. unfold io_addTimer.
    destruct (Timer.addTimer _ _ _ _ _ _) as [[|] u]; [|done].
    unfold onTimerInsertedAtfront, IOManager.tickle. by destruct (hasIdleThreads _).
Qed.

(** The vector grows: nobody notices. *)
Lemma resize_calm size m : good m -> ~ shrinks size m ->
  calm m (contextResize size m) /\ io_timers (contextResize size m) = io_timers m.
Proof.
  intros Hg Hns. unfold shrinks in Hns. pose proof (contextResize_timers size m) as Ht.
  destruct (contextResize_grow size m (go_inv _ Hg) ltac:(lia)) as (Hi & _ & _ & _ & Hsch & _).
  pose proof (contextResize_abs size m (go_inv _ Hg) ltac:(lia)) as Ha. split; [|done].
  split; [split| |done|by rewrite Hsch|by rewrite Ht].
  - done.
  - rewrite Ht. apply Hg.
  - intros fd e o g Hfd He. rewrite Ha by done. by apply Hg.
  - intros l Hl g. rewrite Ht. apply Hl.
Qed.

Section Advance.
Variables (f : fid) (now : Z) (addr : loc) (epoll_errno : Z) (m : iomgr).
Hypotheses (Hg : good m) (Hf : fiber_ok m f running).

(** A piece that leaves the IO manager alone. *)
Lemma same_advances p' h h' : iom h = Some m -> iom h' = iom h -> view p' = Running -> timer_of p' = None ->
  not_found_yet p' -> advances f m p' h'.
Proof. intros Hm Hi Hv Ht Hn. apply advances_same; [done|congruence|done|done|by rewrite Ht|by apply found_trivially]. Qed.

Lemma call_advances (r : sysret * Q) (k : Z -> hk -> pc A * hk) h p' h' :
  iom h = Some m ->
  (forall n h1, iom (k n h1).2 = iom h1 /\ view (k n h1).1 = Running /\ timer_of (k n h1).1 = None /\ not_found_yet (k n h1).1) ->
  (let '(n, h1) := sys r h in Ok (k n h1)) = Ok (p', h') -> advances f m p' h'.
Proof.
  intros Hm Hk. pose proof (sys_iom r h) as Hs. destruct (sys r h) as [n h1]. intros [= E].
  destruct (Hk n h1) as (Hi & Hv & Ht & Hn). rewrite E in Hi, Hv, Ht, Hn.
  apply (same_advances p' h); [done|simpl in *; congruence|done..].
Qed.

Lemma direct_advances c h p' h' : iom h = Some m -> direct c h = Ok (p', h') -> advances f m p' h'.
Proof. intros Hm. by apply (call_advances (io_f (kern h) c) (fun n h1 => (Return_ c n, h1))). Qed.

Lemma enter_advances c h p' h' : iom h = Some m -> enter c h = Ok (p', h') -> advances f m p' h'.
Proof.
  intros Hm. unfold enter. destruct (negb (t_hook_enable h)); [by apply direct_advances|].
  destruct (hk_get (c_fd c) false h) as [[[q|] h1]|] eqn:Eg; res_simpl; [| |done];
    apply hk_get_iom in Eg; [|apply direct_advances; congruence].
  destruct (ctx_at q (fdmgr h1)) as [x|]; res_simpl; [|done].
  destruct (m_isClosed x); [intros [= <- <-]; by apply (same_advances _ h)|].
  destruct (negb (m_isSocket x) || m_userNonblock x); [apply direct_advances; congruence|].
  intros [= <- <-]. by apply (same_advances _ h).
Qed.

Lemma try_advances c to tinfo h p' h' : iom h = Some m -> try_call c to tinfo h = Ok (p', h') ->
  advances f m p' h'.
Proof.
  intros Hm. apply (call_advances (io_f (kern h) c) (fun n h1 =>
    if (n =? -1) && (errno h1 =? EINTR) then (Try c to tinfo, h1)
    else if (n =? -1) && (errno h1 =? EAGAIN) then (Arm c to tinfo, h1)
    else (Return_ c n, drop_info tinfo h1))); [done|].
  intros n h1. destruct ((n =? -1) && (errno h1 =? EINTR)); [done|].
  by destruct ((n =? -1) && (errno h1 =? EAGAIN)).
Qed.

Lemma conn_direct_advances fd args h p' h' : iom h = Some m -> conn_direct fd args h = Ok (p', h') ->
  advances f m p' h'.
Proof. intros Hm. by apply (call_advances (connect_f (kern h) fd args) (fun n h1 => (InUser n, h1))). Qed.

Lemma conn_enter_advances fd args h p' h' : iom h = Some m -> conn_enter fd args h = Ok (p', h') ->
  advances f m p' h'.
Proof.
  intros Hm. unfold conn_enter. destruct (negb (t_hook_enable h)); [by apply conn_direct_advances|].
  destruct (hk_get fd false h) as [[[q|] h1]|] eqn:Eg; res_simpl; [| |done];
    apply hk_get_iom in Eg; [|apply conn_direct_advances; congruence].
  destruct (ctx_at q (fdmgr h1)) as [x|]; res_simpl; [|done].
  destruct (m_isClosed x || negb (m_isSocket x)); [apply conn_direct_advances; congruence|].
  destruct (m_userNonblock x); [apply conn_direct_advances; congruence|].
  intros [= <- <-]. by apply (same_advances _ h).
Qed.

Lemma conn_try_advances fd args to h p' h' : iom h = Some m -> conn_try fd args to h = Ok (p', h') ->
  advances f m p' h'.
Proof.
  intros Hm. unfold conn_try. pose proof (sys_iom (connect_f (kern h) fd args) h) as Hs.
  destruct (sys _ h) as [n h1]. simpl in Hs.
  destruct (n =? 0); [intros [= <- <-]; by apply (same_advances _ h)|].
  destruct (_ || _); intros [= <- <-]; by apply (same_advances _ h).
Qed.

(** The condition timer is armed. *)
Lemma arm_advances fd e to tinfo (k : option loc -> pc A) h p' h' :
  iom h = Some m -> m_heap (io_timers m) !! addr = None ->
  (forall timer, view (k timer) = Running /\ timer_of (k timer) = timer /\ not_found_yet (k timer)) ->
  with_iom (fun m => let '(timer, m) := arm now addr fd e to tinfo m in mret (k timer, m)) h = Ok (p', h') ->
  advances f m p' h'.
Proof.
  intros Hm Ha Hk. unfold with_iom. rewrite Hm. cbn [deref]. res_simpl.
  destruct (arm now addr fd e to tinfo m) as [timer m1] eqn:Ew. res_simpl. intros [= <- <-].
  destruct (wait_effect now addr fd e to tinfo m timer m1 Hg Ha Ew) as [Hc Hq].
  destruct (Hk timer) as (Hv & Ht & Hn). eapply advances_calm; [done|done|done|done|by rewrite Ht| |by apply found_trivially].
  apply grown_eq. unfold arm in Ew. destruct (to =? U64_MAX); injection Ew as _ <-; [done|]. apply addConditionTimer_vector.
Qed.

(** It is cancelled. *)
Lemma cancel_advances timer (q : pc A) h p' h' :
  iom h = Some m -> (forall l, timer = Some l -> quiet_timer m l) -> view q = Running -> timer_of q = None -> not_found_yet q ->
  with_iom (fun m => m ← cancel_timer timer m; mret (q, m)) h = Ok (p', h') -> advances f m p' h'.
Proof.
  intros Hm Hq Hv Ht Hn. unfold with_iom. rewrite Hm. cbn [deref]. res_simpl.
  destruct (cancel_timer timer m) as [m1|] eqn:Ec; res_simpl; [|done]. intros [= <- <-].
  destruct (cancel_timer_calm _ _ _ Hg Hq Ec) as [Hc _].
  eapply advances_calm; [done|done|done|done|by rewrite Ht| |by apply found_trivially].
  by eapply grown_eq, cancel_timer_vector.
Qed.

(** [addEvent]: the context is looked up, the vector grows, and the fiber waits,
    or [epoll_ctl] has failed. *)
Lemma register_advances fr h p' h' : iom h = Some m -> (forall l, frame_timer fr = Some l -> quiet_timer m l) ->
  register fr h = Ok (p', h') -> advances f m p' h'.
Proof.
  intros Hm Hq. unfold register, with_iom. destruct (awaits fr) as [[fd e]|] eqn:Haw.
  2: intros [= <- <-]; by apply advances_same; [..|apply found_trivially].
  rewrite Hm. cbn [deref]. res_simpl. destruct (needs_resize fd m); res_simpl.
  - intros [= <- <-]. by apply advances_same; [..|apply found_trivially].
  - destruct (at_fd fd m) as [q|] eqn:Ea; res_simpl; [|done]. intros [= <- <-].
    apply advances_same; [done..|]. intros fr' q' fd' e' [= <- <-]. congruence.
Qed.

Lemma resize_advances fr h p' h' : iom h = Some m -> (forall l, frame_timer fr = Some l -> quiet_timer m l) ->
  resize_spares (Resize fr) h -> resize fr h = Ok (p', h') -> advances f m p' h'.
Proof.
  intros Hm Hq Hsp. unfold resize, with_iom, addEvent_context. destruct (awaits fr) as [[fd e]|] eqn:Haw.
  2: intros [= <- <-]; by apply advances_same; [..|apply found_trivially].
  rewrite Hm. cbn [deref]. res_simpl. pose proof (Hsp fr fd e m eq_refl Haw Hm) as Hns.
  destruct (resize_calm (Z.to_nat (fd * 3 / 2)) m Hg Hns) as [Hc Ht].
  destruct (at_fd fd _) as [q|] eqn:Ea; res_simpl; [|done]. intros [= <- <-].
  eapply advances_calm; [exact Hc|done..| | |].
  - intros l Hl g. rewrite Ht. by apply Hq.
  - apply grown_resize; [apply Hg|done].
  - intros fr' q' fd' e' [= <- <-]. congruence.
Qed.

Lemma add_advances fr q h p' h' :
  iom h = Some m -> (forall l, frame_timer fr = Some l -> quiet_timer m l) -> found m (RegisterAt fr q) ->
  register_at f epoll_errno fr q h = Ok (p', h') -> advances f m p' h'.
Proof.
  intros Hm Hq Hat. unfold register_at. destruct (awaits fr) as [[fd e]|] eqn:Haw.
  2: intros [= <- <-]; by apply advances_same.
  rewrite Hm. cbn [deref]. res_simpl.
  destruct (addEvent_register fd e None true (f, EXEC) q m) as [[rt m1]|] eqn:Ea; res_simpl; [|done].
  assert (grown m m1) as Hgr by (apply addEvent_register_frame in Ea as [= _ E]; by apply grown_eq).
  rewrite <- (addEvent_at fd e None true (f, EXEC) q m) in Ea by (by eapply Hat).
  destruct (addEvent_effect fd e None f m rt m1 Hg (awaits_event _ _ _ Haw) (fun _ => eq_refl) Ea) as (Hqt & Hg1 & Hr).
  destruct Hr as [[-> Hc]|[-> He1]]; cbn [Z.eqb negb]; intros [= <- <-].
  - eapply advances_calm; [done|by destruct fr|done|done| |done|by apply found_trivially].
    intros l Hl. by apply Hqt, Hq.
  - apply (advances_effect f m (Yields fr)); [|done|by intros m' [= <-]]. exists m1. split; [done|]. rewrite Haw.
    split; [|done]. intros l Hl. by apply Hqt, Hq.
Qed.

Lemma after_io_advances c n h o h' : iom h = Some m -> after_io c n h = Ok (o, h') ->
  iom h' = Some m /\ exists r, o = Returned r.
Proof.
  intros Hm. unfold after_io. destruct (c_name c); try (intros [= <- <-]; by eauto).
  destruct (0 <=? s32 n); [|intros [= <- <-]; by eauto].
  destruct (hk_get (s32 n) true h) as [[q h1]|] eqn:Eg; res_simpl; [|done]. apply hk_get_iom in Eg.
  intros [= <- <-]. split; [congruence|eauto].
Qed.

Lemma look_advances fr h p' h' : iom h = Some m -> look fr h = Ok (p', h') -> advances f m p' h'.
Proof.
  intros Hm. destruct fr as [c to tinfo timer|fd tinfo timer|]; simpl.
  3: intros [= <- <-]; by apply (same_advances _ h).
  all: destruct (infos h !! tinfo) as [can|]; cbn [deref]; res_simpl; [|done];
    destruct (negb (can =? 0)); intros [= <- <-]; by apply (same_advances _ h).
Qed.

Lemma piece_advances p h p' h' :
  iom h = Some m -> m_heap (io_timers m) !! addr = None -> view p = Running ->
  (forall l, timer_of p = Some l -> quiet_timer m l) -> found m p -> resize_spares p h ->
  piece f now addr epoll_errno p h = Ok (p', h') -> advances f m p' h'.
Proof.
  intros Hm Ha Hv Hq Hfo Hsp. destruct p; cbn [timer_of] in Hq; unfold piece; try done.
  - intros [= <- <-]. by apply (same_advances _ h).
  - by apply enter_advances.
  - by apply try_advances.
  - by apply (arm_advances _ _ _ _ (fun timer => Register (InDoIo c to tinfo timer))).
  - destruct (after_io c n h) as [[o h1]|] eqn:Eo; res_simpl; [|done]. intros [= <- <-].
    destruct (after_io_advances _ _ _ _ _ Hm Eo) as [Hm1 [r ->]]. apply (same_advances _ h); [done|congruence|done..].
  - by apply conn_enter_advances.
  - by apply conn_try_advances.
  - by apply (arm_advances _ _ _ _ (fun timer => Register (InConnect fd tinfo timer))).
  - pose proof (connect_result_iom fd h) as Hc. destruct (connect_result fd h) as [n h1]. intros [= <- <-].
    by apply (same_advances _ h).
  - destruct (sleep_for f now addr ms args h) as [[o h1]|] eqn:Es; res_simpl; [|done]. intros [= <- <-].
    assert (effect f m o h1) as He by (by eapply sleep_for_effect).
    pose proof (advances_effect f m o h1 He Hf) as Had.
    destruct o; apply Had; intros m' Hm'; eapply grown_eq, sleep_for_vector; eauto.
  - by apply register_advances.
  - by apply resize_advances.
  - by apply add_advances.
  - destruct fr as [c to tinfo timer|fd tinfo timer|]; cbn [unarm frame_timer] in *.
    + destruct (with_iom _ h) as [[p1 h1]|] eqn:E; res_simpl; [|done]. intros [= <- <-].
      by apply (cancel_advances timer (Return_ c (-1)) h p1 h1) in E.
    + by apply cancel_advances.
    + intros [= <- <-]. by apply advances_same; [..|apply found_trivially].
  - destruct fr as [c to tinfo timer|fd tinfo timer|].
    3: intros [= <- <-]; by apply (same_advances _ h).
    all: by apply cancel_advances.
  - by apply look_advances.
Qed.
End Advance.

(** ** Every turn preserves it *)

Lemma threads_evolve m m' h' s ex js :
  evolves m m' -> iom h' = Some m' -> (forall f, pc_ok m (inhand ex js f) f (s !! f)) ->
  threads_ok (Threads h' s ex js).
Proof.
  intros He Hm Hs. exists m'. split; [done|]. split; [apply He|]. intros f. by eapply pc_evolves.
Qed.

Lemma threads_move m m' h' s ex js ex' js' :
  good m' -> iom h' = Some m' -> (forall q, quiet_timer m q -> quiet_timer m' q) ->
  (forall fd e, abs m' fd e = abs m fd e) ->
  (forall f, (queued m' f + alarms m' f + inhand ex' js' f = queued m f + alarms m f + inhand ex js f)%nat /\
    (queued m f <= queued m' f)%nat) ->
  (forall f, pc_ok m (inhand ex js f) f (s !! f)) -> threads_ok (Threads h' s ex' js').
Proof.
  intros Hg Hm Hq Ha Hsum Hs. exists m'. split; [done|]. split; [done|]. intros f. destruct (Hsum f).
  by eapply pc_moves.
Qed.

(** A piece, from any place of the call. *)
Lemma piece_turn h s ex js m f p now addr epoll_errno p' h' :
  iom h = Some m -> good m -> (forall f, pc_ok m (inhand ex js f) f (s !! f)) -> s !! f = Some p ->
  m_heap (io_timers m) !! addr = None -> found m p -> resize_spares p h ->
  piece f now addr epoll_errno p h = Ok (p', h') ->
  threads_ok (Threads h' (<[f := p']> s) ex js).
Proof.
  intros Hm Hg Hs Hp Ha Hfo Hsp E. pose proof (Hs f) as Hf. rewrite Hp in Hf.
  assert (view p = Running \/ (h' = h /\ view p' = view p /\ asleep p' = asleep p /\ timer_of p' = None))
    as [Hv|(-> & Hv & Hsl & Ht)].
  { destruct p; try (by left); right; by injection E as <- <-. }
  - apply pc_running in Hf as (Hq & Hk & Hf); [|done].
    destruct (piece_advances f now addr epoll_errno m Hg Hf p h p' h' Hm Ha Hv Hq Hfo Hsp E) as (m' & Hm' & Hap & Hok & _).
    exists m'. split; [done|]. split; [apply Hap|]. cbn [th_fibers th_expired th_jobs].
    apply (pc_insert m m'); [done|by rewrite Hk|done].
  - exists m. split; [done|]. split; [done|]. cbn [th_fibers th_expired th_jobs].
    apply (pc_insert m m); [by apply calm_apart, calm_refl| |done]. destruct Hf as [_ Hf].
    split; [intros q l [= <-]; by rewrite Ht|]. cbn [from_option fmap option_fmap option_map] in *. by rewrite Hsl, Hv.
Qed.

(** A fiber is taken from the queue. *)
Lemma take_turn h s ex js m m' self it f p p' :
  iom h = Some m -> good m -> (forall f, pc_ok m (inhand ex js f) f (s !! f)) -> s !! f = Some p ->
  takes self (at_rest <$> s) it m m' -> ft_fiber it = Some f -> view p' = Running ->
  (forall l, timer_of p' = Some l -> quiet_timer m l \/ exists fr, view p = Blocked fr /\ frame_timer fr = Some l) ->
  threads_ok (Threads (set_iom m' h) (<[f := p']> s) ex js).
Proof.
  intros Hm Hg Hs Hp Ht Hit Hv Hl. destruct (takes_apart _ _ _ _ _ _ Ht Hit Hg) as (Hap & Hw & Hq & Ha).
  exists m'. split; [done|]. split; [apply Hap|]. cbn [th_fibers th_expired th_jobs].
  apply (pc_insert m m'); [done| |done]. pose proof (Hs f) as Hf. rewrite Hp in Hf. destruct Hf as [_ Hf].
  assert (nowhere m f /\ queued m f = 1%nat /\ alarms m f = 0%nat /\ inhand ex js f = 0%nat /\
    forall fr, view p = Blocked fr -> asleep p = false -> quiet_frame m fr) as (Hn & Hq1 & Ha0 & Hk & Hqf).
  { cbn [from_option] in Hf. destruct (asleep p) eqn:Es.
    - destruct Hf as [Hn Hsum]. split_and!; [done|lia|lia|lia|done].
    - destruct Hf as [Hk Hf]. cbn in Hf. destruct (view p) as [| |fr] eqn:Ev; simpl in Hf.
      + destruct Hf as (? & ? & ?). by split_and!.
      + destruct Hf as (_ & ? & _). lia.
      + destruct Hf as [Hqf Hf]. unfold blocked_ok in Hf. destruct (awaits fr) as [[fd e]|] eqn:Ew.
        * destruct Hf as [? [[_ ?]|[? ?]]]; [lia|]. split_and!; try done. by intros ? [= <-].
        * destruct fr; try done. by destruct p; simplify_eq/=. }
  apply pc_running; [done|]. split; [|split; [done|]].
  - intros l El. apply (ap_timers _ _ _ Hap). destruct (Hl l El) as [?|(fr & Ev & Ef)]; [done|].
    destruct (asleep p) eqn:Es; [|by apply (Hqf fr)].
    exfalso. destruct p; try done; destruct fr0; simplify_eq/=.
  - split; [intros fd e ?%Hw; by eapply Hn|lia].
Qed.

Lemma inhand_app ex1 ex2 js1 js2 f :
  inhand (ex1 ++ ex2) (js1 ++ js2) f = (inhand ex1 js1 f + inhand ex2 js2 f)%nat.
Proof. unfold inhand, handed. rewrite !sum_list_with_app. lia. Qed.

Lemma spawn_turn h s ex js m f : iom h = Some m -> good m -> s !! f = None ->
  (forall f, pc_ok m (inhand ex js f) f (s !! f)) ->
  threads_ok (Threads (set_iom (io_schedule (ToFiber (Some f)) (-1) m) h) (<[f := InQueue]> s) ex js).
Proof.
  intros Hm Hg Hf Hs. eexists. split; [done|]. cbn [th_fibers th_expired th_jobs].
  pose proof (Hs f) as Hn. rewrite Hf in Hn. destruct Hn as [_ [Hk (Hn & Hq & Ha)]].
  destruct (io_schedule_frame (ToFiber (Some f)) (-1) m) as [n ->]. set (m' := set_pipe n _).
  assert (m_fibers (io_sched m') = m_fibers (io_sched m) ++ [FT (Some f) None (-1)]) as Eq
    by exact (scheduleNoLock_fibers (ToFiber (Some f)) (-1) (io_sched m)).
  assert (forall g, queued m' g = queued m g + if decide (g = f) then 1 else 0)%nat as Hq'.
  { intros g. unfold queued. rewrite Eq, sum_list_with_app. f_equal. unfold runs_fiber. simpl.
    repeat case_decide; simplify_eq; done. }
  assert (forall g, alarms m' g = alarms m g) as Ha'.
  { intros g. unfold alarms. rewrite Eq, sum_list_with_app. change (io_timers m') with (io_timers m).
    unfold enters_fiber. simpl. lia. }
  assert (good m') as Hg' by (by apply (good_queue _ n)). split; [done|].
  apply (pc_insert m m'); [|split; [by intros p q [= <-]|split; [done|]]|done].
  - split; [done|done|done| |by intros]. intros g Hne. rewrite Hq', decide_False by done. lia.
  - split; [exact Hn|]. rewrite Hq', Ha', decide_True by done. lia.
Qed.

Lemma job_turn h s ex js1 j js2 js h' : run_job j h = Ok (js, h') ->
  threads_ok (Threads h s ex (js1 ++ j :: js2)) -> threads_ok (Threads h' s ex (js1 ++ js ++ js2)).
Proof.
  intros Hr (m & Hm & Hg & Hs). cbn [th_hooks th_fibers th_expired th_jobs] in *.
  assert (forall f l, inhand ex (js1 ++ l ++ js2) f
    = (sum_list_with (job_wakes f) l + (handed (wakes_fiber f) ex + sum_list_with (job_wakes f) (js1 ++ js2)))%nat) as Hin
    by (intros f l; unfold inhand; rewrite !sum_list_with_app; lia).
  assert (forall m' h', evolves m m' -> iom h' = Some m' ->
    (forall f, sum_list_with (job_wakes f) js = job_wakes f j) ->
    threads_ok (Threads h' s ex (js1 ++ js ++ js2))) as Hev.
  { intros m' h1 He Hm' Hj. eapply threads_evolve; [exact He|done|]. intros f.
    rewrite Hin, Hj. rewrite <- (Nat.add_0_r (job_wakes f j)). specialize (Hs f).
    change (j :: js2) with ([j] ++ js2) in Hs. rewrite Hin in Hs. exact Hs. }
  destruct j as [[v|tinfo fd e|g]|fd e]; simpl in Hr.
  - injection Hr as <- <-. by apply (Hev m); [apply evolves_refl| |].
  - destruct (infos h !! tinfo) as [can|]; [destruct (negb (can =? 0))|]; injection Hr as <- <-;
      (apply (Hev m); [by apply evolves_refl|done|done]).
  - rewrite Hm in Hr. cbn [deref] in Hr. res_simpl. injection Hr as <- <-.
    destruct (io_schedule_frame (ToFiber (Some g)) (-1) m) as [n E].
    eapply (threads_move m (io_schedule (ToFiber (Some g)) (-1) m)); [|done| | | |exact Hs]; rewrite E.
    + by apply (good_queue _ n).
    + done.
    + done.
    + intros f. change (Job (WakeFiber g) :: js2) with ([Job (WakeFiber g)] ++ js2). rewrite !Hin.
      unfold queued, alarms. simpl. rewrite !sum_list_with_app.
      unfold runs_fiber at 2, enters_fiber at 2, ft_new. simpl. repeat case_decide; simplify_eq; lia.
  - rewrite Hm in Hr. cbn [deref] in Hr. res_simpl.
    destruct (cancelEvent fd e m) as [[r m1]|] eqn:Ec; res_simpl; [|done]. injection Hr as <- <-.
    by apply (Hev m1); [eapply cancelEvent_evolves| |].
Qed.

(** Expired callbacks pass from the timers into a thread's hands, from there
    into the queue, and from the queue into a thread's hands again. *)
Lemma expire_turn h s ex js m now probe cbs t : iom h = Some m -> good m ->
  (forall f, pc_ok m (inhand ex js f) f (s !! f)) ->
  listExpired_locked now probe [] (io_timers m) = Ok (cbs, t) ->
  threads_ok (Threads (set_iom (set_timers t m) h) s (ex ++ cbs) js).
Proof.
  intros Hm Hg Hs E. pose proof (fun f => listExpired_locked_armed _ _ _ _ _ _ (go_one_shot _ Hg f) E) as Ht.
  eapply (threads_move m (set_timers t m)); [|done| |done| |exact Hs].
  - destruct Hg as [Hi _ Hw]. split; [by apply (inv_timers t (tickle_pipe m))|intros f; apply (Ht f)|exact Hw].
  - intros q Hq f. apply (Ht f), Hq.
  - intros f. pose proof (ho_armed _ _ _ _ (Ht f)). rewrite <- (app_nil_r js). rewrite inhand_app.
    rewrite app_nil_r. unfold inhand at 2. unfold queued, alarms. simpl. lia.
Qed.

Lemma schedule_turn h s ex1 cbs ex2 js m : iom h = Some m -> good m ->
  (forall f, pc_ok m (inhand (ex1 ++ cbs ++ ex2) js f) f (s !! f)) ->
  threads_ok (Threads (set_iom (io_schedule_range (map task_of cbs) m) h) s (ex1 ++ ex2) js).
Proof.
  intros Hm Hg Hs. destruct (io_schedule_range_frame (map task_of cbs) m) as [n E].
  eapply (threads_move m (io_schedule_range (map task_of cbs) m)); [|done| | | |exact Hs]; rewrite E.
  - by apply (good_queue _ n).
  - done.
  - done.
  - intros f. unfold queued, alarms, inhand, handed. simpl. rewrite !sum_list_with_app.
    destruct (callbacks_entries f cbs) as [-> ->]. unfold handed. lia.
Qed.

Lemma callback_turn h s ex js it m m' self k : iom h = Some m -> good m ->
  (forall f, pc_ok m (inhand ex js f) f (s !! f)) -> takes self (at_rest <$> s) it m m' ->
  ft_fiber it = None -> ft_cb it = Some (User k) ->
  threads_ok (Threads (set_iom m' h) s ex (js ++ [Job k])).
Proof.
  intros Hm Hg Hs Ht Hf Hc. destruct (takes_good _ _ _ _ _ Ht Hg) as (Hg' & Et & Ea & Hsum).
  eapply (threads_move m m'); [done|done| |done| |exact Hs].
  - intros q. unfold quiet_timer. by rewrite Et.
  - intros f. unfold queued, alarms, inhand. rewrite Et, (Hsum (runs_fiber f)), (Hsum (enters_fiber f)), sum_list_with_app.
    assert (runs_fiber f it = 0%nat) as -> by (unfold runs_fiber; by rewrite Hf).
    assert (enters_fiber f it = job_wakes f (Job k)) as -> by (unfold enters_fiber; by rewrite Hf, Hc).
    simpl. lia.
Qed.

Definition all_found (x : threads) : Prop :=
  forall f p m, th_fibers x !! f = Some p -> iom (th_hooks x) = Some m -> found m p.

Lemma turn_ok x y : turn x y -> all_found x -> threads_ok x -> threads_ok y.
Proof.
  intros Hturn Hfo Hx. destruct Hturn as [h s ex js f m Hm Hf|h s ex js f it m m' self Hm Hf Ht Hit
    |h s ex js f it m m' self fr Hm Hf Ht Hit|h s ex js f n p Hf Hp
    |h s ex js f p now addr ee p' h' Hf Hua Hsp E|h s ex js m now n t Hm E|h s ex js m now probe cbs t Hm E
    |h s ex1 cbs ex2 js m Hm|h s ex js m ev m' Hm Hev E|h s ex js it m m' self k Hm Ht Hit Hk
    |h s ex js1 j js2 js h' Hr|h s ex js m fd r m' Hm E|h s ex js m fd e r m' Hm E|h s ex js m size Hm Hsp
    |h s ex js m fd e v f q r m' Hm He Hat E|h s ex js m fd Hm Hfd Hab|h s ex js m now addr ms cb rec Hm Hua Hcb
    |h s ex js m q b t Hm Hq E|h s ex js h' Hi].
  11: by eapply job_turn.
  all: destruct Hx as (m0 & Hm0 & Hg & Hs); cbn [th_hooks th_fibers th_expired th_jobs] in *.
  all: try (rewrite Hm in Hm0; injection Hm0 as <-).
  - by apply spawn_turn.
  - eapply take_turn; [done|done|done|exact Hf|exact Ht|done|done|by intros l].
  - eapply take_turn; [done|done|done|exact Hf|exact Ht|done|done|]. intros l Hl. right. by exists fr.
  - exists m0. split; [done|]. split; [done|]. cbn [th_fibers th_expired th_jobs].
    apply (pc_insert m0 m0); [by apply calm_apart, calm_refl| |done]. specialize (Hs f). rewrite Hf in Hs.
    apply pc_running in Hs as (_ & Hk & Hs); [|done]. apply pc_running; [by destruct p|].
    split; [|done]. by destruct p.
  - by eapply piece_turn; [..|exact (Hua m0 Hm0)|exact (Hfo f p m0 Hf Hm0)|exact Hsp|exact E].
  - eapply threads_evolve; [apply calm_evolves, (calm_set_timers m t (tickle_pipe m)); [done|]|done|done].
    intros f. apply hands_out_heap; [by eapply getNextTimer_heap|apply Hg].
  - by eapply expire_turn.
  - by apply schedule_turn.
  - eapply threads_evolve; [by eapply handle_event_evolves; [..|exact E]|done|done].
  - by eapply callback_turn.
  - eapply threads_evolve; [|done|done]. eapply triggers_evolves; [done|]. by eapply cancelAll_triggers; [apply Hg|].
  - eapply threads_evolve; [|done|done]. by eapply cancelEvent_evolves.
  - eapply threads_evolve; [by apply calm_evolves, resize_calm|done|done].
  - rewrite <- (addEvent_at fd e _ true (f, EXEC) q m Hat) in E.
    destruct (addEvent_effect fd e (Some (User (Client v))) f m r m' Hg He (fun _ => eq_refl) E)
      as (_ & _ & [[_ Hc]|[_ Hc]]); eapply threads_evolve; [by apply calm_evolves|done|done|exact Hc|done|done].
  - eapply threads_evolve; [by apply calm_evolves, calm_closed|done|done].
  - destruct (add_timer_calm now addr ms cb rec m Hg (Hua m Hm) Hcb) as [Hc _].
    eapply threads_evolve; [by apply calm_evolves|done|done].
  - eapply threads_evolve; [apply calm_evolves, (calm_set_timers m t (tickle_pipe m)); [done|]|done|done].
    intros f. eapply cancel_armed; [apply Hq|apply Hg|exact E].
  - exists m0. split; [cbn; congruence|]. done.
Qed.

(** *** What is looked up stays *)

Lemma found_spread h h' (s s' : gmap fid (pc A)) ex js ex' js' m m' : all_found (Threads h s ex js) ->
  iom h = Some m -> iom h' = Some m' -> grown m m' ->
  (forall g p, s' !! g = Some p -> s !! g = Some p \/ found m' p) -> all_found (Threads h' s' ex' js').
Proof.
  intros Hfo Hm Hm' Hgr Hs g p m1 Hp Hm1. cbn [th_hooks th_fibers] in *. assert (m1 = m') as -> by congruence.
  destruct (Hs g p Hp) as [Hp'|?]; [|done]. eapply grown_found; [exact Hgr|]. by apply (Hfo g p m).
Qed.

Lemma found_insert (s : gmap fid (pc A)) m f p :
  found m p -> forall g p', <[f := p]> s !! g = Some p' -> s !! g = Some p' \/ found m p'.
Proof.
  intros Hp g p'. destruct (decide (g = f)) as [->|]; [rewrite lookup_insert_eq; intros [= <-]; by right|].
  rewrite lookup_insert_ne by done. by left.
Qed.

Lemma run_job_vector j js h h' m : iom h = Some m -> run_job j h = Ok (js, h') ->
  exists m', iom h' = Some m' /\ m_FdContexts m' = m_FdContexts m.
Proof.
  intros Hm. destruct j as [[v|tinfo fd e|g]|fd e]; simpl.
  - intros [= _ <-]. by exists m.
  - destruct (infos h !! tinfo) as [can|]; [destruct (negb (can =? 0))|]; intros [= _ <-]; by exists m.
  - rewrite Hm. cbn [deref]. res_simpl. intros [= _ <-]. eexists. split; [done|].
    by destruct (io_schedule_frame (ToFiber (Some g)) (-1) m) as [n ->].
  - rewrite Hm. cbn [deref]. res_simpl. destruct (cancelEvent fd e m) as [[r m1]|] eqn:Ec; res_simpl; [|done].
    intros [= _ <-]. eexists. split; [done|]. by apply cancelEvent_frame in Ec as [= _ ->].
Qed.

(** A piece grows the vector at most, and finds what is there. *)
Lemma piece_found h (s : gmap fid (pc A)) ex js m f p now addr epoll_errno p' h' :
  iom h = Some m -> good m -> (forall f, pc_ok m (inhand ex js f) f (s !! f)) -> s !! f = Some p ->
  m_heap (io_timers m) !! addr = None -> found m p -> resize_spares p h ->
  piece f now addr epoll_errno p h = Ok (p', h') ->
  exists m', iom h' = Some m' /\ grown m m' /\ found m' p'.
Proof.
  intros Hm Hg Hs Hp Ha Hfo Hsp E. specialize (Hs f). rewrite Hp in Hs.
  destruct (view p) eqn:Hv.
  2: { apply pc_running in Hs as (Hq & _ & Hf); [|done].
    destruct (piece_advances f now addr epoll_errno m Hg Hf p h p' h' Hm Ha Hv Hq Hfo Hsp E)
      as (m' & ? & _ & _ & ? & ?). by exists m'. }
  all: exists m; split_and!; [|by apply grown_eq|]; destruct p; try done; injection E as <- <-; (done || by apply found_trivially).
Qed.

Lemma turn_found x y : turn x y -> threads_ok x -> all_found x -> all_found y.
Proof.
  intros Hturn (m & Hm & Hg & Hs) Hfo.
  assert (forall p, not_found_yet p -> forall m, found m p) as Htriv by (intros; by apply found_trivially).
  destruct Hturn as [h s ex js f m1 Hm1 Hf|h s ex js f it m1 m' self Hm1 Hf Ht Hit
    |h s ex js f it m1 m' self fr Hm1 Hf Ht Hit|h s ex js f n p Hf Hp
    |h s ex js f p now addr ee p' h' Hf Hua Hsp E|h s ex js m1 now n t Hm1 E|h s ex js m1 now probe cbs t Hm1 E
    |h s ex1 cbs ex2 js m1 Hm1|h s ex js m1 ev m' Hm1 Hev E|h s ex js it m1 m' self k Hm1 Ht Hit Hk
    |h s ex js1 j js2 js h' Hr|h s ex js m1 fd r m' Hm1 E|h s ex js m1 fd e r m' Hm1 E|h s ex js m1 size Hm1 Hsp
    |h s ex js m1 fd e v f q r m' Hm1 He Hat E|h s ex js m1 fd Hm1 Hfd Hab|h s ex js m1 now addr ms cb rec Hm1 Hua Hcb
    |h s ex js m1 q b t Hm1 Hq E|h s ex js h' Hi]; cbn [th_hooks th_fibers th_expired th_jobs] in *.
  all: try (rewrite Hm in Hm1; injection Hm1 as <-).
  4: { eapply found_spread; [exact Hfo|done|done|by apply grown_eq|apply found_insert, Htriv; by destruct p]. }
  4: { destruct (piece_found _ _ _ _ _ _ _ _ _ _ _ _ Hm Hg Hs Hf (Hua m Hm) (Hfo f p m Hf Hm) Hsp E) as (m' & ? & ? & ?).
    eapply found_spread; [exact Hfo|done|done|done|by apply found_insert]. }
  9: { destruct (run_job_vector _ _ _ _ _ Hm Hr) as (m' & ? & ?).
    eapply found_spread; [exact Hfo|done|done|by apply grown_eq|by left]. }
  11: eapply found_spread; [exact Hfo|done|done|apply grown_resize; [apply Hg|done]|by left].
  15: eapply found_spread; [exact Hfo|done|by rewrite Hi|by apply grown_eq|by left].
  all: eapply found_spread; [exact Hfo|done|done|apply grown_eq|];
    [|first [by left|apply found_insert, Htriv; done]].
  all: try done; try (by destruct Ht as (? & ? & _ & ->)).
  - by destruct (io_schedule_frame (ToFiber (Some f)) (-1) m) as [n ->].
  - by destruct (io_schedule_range_frame (map task_of cbs) m) as [n ->].
  - by apply handle_event_frame in E as [= _ ->].
  - by apply cancelAll_frame in E as [= _ ->].
  - by apply cancelEvent_frame in E as [= _ ->].
  - by apply addEvent_register_frame in E as [= _ ->].
  - destruct (Timer.addTimer _ _ _ _ _ _) as [[|] t]; [|done].
    unfold onTimerInsertedAtfront, IOManager.tickle. by destruct (hasIdleThreads _).
Qed.

Lemma turns_ok x : turns x -> threads_ok x.
Proof.
  intros Ht. enough (threads_ok x /\ all_found x) as [? _] by done. induction Ht as [h m Hm Hi (Ha & Ht & Hq)|x y _ [IH Hfo] Hs].
  2: { split; [by eapply turn_ok|by eapply turn_found]. }
  split; [|by intros f p m' E]. exists m. split; [done|]. split.
  - split; [done| |].
    + intros f p q. by rewrite Ht.
    + intros fd e o f _ _ E. by rewrite Ha in E.
  - intros f. cbn [th_fibers]. rewrite lookup_empty. split; [done|]. split; [done|]. split_and!.
    + intros fd e (_ & _ & E). by rewrite Ha in E.
    + unfold queued. by rewrite Hq.
    + unfold alarms, armed. by rewrite Hq, Ht.
Qed.

(** ** Properties *)

(** C6.  The wake-ups stay exact when threads interleave inside the calls.  A
    piece makes one real call or touches the IO manager, its timers or its queue
    in one critical section: [addEvent] is its lookup, its resize and its
    registration, [YieldToHold] its write of HOLD and its switch, an expired
    callback passes from the timers to a thread's hands, to the queue and to a
    thread's hands.  At every point between two pieces a fiber that has left, or
    has registered and is about to leave, is either the only waiter of the event
    of its call and not in the queue, or nobody's waiter and in the queue once;
    a sleeper has exactly one alarm, among the timers, in a thread's hands or in
    the queue, or is in the queue, once; a fiber at any other place of a call
    neither waits nor is woken; no fiber is in the queue twice.  The histories
    are those without four races, each of which breaks the program: a resize
    that shrinks the vector because another thread has grown it in the meantime
    (IOManager.resize_race), a scheduler that takes a fiber between the HOLD of
    its [YieldToHold] and the HOLD of the loop that ran it
    (SchedulerMT.early_wakeup_races and [held_taken]), a set of timers emptied
    between the two sections of [listExpiredCb] (Timer.listExpiredCb_race), and
    a registration that comes between the [cancelAll] of [close] and its system
    call.  Clients add, cancel and close events and have timers of their own;
    they do not call [delEvent], which drops a waiter. *)
Theorem pieces_exact x : turns x ->
  exists m, iom (th_hooks x) = Some m /\ inv m /\
    let wakers f := (alarms m f + inhand (th_expired x) (th_jobs x) f)%nat in
    (forall f, (queued m f <= 1)%nat) /\
    forall f p, th_fibers x !! f = Some p ->
      match p with
      | InQueue => nowhere m f /\ queued m f = 1%nat /\ wakers f = 0%nat
      | Leave fr | Held fr | Away fr =>
          match awaits fr with
          | Some (fd, e) => wakers f = 0%nat /\
              ((only_at m f fd e /\ queued m f = 0%nat) \/ (nowhere m f /\ queued m f = 1%nat))
          | None => nowhere m f /\ (queued m f + wakers f = 1)%nat
          end
      | _ => nowhere m f /\ queued m f = 0%nat /\ wakers f = 0%nat
      end.
Proof.
  intros (m & Hm & Hg & Hs)%turns_ok. exists m. split; [done|]. split; [apply Hg|]. intros wakers. split.
  - intros f. destruct (Hs f) as [_ Hf]. destruct (from_option asleep false _); [lia|]. destruct Hf as [_ Hf].
    destruct (view <$> th_fibers x !! f) as [[| |fr]|]; simpl in Hf; [lia|lia| |lia].
    destruct Hf as [_ Hf]. unfold blocked_ok in Hf. destruct (awaits fr) as [[fd e]|]; lia.
  - intros f p Hp. specialize (Hs f). rewrite Hp in Hs. destruct Hs as [_ Hf]. subst wakers.
    cbn [from_option fmap option_fmap option_map] in Hf. cbv beta.
    destruct p as [| | | | | | | | | | | | | | |[]|[]|[]| |]; cbn in Hf |- *;
      destruct_and! Hf; split_and?; first [done|lia].
Qed.

(** C7.  The pieces are the code's calls: run without interruption they end
    where [io], [connect], the sleeps and the resumption of a blocked call end,
    with the same state, and a callback's pieces are the callback. *)
Theorem pieces_refine (cur : fid) (now : Z) (addr : loc) (epoll_errno : Z) :
  (forall fuel c h o h', io cur now addr epoll_errno fuel c h = Ok (Some (o, h')) ->
     leads cur now addr epoll_errno (Enter c) h (stop_of o) h') /\
  (forall fd args h o h', connect cur now addr fd args h = Ok (o, h') ->
     leads cur now addr epoll_errno (ConnEnter fd args) h (stop_of o) h') /\
  (forall ms args h o h', sleep_for cur now addr ms args h = Ok (o, h') ->
     leads cur now addr epoll_errno (SleepEnter ms args) h (stop_of o) h') /\
  (forall fuel fr h o h', resume_frame cur now addr epoll_errno fuel fr h = Ok (Some (o, h')) ->
     leads cur now addr epoll_errno (Back fr) h (stop_of o) h') /\
  (forall k h, whole_job k h = run_task k h).
Proof.
  split_and!.
  - intros. by eapply io_leads.
  - intros. by eapply connect_leads.
  - intros. by eapply sleep_leads.
  - intros. by eapply resume_leads.
  - intros [v|tinfo fd e|f] h; unfold whole_job; simpl; [done| |by destruct (iom h)].
    unfold on_timeout. destruct (infos h !! tinfo) as [can|]; [|done]. destruct (negb (can =? 0)); [done|].
    simpl. destruct (iom h) as [m|]; [|done]. simpl. by destruct (cancelEvent fd e m) as [[]|].
Qed.
End Calls.

(** ** Witnesses *)

(** Fiber 1 connects with a timeout of 20 ms; the timer fires before the fiber
    has registered its event. *)
Definition ex_begun : ex_hooks := set_iom ex_started ex_hook20.

Definition ex_next (addr : loc) (x : pc unit * ex_hooks) : pc unit * ex_hooks :=
  match piece 1%nat 0 addr 0 x.1 x.2 with Ok y => y | Err _ => x end.
Definition ex_work (j : job) (h : ex_hooks) : list (job (V:=unit)) * ex_hooks :=
  match run_job j h with Ok y => y | Err _ => ([], h) end.

(** The fiber's state alone, by the pieces it has run. *)
Definition ex_armed : pc unit * ex_hooks :=
  ex_next 9 (ex_next 9 (ex_next 9 (ConnEnter 7 tt, ex_begun))).
Definition ex_fired : list (option (Timer.callback (task unit) nat)) * Timer.manager (task unit) nat :=
  match listExpired_locked 100 77 [] (io_timers (ex_iom_of ex_armed.2)) with
  | Ok y => y
  | Err _ => ([], io_timers (ex_iom_of ex_armed.2))
  end.
Definition ex_expired : iomanager (task unit) (gmap Z epoll_event) nat :=
  set_timers ex_fired.2 (ex_iom_of ex_armed.2).
Definition ex_due : iomanager (task unit) (gmap Z epoll_event) nat :=
  io_schedule_range (map task_of ex_fired.1) ex_expired.
Definition ex_taken : iomanager (task unit) (gmap Z epoll_event) nat :=
  set_sched (set_fibers [] (io_sched ex_due)) ex_due.
Definition ex_marked : ex_hooks := (ex_work (Job (OnTimeout 0%nat 7 WRITE)) (set_iom ex_taken ex_armed.2)).2.
Definition ex_spared : ex_hooks := (ex_work (CancelWait 7 WRITE) ex_marked).2.
Definition ex_lost : pc unit * ex_hooks :=
  ex_next 10 (ex_next 10 (ex_next 10 (ex_next 10 (ex_armed.1, ex_spared)))).

(** A piece, the fiber's place overwritten. *)
Lemma ex_turn addr (x y : pc unit * ex_hooks) (s : gmap fid (pc unit)) ex js :
  turns (Threads x.2 (<[1%nat := x.1]> s) ex js) -> unallocated addr x.2 -> (forall fr, x.1 <> Resize fr) ->
  piece 1%nat 0 addr 0 x.1 x.2 = Ok y ->
  turns (Threads (ex_next addr x).2 (<[1%nat := (ex_next addr x).1]> s) ex js).
Proof.
  intros Ht Ha Hn Hp. unfold ex_next. rewrite Hp. eapply Ts_turn; [exact Ht|].
  rewrite <- (insert_insert_eq s 1%nat y.1 x.1).
  eapply Tu_piece; [by rewrite lookup_insert_eq|exact Ha| |rewrite Hp; by destruct y].
  intros fr fd e m E. by destruct (Hn fr).
Qed.

Lemma ex_unused addr (h : ex_hooks) : m_heap (io_timers (ex_iom_of h)) !! addr = None -> unallocated addr h.
Proof. unfold ex_iom_of. intros Ha m Hm. by rewrite Hm in Ha. Qed.

Lemma ex_begun_turns : turns (Threads (A:=unit) ex_begun (<[1%nat := InUser 0]> ∅) [] []).
Proof.
  rewrite <- (insert_insert_eq ∅ 1%nat _ InQueue). eapply Ts_turn; [eapply Ts_turn|].
  - by apply (Ts_start ex_hook20 ex_hiom eq_refl ex_hiom_inv), ex_idle.
  - by apply (Tu_spawn ex_hook20 ∅ [] [] 1%nat ex_hiom).
  - eapply (Tu_start (set_iom ex_spawned ex_hook20) _ _ _ 1%nat (FT (Some 1%nat) None (-1)) ex_spawned ex_started 0);
      [done|by rewrite lookup_insert_eq| |done].
    apply takes_only; [vm_compute; reflexivity|done|]. exists Ready. split; [by vm_compute|done].
Qed.

Lemma ex_armed_turns : turns (Threads ex_armed.2 (<[1%nat := ex_armed.1]> ∅) [] []).
Proof.
  unfold ex_armed. repeat (eapply ex_turn; [|apply ex_unused; vm_compute; reflexivity|intros fr; vm_compute; discriminate|vm_compute; reflexivity]).
  eapply Ts_turn; [exact ex_begun_turns|]. simpl.
  rewrite <- (insert_insert_eq ∅ 1%nat (ConnEnter 7 tt) (InUser 0)). by apply (Tu_call _ _ _ _ _ 0); [rewrite lookup_insert_eq|].
Qed.

Lemma ex_lost_turns :
  turns (Threads ex_lost.2 (<[1%nat := ex_lost.1]> ∅) [] []).
Proof.
  unfold ex_lost. repeat (eapply ex_turn; [|apply ex_unused; vm_compute; reflexivity|intros fr; vm_compute; discriminate|vm_compute; reflexivity]).
  cbn [fst snd]. eapply Ts_turn; [eapply Ts_turn; [eapply Ts_turn; [eapply Ts_turn; [eapply Ts_turn|]|]|]|].
  - exact ex_armed_turns.
  - eapply (Tu_expire _ _ _ _ (ex_iom_of ex_armed.2) 100 77 ex_fired.1 ex_fired.2); vm_compute; reflexivity.
  - apply (Tu_schedule _ _ [] ex_fired.1 [] [] ex_expired). vm_compute; reflexivity.
  - eapply (Tu_take _ _ _ _ (FT None (Some (User (OnTimeout 0%nat 7 WRITE))) (-1)) ex_due ex_taken 0
      (OnTimeout 0%nat 7 WRITE)); [vm_compute; reflexivity| |done|done].
    apply takes_only; [vm_compute; reflexivity|done|by eexists].
  - apply (Tu_job _ _ _ [] (Job (OnTimeout 0%nat 7 WRITE)) [] [CancelWait 7 WRITE] ex_marked).
    vm_compute; reflexivity.
  - apply (Tu_job _ _ _ [] (CancelWait 7 WRITE) [] [] ex_spared). vm_compute; reflexivity.
Qed.

(** What [pieces_exact] says of a fiber that waits. *)
Lemma ex_waits h m (s : gmap fid (pc unit)) f (fr : frame unit) fd e :
  turns (Threads (h : ex_hooks) s [] []) -> iom h = Some m -> s !! f = Some (Away fr) ->
  awaits fr = Some (fd, e) -> queued m f = 0%nat -> only_at m f fd e.
Proof.
  intros (m' & Hm' & _ & Hs)%turns_ok Hm Hf Hw Hq. cbn [th_hooks th_fibers] in *.
  assert (m' = m) as -> by congruence. specialize (Hs f). rewrite Hf in Hs. destruct Hs as [_ Hs].
  cbn [from_option fmap option_fmap option_map view] in Hs. destruct fr; try done; destruct Hs as [_ [_ Hs]];
    unfold blocked_ok in Hs; rewrite Hw in Hs; destruct Hs as [_ [[? _]|[_ ?]]]; (done || lia).
Qed.

(** A timeout is lost.  The timer is armed before the event is registered; when
    it fires between the two, the callback marks the [timer_info] and cancels an
    event nobody waits for.  Then the fiber registers and leaves: the state is
    [ETIMEDOUT], no timer is armed, nothing is in the queue or in a thread's
    hands, and the call waits without limit. *)
Example lost_timeout :
  exists (h : ex_hooks) m, turns (Threads h (<[1%nat := Away (InConnect 7 0%nat (Some 9)) : pc unit]> ∅) [] []) /\
    iom h = Some m /\ infos h !! 0%nat = Some ETIMEDOUT /\ only_at m 1%nat 7 WRITE /\
    m_timers (io_timers m) = [] /\ m_fibers (io_sched m) = [].
Proof.
  assert (ex_lost.1 = Away (InConnect 7 0%nat (Some 9))) as E by (vm_compute; reflexivity).
  assert (iom ex_lost.2 = Some (ex_iom_of ex_lost.2)) as Hm by (vm_compute; reflexivity).
  pose proof ex_lost_turns as Ht. rewrite E in Ht. exists ex_lost.2, (ex_iom_of ex_lost.2).
  split; [exact Ht|]. split; [exact Hm|]. split; [vm_compute; reflexivity|].
  split; [|split; vm_compute; reflexivity].
  eapply ex_waits; [exact Ht|exact Hm|apply lookup_insert_eq|reflexivity|vm_compute; reflexivity].
Qed.

(** A fiber that has written HOLD and still runs: its event is cancelled, and
    every thread of the scheduler may take it. *)
Definition ex_held : pc unit * ex_hooks := ex_next 10 (ex_next 10 (ex_next 10 ex_armed)).
Definition ex_woken : iomanager (task unit) (gmap Z epoll_event) nat :=
  match cancelEvent 7 WRITE (ex_iom_of ex_held.2) with Ok (_, m) => m | Err _ => ex_iom_of ex_held.2 end.

Example held_taken :
  exists (h : ex_hooks) m m', let s := <[1%nat := Held (InConnect 7 0%nat (Some 9)) : pc unit]> ∅ in
    turns (Threads h s [] []) /\ iom h = Some m /\
    takes 5 (at_rest <$> s) (FT (Some 1%nat) None (-1)) m m'.
Proof.
  exists (set_iom ex_woken ex_held.2), ex_woken, (set_sched (set_fibers [] (io_sched ex_woken)) ex_woken).
  assert (ex_held.1 = Held (InConnect 7 0%nat (Some 9))) as E by (vm_compute; reflexivity).
  split; [|split; [done|]].
  - eapply Ts_turn; [|eapply (Tu_cancel_event _ _ [] [] (ex_iom_of ex_held.2) 7 WRITE true); vm_compute; reflexivity].
    rewrite <- E. unfold ex_held.
    do 3 (eapply ex_turn; [|apply ex_unused; vm_compute; reflexivity|intros fr; vm_compute; discriminate|vm_compute; reflexivity]).
    exact ex_armed_turns.
  - apply takes_only; [vm_compute; reflexivity|done|]. by exists (Blocked (InConnect 7 0%nat (Some 9))).
Qed.

Lemma pieces_exact_witness :
  exists m, iom ex_armed.2 = Some m /\ nowhere m 1%nat /\ queued m 1%nat = 0%nat.
Proof.
  destruct (pieces_exact _ ex_armed_turns) as (m & Hm & _ & _ & Hs). exists m.
  destruct (Hs 1%nat ex_armed.1 (lookup_insert_eq _ _ _)) as (Hn & Hq & _). by split_and!.
Defined.

Lemma pieces_refine_witness :
  leads 1%nat 0 9 0 (Enter ex_read) (set_iom ex_started ex_hook) (Leave ex_frame) ex_reading.
Proof.
  destruct (pieces_refine 1%nat 0 9 0 (V:=unit) (K:=gmap Z epoll_event) (Q:=gmap Z Z) (A:=unit)) as [H _].
  apply (H 0%nat ex_read (set_iom ex_started ex_hook) (Yields ex_frame) ex_reading). vm_compute. reflexivity.
Defined.
