(* ===== verification/Startup.v ===== *)
(** * The library's own configuration variables, from start to loaded documents

    What the static initialisers of log.cc, hook.cc and fiber.cc build - the
    variables "logs", "tcp.connect.timeout" and "fiber.stack_size" with their
    listeners, and the loggers "root" and "system" - and what
    Config::LoadFromYaml then does to the loggers and the hooks; the casts of
    the two numbers are boost's.  And the pointers to the real calls, which the
    wrappers of hook.cc go through. *)

From stdpp Require Import functions.
From S2P Require Import Prelude StdSet Text LogFormat Logger Yaml Config LogConfig Timer IOManager FdManager Hook.

(** ** The pointers to the real calls *)

(** [HOOK_FUN]. *)
Inductive hooked : Type :=
| H_sleep | H_usleep | H_nanosleep | H_socket | H_connect | H_accept | H_read | H_readv | H_recv | H_recvfrom
| H_recvmsg | H_write | H_writev | H_send | H_sendto | H_sendmsg | H_close | H_fcntl | H_ioctl | H_getsockopt
| H_setsockopt.
#[export] Instance hooked_eq_dec : EqDecision hooked.
Proof. solve_decision. Defined.

Definition HOOK_FUN : list hooked :=
  [H_sleep; H_usleep; H_nanosleep; H_socket; H_connect; H_accept; H_read; H_readv; H_recv; H_recvfrom; H_recvmsg;
   H_write; H_writev; H_send; H_sendto; H_sendmsg; H_close; H_fcntl; H_ioctl; H_getsockopt; H_setsockopt].

Section Pointers.
(** What [dlsym(RTLD_NEXT, name)] finds. *)
Context {A : Type} (dlsym : hooked -> option A).

(** [name_f], null before the initialisers run. *)
Definition pointers : Type := hooked -> option A.
Definition null_pointers : pointers := fun _ => None.

(** [hook_init] with its static flag. *)
Definition hook_init (is_inited : bool) (f : pointers) : bool * pointers :=
  if is_inited then (is_inited, f)
  else (is_inited, foldl (fun f name => <[name := dlsym name]> f) f HOOK_FUN).

(** A call through [name_f]. *)
Definition real_call (name : hooked) (f : pointers) : res A := deref (f name) "name_f".

Lemma foldl_dlsym (l : list hooked) name : forall f : pointers,
  foldl (fun f name => <[name := dlsym name]> f) f l name = if decide (name ∈ l) then dlsym name else f name.
Proof.
  induction l as [|n l IH]; intros f; [done|]. cbn [foldl]. rewrite IH.
  destruct (decide (name ∈ l)) as [Hl|Hl]; [by rewrite decide_True by (by right)|].
  destruct (decide (name = n)) as [->|Hne].
  - rewrite decide_True by (by left). apply fn_lookup_insert.
  - rewrite decide_False by (by intros [?|?]%elem_of_cons). by apply fn_lookup_insert_ne.
Qed.

(** The list misses none of the calls: [hook_init] sets every pointer to what
    the next library has, whatever it was, and calling it again changes nothing
    (the flag that should prevent it is never set); before it, a hooked call that
    is not to be hooked calls a null pointer. *)
Theorem hooks_resolved name f :
  let '(b, f') := hook_init false f in
  b = false /\ f' name = dlsym name /\ (forall a, dlsym name = Some a -> real_call name f' = Ok a) /\
  (forall n, (hook_init b f').2 n = f' n) /\
  real_call name null_pointers = Err (FUB "name_f").
Proof.
  assert (forall n, n ∈ HOOK_FUN) as Hall by (intros []; unfold HOOK_FUN; rewrite !elem_of_cons; tauto).
  unfold hook_init, real_call.
  assert (forall n (g : pointers), foldl (fun f name => <[name := dlsym name]> f) g HOOK_FUN n = dlsym n) as Hset
    by (intros n g; rewrite foldl_dlsym; by rewrite decide_True).
  split_and!; [done|apply Hset| |intros n; cbn [snd]; by rewrite !Hset|done].
  intros a Ha. by rewrite Hset, Ha.
Qed.
End Pointers.

(** ** The variables *)

(** The types of the variables. *)
Inductive var_type : Type := LogDefines | Int | Uint32.
#[export] Instance var_type_eq_dec : EqDecision var_type.
Proof. solve_decision. Defined.

Definition interp (t : var_type) : Type :=
  match t with LogDefines => defines | Int | Uint32 => Z end.
#[export] Instance interp_eq_dec t : EqDecision (interp t).
Proof. destruct t; simpl; apply _. Defined.

(** What the listeners see: the loggers, the state of the hooks, and [time(0)]. *)
Record library (V K Q : Type) : Type := Lib {
  lib_logs : res logs;
  lib_hooks : hooks V K Q;
  lib_now : Z }.
Arguments Lib {V K Q}.
Arguments lib_logs {V K Q}.
Arguments lib_hooks {V K Q}.
Arguments lib_now {V K Q}.

Section Library.
Context {V K Q : Type} `{Yaml} (strftime : text -> Z -> text) (can_open : text -> bool).
(** [boost::lexical_cast] between texts and [int], [uint32_t]. *)
Context (int_cast uint_cast : LexicalCast Z).
(** Where the two messages stand. *)
Context (logs_place timeout_place : place).
Abbreviation lib := (library V K Q).
Abbreviation cfg := (Config (ty := var_type) (interp := interp) (E := lib)).
Abbreviation any := (any_var (interp := interp) (E := lib)).
Abbreviation var t := (ConfigVar lib (interp t)).









(** ** The state after the start *)








(** ** The loggers are as the variable says *)






(** ** Loading documents *)














End Library.

(** ** Witness *)


